(** * PlutoTools: grid interpolation, ion-fraction table and streamline loop

    A shallow embedding of the numerical core of PlutoTools
    ([PlutoTools/Tools.py]) and of its predecessor [simulationData.py].

    Conventions of the embedding.
    - A Python/numpy float is an exact rational ([Q]); rounding, infinities
      and signed zeros are outside the model.  Where a value that is not a
      number can arise (cells of a resampled grid, the weights and the
      result of a table lookup) the value type is [float], a rational or
      [NaN].
    - A Python call that may raise returns a [result]; the exception kinds
      are those the interpreter or the library would raise.
    - numpy arrays are lists (1-D), lists of rows (2-D) and lists of planes
      (3-D); Python integers are [Z], and indexing follows Python (negative
      indices count from the end, anything else out of range raises).
    - The transcendental library functions ([np.log10], [np.sin], [np.cos],
      [np.sqrt]), the scattered-data interpolant [scipy.interpolate.griddata]
      and the ODE stepper [scipy.integrate.ode] are parameters of the
      definitions that call them. *)

From Stdlib Require Import QArith Qround Qminmax ZArith Ascii String List Sorted Bool Lia Lqa.
Import ListNotations.

(** ** Exceptions and results *)

(** The [ValueError]s of the model, told apart by what raised them. *)
Inductive value_error : Type :=
| BelowInterpolationRange   (* interp1d: a value in x_new is below the range *)
| AboveInterpolationRange   (* interp1d: a value in x_new is above the range *)
| LengthMismatch            (* interp1d: x and y differ in length *)
| TooFewEntries             (* interp1d: fewer than two knots *)
| CannotBroadcast           (* operands could not be broadcast together *)
| NegativeSamples.          (* linspace: number of samples must be non-negative *)

Inductive exn : Type :=
| IndexError
| KeyError
| OverflowError
| ZeroDivisionError
| ValueError (why : value_error).

Inductive result (A : Type) : Type :=
| Ok (a : A)
| Raise (e : exn).

Arguments Ok {A} a.
Arguments Raise {A} e.

Definition bind {A B : Type} (c : result A) (k : A -> result B) : result B :=
  match c with
  | Ok a => k a
  | Raise e => Raise e
  end.

Declare Scope py_scope.
Delimit Scope py_scope with py.
Notation "x <- c ;; k" := (bind c (fun x => k))
  (at level 61, c at next level, right associativity) : py_scope.
Notation "' pat <- c ;; k" := (bind c (fun x => match x with pat => k end))
  (at level 61, pat pattern, c at next level, right associativity) : py_scope.
Open Scope py_scope.

(** ** Numbers *)

Open Scope Q_scope.

Definition Qleb (a b : Q) : bool := Qle_bool a b.
Definition Qltb (a b : Q) : bool := negb (Qle_bool b a).
Definition Qeqb (a b : Q) : bool := Qeq_bool a b.

(** A float that may be not-a-number. *)
Inductive float : Type :=
| Fin (q : Q)
| NaN.

Definition is_nan (v : float) : bool :=
  match v with NaN => true | Fin _ => false end.

(** IEEE arithmetic on [float]: not-a-number is absorbing. *)
Definition fadd (a b : float) : float :=
  match a, b with Fin x, Fin y => Fin (x + y) | _, _ => NaN end.
Definition fmul (a b : float) : float :=
  match a, b with Fin x, Fin y => Fin (x * y) | _, _ => NaN end.
Definition fsub (a b : float) : float :=
  match a, b with Fin x, Fin y => Fin (x - y) | _, _ => NaN end.

(** [a / b] on numpy scalars.  A zero divisor raises nothing: numpy warns
    and gives an infinity or not-a-number.  That value is recorded as
    [NaN]; in the differences, products and sums it enters afterwards an
    infinity is absorbing as not-a-number is (the result is never a
    number again). *)
Definition np_true_divide (a b : Q) : float :=
  if Qeqb b 0 then NaN else Fin (a / b).

(** [a > b] on floats: every comparison with not-a-number is false. *)
Definition fgtb (a : float) (b : Q) : bool :=
  match a with Fin x => Qltb b x | NaN => false end.

(** Equality of floats up to the representation of the rational. *)
Definition feq (a b : float) : Prop :=
  match a, b with
  | Fin x, Fin y => x == y
  | NaN, NaN => True
  | _, _ => False
  end.

(** ** Sequences indexed the Python way *)

Definition len {A : Type} (a : list A) : Z := Z.of_nat (length a).

(** [a[i]]: a negative index counts from the end. *)
Definition getitem {A : Type} (a : list A) (i : Z) : result A :=
  let j := if (i <? 0)%Z then (i + len a)%Z else i in
  if (j <? 0)%Z then Raise IndexError
  else match nth_error a (Z.to_nat j) with
       | Some v => Ok v
       | None => Raise IndexError
       end.

Fixpoint set_nth {A : Type} (a : list A) (n : nat) (v : A) : option (list A) :=
  match a, n with
  | [], _ => None
  | _ :: a', O => Some (v :: a')
  | x :: a', S n' =>
      match set_nth a' n' v with
      | Some r => Some (x :: r)
      | None => None
      end
  end.

(** [a[i] = v] for a non-negative index (the only kind the code stores at). *)
Definition setitem {A : Type} (a : list A) (i : nat) (v : A) : result (list A) :=
  match set_nth a i v with
  | Some r => Ok r
  | None => Raise IndexError
  end.

(** [np.where(arr == v)[0][0]]: the first position holding [v]. *)
Fixpoint where_first (arr : list Q) (v : Q) : result nat :=
  match arr with
  | [] => Raise IndexError
  | y :: arr' =>
      if Qeqb y v then Ok O
      else (i <- where_first arr' v ;; Ok (S i))
  end.

(** [sorted(list(set(xs)))]: one representative of every value, ascending. *)
Fixpoint insert_sorted (x : Q) (l : list Q) : list Q :=
  match l with
  | [] => [x]
  | y :: l' =>
      if Qeqb x y then l
      else if Qleb x y then x :: l
      else y :: insert_sorted x l'
  end.

Definition sorted_set (xs : list Q) : list Q := fold_right insert_sorted [] xs.

(** ** [Tools.py]: the ion-fraction table *)

Record IonFraction : Type := mkIonFraction {
  t : Q;
  zeta : Q;
  nn : Q;
  xe : Q
}.

Record IonFractionCollection : Type := mkCollection {
  data : list (list (list Q));
  n_temp : Z;
  n_zeta : Z;
  n_nn : Z;
  d_temp : Q;
  d_zeta : Q;
  d_nn : Q;
  start_temp : Q;
  end_temp : Q;
  start_zeta : Q;
  end_zeta : Q;
  start_nn : Q;
  end_nn : Q;
  temp_array : list Q;
  zeta_array : list Q;
  nn_array : list Q
}.

(** [np.zeros([a, b, c])]. *)
Definition zeros3 (a b c : nat) : list (list (list Q)) :=
  repeat (repeat (repeat 0 c) b) a.

(** [cube[i][j][k]] and [cube[i][j][k] = v]. *)
Definition getitem3 (cube : list (list (list Q))) (i j k : Z) : result Q :=
  plane <- getitem cube i ;;
  row <- getitem plane j ;;
  getitem row k.

Definition setitem3 (cube : list (list (list Q))) (i j k : nat) (v : Q)
  : result (list (list (list Q))) :=
  plane <- getitem cube (Z.of_nat i) ;;
  row <- getitem plane (Z.of_nat j) ;;
  row' <- setitem row k v ;;
  plane' <- setitem plane j row' ;;
  setitem cube i plane'.

Section IonTable.

(** [np.log10]. *)
Variable log10 : Q -> Q.

(** The scatter loop of [loadIonData]: every sample is stored at the
    position of its coordinates in the three sorted axes. *)
Fixpoint scatter (temps zetas nns : list Q) (elements : list IonFraction)
         (cube : list (list (list Q))) : result (list (list (list Q))) :=
  match elements with
  | [] => Ok cube
  | element :: rest =>
      i_t <- where_first temps (t element) ;;
      i_zeta <- where_first zetas (zeta element) ;;
      i_nn <- where_first nns (nn element) ;;
      cube' <- setitem3 cube i_t i_zeta i_nn (xe element) ;;
      scatter temps zetas nns rest cube'
  end.

(** [IonFractionCollection.loadIonData], on the unpickled sample list. *)
Definition loadIonData (loadedData : list IonFraction)
  : result IonFractionCollection :=
  let temps := sorted_set (map t loadedData) in
  let zetas := sorted_set (map zeta loadedData) in
  let nns := sorted_set (map nn loadedData) in
  cube <- scatter temps zetas nns loadedData (zeros3 20 20 20) ;;
  let temps := map log10 temps in
  let zetas := map log10 zetas in
  let nns := map log10 nns in
  t1 <- getitem temps 1 ;; t0 <- getitem temps 0 ;;
  z1 <- getitem zetas 1 ;; z0 <- getitem zetas 0 ;;
  n1 <- getitem nns 1 ;; n0 <- getitem nns 0 ;;
  tN <- getitem temps (-1) ;;
  zN <- getitem zetas (-1) ;;
  nN <- getitem nns (-1) ;;
  Ok {| data := cube;
        n_temp := len temps; n_zeta := len zetas; n_nn := len nns;
        d_temp := t1 - t0; d_zeta := z1 - z0; d_nn := n1 - n0;
        start_temp := t0; end_temp := tN;
        start_zeta := z0; end_zeta := zN;
        start_nn := n0; end_nn := nN;
        temp_array := temps; zeta_array := zetas; nn_array := nns |}.

(** [int(np.floor(x / d))] and [int(np.ceil(x / d))]: with a zero spacing
    the quotient of a positive [x] is infinite and [int] raises. *)
Definition floor_ceil_index (x d : Q) : result (Z * Z) :=
  if Qeqb d 0 then Raise OverflowError
  else
    let index := x / d in
    Ok (Qfloor index, Qceiling index).

Definition getIndicesForTempValue (c : IonFractionCollection) (x : Q)
  : result (Z * Z) :=
  let x := x - start_temp c in
  if Qleb x 0 then Ok (0, 0)%Z
  else if Qleb (end_temp c - start_temp c) x
       then Ok (n_temp c - 1, n_temp c - 1)%Z
       else floor_ceil_index x (d_temp c).

Definition getIndicesForZetaValue (c : IonFractionCollection) (x : Q)
  : result (Z * Z) :=
  let x := x - start_zeta c in
  if Qleb x 0 then Ok (0, 0)%Z
  else if Qleb (end_zeta c - start_zeta c) x
       then Ok (n_zeta c - 1, n_zeta c - 1)%Z
       else floor_ceil_index x (d_zeta c).

Definition getIndicesForNnValue (c : IonFractionCollection) (x : Q)
  : result (Z * Z) :=
  let x := x - start_nn c in
  if Qleb x 0 then Ok (0, 0)%Z
  else if Qleb (end_nn c - start_nn c) x
       then Ok (n_nn c - 1, n_nn c - 1)%Z
       else floor_ceil_index x (d_nn c).

(** The scaled difference coordinate of one axis, with its boundary case:
    [x_d = (x - x0) / (x1 - x0)], then [if x0 == x1: x_d = 0.0].  The
    operands are numpy scalars, so a zero divisor gives a non-finite value
    (and a warning), never an exception; the boundary case overwrites it. *)
Definition scaled_difference (x x0 x1 : Q) : float :=
  let x_d := np_true_divide (x - x0) (x1 - x0) in
  if Qeqb x0 x1 then Fin 0 else x_d.

(** The locals of [interpolateIonFraction] when it starts to blend: the
    bracket positions, the scaled difference coordinates and the values of
    [xe] on the cube around the interpolation point. *)
Record Lattice : Type := mkLattice {
  xl : Z; xr : Z;
  yl : Z; yr : Z;
  zl : Z; zr : Z;
  x_d : float; y_d : float; z_d : float;
  c000 : Q; c001 : Q; c010 : Q; c011 : Q;
  c100 : Q; c101 : Q; c110 : Q; c111 : Q
}.

(** [interpolateIonFraction] up to the cube values (lines 128-169).  The
    queries are numbers with a finite logarithm, that is positive numbers:
    for a negative query [np.log10] gives not-a-number and for 0 minus
    infinity, which the rational [log10] does not have. *)
Definition lattice (c : IonFractionCollection) (temp zeta nn : Q)
  : result Lattice :=
  let x := log10 temp in
  let y := log10 zeta in
  let z := log10 nn in
  '(xl, xr) <- getIndicesForTempValue c x ;;
  '(yl, yr) <- getIndicesForZetaValue c y ;;
  '(zl, zr) <- getIndicesForNnValue c z ;;
  x0 <- getitem (temp_array c) xl ;;
  x1 <- getitem (temp_array c) xr ;;
  y0 <- getitem (zeta_array c) yl ;;
  y1 <- getitem (zeta_array c) yr ;;
  z0 <- getitem (nn_array c) zl ;;
  z1 <- getitem (nn_array c) zr ;;
  let x_d := scaled_difference x x0 x1 in
  let y_d := scaled_difference y y0 y1 in
  let z_d := scaled_difference z z0 z1 in
  c000 <- getitem3 (data c) xl yl zl ;;
  c001 <- getitem3 (data c) xl yl zr ;;
  c010 <- getitem3 (data c) xl yr zl ;;
  c011 <- getitem3 (data c) xl yr zr ;;
  c100 <- getitem3 (data c) xr yl zl ;;
  c101 <- getitem3 (data c) xr yl zr ;;
  c110 <- getitem3 (data c) xr yr zl ;;
  c111 <- getitem3 (data c) xr yr zr ;;
  Ok (mkLattice xl xr yl yr zl zr x_d y_d z_d
                c000 c001 c010 c011 c100 c101 c110 c111).

(** [a * (1.0 - w) + b * w], the form of each of the seven reductions. *)
Definition mix (a b w : float) : float :=
  fadd (fmul a (fsub (Fin 1) w)) (fmul b w).

(** The reductions (lines 171-182), in the code's order: along the
    temperature axis, then the zeta axis, then the density axis. *)
Definition trilinear (k : Lattice) : float :=
  let c00 := mix (Fin (c000 k)) (Fin (c100 k)) (x_d k) in
  let c01 := mix (Fin (c001 k)) (Fin (c101 k)) (x_d k) in
  let c10 := mix (Fin (c010 k)) (Fin (c110 k)) (x_d k) in
  let c11 := mix (Fin (c011 k)) (Fin (c111 k)) (x_d k) in
  let c0 := mix c00 c10 (y_d k) in
  let c1 := mix c01 c11 (y_d k) in
  mix c0 c1 (z_d k).

Definition interpolateIonFraction (c : IonFractionCollection)
           (temp zeta nn : Q) : result float :=
  k <- lattice c temp zeta nn ;;
  Ok (trilinear k).

End IonTable.


(** ** numpy and scipy, as far as the code calls them

    The definitions of this part follow the documented behaviour of the
    library functions for the arguments the code passes. *)

(** A 2-D array of finite values, by rows, and one that may hold
    not-a-number (the value array of a uniform grid). *)
Definition ndarray : Type := list (list Q).
Definition fgrid : Type := list (list float).

(** [a.shape] for a rectangular 2-D array (an array without rows counts as
    0 x 0). *)
Definition shape {A : Type} (a : list (list A)) : nat * nat :=
  (length a, length (hd [] a)).

Fixpoint map2 {A B C : Type} (f : A -> B -> C) (a : list A) (b : list B) : list C :=
  match a, b with
  | x :: a', y :: b' => f x y :: map2 f a' b'
  | _, _ => []
  end.

(** An elementwise unary function. *)
Definition np_map (f : Q -> Q) (a : ndarray) : ndarray := map (map f) a.

(** numpy broadcasting of two 2-D operands: along each axis the lengths
    must agree or one of them must be 1, which is then repeated. *)
Definition broadcast_dim (n m : nat) : result nat :=
  if (n =? m)%nat then Ok n
  else if (n =? 1)%nat then Ok m
  else if (m =? 1)%nat then Ok n
  else Raise (ValueError CannotBroadcast).

Definition stretch {A : Type} (l : list A) (n : nat) : list A :=
  match l with
  | [x] => repeat x n
  | _ => l
  end.

Definition np_binop (op : Q -> Q -> Q) (a b : ndarray) : result ndarray :=
  r <- broadcast_dim (fst (shape a)) (fst (shape b)) ;;
  c <- broadcast_dim (snd (shape a)) (snd (shape b)) ;;
  let a' := stretch (map (fun row => stretch row c) a) r in
  let b' := stretch (map (fun row => stretch row c) b) r in
  Ok (map2 (map2 op) a' b').

Definition np_mul : ndarray -> ndarray -> result ndarray := np_binop Qmult.
Definition np_add : ndarray -> ndarray -> result ndarray := np_binop Qplus.
Definition np_sub : ndarray -> ndarray -> result ndarray := np_binop Qminus.

(** [np.transpose(np.tile(v, (n, 1)))]: row [i] repeats [v[i]] [n] times. *)
Definition tile_transpose (v : list Q) (n : nat) : ndarray :=
  map (fun e => repeat e n) v.

(** [np.meshgrid(xs, ys)]: both of shape [(len ys, len xs)]. *)
Definition meshgrid (xs ys : list Q) : ndarray * ndarray :=
  (map (fun _ => xs) ys, map (fun y => map (fun _ => y) xs) ys).

(** [np.ravel] of a 2-D array (row-major). *)
Definition ravel {A : Type} (a : list (list A)) : list A := concat a.

(** [np.column_stack((x, y))] of two 1-D arrays: the list of points. *)
Definition column_stack (x y : list Q) : list (Q * Q) := combine x y.

(** [np.linspace(start, stop, num)]; a negative [num] raises. *)
Definition linspace (start stop : Q) (num : Z) : result (list Q) :=
  if (num <? 0)%Z then Raise (ValueError NegativeSamples)
  else if (num =? 1)%Z then Ok [start]
  else
    let step := (stop - start) / inject_Z (num - 1) in
    Ok (map (fun i => start + inject_Z (Z.of_nat i) * step)
            (seq 0 (Z.to_nat num))).

(** *** [scipy.ndimage.map_coordinates(data, [[r], [c]], order=1)]

    The call leaves [mode] and [cval] at their defaults, ['constant'] and
    [0.0]: a coordinate below 0 or above the last index of its axis gives
    [cval]; inside, the four neighbours are blended with the linear weights.
    A neighbour one past the last index (met only with weight 0) is read at
    its mirror image. *)

Definition mirror (n i : Z) : Z :=
  if (n <=? 1)%Z then 0%Z
  else if (n <=? i)%Z then (2 * n - 2 - i)%Z
  else i.

Definition cell (data : fgrid) (i j : Z) : float :=
  nth (Z.to_nat j) (nth (Z.to_nat i) data []) (Fin 0).

(** The blend of the four neighbours of an inside coordinate. *)
Definition bilinear (data : fgrid) (r c : Q) : float :=
  let i := Qfloor r in
  let j := Qfloor c in
  let t := r - inject_Z i in
  let u := c - inject_Z j in
  let i' := mirror (len data) (i + 1) in
  let j' := mirror (len (hd [] data)) (j + 1) in
  fadd (fadd (fadd (fmul (Fin ((1 - t) * (1 - u))) (cell data i j))
                   (fmul (Fin ((1 - t) * u)) (cell data i j')))
             (fmul (Fin (t * (1 - u))) (cell data i' j)))
       (fmul (Fin (t * u)) (cell data i' j')).

(** A coordinate pair is outside when either coordinate is below 0 or above
    the last index of its axis. *)
Definition outside (data : fgrid) (r c : Q) : bool :=
  Qltb r 0 || Qltb (inject_Z (len data - 1)) r
  || Qltb c 0 || Qltb (inject_Z (len (hd [] data) - 1)) c.

Definition map_coordinates (data : fgrid) (r c : Q) : float :=
  if outside data r c then Fin 0 else bilinear data r c.

(** *** [scipy.interpolate.interp1d(x, y)] and its call

    Defaults: [kind='linear'], [assume_sorted=False] (the knots are sorted
    first), and out-of-range arguments raise [ValueError].  Knots and values
    of different lengths, and fewer than two knots, are refused at
    construction. *)

Fixpoint insert_knot (k : Q * Q) (l : list (Q * Q)) : list (Q * Q) :=
  match l with
  | [] => [k]
  | k' :: l' =>
      if Qleb (fst k) (fst k') then k :: l
      else k' :: insert_knot k l'
  end.

Definition sort_knots (l : list (Q * Q)) : list (Q * Q) :=
  fold_right insert_knot [] l.

(** The interpolant: its sorted knots. *)
Definition interp1d (x y : list Q) : result (list (Q * Q)) :=
  if negb (length x =? length y)%nat then Raise (ValueError LengthMismatch)
  else if (length x <? 2)%nat then Raise (ValueError TooFewEntries)
  else Ok (sort_knots (combine x y)).

(** [np.searchsorted(xs, v)]: how many knots lie strictly below [v]. *)
Fixpoint searchsorted (knots : list (Q * Q)) (v : Q) : nat :=
  match knots with
  | [] => O
  | k :: knots' => if Qltb (fst k) v then S (searchsorted knots' v) else O
  end.

Definition clip (n lo hi : nat) : nat := Nat.min (Nat.max n lo) hi.

(** One value of the piecewise linear interpolant. *)
Definition linear_at (knots : list (Q * Q)) (x_new : Q) : Q :=
  let hi := clip (searchsorted knots x_new) 1 (length knots - 1) in
  let lo := (hi - 1)%nat in
  let '(x_lo, y_lo) := nth lo knots (0, 0) in
  let '(x_hi, y_hi) := nth hi knots (0, 0) in
  let slope := (y_hi - y_lo) / (x_hi - x_lo) in
  slope * (x_new - x_lo) + y_lo.

(** [f(x_new)] for [f = interp1d(x, y)]. *)
Definition interp1d_call (knots : list (Q * Q)) (x_new : list Q) : result (list Q) :=
  let first := fst (hd (0, 0) knots) in
  let last := fst (List.last knots (0, 0)) in
  if existsb (fun v => Qltb v first) x_new
  then Raise (ValueError BelowInterpolationRange)
  else if existsb (fun v => Qltb last v) x_new
  then Raise (ValueError AboveInterpolationRange)
  else Ok (map (linear_at knots) x_new).

(** ** Python dictionaries: keys in insertion order *)

Definition dict (V : Type) : Type := list (string * V).

Fixpoint dict_get {V : Type} (d : dict V) (key : string) : result V :=
  match d with
  | [] => Raise KeyError
  | (k, v) :: d' => if String.eqb k key then Ok v else dict_get d' key
  end.

(** [d[key] = v]: the value of an existing key is replaced in place, a new
    key goes to the end. *)
Fixpoint dict_set {V : Type} (d : dict V) (key : string) (v : V) : dict V :=
  match d with
  | [] => [(key, v)]
  | (k, w) :: d' =>
      if String.eqb k key then (k, v) :: d' else (k, w) :: dict_set d' key v
  end.

Definition keys {V : Type} (d : dict V) : list string := map fst d.

(** ** The snapshot object *)

(** [SimulationData] of [simulationData.py], with the attributes the
    modelled functions read and assign: the radial and polar cell centres
    [x1], [x2], the cell widths [dx1], [dx2], and the dictionary [variables]
    of the named fields.  (Its unit constants, file name and time stamp,
    which none of the modelled functions assigns, are left out.)

    [Tools.py] takes objects of the class [Data] of [PlutoTools/Data.py],
    which is not among the sources; its functions use the same attributes
    ([data.x1], [data.x2], [data.dx1], [data.dx2], [data.variables]), so the
    one record serves both files. *)
Record Data : Type := mkData {
  x1 : list Q;
  x2 : list Q;
  dx1 : list Q;
  dx2 : list Q;
  variables : dict ndarray
}.

Definition set_variables (data : Data) (vars : dict ndarray) : Data :=
  {| x1 := x1 data; x2 := x2 data; dx1 := dx1 data; dx2 := dx2 data;
     variables := vars |}.

Definition set_x1 (data : Data) (ticks : list Q) : Data :=
  {| x1 := ticks; x2 := x2 data; dx1 := dx1 data; dx2 := dx2 data;
     variables := variables data |}.

(** A sampling range [[start, end, samples]]. *)
Record AxisRange : Type := mkRange {
  range_start : Q;
  range_end : Q;
  range_samples : Z
}.

(** The state of a call that mutates its [Data] argument: the object as the
    call leaves it, and what the call returned or raised. *)
Definition outcome (A : Type) : Type := (Data * result A)%type.

(** Python's [a / b] on floats. *)
Definition py_div (a b : Q) : result Q :=
  if Qeqb b 0 then Raise ZeroDivisionError else Ok (a / b).

(** The row loop shared by both copies of [interpolateRadialGrid]:
    [interpolated[i] = interp1d(x1, value[i])(newTicks)] for every row. *)
Fixpoint interpolate_rows (x1 : list Q) (value : ndarray) (newTicks : list Q)
  : result ndarray :=
  match value with
  | [] => Ok []
  | row :: rest =>
      f <- interp1d x1 row ;;
      r <- interp1d_call f newTicks ;;
      rs <- interpolate_rows x1 rest newTicks ;;
      Ok (r :: rs)
  end.

(** The loop over [data.variables.items()]: every field is interpolated
    against [data.x1] and stored back under its key.  An exception leaves the
    fields stored so far. *)
Fixpoint radial_loop (items : list (string * ndarray)) (data : Data)
         (newTicks : list Q) : Data * option exn :=
  match items with
  | [] => (data, None)
  | (key, value) :: rest =>
      match interpolate_rows (x1 data) value newTicks with
      | Raise e => (data, Some e)
      | Ok interpolated =>
          radial_loop rest
            (set_variables data (dict_set (variables data) key interpolated))
            newTicks
      end
  end.

(** *** class [Transform] and class [Interpolate] of [Tools.py] *)

Module Transform.
Section Trig.

Variables sin cos : Q -> Q.

Definition transformVelocityFieldToCylindrical (data : Data)
  : result (ndarray * ndarray) :=
  vx1 <- dict_get (variables data) "vx1" ;;
  vx2 <- dict_get (variables data) "vx2" ;;
  let x2 := tile_transpose (x2 data) (length (x1 data)) in
  a <- np_mul vx1 (np_map sin x2) ;;
  b <- np_mul vx2 (np_map cos x2) ;;
  vx1_t <- np_add a b ;;
  c <- np_mul vx1 (np_map cos x2) ;;
  d <- np_mul vx2 (np_map sin x2) ;;
  vx2_t <- np_sub c d ;;
  Ok (vx1_t, vx2_t).

Definition transformMagneticFieldToCylindrical (data : Data)
  : result (ndarray * ndarray) :=
  bx1 <- dict_get (variables data) "bx1" ;;
  bx2 <- dict_get (variables data) "bx2" ;;
  let x2 := tile_transpose (x2 data) (length (x1 data)) in
  a <- np_mul bx1 (np_map sin x2) ;;
  b <- np_mul bx2 (np_map cos x2) ;;
  bx1_t <- np_add a b ;;
  c <- np_mul bx1 (np_map cos x2) ;;
  d <- np_mul bx2 (np_map sin x2) ;;
  bx2_t <- np_sub c d ;;
  Ok (bx1_t, bx2_t).

(** The two meshed arrays have one shape, so the products are entry by
    entry. *)
Definition polarCoordsToCartesian (data : Data) : ndarray * ndarray :=
  let '(r_matrix, th_matrix) := meshgrid (x1 data) (x2 data) in
  (map2 (map2 Qmult) r_matrix (np_map sin th_matrix),
   map2 (map2 Qmult) r_matrix (np_map cos th_matrix)).

End Trig.
End Transform.

(** [newVariable[grid_r < 1.0] = np.nan]: a boolean mask of another shape
    than the array raises. *)
Fixpoint mask_row (vals : list float) (grid_r : list Q) : result (list float) :=
  match vals, grid_r with
  | [], [] => Ok []
  | v :: vals', r :: grid_r' =>
      rest <- mask_row vals' grid_r' ;;
      Ok ((if Qltb r 1 then NaN else v) :: rest)
  | _, _ => Raise IndexError
  end.

Fixpoint mask_inner (vals : fgrid) (grid_r : ndarray) : result fgrid :=
  match vals, grid_r with
  | [], [] => Ok []
  | row :: vals', r :: grid_r' =>
      row' <- mask_row row r ;;
      rest <- mask_inner vals' grid_r' ;;
      Ok (row' :: rest)
  | _, _ => Raise IndexError
  end.

Module Interpolate.

(** Both point samplers build [pp] with the Y index first and the X index
    second. *)
Definition singlePointInterpolation (t : Q) (p : Q * Q) (vx1 vx2 : fgrid)
           (x_range y_range : AxisRange) : result (float * float) :=
  pp0 <- py_div ((snd p - range_start y_range) * inject_Z (range_samples y_range))
                (range_end y_range - range_start y_range) ;;
  pp1 <- py_div ((fst p - range_start x_range) * inject_Z (range_samples x_range))
                (range_end x_range - range_start x_range) ;;
  Ok (map_coordinates vx1 pp0 pp1, map_coordinates vx2 pp0 pp1).

Definition interpolatePoint2D (x_range y_range : AxisRange) (data : fgrid)
           (p : Q * Q) : result float :=
  pp0 <- py_div ((snd p - range_start y_range) * inject_Z (range_samples y_range))
                (range_end y_range - range_start y_range) ;;
  pp1 <- py_div ((fst p - range_start x_range) * inject_Z (range_samples x_range))
                (range_end x_range - range_start x_range) ;;
  Ok (map_coordinates data pp0 pp1).

Definition interpolatePoint2DAlternative (x_range y_range : AxisRange)
           (data : fgrid) (p : Q * Q) : result float :=
  pp0 <- py_div ((fst p - range_start x_range) * inject_Z (range_samples x_range))
                (range_end x_range - range_start x_range) ;;
  pp1 <- py_div ((snd p - range_start y_range) * inject_Z (range_samples y_range))
                (range_end y_range - range_start y_range) ;;
  Ok (map_coordinates data pp0 pp1).

Definition interpolateRadialGrid (data : Data) (newTicks : list Q)
  : outcome Data :=
  match radial_loop (variables data) data newTicks with
  | (data', Some e) => (data', Raise e)
  | (data', None) =>
      let data'' := set_x1 data' newTicks in
      (data'', Ok data'')
  end.

Section Resample.

Variables sin cos sqrt : Q -> Q.

(** [scipy.interpolate.griddata(points, values, (grid_x, grid_y))]. *)
Variable griddata :
  list (Q * Q) -> list Q -> ndarray * ndarray -> result fgrid.

Definition interpolateToUniformGrid (data : Data) (variable : ndarray)
           (x_range y_range : AxisRange)
  : result (ndarray * ndarray * fgrid) :=
  let '(x, y) := Transform.polarCoordsToCartesian sin cos data in
  let x := ravel x in
  let y := ravel y in
  let variable := ravel variable in
  let points := column_stack x y in
  xs <- linspace (range_start x_range) (range_end x_range)
                 (range_samples x_range) ;;
  ys <- linspace (range_start y_range) (range_end y_range)
                 (range_samples y_range) ;;
  let '(grid_x, grid_y) := meshgrid xs ys in
  newVariable <- griddata points variable (grid_x, grid_y) ;;
  let grid_r :=
    map2 (map2 (fun gx gy => sqrt (gx * gx + gy * gy))) grid_x grid_y in
  newVariable <- mask_inner newVariable grid_r ;;
  Ok (grid_x, grid_y, newVariable).

End Resample.
End Interpolate.

(** *** class [Compute] of [Tools.py]: the streamline loop *)

Module Compute.
Section Streamline.

Variable sqrt : Q -> Q.

(** [scipy.integrate.ode] with the ["vode"] integrator.  The object holds
    the current point [y], the time [t] and the integrator's own state;
    [integrate f solver t1] is [solver.integrate(t1, step=True)], one
    internal step of the integrator on the right-hand side [f]. *)
Variable vode : Type.
Variable vode_fresh : vode.

Record ode : Type := mkOde {
  ode_y : Q * Q;
  ode_t : Q;
  ode_state : vode
}.

Variable integrate :
  (Q -> Q * Q -> result (float * float)) -> ode -> Q -> ode.

Definition fsqrt (v : float) : float :=
  match v with Fin q => Fin (sqrt q) | NaN => NaN end.

(** [np.sqrt(vx1**2 + vx2**2)] on two grids of one shape. *)
Definition absolute_velocity (vx1 vx2 : fgrid) : fgrid :=
  map2 (map2 (fun a b => fsqrt (fadd (fmul a a) (fmul b b)))) vx1 vx2.

Section Loop.

Variables (vx1 vx2 : fgrid) (x_range y_range : AxisRange) (limit : Q).

Definition rhs (t : Q) (p : Q * Q) : result (float * float) :=
  Interpolate.singlePointInterpolation t p vx1 vx2 x_range y_range.

(** The [while] loop, unrolled [fuel] times: [None] when the loop is still
    running after [fuel] evaluations of its condition, otherwise the solver
    and the lists [x], [y] at its exit (or the exception that ended it). *)
Fixpoint streamline_loop (fuel : nat) (solver : ode) (x y : list Q)
  : option (result (ode * list Q * list Q)) :=
  match fuel with
  | O => None
  | S fuel' =>
      match Interpolate.interpolatePoint2D x_range y_range
              (absolute_velocity vx1 vx2) (ode_y solver) with
      | Raise e => Some (Raise e)
      | Ok speed =>
          if fgtb speed limit then
            let solver := integrate rhs solver 1000 in
            let x1 := fst (ode_y solver) in
            let x2 := snd (ode_y solver) in
            streamline_loop fuel' solver (x ++ [x1]) (y ++ [x2])
          else Some (Ok (solver, x, y))
      end
  end.

(** [computeStreamline(point, x, y, vx1, vx2, vx3, rho, prs, x_range,
    y_range, limit)]; the arguments [x], [y], [vx3], [rho] and [prs] are not
    read.  It returns [solver.y[0]] and the potential, which is [0.0]. *)
Definition computeStreamline (fuel : nat) (point : Q * Q)
  : option (result (Q * Q)) :=
  let p0 := point in
  let t0 := 0 in
  let solver := {| ode_y := p0; ode_t := t0; ode_state := vode_fresh |} in
  match streamline_loop fuel solver [] [] with
  | None => None
  | Some (Raise e) => Some (Raise e)
  | Some (Ok (solver, _, _)) => Some (Ok (fst (ode_y solver), 0))
  end.

End Loop.
End Streamline.

Arguments mkOde {vode} ode_y ode_t ode_state.
Arguments ode_y {vode} o.
Arguments ode_t {vode} o.
Arguments ode_state {vode} o.

End Compute.

(** *** class [Tools] of [simulationData.py] *)

Module simulationData.
Module Tools.

Definition interpolateRadialGrid (data : Data) (newTicks : list Q)
  : outcome unit :=
  match radial_loop (variables data) data newTicks with
  | (data', Some e) => (data', Raise e)
  | (data', None) => (set_x1 data' newTicks, Ok tt)
  end.

Section Resample.

Variables sin cos : Q -> Q.

Definition polarCoordsToCartesian (x1 x2 : list Q) : ndarray * ndarray :=
  let '(r_matrix, th_matrix) := meshgrid x1 x2 in
  (map2 (map2 Qmult) r_matrix (np_map sin th_matrix),
   map2 (map2 Qmult) r_matrix (np_map cos th_matrix)).

(** The two fields are assigned one after the other: when the second
    expression raises, ["vx1"] is already replaced. *)
Definition transformVelocityFieldToCylindrical (data : Data) : outcome unit :=
  match dict_get (variables data) "vx1", dict_get (variables data) "vx2" with
  | Raise e, _ => (data, Raise e)
  | Ok _, Raise e => (data, Raise e)
  | Ok vx1, Ok vx2 =>
      let x2 := tile_transpose (x2 data) (length (x1 data)) in
      match (a <- np_mul vx1 (np_map sin x2) ;;
             b <- np_mul vx2 (np_map cos x2) ;;
             np_add a b) with
      | Raise e => (data, Raise e)
      | Ok vx1_t =>
          let data := set_variables data (dict_set (variables data) "vx1" vx1_t) in
          match (c <- np_mul vx1 (np_map cos x2) ;;
                 d <- np_mul vx2 (np_map sin x2) ;;
                 np_sub c d) with
          | Raise e => (data, Raise e)
          | Ok vx2_t =>
              (set_variables data (dict_set (variables data) "vx2" vx2_t), Ok tt)
          end
      end
  end.

Definition transformMagneticFieldToCylindrical (data : Data) : outcome unit :=
  match dict_get (variables data) "bx1", dict_get (variables data) "bx2" with
  | Raise e, _ => (data, Raise e)
  | Ok _, Raise e => (data, Raise e)
  | Ok bx1, Ok bx2 =>
      let x2 := tile_transpose (x2 data) (length (x1 data)) in
      match (a <- np_mul bx1 (np_map sin x2) ;;
             b <- np_mul bx2 (np_map cos x2) ;;
             np_add a b) with
      | Raise e => (data, Raise e)
      | Ok bx1_t =>
          let data := set_variables data (dict_set (variables data) "bx1" bx1_t) in
          match (c <- np_mul bx1 (np_map cos x2) ;;
                 d <- np_mul bx2 (np_map sin x2) ;;
                 np_sub c d) with
          | Raise e => (data, Raise e)
          | Ok bx2_t =>
              (set_variables data (dict_set (variables data) "bx2" bx2_t), Ok tt)
          end
      end
  end.

Variable griddata :
  list (Q * Q) -> list Q -> ndarray * ndarray -> result fgrid.

(** This copy returns the interpolant's array as it is. *)
Definition interpolateToUniformGrid (data : Data) (variable : ndarray)
           (x_range y_range : AxisRange)
  : result (ndarray * ndarray * fgrid) :=
  let '(x, y) := polarCoordsToCartesian (x1 data) (x2 data) in
  let x := ravel x in
  let y := ravel y in
  let variable := ravel variable in
  let points := column_stack x y in
  xs <- linspace (range_start x_range) (range_end x_range)
                 (range_samples x_range) ;;
  ys <- linspace (range_start y_range) (range_end y_range)
                 (range_samples y_range) ;;
  let '(grid_x, grid_y) := meshgrid xs ys in
  newVariable <- griddata points variable (grid_x, grid_y) ;;
  Ok (grid_x, grid_y, newVariable).

End Resample.
End Tools.
End simulationData.

(** ** Sample inputs

    Concrete library functions and inputs for the closed examples.  The
    transcendental functions are replaced by rational stand-ins that are
    exact where the examples evaluate them. *)

Module Sample.

(** [np.log10] on the decades [1 .. 10^6], where it is exact. *)
Definition log10 (q : Q) : Q :=
  if Qeqb q 1 then 0
  else if Qeqb q 10 then 1
  else if Qeqb q 100 then 2
  else if Qeqb q 1000 then 3
  else if Qeqb q 10000 then 4
  else if Qeqb q 100000 then 5
  else if Qeqb q 1000000 then 6
  else 0.

(** [np.sqrt] to three decimals (exact on the squares the examples use). *)
Definition sqrt (q : Q) : Q :=
  Qmake (Z.sqrt (Qnum q * Z.pos (Qden q) * 1000000)) (Qden q * 1000).

(** [np.sin] and [np.cos] by their Taylor polynomials of degree 5 and 4. *)
Definition sin (q : Q) : Q := q - q * q * q / 6 + q * q * q * q * q / 120.
Definition cos (q : Q) : Q := 1 - q * q / 2 + q * q * q * q / 24.

(** Samples on the grid T = 10, 100, 1000; zeta = 1, 10; nn = 1, 10: the
    three logarithmic axes are uniformly spaced. *)
Definition uniform_samples : list IonFraction :=
  flat_map (fun ti : Q * Q =>
    flat_map (fun zi : Q * Q =>
      map (fun ni : Q * Q =>
             mkIonFraction (fst ti) (fst zi) (fst ni)
                           (snd ti + snd zi + snd ni))
          [(1, 0); (10, 1 # 1000)])
      [(1, 0); (10, 1 # 100)])
    [(10, 1 # 10); (100, 2 # 10); (1000, 3 # 10)].

(** Samples whose temperatures 1, 10, 10^4, 10^5, 10^6 leave a gap: the
    logarithmic temperature axis is 0, 1, 4, 5, 6. *)
Definition gapped_samples : list IonFraction :=
  [ mkIonFraction 1 1 1 (1 # 10);
    mkIonFraction 10 10 10 (2 # 10);
    mkIonFraction 10000 1 1 (3 # 10);
    mkIonFraction 100000 1 1 (4 # 10);
    mkIonFraction 1000000 1 1 (5 # 10) ].

Definition empty_collection : IonFractionCollection :=
  mkCollection [] 0 0 0 0 0 0 0 0 0 0 0 0 [] [] [].

Definition table_of (samples : list IonFraction) : IonFractionCollection :=
  match loadIonData log10 samples with
  | Ok c => c
  | Raise _ => empty_collection
  end.

Definition uniform_table : IonFractionCollection :=
  Eval vm_compute in table_of uniform_samples.

Definition gapped_table : IonFractionCollection :=
  Eval vm_compute in table_of gapped_samples.

(** A 2 x 2 grid of ones and of other values, sampled on [[0, 1, 2]] in both
    directions. *)
Definition ones : fgrid := [[Fin 1; Fin 1]; [Fin 1; Fin 1]].
Definition ramp : fgrid := [[Fin 1; Fin 2]; [Fin 3; Fin 4]].
Definition unit_range : AxisRange := mkRange 0 1 2.

(** A velocity field that turns around the unit square: (1, 0) at the
    origin, (0, 1) at (1, 0), (-1, 0) at (1, 1) and (0, -1) at (0, 1); rows
    are Y, columns are X, and [[0, 2, 2]] maps the point (x, y) to the index
    (y, x).  Its speed is 1 at the four corners. *)
Definition orbit_vx1 : fgrid := [[Fin 1; Fin 0]; [Fin 0; Fin (-1)]].
Definition orbit_vx2 : fgrid := [[Fin 0; Fin 1]; [Fin (-1); Fin 0]].
Definition orbit_range : AxisRange := mkRange 0 2 2.

(** A field that moves the origin to (1, 0) and is at rest there. *)
Definition fading_vx1 : fgrid := [[Fin 1; Fin 0]; [Fin 0; Fin 0]].
Definition fading_vx2 : fgrid := [[Fin 0; Fin 0]; [Fin 0; Fin 0]].

(** A stand-in for one step of the integrator: an explicit Euler step of
    length 1, the point kept in lowest terms.  (A right-hand side that is
    not a pair of numbers leaves the point where it is.) *)
Definition euler (f : Q -> Q * Q -> result (float * float))
           (solver : Compute.ode unit) (t1 : Q) : Compute.ode unit :=
  match f (Compute.ode_t solver) (Compute.ode_y solver) with
  | Ok (Fin a, Fin b) =>
      Compute.mkOde (Qred (fst (Compute.ode_y solver) + a),
                     Qred (snd (Compute.ode_y solver) + b))
                    (Compute.ode_t solver + 1) tt
  | _ => solver
  end.

(** A mesh of three radial and two polar cells with two fields, and the
    same mesh before any field is loaded. *)
Definition mesh_data : Data :=
  mkData [1; 2; 4] [0; 1] [1; 1; 2] [1; 1]
         [("rho"%string, [[1; 2; 4]; [2; 4; 8]]);
          ("vx1"%string, [[0; 1; 3]; [3; 1; 0]])].

Definition bare_data : Data :=
  mkData [1; 2; 4] [0; 1] [1; 1; 2] [1; 1] [].

(** The same mesh with velocity fields of one row only: their shape (1, 3)
    is not the mesh's shape (2, 3). *)
Definition single_row_data : Data :=
  mkData [1; 2; 4] [0; 1] [1; 1; 2] [1; 1]
         [("vx1"%string, [[1; 2; 3]]); ("vx2"%string, [[0; 1; 0]])].

(** ... and with fields of two columns, which cannot be broadcast. *)
Definition two_column_data : Data :=
  mkData [1; 2; 4] [0; 1] [1; 1; 2] [1; 1]
         [("vx1"%string, [[1; 2]; [3; 4]]); ("vx2"%string, [[0; 1]; [1; 0]])].

(** ... and with fields of the mesh's own shape (2, 3). *)
Definition full_velocity_data : Data :=
  mkData [1; 2; 4] [0; 1] [1; 1; 2] [1; 1]
         [("vx1"%string, [[1; 2; 3]; [4; 5; 6]]);
          ("vx2"%string, [[0; 1; 0]; [1; 0; 1]])].

(** A mesh that reaches inside the unit circle (radii 1/2 and 3/2, polar
    angles 0 and 3/2) with the constant field 1, resampled on the nodes
    0, 2/5, 4/5 in both directions; the node (2/5, 2/5) lies between the
    mesh points and inside the unit circle.  The stand-in for [griddata]
    gives the value 1 of the constant field at every node. *)
Definition inner_data : Data :=
  mkData [1 # 2; 3 # 2] [0; 3 # 2] [1; 1] [3 # 2; 3 # 2]
         [("rho"%string, [[1; 1]; [1; 1]])].

Definition inner_range : AxisRange := mkRange 0 (4 # 5) 3.

Definition constant_interpolant (points : list (Q * Q)) (values : list Q)
           (grid : ndarray * ndarray) : result fgrid :=
  Ok (map (map (fun _ => Fin 1)) (fst grid)).

End Sample.

(** * Vocabulary of the statements *)

(** ** The three table axes, seen uniformly *)

Inductive axis : Type := Temp | Zeta | Nn.

Definition axis_array (c : IonFractionCollection) (a : axis) : list Q :=
  match a with
  | Temp => temp_array c | Zeta => zeta_array c | Nn => nn_array c
  end.

Definition axis_start (c : IonFractionCollection) (a : axis) : Q :=
  match a with
  | Temp => start_temp c | Zeta => start_zeta c | Nn => start_nn c
  end.

Definition axis_end (c : IonFractionCollection) (a : axis) : Q :=
  match a with
  | Temp => end_temp c | Zeta => end_zeta c | Nn => end_nn c
  end.

Definition axis_n (c : IonFractionCollection) (a : axis) : Z :=
  match a with
  | Temp => n_temp c | Zeta => n_zeta c | Nn => n_nn c
  end.

Definition axis_d (c : IonFractionCollection) (a : axis) : Q :=
  match a with
  | Temp => d_temp c | Zeta => d_zeta c | Nn => d_nn c
  end.

Definition getIndicesFor (a : axis) : IonFractionCollection -> Q -> result (Z * Z) :=
  match a with
  | Temp => getIndicesForTempValue
  | Zeta => getIndicesForZetaValue
  | Nn => getIndicesForNnValue
  end.

(** The coordinate of a sample along an axis. *)
Definition coordinate (a : axis) : IonFraction -> Q :=
  match a with
  | Temp => t | Zeta => zeta | Nn => nn
  end.

(** The bookkeeping [loadIonData] leaves for an axis: its length, its first
    and last entry, and the difference of its first two entries. *)
Definition axis_consistent (c : IonFractionCollection) (a : axis) : Prop :=
  axis_n c a = len (axis_array c a) /\
  getitem (axis_array c a) 0 = Ok (axis_start c a) /\
  getitem (axis_array c a) (-1) = Ok (axis_end c a) /\
  exists v1, getitem (axis_array c a) 1 = Ok v1 /\ axis_d c a = v1 - axis_start c a.

(** The axis is uniformly spaced: entry [i] is [start + i * d], with [d > 0]. *)
Definition axis_uniform (c : IonFractionCollection) (a : axis) : Prop :=
  0 < axis_d c a /\
  forall (i : nat) (v : Q),
    nth_error (axis_array c a) i = Some v ->
    v == axis_start c a + inject_Z (Z.of_nat i) * axis_d c a.

(** The weight of a lookup along one axis, for a query logarithm [x]
    bracketed by the axis entries [x0] and [x1]: the quotient of the
    distances, and 0 on a zero-width bracket. *)
Definition weight (x x0 x1 : Q) : Q :=
  if Qeqb x0 x1 then 0 else (x - x0) / (x1 - x0).

(** The blend of two numbers, and of the eight cube values of a lattice,
    with numeric weights. *)
Definition blend (a b w : Q) : Q := a * (1 - w) + b * w.

Definition blend3 (k : Lattice) (wx wy wz : Q) : Q :=
  blend (blend (blend (c000 k) (c100 k) wx) (blend (c010 k) (c110 k) wx) wy)
        (blend (blend (c001 k) (c101 k) wx) (blend (c011 k) (c111 k) wx) wy)
        wz.

(** The cube has [a] planes of [b] rows of [c] entries. *)
Definition cube_shape (cube : list (list (list Q))) (a b c : nat) : Prop :=
  length cube = a /\
  Forall (fun plane => length plane = b /\
                       Forall (fun row => length row = c) plane) cube.

(** A strictly increasing sequence, and a function that is strictly
    increasing on the members of a list. *)
Definition increasing (xs : list Q) : Prop := StronglySorted Qlt xs.

Definition increasing_on (f : Q -> Q) (xs : list Q) : Prop :=
  forall a b, In a xs -> In b xs -> a < b -> f a < f b.

(** ** Uniform grids *)

(** [a[i][j]] when both positions exist. *)
Definition at2 {A : Type} (a : list (list A)) (i j : nat) : option A :=
  match nth_error a i with
  | Some row => nth_error row j
  | None => None
  end.

(** No cell of the grid is not-a-number. *)
Definition all_finite (data : fgrid) : Prop :=
  Forall (Forall (fun v => is_nan v = false)) data.

(** What the claim C6 describes: the sample at the index clamped to the
    nearest edge of the grid ([mode='nearest'] of the library). *)
Definition clamp_index (n : Z) (q : Q) : Q :=
  Qmax 0 (Qmin q (inject_Z (n - 1))).

Definition nearest_edge_sample (data : fgrid) (r c : Q) : float :=
  bilinear data (clamp_index (len data) r) (clamp_index (len (hd [] data)) c).

(** ** The streamline trace *)

Section StreamlineTerms.

Variable sqrt : Q -> Q.
Variable vode : Type.
Variable integrate :
  (Q -> Q * Q -> result (float * float)) -> Compute.ode vode -> Q -> Compute.ode vode.
Variables (vx1 vx2 : fgrid) (x_range y_range : AxisRange) (limit : Q).

(** The sampled local speed at the solver's point. *)
Definition speed_at (solver : Compute.ode vode) : result float :=
  Interpolate.interpolatePoint2D x_range y_range
    (Compute.absolute_velocity sqrt vx1 vx2) (Compute.ode_y solver).

(** The speed is a number above the limit. *)
Definition above_limit (solver : Compute.ode vode) : Prop :=
  exists q, speed_at solver = Ok (Fin q) /\ limit < q.

(** The speed is a number at or below the limit, or not-a-number. *)
Definition not_above_limit (solver : Compute.ode vode) : Prop :=
  speed_at solver = Ok NaN \/
  exists q, speed_at solver = Ok (Fin q) /\ q <= limit.

(** The solver after [n] steps, and the points it stepped to. *)
Definition after (n : nat) (solver : Compute.ode vode) : Compute.ode vode :=
  Nat.iter n
    (fun s => integrate (Compute.rhs vx1 vx2 x_range y_range) s 1000) solver.

Definition visited (n : nat) (solver : Compute.ode vode) : list (Q * Q) :=
  map (fun k => Compute.ode_y (after k solver)) (seq 1 n).

End StreamlineTerms.

(** The corners of the unit square, which the turning sample field joins. *)
Definition corner (p : Q * Q) : Prop :=
  p = (0, 0) \/ p = (1, 0) \/ p = (1, 1) \/ p = (0, 1).

(** ** Radial resampling *)

(** Every tick lies within the first and the last entry of the axis. *)
Definition within (xs ticks : list Q) : Prop :=
  Forall (fun v => hd 0 xs <= v <= List.last xs 0) ticks.

(** Some tick lies outside the axis. *)
Definition some_tick_outside (xs ticks : list Q) : Prop :=
  Exists (fun v => v < hd 0 xs \/ List.last xs 0 < v) ticks.

(** The two [ValueError]s of an interpolant called outside its knots. *)
Definition out_of_domain (e : exn) : Prop :=
  e = ValueError BelowInterpolationRange \/ e = ValueError AboveInterpolationRange.

(** The rows of a field have the radial length of the mesh. *)
Definition rows_fit (xs : list Q) (value : ndarray) : Prop :=
  Forall (fun row => length row = length xs) value.

(** Every row interpolated linearly onto the new ticks. *)
Definition resample (xs ticks : list Q) (value : ndarray) : ndarray :=
  map (fun row => map (linear_at (combine xs row)) ticks) value.

(** The invariant of a mesh with its fields: a strictly increasing radial
    axis of at least two cells, fields under distinct names, and rows of the
    radial length. *)
Definition mesh_invariant (data : Data) : Prop :=
  increasing (x1 data) /\ (2 <= length (x1 data))%nat /\
  NoDup (keys (variables data)) /\
  Forall (fun kv => rows_fit (x1 data) (snd kv)) (variables data).

(** The object a completed radial resampling leaves. *)
Definition resampled (data : Data) (ticks : list Q) : Data :=
  {| x1 := ticks; x2 := x2 data; dx1 := dx1 data; dx2 := dx2 data;
     variables :=
       map (fun kv => (fst kv, resample (x1 data) ticks (snd kv)))
           (variables data) |}.

(** ** The rotation to cylindrical components *)

Definition dim_ok (n m : nat) : bool :=
  (n =? m)%nat || (n =? 1)%nat || (m =? 1)%nat.

(** Two shapes can be broadcast together. *)
Definition broadcastable (s1 s2 : nat * nat) : bool :=
  dim_ok (fst s1) (fst s2) && dim_ok (snd s1) (snd s2).

(** The length two lengths are broadcast to when they agree or one of them
    is 1, and the shape two shapes are broadcast to. *)
Definition common (n m : nat) : nat := if (n =? 1)%nat then m else n.

Definition broadcast_shape (s1 s2 : nat * nat) : nat * nat :=
  (common (fst s1) (fst s2), common (snd s1) (snd s2)).

(** The shape of the mesh, [(len(x2), len(x1))]. *)
Definition mesh_shape (data : Data) : nat * nat :=
  (length (x2 data), length (x1 data)).

(** The three operations of each expression of the rotation can broadcast
    their operands: each field against the mesh, and the two products
    against each other. *)
Definition rotation_broadcasts (data : Data) (f1 f2 : ndarray) : bool :=
  broadcastable (shape f1) (mesh_shape data)
  && broadcastable (shape f2) (mesh_shape data)
  && broadcastable (broadcast_shape (shape f1) (mesh_shape data))
                   (broadcast_shape (shape f2) (mesh_shape data)).

(** A 2-D array: every row has the length of the first. *)
Definition rectangular (a : ndarray) : Prop :=
  Forall (fun row => length row = snd (shape a)) a.

(** The position read along an axis of length [n] when the axis is
    broadcast: position 0 of an axis of length 1, else the position
    itself. *)
Definition broadcast_index (n i : nat) : nat :=
  if (n =? 1)%nat then 0%nat else i.

(** [np.broadcast_to(a, s)] for a shape [s] that [a] can be broadcast to: a
    single row and a single column are repeated. *)
Definition broadcast_to (s : nat * nat) (a : ndarray) : ndarray :=
  stretch (map (fun row => stretch row (snd s)) a) (fst s).

(** The common body of the two rotations of [Tools.py]. *)
Definition rotation (sin cos : Q -> Q) (data : Data) (f1 f2 : ndarray)
  : result (ndarray * ndarray) :=
  let x2 := tile_transpose (x2 data) (length (x1 data)) in
  a <- np_mul f1 (np_map sin x2) ;;
  b <- np_mul f2 (np_map cos x2) ;;
  f1_t <- np_add a b ;;
  c <- np_mul f1 (np_map cos x2) ;;
  d <- np_mul f2 (np_map sin x2) ;;
  f2_t <- np_sub c d ;;
  Ok (f1_t, f2_t).

(** The rotation of single-row fields: one output row per polar cell. *)
Definition rotate_rows (sin cos : Q -> Q) (data : Data) (row1 row2 : list Q)
  : ndarray * ndarray :=
  let n := length (x1 data) in
  (map (fun th => map2 Qplus (map2 Qmult row1 (repeat (sin th) n))
                             (map2 Qmult row2 (repeat (cos th) n)))
       (x2 data),
   map (fun th => map2 Qminus (map2 Qmult row1 (repeat (cos th) n))
                              (map2 Qmult row2 (repeat (sin th) n)))
       (x2 data)).

(** The two vector fields the rotation is applied to, their keys in
    [data.variables], and the rotation of each in both files. *)
Inductive vector_field : Type := Velocity | Magnetic.

Definition component_names (f : vector_field) : string * string :=
  match f with
  | Velocity => ("vx1", "vx2")
  | Magnetic => ("bx1", "bx2")
  end%string.

Definition transformToCylindrical (f : vector_field) (sin cos : Q -> Q)
  : Data -> result (ndarray * ndarray) :=
  match f with
  | Velocity => Transform.transformVelocityFieldToCylindrical sin cos
  | Magnetic => Transform.transformMagneticFieldToCylindrical sin cos
  end.

Definition transformToCylindrical_in_place (f : vector_field) (sin cos : Q -> Q)
  : Data -> outcome unit :=
  match f with
  | Velocity => simulationData.Tools.transformVelocityFieldToCylindrical sin cos
  | Magnetic => simulationData.Tools.transformMagneticFieldToCylindrical sin cos
  end.

(** * Further functions of the two files *)

(** ** The ion-fraction table before and after loading *)

(** [IonFractionCollection.__init__]: the collection before [loadIonData]. *)
Definition IonFractionCollection__init__ : IonFractionCollection :=
  {| data := [];
     n_temp := 0; n_zeta := 0; n_nn := 0;
     d_temp := 0; d_zeta := 0; d_nn := 0;
     start_temp := 0; end_temp := 0;
     start_zeta := 0; end_zeta := 0;
     start_nn := 0; end_nn := 0;
     temp_array := []; zeta_array := []; nn_array := [] |}.

(** The number of distinct coordinates of the samples along an axis, and
    the sample lists whose three axes have between 2 and 20 of them. *)
Definition distinct_values (a : axis) (samples : list IonFraction) : nat :=
  length (sorted_set (map (coordinate a) samples)).

Definition axes_fit (samples : list IonFraction) : bool :=
  forallb (fun a => (2 <=? distinct_values a samples)%nat
                    && (distinct_values a samples <=? 20)%nat)
          [Temp; Zeta; Nn].

(** The sorted distinct coordinates of the samples along an axis, before
    the logarithm is taken. *)
Definition raw_axis (a : axis) (samples : list IonFraction) : list Q :=
  sorted_set (map (coordinate a) samples).

(** Two samples with the same three coordinates. *)
Definition same_coordinates (e e' : IonFraction) : Prop :=
  t e == t e' /\ zeta e == zeta e' /\ nn e == nn e'.

(** The sample has the coordinates found at the positions [i], [j], [k] of
    the three axes. *)
Definition sample_at (samples : list IonFraction) (i j k : nat)
           (e : IonFraction) : Prop :=
  exists ti zj nk,
    nth_error (raw_axis Temp samples) i = Some ti /\ ti == t e /\
    nth_error (raw_axis Zeta samples) j = Some zj /\ zj == zeta e /\
    nth_error (raw_axis Nn samples) k = Some nk /\ nk == nn e.

(** The positions at which the scatter loop stores a sample. *)
Definition lands (temps zetas nns : list Q) (e : IonFraction) (i j k : nat) : Prop :=
  where_first temps (t e) = Ok i /\
  where_first zetas (zeta e) = Ok j /\
  where_first nns (nn e) = Ok k.

(** Two queries along an axis that the bracket search cannot tell apart:
    the same value, two values at or below the start of the axis, or two
    values above the start and at or above the end. *)
Definition clamped_alike (c : IonFractionCollection) (a : axis) (q q' : Q) : Prop :=
  q = q' \/
  (q <= axis_start c a /\ q' <= axis_start c a) \/
  (axis_start c a < q /\ axis_start c a < q' /\
   axis_end c a <= q /\ axis_end c a <= q').

(** The coordinate of a query along an axis. *)
Definition query (a : axis) (temp zeta nn : Q) : Q :=
  match a with
  | Temp => temp | Zeta => zeta | Nn => nn
  end.

(** Positions along the three axes, and one step along one of them. *)
Definition axis_eqb (a b : axis) : bool :=
  match a, b with
  | Temp, Temp | Zeta, Zeta | Nn, Nn => true
  | _, _ => false
  end.

Definition next_along (a : axis) (p : axis -> nat) (b : axis) : nat :=
  if axis_eqb a b then S (p b) else p b.

(** The cell of the cube at the positions [p]. *)
Definition cube_at (c : IonFractionCollection) (p : axis -> nat) : result Q :=
  getitem3 (data c) (Z.of_nat (p Temp)) (Z.of_nat (p Zeta)) (Z.of_nat (p Nn)).

(** ** The speed field *)

(** [Compute.computeAbsoluteVelocities] of [Tools.py] and
    [Tools.computeAbsoluteVelocities] of [simulationData.py]: the same
    expression [np.sqrt(vx1**2 + vx2**2)] on the two velocity fields of the
    object. *)
Definition computeAbsoluteVelocities (sqrt : Q -> Q) (data : Data)
  : result ndarray :=
  vx1 <- dict_get (variables data) "vx1" ;;
  vx2 <- dict_get (variables data) "vx2" ;;
  s <- np_add (np_map (fun v => v * v) vx1) (np_map (fun v => v * v) vx2) ;;
  Ok (np_map sqrt s).

(** ** Vocabulary of the rotation of mesh-shaped fields *)

(** A field with one row per polar cell and one entry per radial cell. *)
Definition mesh_shaped (data : Data) (f : ndarray) : Prop :=
  length f = length (x2 data) /\ rows_fit (x1 data) f.

(** The two rotated components, entry by entry. *)
Definition rotated (sin cos : Q -> Q) (data : Data) (f1 f2 : ndarray)
  : ndarray * ndarray :=
  let n := length (x1 data) in
  let s := map (fun th => repeat (sin th) n) (x2 data) in
  let c := map (fun th => repeat (cos th) n) (x2 data) in
  (map2 (map2 Qplus) (map2 (map2 Qmult) f1 s) (map2 (map2 Qmult) f2 c),
   map2 (map2 Qminus) (map2 (map2 Qmult) f1 c) (map2 (map2 Qmult) f2 s)).

(** The shape of the result of an elementwise operation, from the shapes of
    its operands. *)
Definition binop_shape (s1 s2 : nat * nat) : result (nat * nat) :=
  r <- broadcast_dim (fst s1) (fst s2) ;;
  c <- broadcast_dim (snd s1) (snd s2) ;;
  Ok (if (r =? 0)%nat then (0, 0)%nat else (r, c)).

(** The object with the two components of a vector field replaced. *)
Definition with_components (f : vector_field) (data : Data) (f1 f2 : ndarray)
  : Data :=
  set_variables data
    (dict_set (dict_set (variables data) (fst (component_names f)) f1)
              (snd (component_names f)) f2).

(** Two arrays with the same cells, up to the representation of the
    rationals. *)
Definition same_cells (a b : ndarray) : Prop :=
  Forall2 (Forall2 Qeq) a b.

(** The two expressions of the rotation, [f1 * sin(x2) + f2 * cos(x2)] and
    [f1 * cos(x2) - f2 * sin(x2)]. *)
Definition rotation_first (sin cos : Q -> Q) (data : Data) (f1 f2 : ndarray)
  : result ndarray :=
  let x2 := tile_transpose (x2 data) (length (x1 data)) in
  a <- np_mul f1 (np_map sin x2) ;;
  b <- np_mul f2 (np_map cos x2) ;;
  np_add a b.

Definition rotation_second (sin cos : Q -> Q) (data : Data) (f1 f2 : ndarray)
  : result ndarray :=
  let x2 := tile_transpose (x2 data) (length (x1 data)) in
  c <- np_mul f1 (np_map cos x2) ;;
  d <- np_mul f2 (np_map sin x2) ;;
  np_sub c d.

(** The speed of two components of one shape, entry by entry. *)
Definition speed (sqrt : Q -> Q) (v1 v2 : ndarray) : ndarray :=
  np_map sqrt (map2 (map2 Qplus) (np_map (fun v => v * v) v1)
                                 (np_map (fun v => v * v) v2)).

(** ** Vocabulary of the uniform grid *)

(** The [k]-th of the evenly spaced samples of a range, both ends included
    ([np.linspace]). *)
Definition node (r : AxisRange) (k : nat) : Q :=
  if (range_samples r =? 1)%Z then range_start r
  else range_start r
       + inject_Z (Z.of_nat k)
         * ((range_end r - range_start r) / inject_Z (range_samples r - 1)).

(** The fractional index at which the point samplers read a coordinate. *)
Definition sample_index (r : AxisRange) (q : Q) : Q :=
  (q - range_start r) * inject_Z (range_samples r)
  / (range_end r - range_start r).

(** Two arrays with the same number of rows and, row by row, the same
    number of entries. *)
Definition same_shape {A B : Type} (a : list (list A)) (b : list (list B)) : Prop :=
  Forall2 (fun r s => length r = length s) a b.

(** ** [Interpolate.interpolatePoint] of [Tools.py] *)

(** [f = interp1d(ticks, data); return f(point)] for a scalar [point]: the
    interpolant called with one argument gives one value. *)
Definition interpolatePoint (ticks data : list Q) (point : Q) : result Q :=
  f <- interp1d ticks data ;;
  r <- interp1d_call f [point] ;;
  Ok (hd 0 r).

(** ** [Tools.removeFilesWithStride] (the same in both files)

    The directory is the list of its file names; [os.listdir] reads it once,
    before the loop, and [os.remove] takes a name out of it.  The conversion
    [int] of a piece of a file name is a parameter. *)

(** [s.endswith(suffix)]. *)
Definition endswith (s suffix : string) : bool :=
  let n := String.length s in
  let m := String.length suffix in
  (m <=? n)%nat && String.eqb (substring (n - m) m s) suffix.

(** [s.split(sep)] for a separator of one character. *)
Fixpoint split (sep : ascii) (s : string) : list string :=
  match s with
  | EmptyString => [EmptyString]
  | String c s' =>
      if Ascii.eqb c sep then EmptyString :: split sep s'
      else match split sep s' with
           | piece :: rest => String c piece :: rest
           | [] => [String c EmptyString]
           end
  end.

(** [os.remove(os.path.join(path, name))]. *)
Definition os_remove (name : string) (files : list string) : list string :=
  filter (fun f => negb (String.eqb f name)) files.

Section Stride.

(** [int(piece)]; it raises when the piece is not an integer literal. *)
Variable int : string -> result Z.

Fixpoint remove_loop (listing : list string) (files : list string) (stride : Z)
  : list string * result unit :=
  match listing with
  | [] => (files, Ok tt)
  | current_file :: rest =>
      if endswith current_file ".h5" || endswith current_file ".xmf" then
        match (piece <- getitem (split "."%char current_file) 1 ;; int piece) with
        | Raise e => (files, Raise e)
        | Ok frame =>
            if (stride =? 0)%Z then (files, Raise ZeroDivisionError)
            else if negb (frame mod stride =? 0)%Z
                 then remove_loop rest (os_remove current_file files) stride
                 else remove_loop rest files stride
        end
      else remove_loop rest files stride
  end.

(** [removeFilesWithStride(path, stride)] on the directory [files]: the
    directory as the call leaves it, and what the call returned or raised. *)
Definition removeFilesWithStride (files : list string) (stride : Z)
  : list string * result unit :=
  remove_loop files files stride.

End Stride.

(** *** Vocabulary *)

(** A file the loop looks at, and its frame number. *)
Definition is_frame_file (name : string) : bool :=
  endswith name ".h5" || endswith name ".xmf".

Definition frame_of (int : string -> result Z) (name : string) : result Z :=
  piece <- getitem (split "."%char name) 1 ;; int piece.

(** The files that a run with the stride keeps: every file that is not a
    frame file, and the frame files whose number is a multiple of the
    stride. *)
Definition kept (int : string -> result Z) (stride : Z) (name : string) : bool :=
  negb (is_frame_file name) ||
  match frame_of int name with
  | Ok frame => (frame mod stride =? 0)%Z
  | Raise _ => false
  end.

(** ** [SimulationData.loadGridData]: cell centres and widths

    The function reads [grid.out] into two tables of numbers, one row
    [[index, left edge, right edge]] per radial and per polar cell; what
    follows is its second half (the four assignments to [self.x1], [self.x2],
    [self.dx1], [self.dx2]) on those two tables. *)

(** [[0.5*(coords[i][1] + coords[i][2]) for i in range(len(coords))]]. *)
Fixpoint cell_centres (coords : ndarray) : result (list Q) :=
  match coords with
  | [] => Ok []
  | row :: rest =>
      left_edge <- getitem row 1 ;;
      right_edge <- getitem row 2 ;;
      centres <- cell_centres rest ;;
      Ok ((1 # 2) * (left_edge + right_edge) :: centres)
  end.

(** [[coords[i][2] - coords[i][1] for i in range(len(coords))]]. *)
Fixpoint cell_widths (coords : ndarray) : result (list Q) :=
  match coords with
  | [] => Ok []
  | row :: rest =>
      right_edge <- getitem row 2 ;;
      left_edge <- getitem row 1 ;;
      widths <- cell_widths rest ;;
      Ok (right_edge - left_edge :: widths)
  end.

Definition set_x2 (data : Data) (ticks : list Q) : Data :=
  {| x1 := x1 data; x2 := ticks; dx1 := dx1 data; dx2 := dx2 data;
     variables := variables data |}.

Definition set_dx1 (data : Data) (widths : list Q) : Data :=
  {| x1 := x1 data; x2 := x2 data; dx1 := widths; dx2 := dx2 data;
     variables := variables data |}.

Definition set_dx2 (data : Data) (widths : list Q) : Data :=
  {| x1 := x1 data; x2 := x2 data; dx1 := dx1 data; dx2 := widths;
     variables := variables data |}.

(** The four assignments, in the order of the source: an exception leaves
    the attributes assigned before it. *)
Definition loadGridData (x1_coords x2_coords : ndarray) (self : Data)
  : outcome unit :=
  match cell_centres x1_coords with
  | Raise e => (self, Raise e)
  | Ok c1 =>
      let self := set_x1 self c1 in
      match cell_centres x2_coords with
      | Raise e => (self, Raise e)
      | Ok c2 =>
          let self := set_x2 self c2 in
          match cell_widths x1_coords with
          | Raise e => (self, Raise e)
          | Ok w1 =>
              let self := set_dx1 self w1 in
              match cell_widths x2_coords with
              | Raise e => (self, Raise e)
              | Ok w2 => (set_dx2 self w2, Ok tt)
              end
          end
      end
  end.

(** *** Vocabulary *)

(** The cells of a table lie side by side, each of a positive width: every
    row has its left edge below its right edge, and the right edge of a row
    is the left edge of the next. *)
Fixpoint contiguous (coords : ndarray) : Prop :=
  match coords with
  | [] => True
  | row :: rest =>
      (exists i l r, row = [i; l; r] /\ l < r /\
                     match rest with
                     | [] => True
                     | next :: _ => nth_error next 1 = Some r
                     end) /\
      contiguous rest
  end.

(** ** [Compute.computeTotalMass] and [Compute.computeTotalMasses] of [Tools.py] *)

(** An elementwise operation on two 1-D arrays, with broadcasting. *)
Definition np_binop1 (op : Q -> Q -> Q) (a b : list Q) : result (list Q) :=
  n <- broadcast_dim (length a) (length b) ;;
  Ok (map2 op (stretch a n) (stretch b n)).

(** [np.sum] of a 2-D array. *)
Definition np_sum (a : ndarray) : Q := fold_right Qplus 0 (ravel a).

Section TotalMass.

(** [np.pi] and the unit constants of the object ([self.data.unitDensity],
    [self.data.unitLength], [self.data.solarMass]). *)
Variables pi unitDensity unitLength solarMass : Q.

(** [computeTotalMass(self, data)]: the cell volumes
    [(x1**2 - (x1 - dx1)**2) / (4.0*len(x2)) * 2.0 * np.pi * x1], tiled over
    the polar cells, times the density, summed.  Every attribute is read
    from [self.data]; the argument [data] is not read.  The rationals follow
    the floats where no division by zero occurs, that is for an object with
    at least one polar cell and a solar mass other than 0. *)
Definition computeTotalMass (self data : Data) : result Q :=
  rho <- dict_get (variables self) "rho" ;;
  d <- np_binop1 Qminus (x1 self) (dx1 self) ;;
  s <- np_binop1 Qminus (map (fun v => v * v) (x1 self)) (map (fun v => v * v) d) ;;
  let q := map (fun v => v / (4 * inject_Z (len (x2 self))) * 2 * pi) s in
  dV <- np_binop1 Qmult q (x1 self) ;;
  let dV := repeat dV (length (x2 self)) in
  mass <- np_mul rho dV ;;
  Ok (np_sum mass * unitDensity * (unitLength * unitLength * unitLength)
      / solarMass).

(** [Data(os.path.join(path, file))], the constructor of the class [Data]
    (whose file is not among the sources), and
    [float(data.time) * data.unitTimeYears] of the object it built. *)
Variable load : string -> result Data.
Variable time_in_years : Data -> result Q.

(** The loop of [computeTotalMasses] over [os.listdir(path)]. *)
Fixpoint total_masses_loop (self : Data) (listing : list string)
         (masses times : list Q) : result (list Q * list Q) :=
  match listing with
  | [] => Ok (masses, times)
  | file :: rest =>
      if endswith file ".h5" then
        data <- load file ;;
        mass <- computeTotalMass self data ;;
        time <- time_in_years data ;;
        total_masses_loop self rest (masses ++ [mass]) (times ++ [time])
      else total_masses_loop self rest masses times
  end.

Definition computeTotalMasses (self : Data) (listing : list string)
  : result (list Q * list Q) :=
  total_masses_loop self listing [] [].

End TotalMass.

(** ** Further sample inputs *)

Module Cases.

(** [np.log10] as in the samples, and for 316 (whose logarithm is 2.4997)
    the value 2.5. *)
Definition log10 (q : Q) : Q :=
  if Qeqb q 316 then 5 # 2 else Sample.log10 q.

(** [int] on a string of decimal digits (the frame numbers of the
    examples). *)
Fixpoint digits (s : string) (acc : Z) : Z :=
  match s with
  | EmptyString => acc
  | String c s' => digits s' (10 * acc + (Z.of_nat (nat_of_ascii c) - 48))
  end.

Definition int (s : string) : result Z := Ok (digits s 0).

(** A directory with three frames and the grid file. *)
Definition frames : list string :=
  [ "data.0000.dbl.h5"; "data.0000.dbl.xmf";
    "data.0001.dbl.h5"; "data.0001.dbl.xmf";
    "data.0002.dbl.h5"; "grid.out" ]%string.

(** The tables of a grid file with three radial cells (edges 1, 2, 4, 8)
    and two polar cells (edges 0, 1, 2), and the object before any file is
    read ([SimulationData.__init__]). *)
Definition radial_cells : ndarray := [[0; 1; 2]; [1; 2; 4]; [2; 4; 8]].
Definition polar_cells : ndarray := [[0; 0; 1]; [1; 1; 2]].
Definition fresh_data : Data := mkData [] [] [] [] [].

(** The frames of the directory as [Data(...)] builds them: the mesh of the
    samples with a density that grows with the frame number, and the number
    of the frame as its time. *)
Definition load_frame (file : string) : result Data :=
  n <- frame_of int file ;;
  let rho := inject_Z n + 1 in
  Ok (mkData [1; 2; 4] [0; 1] [1; 1; 2] [1; 1]
             [("rho"%string, [[rho; rho; rho]; [rho; rho; rho]]);
              ("time"%string, [[inject_Z n]])]).

Definition frame_time (data : Data) : result Q :=
  t <- dict_get (variables data) "time" ;;
  Ok (np_sum t).

End Cases.

(** * Proofs *)
(** ** Elementary facts *)

Lemma Qleb_true (a b : Q) : Qleb a b = true <-> a <= b.
Proof. unfold Qleb. apply Qle_bool_iff. Qed.

Lemma Qleb_false (a b : Q) : Qleb a b = false <-> b < a.
Proof.
  unfold Qleb. split; intro H.
  - destruct (Qlt_le_dec b a) as [Hlt | Hle]; [exact Hlt |].
    apply Qle_bool_iff in Hle. congruence.
  - destruct (Qle_bool a b) eqn:E; [| reflexivity].
    apply Qle_bool_iff in E. lra.
Qed.

Lemma Qltb_true (a b : Q) : Qltb a b = true <-> a < b.
Proof.
  unfold Qltb. rewrite negb_true_iff. apply (Qleb_false b a).
Qed.

Lemma Qltb_false (a b : Q) : Qltb a b = false <-> b <= a.
Proof.
  unfold Qltb. rewrite negb_false_iff. apply (Qleb_true b a).
Qed.

Lemma Qeqb_true (a b : Q) : Qeqb a b = true <-> a == b.
Proof. unfold Qeqb. apply Qeq_bool_iff. Qed.

Lemma Qeqb_false (a b : Q) : Qeqb a b = false <-> ~ a == b.
Proof.
  unfold Qeqb. split; intro H.
  - intro E. apply Qeq_bool_iff in E. congruence.
  - destruct (Qeq_bool a b) eqn:E; [| reflexivity].
    apply Qeq_bool_iff in E. contradiction.
Qed.

Lemma getitem_nonneg {A : Type} (a : list A) (i : Z) :
  (0 <= i)%Z -> getitem a i =
  match nth_error a (Z.to_nat i) with Some v => Ok v | None => Raise IndexError end.
Proof.
  intro Hi. unfold getitem.
  destruct (i <? 0)%Z eqn:E; [apply Z.ltb_lt in E; lia |].
  rewrite E. reflexivity.
Qed.

Lemma getitem_nat {A : Type} (a : list A) (i : nat) (v : A) :
  nth_error a i = Some v -> getitem a (Z.of_nat i) = Ok v.
Proof.
  intro H. rewrite getitem_nonneg by lia. rewrite Nat2Z.id, H. reflexivity.
Qed.

Lemma getitem_Ok_nonneg {A : Type} (a : list A) (i : Z) (v : A) :
  (0 <= i)%Z -> getitem a i = Ok v -> nth_error a (Z.to_nat i) = Some v.
Proof.
  intros Hi H. rewrite getitem_nonneg in H by exact Hi.
  destruct (nth_error a (Z.to_nat i)); congruence.
Qed.

Lemma getitem_last {A : Type} (a : list A) (v : A) :
  getitem a (-1) = Ok v ->
  (0 < len a)%Z /\ nth_error a (Z.to_nat (len a - 1)) = Some v.
Proof.
  unfold getitem. intro H.
  destruct (-1 <? 0)%Z eqn:E0; [| discriminate E0].
  destruct (-1 + len a <? 0)%Z eqn:E; [discriminate |].
  apply Z.ltb_ge in E.
  replace (-1 + len a)%Z with (len a - 1)%Z in H by lia.
  destruct (nth_error a (Z.to_nat (len a - 1))) eqn:N; [| discriminate].
  split; [lia | congruence].
Qed.

Lemma floor_ceil_index_pos (x d : Q) :
  ~ d == 0 ->
  floor_ceil_index x d = Ok (Qfloor (x / d), Qceiling (x / d)).
Proof.
  intro Hd. unfold floor_ceil_index.
  destruct (Qeqb d 0) eqn:E; [apply Qeqb_true in E; contradiction | reflexivity].
Qed.

(** The three bracket searches are one search on the axis' bookkeeping. *)
Lemma getIndicesFor_unfold (a : axis) (c : IonFractionCollection) (q : Q) :
  getIndicesFor a c q =
  let x := q - axis_start c a in
  if Qleb x 0 then Ok (0, 0)%Z
  else if Qleb (axis_end c a - axis_start c a) x
       then Ok (axis_n c a - 1, axis_n c a - 1)%Z
       else floor_ceil_index x (axis_d c a).
Proof. destruct a; reflexivity. Qed.

(** ** Results of sequenced calls *)

Lemma bind_Ok {A B : Type} (c : result A) (k : A -> result B) (b : B) :
  bind c k = Ok b -> exists a, c = Ok a /\ k a = Ok b.
Proof. destruct c as [a | e]; simpl; [eauto | discriminate]. Qed.

Lemma bind_Raise {A B : Type} (c : result A) (k : A -> result B) (e : exn) :
  bind c k = Raise e -> c = Raise e \/ exists a, c = Ok a /\ k a = Raise e.
Proof.
  destruct c as [a | e']; simpl; [eauto |].
  intro H. left. injection H as ->. reflexivity.
Qed.

Ltac inv_bind H :=
  let a := fresh "a" in
  let E := fresh "E" in
  apply bind_Ok in H; destruct H as (a & E & H).

(** ** The table [loadIonData] builds *)

Lemma loadIonData_consistent (log10 : Q -> Q) (samples : list IonFraction)
      (c : IonFractionCollection) :
  loadIonData log10 samples = Ok c -> forall a, axis_consistent c a.
Proof.
  unfold loadIonData. intro H. repeat inv_bind H.
  injection H as <-.
  intros []; unfold axis_consistent; simpl; repeat split; eauto.
Qed.

(** *** The axes of a built table are strictly increasing *)

Lemma insert_sorted_In (x : Q) (l : list Q) (y : Q) :
  In y (insert_sorted x l) -> y = x \/ In y l.
Proof.
  induction l as [| z l IH]; cbn.
  - intros [<- | []]. left. reflexivity.
  - destruct (Qeqb x z); [intro H; right; exact H |].
    destruct (Qleb x z).
    + intros [<- | H]; [left; reflexivity | right; exact H].
    + intros [<- | H]; [right; left; reflexivity |].
      destruct (IH H) as [-> | Hin]; [left; reflexivity | right; right; exact Hin].
Qed.

Lemma insert_sorted_increasing (x : Q) (l : list Q) :
  increasing l -> increasing (insert_sorted x l).
Proof.
  unfold increasing. induction 1 as [| z l Hsorted IH Hall]; cbn.
  - repeat constructor.
  - destruct (Qeqb x z) eqn:Eeq; [constructor; assumption |].
    destruct (Qleb x z) eqn:Ele.
    + apply Qleb_true in Ele. apply Qeqb_false in Eeq.
      assert (Hxz : x < z).
      { destruct (Qlt_le_dec x z) as [H | H]; [exact H |].
        exfalso. apply Eeq. apply Qle_antisym; assumption. }
      constructor; [constructor; assumption |].
      constructor; [exact Hxz |].
      eapply Forall_impl; [| exact Hall]. cbn. intros w Hw. lra.
    + apply Qleb_false in Ele.
      constructor; [exact IH |].
      apply Forall_forall. intros w Hw.
      destruct (insert_sorted_In x l w Hw) as [-> | Hin]; [exact Ele |].
      rewrite Forall_forall in Hall. exact (Hall w Hin).
Qed.

Lemma sorted_set_increasing (xs : list Q) : increasing (sorted_set xs).
Proof.
  unfold sorted_set. induction xs as [| x xs IH]; cbn.
  - constructor.
  - apply insert_sorted_increasing. exact IH.
Qed.

Lemma sorted_set_In (xs : list Q) (y : Q) : In y (sorted_set xs) -> In y xs.
Proof.
  unfold sorted_set. induction xs as [| x xs IH]; cbn; [tauto |].
  intro H. destruct (insert_sorted_In _ _ _ H) as [-> | Hin];
    [left; reflexivity | right; exact (IH Hin)].
Qed.

Lemma map_increasing (f : Q -> Q) (l : list Q) :
  increasing_on f l -> increasing l -> increasing (map f l).
Proof.
  unfold increasing. intros Hf Hl. induction Hl as [| z l Hsorted IH Hall]; cbn.
  - constructor.
  - constructor.
    + apply IH. intros a b Ha Hb. apply Hf; right; assumption.
    + apply Forall_forall. intros w Hw. apply in_map_iff in Hw.
      destruct Hw as (v & <- & Hv). rewrite Forall_forall in Hall.
      apply Hf; [left; reflexivity | right; exact Hv | exact (Hall v Hv)].
Qed.

Lemma increasing_nth (l : list Q) :
  increasing l ->
  forall (i j : nat) (a b : Q),
    (i < j)%nat -> nth_error l i = Some a -> nth_error l j = Some b -> a < b.
Proof.
  unfold increasing. induction 1 as [| z l Hsorted IH Hall];
    intros i j a b Hij Ha Hb.
  - destruct i; discriminate.
  - destruct j as [| j]; [lia |]. cbn in Hb.
    destruct i as [| i]; cbn in Ha.
    + injection Ha as <-. rewrite Forall_forall in Hall.
      apply Hall. eapply nth_error_In. exact Hb.
    + apply (IH i j a b); [lia | assumption | assumption].
Qed.

(** The axes [loadIonData] stores. *)
Lemma loadIonData_axes (log10 : Q -> Q) (samples : list IonFraction)
      (c : IonFractionCollection) :
  loadIonData log10 samples = Ok c ->
  forall a, axis_array c a = map log10 (sorted_set (map (coordinate a) samples)).
Proof.
  unfold loadIonData. intro H. repeat inv_bind H. injection H as <-.
  intros []; reflexivity.
Qed.

(** When [log10] is strictly increasing on the coordinates of the samples,
    every axis of the built table is strictly increasing, starts below its
    end and has a positive first spacing. *)
Lemma built_axes (log10 : Q -> Q) (samples : list IonFraction)
      (c : IonFractionCollection) :
  loadIonData log10 samples = Ok c ->
  (forall a, increasing_on log10 (map (coordinate a) samples)) ->
  forall a,
    increasing (axis_array c a) /\
    axis_start c a < axis_end c a /\
    0 < axis_d c a.
Proof.
  intros Hload Hmono a.
  assert (Hinc : increasing (axis_array c a)).
  { rewrite (loadIonData_axes log10 samples c Hload a).
    apply map_increasing; [| apply sorted_set_increasing].
    intros x y Hx Hy. apply (Hmono a); apply sorted_set_In; assumption. }
  split; [exact Hinc |].
  destruct (loadIonData_consistent log10 samples c Hload a)
    as (Hn & H0 & Hlast & v1 & H1 & Hd).
  apply getitem_Ok_nonneg in H0; [| lia].
  apply getitem_Ok_nonneg in H1; [| lia].
  apply getitem_last in Hlast. destruct Hlast as [Hpos Hlast].
  change (Z.to_nat 0) with 0%nat in H0. change (Z.to_nat 1) with 1%nat in H1.
  assert (H01 : axis_start c a < v1)
    by (apply (increasing_nth _ Hinc 0 1); [lia | assumption | assumption]).
  split; [| rewrite Hd; lra].
  destruct (Nat.eq_dec (Z.to_nat (len (axis_array c a) - 1)) 1) as [E | N].
  - rewrite E in Hlast. congruence.
  - assert (Hlen : (1 < length (axis_array c a))%nat)
      by (apply nth_error_Some; congruence).
    assert (v1 < axis_end c a).
    { apply (increasing_nth _ Hinc 1 (Z.to_nat (len (axis_array c a) - 1)));
        [unfold len in *; lia | assumption | assumption]. }
    lra.
Qed.

(** ** The bracket search (claim C3) *)

Section BracketSearch.

Variables (a : axis) (c : IonFractionCollection) (q : Q).

Lemma bracket_low :
  q - axis_start c a <= 0 -> getIndicesFor a c q = Ok (0, 0)%Z.
Proof.
  intro H. rewrite getIndicesFor_unfold. cbv zeta.
  apply Qleb_true in H. rewrite H. reflexivity.
Qed.

Lemma bracket_high :
  axis_start c a < axis_end c a ->
  axis_end c a - axis_start c a <= q - axis_start c a ->
  getIndicesFor a c q = Ok (axis_n c a - 1, axis_n c a - 1)%Z.
Proof.
  intros Hse H. rewrite getIndicesFor_unfold. cbv zeta.
  assert (Hpos : Qleb (q - axis_start c a) 0 = false)
    by (apply Qleb_false; lra).
  rewrite Hpos. apply Qleb_true in H. rewrite H. reflexivity.
Qed.

Lemma bracket_inner :
  0 < axis_d c a ->
  0 < q - axis_start c a < axis_end c a - axis_start c a ->
  getIndicesFor a c q =
  Ok (Qfloor ((q - axis_start c a) / axis_d c a),
      Qceiling ((q - axis_start c a) / axis_d c a)).
Proof.
  intros Hd [Hlo Hhi]. rewrite getIndicesFor_unfold. cbv zeta.
  assert (H1 : Qleb (q - axis_start c a) 0 = false)
    by (apply Qleb_false; lra).
  assert (H2 : Qleb (axis_end c a - axis_start c a) (q - axis_start c a) = false)
    by (apply Qleb_false; lra).
  rewrite H1, H2. apply floor_ceil_index_pos. lra.
Qed.

End BracketSearch.

(** On a uniform axis of [n] entries the last entry is [start + (n-1) d]. *)
Lemma uniform_axis_end (a : axis) (c : IonFractionCollection) :
  axis_consistent c a -> axis_uniform c a ->
  (0 < axis_n c a)%Z /\
  axis_end c a == axis_start c a + inject_Z (axis_n c a - 1) * axis_d c a.
Proof.
  intros (Hn & _ & Hlast & _) (_ & Hu).
  apply getitem_last in Hlast. destruct Hlast as [Hpos Hnth].
  split; [lia |].
  rewrite (Hu _ _ Hnth). rewrite Z2Nat.id by lia. rewrite Hn. reflexivity.
Qed.

Lemma div_mul_cancel (x d : Q) : ~ d == 0 -> x / d * d == x.
Proof. intro H. field. exact H. Qed.

(** Inside a uniform axis the floor and the ceiling of the fractional index
    are positions of the axis, and their entries enclose the query. *)
Lemma uniform_axis_encloses (a : axis) (c : IonFractionCollection) (q : Q) :
  axis_consistent c a -> axis_uniform c a ->
  axis_start c a < q < axis_end c a ->
  exists l r vl vr,
    getIndicesFor a c q = Ok (l, r) /\
    (0 <= l <= r)%Z /\ (r < axis_n c a)%Z /\
    getitem (axis_array c a) l = Ok vl /\
    getitem (axis_array c a) r = Ok vr /\
    vl <= q <= vr.
Proof.
  intros Hc Hu [Hlo Hhi].
  destruct (uniform_axis_end a c Hc Hu) as [Hnpos Hend].
  destruct Hu as [Hd Hu]. destruct Hc as (Hn & _ & _ & _).
  set (x := q - axis_start c a).
  set (index := x / axis_d c a).
  assert (Hidx : index * axis_d c a == x)
    by (apply div_mul_cancel; lra).
  assert (Hidx_pos : 0 < index).
  { destruct (Qlt_le_dec 0 index) as [H | H]; [exact H |].
    assert (index * axis_d c a <= 0) by nra. unfold x in *. lra. }
  assert (Hidx_hi : index < inject_Z (axis_n c a - 1)).
  { destruct (Qlt_le_dec index (inject_Z (axis_n c a - 1))) as [H | H]; [exact H |].
    assert (inject_Z (axis_n c a - 1) * axis_d c a <= index * axis_d c a) by nra.
    unfold x in *. lra. }
  pose proof (Qfloor_le index) as Hfl.
  pose proof (Qlt_floor index) as Hfl'.
  pose proof (Qle_ceiling index) as Hce.
  pose proof (Qceiling_lt index) as Hce'.
  assert (Hl0 : (0 <= Qfloor index)%Z).
  { assert (H : 0 < inject_Z (Qfloor index + 1)) by lra.
    change 0 with (inject_Z 0) in H. rewrite <- Zlt_Qlt in H. lia. }
  assert (Hlr : (Qfloor index <= Qceiling index)%Z).
  { rewrite Zle_Qle. lra. }
  assert (Hrn : (Qceiling index < axis_n c a)%Z).
  { assert (H : inject_Z (Qceiling index - 1) < inject_Z (axis_n c a - 1)) by lra.
    rewrite <- Zlt_Qlt in H. lia. }
  assert (Hex : forall i : Z, (0 <= i < axis_n c a)%Z ->
            exists v, getitem (axis_array c a) i = Ok v /\
                      v == axis_start c a + inject_Z i * axis_d c a).
  { intros i Hi.
    destruct (nth_error (axis_array c a) (Z.to_nat i)) as [v |] eqn:E.
    - exists v. split.
      + rewrite getitem_nonneg by lia. rewrite E. reflexivity.
      + rewrite (Hu _ _ E). rewrite Z2Nat.id by lia. reflexivity.
    - apply nth_error_None in E. unfold len in Hn. lia. }
  destruct (Hex (Qfloor index)) as (vl & Hgl & Hvl); [lia |].
  destruct (Hex (Qceiling index)) as (vr & Hgr & Hvr); [lia |].
  exists (Qfloor index), (Qceiling index), vl, vr.
  split.
  { apply bracket_inner; [exact Hd |]. fold x. rewrite Hend. unfold x. lra. }
  repeat split; try lia; try assumption.
  - rewrite Hvl.
    assert (inject_Z (Qfloor index) * axis_d c a <= index * axis_d c a) by nra.
    unfold x in *. lra.
  - rewrite Hvr.
    assert (index * axis_d c a <= inject_Z (Qceiling index) * axis_d c a) by nra.
    unfold x in *. lra.
Qed.

Lemma uniform_table_uniform (a : axis) : axis_uniform Sample.uniform_table a.
Proof.
  destruct a; (split; [reflexivity |]);
    intros [| [| [| [| i]]]] v H; simpl in H;
    try discriminate; injection H as <-; reflexivity.
Qed.

(** A function is increasing on a list when the finite check succeeds. *)
Lemma increasing_on_check (f : Q -> Q) (xs : list Q) :
  forallb (fun a => forallb (fun b => implb (Qltb a b) (Qltb (f a) (f b))) xs) xs
  = true ->
  increasing_on f xs.
Proof.
  intros H a b Ha Hb Hab.
  rewrite forallb_forall in H. specialize (H a Ha).
  rewrite forallb_forall in H. specialize (H b Hb).
  apply Qltb_true in Hab. rewrite Hab in H. cbn in H.
  apply Qltb_true. exact H.
Qed.

(** C3.  In a table built by [loadIonData] (with [log10] strictly
    increasing on the sample coordinates), for each of the three axes the
    bracket search on [d = query - start] returns [(0, 0)] when [d <= 0],
    [(N-1, N-1)] when [d >= end - start], and the floor and the ceiling of
    [d / spacing] otherwise; and on a uniformly spaced axis a query strictly
    inside [(start, end)] gets positions [left <= right] of the axis whose
    entries enclose it. *)
Theorem bracket_search_clamps_and_encloses
        (log10 : Q -> Q) (samples : list IonFraction)
        (c : IonFractionCollection) (a : axis) (q : Q) :
  loadIonData log10 samples = Ok c ->
  (forall a, increasing_on log10 (map (coordinate a) samples)) ->
  let d := q - axis_start c a in
  (d <= 0 -> getIndicesFor a c q = Ok (0, 0)%Z) /\
  (axis_end c a - axis_start c a <= d ->
   getIndicesFor a c q = Ok (axis_n c a - 1, axis_n c a - 1)%Z) /\
  (0 < d < axis_end c a - axis_start c a ->
   getIndicesFor a c q =
   Ok (Qfloor (d / axis_d c a), Qceiling (d / axis_d c a))) /\
  (axis_uniform c a ->
   axis_start c a < q < axis_end c a ->
   exists l r vl vr,
     getIndicesFor a c q = Ok (l, r) /\
     (l <= r)%Z /\
     getitem (axis_array c a) l = Ok vl /\
     getitem (axis_array c a) r = Ok vr /\
     vl <= q <= vr).
Proof.
  intros Hload Hmono d. unfold d.
  destruct (built_axes log10 samples c Hload Hmono a)
    as (_ & Hse & Hd).
  pose proof (loadIonData_consistent log10 samples c Hload a) as Hc.
  repeat split.
  - apply bracket_low.
  - apply bracket_high. exact Hse.
  - apply bracket_inner. exact Hd.
  - intros Hu Hq.
    destruct (uniform_axis_encloses a c q Hc Hu Hq)
      as (l & r & vl & vr & Hg & Hlr & _ & Hl & Hr & Hv).
    exists l, r, vl, vr. repeat split; try assumption; try lia; apply Hv.
Qed.

Lemma uniform_samples_increasing (a : axis) :
  increasing_on Sample.log10 (map (coordinate a) Sample.uniform_samples).
Proof. destruct a; apply increasing_on_check; vm_compute; reflexivity. Qed.

(** The temperature axis 1, 2, 3 of the uniform sample table: a query below
    it, one above it and one strictly inside. *)
Lemma bracket_search_witness :
  getIndicesFor Temp Sample.uniform_table (1 # 2) = Ok (0, 0)%Z /\
  getIndicesFor Temp Sample.uniform_table 7 = Ok (2, 2)%Z /\
  getIndicesFor Temp Sample.uniform_table (5 # 2) = Ok (1, 2)%Z /\
  exists l r vl vr,
    getIndicesFor Temp Sample.uniform_table (5 # 2) = Ok (l, r) /\
    (l <= r)%Z /\
    getitem (axis_array Sample.uniform_table Temp) l = Ok vl /\
    getitem (axis_array Sample.uniform_table Temp) r = Ok vr /\
    vl <= 5 # 2 <= vr.
Proof.
  assert (Hload : loadIonData Sample.log10 Sample.uniform_samples
                  = Ok Sample.uniform_table) by (vm_compute; reflexivity).
  pose proof (fun q => bracket_search_clamps_and_encloses
                         Sample.log10 Sample.uniform_samples
                         Sample.uniform_table Temp q Hload
                         uniform_samples_increasing) as H.
  split; [| split; [| split]].
  - apply (proj1 (H (1 # 2))). vm_compute. discriminate.
  - apply (proj1 (proj2 (H 7))). vm_compute. discriminate.
  - apply (proj1 (proj2 (proj2 (H (5 # 2))))). split; reflexivity.
  - apply (proj2 (proj2 (proj2 (H (5 # 2))))).
    + apply uniform_table_uniform.
    + split; reflexivity.
Defined.

(** X2, the monotonic axis invariant.  After [loadIonData], with [log10]
    strictly increasing on the sample coordinates, each of the three axes of
    the table is strictly increasing, so it holds no value twice. *)
Theorem built_axes_are_increasing
        (log10 : Q -> Q) (samples : list IonFraction)
        (c : IonFractionCollection) (a : axis) :
  loadIonData log10 samples = Ok c ->
  (forall a, increasing_on log10 (map (coordinate a) samples)) ->
  increasing (axis_array c a) /\
  forall (i j : nat) (u v : Q),
    nth_error (axis_array c a) i = Some u ->
    nth_error (axis_array c a) j = Some v ->
    (i < j)%nat -> u < v.
Proof.
  intros Hload Hmono.
  destruct (built_axes log10 samples c Hload Hmono a) as (Hinc & _).
  split; [exact Hinc |].
  intros i j u v Hi Hj Hij. exact (increasing_nth _ Hinc i j u v Hij Hi Hj).
Qed.

(** The temperature axis of the uniform sample table. *)
Lemma built_axes_witness :
  increasing (axis_array Sample.uniform_table Temp) /\
  forall (i j : nat) (u v : Q),
    nth_error (axis_array Sample.uniform_table Temp) i = Some u ->
    nth_error (axis_array Sample.uniform_table Temp) j = Some v ->
    (i < j)%nat -> u < v.
Proof.
  apply (built_axes_are_increasing Sample.log10 Sample.uniform_samples).
  - vm_compute. reflexivity.
  - exact uniform_samples_increasing.
Defined.

(** ** Lookups (claims C2 and C4) *)

(** What a successful [lattice] read. *)
Lemma lattice_Ok (log10 : Q -> Q) (c : IonFractionCollection)
      (temp zeta nn : Q) (k : Lattice) :
  lattice log10 c temp zeta nn = Ok k ->
  getIndicesFor Temp c (log10 temp) = Ok (xl k, xr k) /\
  getIndicesFor Zeta c (log10 zeta) = Ok (yl k, yr k) /\
  getIndicesFor Nn c (log10 nn) = Ok (zl k, zr k) /\
  (exists x0 x1, getitem (temp_array c) (xl k) = Ok x0 /\
                 getitem (temp_array c) (xr k) = Ok x1 /\
                 x_d k = scaled_difference (log10 temp) x0 x1) /\
  (exists y0 y1, getitem (zeta_array c) (yl k) = Ok y0 /\
                 getitem (zeta_array c) (yr k) = Ok y1 /\
                 y_d k = scaled_difference (log10 zeta) y0 y1) /\
  (exists z0 z1, getitem (nn_array c) (zl k) = Ok z0 /\
                 getitem (nn_array c) (zr k) = Ok z1 /\
                 z_d k = scaled_difference (log10 nn) z0 z1) /\
  getitem3 (data c) (xl k) (yl k) (zl k) = Ok (c000 k) /\
  getitem3 (data c) (xl k) (yl k) (zr k) = Ok (c001 k) /\
  getitem3 (data c) (xl k) (yr k) (zl k) = Ok (c010 k) /\
  getitem3 (data c) (xl k) (yr k) (zr k) = Ok (c011 k) /\
  getitem3 (data c) (xr k) (yl k) (zl k) = Ok (c100 k) /\
  getitem3 (data c) (xr k) (yl k) (zr k) = Ok (c101 k) /\
  getitem3 (data c) (xr k) (yr k) (zl k) = Ok (c110 k) /\
  getitem3 (data c) (xr k) (yr k) (zr k) = Ok (c111 k).
Proof.
  unfold lattice. cbv zeta. intro H.
  inv_bind H. destruct a as [l1 r1].
  inv_bind H. destruct a as [l2 r2].
  inv_bind H. destruct a as [l3 r3].
  repeat inv_bind H. injection H as <-. simpl.
  repeat split; try assumption; eauto.
Qed.

Lemma scaled_difference_same (x x0 : Q) : scaled_difference x x0 x0 = Fin 0.
Proof.
  unfold scaled_difference.
  assert (H : Qeqb x0 x0 = true) by (apply Qeqb_true; reflexivity).
  rewrite H. reflexivity.
Qed.

(** The scaled difference is always a number: the quotient is not-a-number
    only for a zero divisor, and then the boundary case replaces it. *)
Lemma scaled_difference_weight (x x0 x1 : Q) :
  scaled_difference x x0 x1 = Fin (weight x x0 x1).
Proof.
  unfold scaled_difference, weight, np_true_divide.
  destruct (Qeqb x0 x1) eqn:E; [reflexivity |].
  destruct (Qeqb (x1 - x0) 0) eqn:E0; [| reflexivity].
  apply Qeqb_true in E0. apply Qeqb_false in E. exfalso. apply E. lra.
Qed.

Lemma trilinear_blend (k : Lattice) (wx wy wz : Q) :
  x_d k = Fin wx -> y_d k = Fin wy -> z_d k = Fin wz ->
  trilinear k = Fin (blend3 k wx wy wz).
Proof.
  intros Hx Hy Hz. unfold trilinear. cbv zeta. rewrite Hx, Hy, Hz.
  reflexivity.
Qed.

(** What a successful lookup returns: a number, the blend of the eight
    values read with the three weights. *)
Lemma lattice_weights (log10 : Q -> Q) (c : IonFractionCollection)
      (temp zeta nn : Q) (k : Lattice) :
  lattice log10 c temp zeta nn = Ok k ->
  exists x0 x1 y0 y1 z0 z1,
    getitem (temp_array c) (xl k) = Ok x0 /\
    getitem (temp_array c) (xr k) = Ok x1 /\
    getitem (zeta_array c) (yl k) = Ok y0 /\
    getitem (zeta_array c) (yr k) = Ok y1 /\
    getitem (nn_array c) (zl k) = Ok z0 /\
    getitem (nn_array c) (zr k) = Ok z1 /\
    x_d k = Fin (weight (log10 temp) x0 x1) /\
    y_d k = Fin (weight (log10 zeta) y0 y1) /\
    z_d k = Fin (weight (log10 nn) z0 z1) /\
    trilinear k = Fin (blend3 k (weight (log10 temp) x0 x1)
                                (weight (log10 zeta) y0 y1)
                                (weight (log10 nn) z0 z1)).
Proof.
  intro Hk.
  destruct (lattice_Ok _ _ _ _ _ _ Hk)
    as (_ & _ & _ & (x0 & x1 & Hx0 & Hx1 & Hxd) & (y0 & y1 & Hy0 & Hy1 & Hyd)
        & (z0 & z1 & Hz0 & Hz1 & Hzd) & _).
  rewrite scaled_difference_weight in Hxd, Hyd, Hzd.
  exists x0, x1, y0, y1, z0, z1.
  repeat (split; [assumption |]).
  apply trilinear_blend; assumption.
Qed.

Lemma Ok_inj {A : Type} (a b : A) : Ok a = Ok b -> a = b.
Proof. intro H. injection H as H. exact H. Qed.

(** The exceptions of the lookup: [IndexError] from a subscript and
    [OverflowError] from a bracket search that divides by a zero spacing.
    No step raises a division fault. *)
Lemma getitem_exn {A : Type} (l : list A) (i : Z) (e : exn) :
  getitem l i = Raise e -> e = IndexError.
Proof.
  unfold getitem.
  destruct ((if (i <? 0)%Z then (i + len l)%Z else i) <? 0)%Z;
    [intro H; congruence |].
  destruct (nth_error l _); intro H; congruence.
Qed.

Ltac raise_bind H :=
  apply bind_Raise in H;
  let a := fresh "a" in
  let E := fresh "E" in
  destruct H as [H | (a & E & H)].

Lemma getItemsFor_exn (cube : list (list (list Q))) (i j k : Z) (e : exn) :
  getitem3 cube i j k = Raise e -> e = IndexError.
Proof.
  unfold getitem3. intro H.
  raise_bind H; [exact (getitem_exn _ _ _ H) |].
  raise_bind H; [exact (getitem_exn _ _ _ H) |].
  exact (getitem_exn _ _ _ H).
Qed.

Lemma getIndicesFor_exn (a : axis) (c : IonFractionCollection) (q : Q) (e : exn) :
  getIndicesFor a c q = Raise e -> e = OverflowError.
Proof.
  rewrite getIndicesFor_unfold. cbv zeta.
  destruct (Qleb (q - axis_start c a) 0); [discriminate |].
  destruct (Qleb (axis_end c a - axis_start c a) (q - axis_start c a));
    [discriminate |].
  unfold floor_ceil_index. destruct (Qeqb (axis_d c a) 0); [| discriminate].
  intro H. congruence.
Qed.

Lemma lattice_exceptions (log10 : Q -> Q) (c : IonFractionCollection)
      (temp zeta nn : Q) (e : exn) :
  lattice log10 c temp zeta nn = Raise e ->
  e = IndexError \/ e = OverflowError.
Proof.
  unfold lattice. cbv zeta. intro H.
  apply bind_Raise in H. destruct H as [H | ([l1 r1] & _ & H)];
    [right; exact (getIndicesFor_exn Temp _ _ _ H) |].
  apply bind_Raise in H. destruct H as [H | ([l2 r2] & _ & H)];
    [right; exact (getIndicesFor_exn Zeta _ _ _ H) |].
  apply bind_Raise in H. destruct H as [H | ([l3 r3] & _ & H)];
    [right; exact (getIndicesFor_exn Nn _ _ _ H) |].
  do 6 (apply bind_Raise in H; destruct H as [H | (? & _ & H)];
        [left; exact (getitem_exn _ _ _ H) |]).
  do 8 (apply bind_Raise in H; destruct H as [H | (? & _ & H)];
        [left; exact (getItemsFor_exn _ _ _ _ _ H) |]).
  discriminate.
Qed.

(** On a uniform axis, the bracket search at the entry of position [i]
    returns [(i, i)]. *)
Lemma bracket_at_knot (a : axis) (c : IonFractionCollection) (i : nat) (q : Q) :
  axis_consistent c a -> axis_uniform c a ->
  nth_error (axis_array c a) i = Some q ->
  getIndicesFor a c q = Ok (Z.of_nat i, Z.of_nat i).
Proof.
  intros Hc Hu Hi.
  destruct (uniform_axis_end a c Hc Hu) as [Hnpos Hend].
  pose proof Hc as (Hn & _ & _ & _). pose proof Hu as (Hd & Hknot).
  pose proof (Hknot _ _ Hi) as Hq.
  assert (Hlt : (Z.of_nat i < axis_n c a)%Z).
  { rewrite Hn. unfold len.
    assert (i < length (axis_array c a))%nat
      by (apply nth_error_Some; congruence). lia. }
  destruct i as [| i'].
  - apply bracket_low. change (inject_Z (Z.of_nat 0)) with 0 in Hq. lra.
  - set (i := S i') in *.
    assert (Hipos : 0 < inject_Z (Z.of_nat i)).
    { change 0 with (inject_Z 0). rewrite <- Zlt_Qlt. unfold i. lia. }
    assert (Hx : 0 < q - axis_start c a) by (rewrite Hq; nra).
    destruct (Z.eq_dec (Z.of_nat i) (axis_n c a - 1)) as [Elast | Ninner].
    + rewrite Elast. apply bracket_high.
      * rewrite Hend, <- Elast. nra.
      * rewrite Hend, <- Elast, Hq. lra.
    + assert (Hinner : inject_Z (Z.of_nat i) < inject_Z (axis_n c a - 1))
        by (rewrite <- Zlt_Qlt; lia).
      rewrite bracket_inner.
      * assert (E : (q - axis_start c a) / axis_d c a == inject_Z (Z.of_nat i))
          by (rewrite Hq; field; lra).
        rewrite (Qfloor_comp _ _ E), (Qceiling_comp _ _ E).
        rewrite Qfloor_Z, Qceiling_Z. reflexivity.
      * exact Hd.
      * split; [exact Hx |]. rewrite Hend, Hq. nra.
Qed.

(** *** Every lookup in a built, uniformly spaced table returns a value *)

Lemma zeros3_shape (a b c : nat) : cube_shape (zeros3 a b c) a b c.
Proof.
  unfold cube_shape, zeros3. split; [apply repeat_length |].
  apply Forall_forall. intros plane Hp. apply repeat_spec in Hp. subst plane.
  split; [apply repeat_length |].
  apply Forall_forall. intros row Hr. apply repeat_spec in Hr. subst row.
  apply repeat_length.
Qed.

Lemma set_nth_spec {A : Type} (P : A -> Prop) (l : list A) :
  forall (n : nat) (v : A) (r : list A),
    set_nth l n v = Some r ->
    (n < length l)%nat /\ length r = length l /\
    (Forall P l -> P v -> Forall P r).
Proof.
  induction l as [| x l IH]; intros [| n] v r H; cbn in H; try discriminate.
  - injection H as <-. cbn. repeat split; [lia |].
    intros Hl Hv. inversion Hl; subst. constructor; assumption.
  - destruct (set_nth l n v) as [r' |] eqn:E; [| discriminate].
    injection H as <-. destruct (IH n v r' E) as (Hn & Hlen & HP).
    cbn. repeat split; [lia | lia |].
    intros Hl Hv. inversion Hl; subst. constructor; [assumption | auto].
Qed.

Lemma setitem_spec {A : Type} (P : A -> Prop) (l : list A) (n : nat) (v : A)
      (r : list A) :
  setitem l n v = Ok r ->
  (n < length l)%nat /\ length r = length l /\ (Forall P l -> P v -> Forall P r).
Proof.
  unfold setitem. destruct (set_nth l n v) as [r' |] eqn:E; [| discriminate].
  intro H. injection H as <-. exact (set_nth_spec P l n v r' E).
Qed.

Lemma getitem_In {A : Type} (l : list A) (i : nat) (v : A) :
  getitem l (Z.of_nat i) = Ok v -> In v l.
Proof.
  intro H. apply getitem_Ok_nonneg in H; [| lia]. rewrite Nat2Z.id in H.
  eapply nth_error_In. exact H.
Qed.

Lemma setitem3_shape (cube cube' : list (list (list Q))) (a b c : nat)
      (i j k : nat) (v : Q) :
  cube_shape cube a b c -> setitem3 cube i j k v = Ok cube' ->
  cube_shape cube' a b c /\ (i < a)%nat /\ (j < b)%nat /\ (k < c)%nat.
Proof.
  intros [Hlen Hplanes] H. unfold setitem3 in H.
  inv_bind H. rename a0 into plane, E into Eplane.
  inv_bind H. rename a0 into row, E into Erow.
  inv_bind H. rename a0 into row', E into Erow'.
  inv_bind H. rename a0 into plane', E into Eplane'.
  rewrite Forall_forall in Hplanes.
  destruct (Hplanes plane (getitem_In _ _ _ Eplane)) as [Hb Hrows].
  rewrite Forall_forall in Hrows.
  pose proof (Hrows row (getitem_In _ _ _ Erow)) as Hc.
  destruct (setitem_spec (fun _ => True) row k v row' Erow') as (Hk & Hlen' & _).
  destruct (setitem_spec (fun r => length r = c) plane j row' plane' Eplane')
    as (Hj & Hplen & Hprows).
  destruct (setitem_spec
              (fun p => length p = b /\ Forall (fun r => length r = c) p)
              cube i plane' cube' H) as (Hi & Hclen & Hcplanes).
  repeat split; try lia.
  apply Hcplanes.
  - apply Forall_forall. exact Hplanes.
  - split; [lia |]. apply Hprows; [apply Forall_forall; exact Hrows | lia].
Qed.

(** A successful scatter keeps the cube's shape, and every sample found its
    three positions inside the cube. *)
Lemma scatter_shape (temps zetas nns : list Q) (elements : list IonFraction) :
  forall (cube cube' : list (list (list Q))) (a b c : nat),
    cube_shape cube a b c ->
    scatter temps zetas nns elements cube = Ok cube' ->
    cube_shape cube' a b c /\
    forall e, In e elements ->
      (exists i, where_first temps (t e) = Ok i /\ (i < a)%nat) /\
      (exists j, where_first zetas (zeta e) = Ok j /\ (j < b)%nat) /\
      (exists k, where_first nns (nn e) = Ok k /\ (k < c)%nat).
Proof.
  induction elements as [| element rest IH]; intros cube cube' a b c Hshape H.
  - cbn in H. injection H as <-. split; [exact Hshape | intros e []].
  - cbn [scatter] in H.
    inv_bind H. rename a0 into i, E into Ei.
    inv_bind H. rename a0 into j, E into Ej.
    inv_bind H. rename a0 into k, E into Ek.
    inv_bind H. rename a0 into cube1, E into Eset.
    destruct (setitem3_shape _ _ _ _ _ _ _ _ _ Hshape Eset)
      as (Hshape1 & Hi & Hj & Hk).
    destruct (IH cube1 cube' a b c Hshape1 H) as (Hshape' & Hrest).
    split; [exact Hshape' |].
    intros e [<- | Hin]; [| exact (Hrest e Hin)].
    repeat split; eauto.
Qed.

Lemma where_first_increasing (l : list Q) :
  increasing l ->
  forall (p : nat) (x : Q), nth_error l p = Some x -> where_first l x = Ok p.
Proof.
  unfold increasing. induction 1 as [| y l Hsorted IH Hall]; intros p x Hp.
  - destruct p; discriminate.
  - destruct p as [| p]; cbn in Hp; cbn [where_first].
    + injection Hp as ->.
      assert (E : Qeqb x x = true) by (apply Qeqb_true; reflexivity).
      rewrite E. reflexivity.
    + assert (Hyx : y < x).
      { rewrite Forall_forall in Hall. apply Hall. eapply nth_error_In. exact Hp. }
      assert (E : Qeqb y x = false) by (apply Qeqb_false; lra).
      rewrite E, (IH p x Hp). reflexivity.
Qed.

(** An axis of a built table has at most 20 entries. *)
Lemma sorted_set_positions (coords : list Q) (bound : nat) :
  (forall x, In x coords ->
     exists i, where_first (sorted_set coords) x = Ok i /\ (i < bound)%nat) ->
  (length (sorted_set coords) <= bound)%nat.
Proof.
  intro Hfound.
  destruct (sorted_set coords) as [| y l] eqn:E; [cbn; lia |].
  set (p := length l).
  assert (Hp : (p < length (y :: l))%nat) by (cbn; lia).
  apply nth_error_Some in Hp.
  destruct (nth_error (y :: l) p) as [x |] eqn:Ex; [| contradiction].
  assert (Hin : In x coords).
  { apply sorted_set_In. rewrite E. eapply nth_error_In. exact Ex. }
  destruct (Hfound x Hin) as (i & Hi & Hbound).
  assert (Hinc : increasing (y :: l))
    by (rewrite <- E; apply sorted_set_increasing).
  rewrite (where_first_increasing _ Hinc p x Ex) in Hi.
  injection Hi as <-. cbn. unfold p in Hbound. lia.
Qed.

Lemma getitem_in_range {A : Type} (l : list A) (i : Z) :
  (0 <= i < len l)%Z -> exists v, getitem l i = Ok v /\ In v l.
Proof.
  intros Hi. rewrite getitem_nonneg by lia.
  destruct (nth_error l (Z.to_nat i)) as [v |] eqn:E.
  - exists v. split; [reflexivity | eapply nth_error_In; exact E].
  - apply nth_error_None in E. unfold len in Hi. lia.
Qed.

Lemma cube_shape_covers (cube : list (list (list Q))) (a b c : nat) (i j k : Z) :
  cube_shape cube a b c ->
  (0 <= i < Z.of_nat a)%Z -> (0 <= j < Z.of_nat b)%Z -> (0 <= k < Z.of_nat c)%Z ->
  exists v, getitem3 cube i j k = Ok v.
Proof.
  intros [Hlen Hplanes] Hi Hj Hk. unfold getitem3.
  destruct (getitem_in_range cube i) as (plane & -> & Hplane);
    [unfold len; lia |].
  rewrite Forall_forall in Hplanes. destruct (Hplanes plane Hplane) as [Hb Hrows].
  cbn [bind].
  destruct (getitem_in_range plane j) as (row & -> & Hrow);
    [unfold len; lia |].
  rewrite Forall_forall in Hrows. pose proof (Hrows row Hrow) as Hc.
  cbn [bind].
  destruct (getitem_in_range row k) as (v & -> & _); [unfold len; lia |].
  eauto.
Qed.

(** The cube of a built table covers the three axes. *)
Lemma loadIonData_covers (log10 : Q -> Q) (samples : list IonFraction)
      (c : IonFractionCollection) :
  loadIonData log10 samples = Ok c ->
  forall i j k : Z,
    (0 <= i < n_temp c)%Z -> (0 <= j < n_zeta c)%Z -> (0 <= k < n_nn c)%Z ->
    exists v, getitem3 (data c) i j k = Ok v.
Proof.
  unfold loadIonData. intro H.
  inv_bind H. rename a into cube, E into Escatter.
  repeat inv_bind H. injection H as <-. cbn [data n_temp n_zeta n_nn].
  destruct (scatter_shape _ _ _ _ _ _ 20%nat 20%nat 20%nat
              (zeros3_shape 20 20 20) Escatter) as (Hshape & Hfound).
  assert (Hbound : forall ax : axis,
             (length (sorted_set (map (coordinate ax) samples)) <= 20)%nat).
  { intro ax. apply sorted_set_positions. intros x Hx.
    apply in_map_iff in Hx. destruct Hx as (e & <- & He).
    destruct (Hfound e He) as (Ht & Hz & Hn). destruct ax; assumption. }
  intros i j k Hi Hj Hk. unfold len in Hi, Hj, Hk.
  rewrite length_map in Hi, Hj, Hk.
  pose proof (Hbound Temp) as Bt. pose proof (Hbound Zeta) as Bz.
  pose proof (Hbound Nn) as Bn. cbn [coordinate] in Bt, Bz, Bn.
  apply (cube_shape_covers cube 20 20 20 i j k Hshape); lia.
Qed.

(** On a consistent, uniformly spaced axis every query is bracketed by two
    positions of the axis. *)
Lemma bracket_in_range (a : axis) (c : IonFractionCollection) (q : Q) :
  axis_consistent c a -> axis_uniform c a ->
  exists l r vl vr,
    getIndicesFor a c q = Ok (l, r) /\
    (0 <= l < axis_n c a)%Z /\ (0 <= r < axis_n c a)%Z /\
    getitem (axis_array c a) l = Ok vl /\
    getitem (axis_array c a) r = Ok vr.
Proof.
  intros Hc Hu.
  destruct (uniform_axis_end a c Hc Hu) as [Hnpos Hend].
  pose proof Hc as (Hn & H0 & Hlast & v1 & H1 & Hd).
  pose proof Hu as (Hdpos & _).
  assert (Hn2 : (2 <= axis_n c a)%Z).
  { apply getitem_Ok_nonneg in H1; [| lia].
    assert (Z.to_nat 1 < length (axis_array c a))%nat
      by (apply nth_error_Some; congruence).
    rewrite Hn. unfold len. lia. }
  assert (Hse : axis_start c a < axis_end c a).
  { assert (0 < inject_Z (axis_n c a - 1))
      by (change 0 with (inject_Z 0); rewrite <- Zlt_Qlt; lia).
    rewrite Hend. nra. }
  destruct (Qlt_le_dec 0 (q - axis_start c a)) as [Hpos | Hlow].
  - destruct (Qlt_le_dec (q - axis_start c a) (axis_end c a - axis_start c a))
      as [Hin | Hhigh].
    + destruct (uniform_axis_encloses a c q Hc Hu) as
          (l & r & vl & vr & Hg & Hlr & Hrn & Hl & Hr & _); [lra |].
      exists l, r, vl, vr. repeat split; try assumption; lia.
    + exists (axis_n c a - 1)%Z, (axis_n c a - 1)%Z, (axis_end c a), (axis_end c a).
      assert (Hget : getitem (axis_array c a) (axis_n c a - 1) = Ok (axis_end c a)).
      { apply getitem_last in Hlast. destruct Hlast as [_ Hnth].
        rewrite getitem_nonneg by lia. rewrite Hn, Hnth. reflexivity. }
      repeat split; try lia; try exact Hget.
      apply bracket_high; assumption.
  - exists 0%Z, 0%Z, (axis_start c a), (axis_start c a).
    repeat split; try lia; try exact H0.
    apply bracket_low. exact Hlow.
Qed.

(** In a built table with uniformly spaced axes the lookup reads its
    lattice, and so returns a value, for every query. *)
Lemma lattice_total (log10 : Q -> Q) (samples : list IonFraction)
      (c : IonFractionCollection) (temp zeta nn : Q) :
  loadIonData log10 samples = Ok c ->
  (forall a, axis_uniform c a) ->
  exists k, lattice log10 c temp zeta nn = Ok k.
Proof.
  intros Hload Hu.
  pose proof (loadIonData_consistent log10 samples c Hload) as Hc.
  pose proof (loadIonData_covers log10 samples c Hload) as Hcover.
  destruct (bracket_in_range Temp c (log10 temp) (Hc Temp) (Hu Temp))
    as (xl & xr & x0 & x1 & Bx & Hxl & Hxr & Gx0 & Gx1).
  destruct (bracket_in_range Zeta c (log10 zeta) (Hc Zeta) (Hu Zeta))
    as (yl & yr & y0 & y1 & By & Hyl & Hyr & Gy0 & Gy1).
  destruct (bracket_in_range Nn c (log10 nn) (Hc Nn) (Hu Nn))
    as (zl & zr & z0 & z1 & Bz & Hzl & Hzr & Gz0 & Gz1).
  cbn [getIndicesFor axis_array axis_n] in *.
  unfold lattice. cbv zeta.
  rewrite Bx; cbn [bind]. rewrite By; cbn [bind]. rewrite Bz; cbn [bind].
  rewrite Gx0; cbn [bind]. rewrite Gx1; cbn [bind].
  rewrite Gy0; cbn [bind]. rewrite Gy1; cbn [bind].
  rewrite Gz0; cbn [bind]. rewrite Gz1; cbn [bind].
  destruct (Hcover xl yl zl Hxl Hyl Hzl) as [v000 ->]; cbn [bind].
  destruct (Hcover xl yl zr Hxl Hyl Hzr) as [v001 ->]; cbn [bind].
  destruct (Hcover xl yr zl Hxl Hyr Hzl) as [v010 ->]; cbn [bind].
  destruct (Hcover xl yr zr Hxl Hyr Hzr) as [v011 ->]; cbn [bind].
  destruct (Hcover xr yl zl Hxr Hyl Hzl) as [v100 ->]; cbn [bind].
  destruct (Hcover xr yl zr Hxr Hyl Hzr) as [v101 ->]; cbn [bind].
  destruct (Hcover xr yr zl Hxr Hyr Hzl) as [v110 ->]; cbn [bind].
  destruct (Hcover xr yr zr Hxr Hyr Hzr) as [v111 ->]; cbn [bind].
  eauto.
Qed.

Lemma weight_same (x x0 x1 : Q) : x0 == x1 -> weight x x0 x1 = 0.
Proof.
  intro H. unfold weight.
  assert (E : Qeqb x0 x1 = true) by (apply Qeqb_true; exact H).
  rewrite E. reflexivity.
Qed.

Lemma weight_apart (x x0 x1 : Q) :
  ~ x0 == x1 -> weight x x0 x1 = (x - x0) / (x1 - x0).
Proof.
  intro H. unfold weight.
  assert (E : Qeqb x0 x1 = false) by (apply Qeqb_false; exact H).
  rewrite E. reflexivity.
Qed.

(** The lookup on a table whose bracket positions can be read: a number,
    the blend of the eight values with the three weights. *)
Lemma lookup_reads (log10 : Q -> Q) (c : IonFractionCollection)
      (temp zeta nn : Q) (xl xr yl yr zl zr : Z) (x0 x1 y0 y1 z0 z1 : Q)
      (c000 c001 c010 c011 c100 c101 c110 c111 : Q) :
  getIndicesForTempValue c (log10 temp) = Ok (xl, xr) ->
  getIndicesForZetaValue c (log10 zeta) = Ok (yl, yr) ->
  getIndicesForNnValue c (log10 nn) = Ok (zl, zr) ->
  getitem (temp_array c) xl = Ok x0 -> getitem (temp_array c) xr = Ok x1 ->
  getitem (zeta_array c) yl = Ok y0 -> getitem (zeta_array c) yr = Ok y1 ->
  getitem (nn_array c) zl = Ok z0 -> getitem (nn_array c) zr = Ok z1 ->
  getitem3 (data c) xl yl zl = Ok c000 -> getitem3 (data c) xl yl zr = Ok c001 ->
  getitem3 (data c) xl yr zl = Ok c010 -> getitem3 (data c) xl yr zr = Ok c011 ->
  getitem3 (data c) xr yl zl = Ok c100 -> getitem3 (data c) xr yl zr = Ok c101 ->
  getitem3 (data c) xr yr zl = Ok c110 -> getitem3 (data c) xr yr zr = Ok c111 ->
  interpolateIonFraction log10 c temp zeta nn
  = Ok (Fin (blend (blend (blend c000 c100 (weight (log10 temp) x0 x1))
                          (blend c010 c110 (weight (log10 temp) x0 x1))
                          (weight (log10 zeta) y0 y1))
                   (blend (blend c001 c101 (weight (log10 temp) x0 x1))
                          (blend c011 c111 (weight (log10 temp) x0 x1))
                          (weight (log10 zeta) y0 y1))
                   (weight (log10 nn) z0 z1))).
Proof.
  intros Bx By Bz Gx0 Gx1 Gy0 Gy1 Gz0 Gz1 C0 C1 C2 C3 C4 C5 C6 C7.
  unfold interpolateIonFraction, lattice. cbv zeta.
  rewrite Bx; cbn [bind]. rewrite By; cbn [bind]. rewrite Bz; cbn [bind].
  rewrite Gx0; cbn [bind]. rewrite Gx1; cbn [bind].
  rewrite Gy0; cbn [bind]. rewrite Gy1; cbn [bind].
  rewrite Gz0; cbn [bind]. rewrite Gz1; cbn [bind].
  rewrite C0; cbn [bind]. rewrite C1; cbn [bind].
  rewrite C2; cbn [bind]. rewrite C3; cbn [bind].
  rewrite C4; cbn [bind]. rewrite C5; cbn [bind].
  rewrite C6; cbn [bind]. rewrite C7; cbn [bind].
  rewrite !scaled_difference_weight. reflexivity.
Qed.

(** C4 (amended).  For positive queries.  The lookup raises nothing but
    [IndexError] and [OverflowError], so never a division fault, and in a
    built table with uniformly spaced axes it returns a number: every
    position the bracket searches return can be read there.  Wherever the
    positions the bracket searches returned can be read in the axes and in
    the cube, the lookup returns a number, the trilinear blend of the eight
    values at those positions; the weight of an axis is the quotient of the
    distances where the two axis entries differ and 0 where they are equal
    (the quotient by zero raises nothing and is overwritten).  So on an
    axis whose search returned [left = right] the weight is 0 and the
    result is the blend, over the two other axes, of the four values of the
    single plane at that position. *)
Theorem zero_width_bracket_contributes_one_plane
        (log10 : Q -> Q) (c : IonFractionCollection) (temp zeta nn : Q) :
  0 < temp -> 0 < zeta -> 0 < nn ->
  (forall e : exn,
      interpolateIonFraction log10 c temp zeta nn = Raise e ->
      e = IndexError \/ e = OverflowError) /\
  (forall samples : list IonFraction,
      loadIonData log10 samples = Ok c ->
      (forall a, axis_uniform c a) ->
      (exists r : Q, interpolateIonFraction log10 c temp zeta nn = Ok (Fin r)) /\
      exists (xl xr yl yr zl zr : Z) (x0 x1 y0 y1 z0 z1 : Q)
             (c000 c001 c010 c011 c100 c101 c110 c111 : Q),
        getIndicesForTempValue c (log10 temp) = Ok (xl, xr) /\
        getIndicesForZetaValue c (log10 zeta) = Ok (yl, yr) /\
        getIndicesForNnValue c (log10 nn) = Ok (zl, zr) /\
        getitem (temp_array c) xl = Ok x0 /\ getitem (temp_array c) xr = Ok x1 /\
        getitem (zeta_array c) yl = Ok y0 /\ getitem (zeta_array c) yr = Ok y1 /\
        getitem (nn_array c) zl = Ok z0 /\ getitem (nn_array c) zr = Ok z1 /\
        getitem3 (data c) xl yl zl = Ok c000 /\
        getitem3 (data c) xl yl zr = Ok c001 /\
        getitem3 (data c) xl yr zl = Ok c010 /\
        getitem3 (data c) xl yr zr = Ok c011 /\
        getitem3 (data c) xr yl zl = Ok c100 /\
        getitem3 (data c) xr yl zr = Ok c101 /\
        getitem3 (data c) xr yr zl = Ok c110 /\
        getitem3 (data c) xr yr zr = Ok c111) /\
  forall (xl xr yl yr zl zr : Z) (x0 x1 y0 y1 z0 z1 : Q)
         (c000 c001 c010 c011 c100 c101 c110 c111 : Q),
    getIndicesForTempValue c (log10 temp) = Ok (xl, xr) ->
    getIndicesForZetaValue c (log10 zeta) = Ok (yl, yr) ->
    getIndicesForNnValue c (log10 nn) = Ok (zl, zr) ->
    getitem (temp_array c) xl = Ok x0 -> getitem (temp_array c) xr = Ok x1 ->
    getitem (zeta_array c) yl = Ok y0 -> getitem (zeta_array c) yr = Ok y1 ->
    getitem (nn_array c) zl = Ok z0 -> getitem (nn_array c) zr = Ok z1 ->
    getitem3 (data c) xl yl zl = Ok c000 ->
    getitem3 (data c) xl yl zr = Ok c001 ->
    getitem3 (data c) xl yr zl = Ok c010 ->
    getitem3 (data c) xl yr zr = Ok c011 ->
    getitem3 (data c) xr yl zl = Ok c100 ->
    getitem3 (data c) xr yl zr = Ok c101 ->
    getitem3 (data c) xr yr zl = Ok c110 ->
    getitem3 (data c) xr yr zr = Ok c111 ->
    exists wx wy wz r : Q,
      interpolateIonFraction log10 c temp zeta nn = Ok (Fin r) /\
      r == ((c000 * (1 - wx) + c100 * wx) * (1 - wy)
            + (c010 * (1 - wx) + c110 * wx) * wy) * (1 - wz)
           + ((c001 * (1 - wx) + c101 * wx) * (1 - wy)
              + (c011 * (1 - wx) + c111 * wx) * wy) * wz /\
      (~ x0 == x1 -> wx = (log10 temp - x0) / (x1 - x0)) /\
      (~ y0 == y1 -> wy = (log10 zeta - y0) / (y1 - y0)) /\
      (~ z0 == z1 -> wz = (log10 nn - z0) / (z1 - z0)) /\
      (x0 == x1 -> wx = 0) /\ (y0 == y1 -> wy = 0) /\ (z0 == z1 -> wz = 0) /\
      (xl = xr ->
       wx = 0 /\
       r == (c000 * (1 - wy) + c010 * wy) * (1 - wz)
            + (c001 * (1 - wy) + c011 * wy) * wz) /\
      (yl = yr ->
       wy = 0 /\
       r == (c000 * (1 - wx) + c100 * wx) * (1 - wz)
            + (c001 * (1 - wx) + c101 * wx) * wz) /\
      (zl = zr ->
       wz = 0 /\
       r == (c000 * (1 - wx) + c100 * wx) * (1 - wy)
            + (c010 * (1 - wx) + c110 * wx) * wy).
Proof.
  intros _ _ _. split.
  { unfold interpolateIonFraction. intros e H.
    apply bind_Raise in H. destruct H as [H | (k & _ & H)]; [| discriminate].
    exact (lattice_exceptions _ _ _ _ _ _ H). }
  split.
  { intros samples Hload Hu.
    destruct (lattice_total log10 samples c temp zeta nn Hload Hu) as [k Hk].
    destruct (lattice_weights _ _ _ _ _ _ Hk)
      as (x0 & x1 & y0 & y1 & z0 & z1 & Gx0 & Gx1 & Gy0 & Gy1 & Gz0 & Gz1
          & _ & _ & _ & Hr).
    destruct (lattice_Ok _ _ _ _ _ _ Hk)
      as (Bx & By & Bz & _ & _ & _ & C0 & C1 & C2 & C3 & C4 & C5 & C6 & C7).
    split.
    - eexists. unfold interpolateIonFraction. rewrite Hk. cbn [bind].
      rewrite Hr. reflexivity.
    - exists (xl k), (xr k), (yl k), (yr k), (zl k), (zr k),
             x0, x1, y0, y1, z0, z1,
             (c000 k), (c001 k), (c010 k), (c011 k),
             (c100 k), (c101 k), (c110 k), (c111 k).
      repeat (split; [assumption |]). assumption. }
  intros xl xr yl yr zl zr x0 x1 y0 y1 z0 z1
         c000 c001 c010 c011 c100 c101 c110 c111
         Bx By Bz Gx0 Gx1 Gy0 Gy1 Gz0 Gz1 C0 C1 C2 C3 C4 C5 C6 C7.
  exists (weight (log10 temp) x0 x1), (weight (log10 zeta) y0 y1),
         (weight (log10 nn) z0 z1).
  eexists. split.
  { exact (lookup_reads log10 c temp zeta nn xl xr yl yr zl zr x0 x1 y0 y1 z0 z1
             c000 c001 c010 c011 c100 c101 c110 c111
             Bx By Bz Gx0 Gx1 Gy0 Gy1 Gz0 Gz1 C0 C1 C2 C3 C4 C5 C6 C7). }
  split; [unfold blend; ring |].
  split; [apply weight_apart |]. split; [apply weight_apart |].
  split; [apply weight_apart |].
  split; [apply weight_same |]. split; [apply weight_same |].
  split; [apply weight_same |].
  split; [| split].
  - intro E. subst xr.
    assert (x1 = x0) by congruence. assert (c100 = c000) by congruence.
    assert (c101 = c001) by congruence. assert (c110 = c010) by congruence.
    assert (c111 = c011) by congruence. subst.
    assert (Hw : weight (log10 temp) x0 x0 = 0)
      by (apply weight_same; reflexivity).
    split; [exact Hw |]. rewrite Hw. unfold blend. ring.
  - intro E. subst yr.
    assert (y1 = y0) by congruence. assert (c010 = c000) by congruence.
    assert (c011 = c001) by congruence. assert (c110 = c100) by congruence.
    assert (c111 = c101) by congruence. subst.
    assert (Hw : weight (log10 zeta) y0 y0 = 0)
      by (apply weight_same; reflexivity).
    split; [exact Hw |]. rewrite Hw. unfold blend. ring.
  - intro E. subst zr.
    assert (z1 = z0) by congruence. assert (c001 = c000) by congruence.
    assert (c011 = c010) by congruence. assert (c101 = c100) by congruence.
    assert (c111 = c110) by congruence. subst.
    assert (Hw : weight (log10 nn) z0 z0 = 0)
      by (apply weight_same; reflexivity).
    split; [exact Hw |]. rewrite Hw. unfold blend. ring.
Qed.

(** In the uniform sample table (temperature axis 1, 2, 3) the query
    T = 1 has the logarithm 0, below the axis: the search returns (0, 0),
    the weight is 0, and the lookup at (1, 1, 10) returns the value 0.101
    stored for (10, 1, 10). *)
Lemma zero_width_bracket_witness :
  exists wx wy wz r : Q,
    interpolateIonFraction Sample.log10 Sample.uniform_table 1 1 10
    = Ok (Fin r) /\
    getIndicesForTempValue Sample.uniform_table (Sample.log10 1) = Ok (0, 0)%Z /\
    wx = 0 /\ r == 101 # 1000.
Proof.
  destruct (zero_width_bracket_contributes_one_plane
              Sample.log10 Sample.uniform_table 1 1 10)
    as (_ & _ & Hreads); [reflexivity | reflexivity | reflexivity |].
  destruct (Hreads 0%Z 0%Z 0%Z 0%Z 1%Z 1%Z 1 1 0 0 1 1
                   (1010 # 10000) (1010 # 10000) (1010 # 10000) (1010 # 10000)
                   (1010 # 10000) (1010 # 10000) (1010 # 10000) (1010 # 10000))
    as (wx & wy & wz & r & Hrun & Hr & _ & _ & _ & _ & Hwy & Hwz & Hx & _);
    try (vm_compute; reflexivity).
  destruct (Hx eq_refl) as [Hw Hplane].
  exists wx, wy, wz, r. split; [exact Hrun |].
  split; [vm_compute; reflexivity |]. split; [exact Hw |].
  rewrite Hplane, (Hwy ltac:(reflexivity)), (Hwz ltac:(reflexivity)).
  reflexivity.
Defined.

(** C4 as stated fails on the built table whose temperature axis has a
    gap (axis 0, 1, 4, 5, 6, spacing 1, five entries): for the query
    (10^5, 1, 1) all three searches return a zero-width bracket, (5, 5) for
    the temperature, and the lookup returns no value: position 5 is past
    the axis and the subscript raises. *)
Lemma zero_width_bracket_on_gapped_table :
  loadIonData Sample.log10 Sample.gapped_samples = Ok Sample.gapped_table /\
  getIndicesForTempValue Sample.gapped_table (Sample.log10 100000)
  = Ok (5, 5)%Z /\
  getIndicesForZetaValue Sample.gapped_table (Sample.log10 1) = Ok (0, 0)%Z /\
  getIndicesForNnValue Sample.gapped_table (Sample.log10 1) = Ok (0, 0)%Z /\
  len (temp_array Sample.gapped_table) = 5%Z /\
  interpolateIonFraction Sample.log10 Sample.gapped_table 100000 1 1
  = Raise IndexError /\
  ~ exists v, interpolateIonFraction Sample.log10 Sample.gapped_table 100000 1 1
              = Ok v.
Proof.
  repeat split; try (vm_compute; reflexivity).
  intros [v H]. vm_compute in H. discriminate H.
Qed.

(** C2 (amended).  In a table built by [loadIonData] whose three axes are
    uniformly spaced, the lookup evaluated at the coordinates of a stored
    corner [(i, j, k)] returns the value stored there, and all three scaled
    differences are 0.  (Without uniform spacing the bracket search, which
    divides by the first spacing, may land on other positions.) *)
Theorem lookup_at_corner_of_uniform_table
        (log10 : Q -> Q) (samples : list IonFraction)
        (c : IonFractionCollection) (i j k : nat) (temp zeta nn v : Q) :
  loadIonData log10 samples = Ok c ->
  (forall a, axis_uniform c a) ->
  nth_error (temp_array c) i = Some (log10 temp) ->
  nth_error (zeta_array c) j = Some (log10 zeta) ->
  nth_error (nn_array c) k = Some (log10 nn) ->
  getitem3 (data c) (Z.of_nat i) (Z.of_nat j) (Z.of_nat k) = Ok v ->
  exists (L : Lattice) (r : Q),
    lattice log10 c temp zeta nn = Ok L /\
    x_d L = Fin 0 /\ y_d L = Fin 0 /\ z_d L = Fin 0 /\
    interpolateIonFraction log10 c temp zeta nn = Ok (Fin r) /\
    r == v.
Proof.
  intros Hload Hu Hi Hj Hk Hv.
  pose proof (loadIonData_consistent _ _ _ Hload) as Hc.
  pose proof (bracket_at_knot Temp c i _ (Hc Temp) (Hu Temp) Hi) as Bx.
  pose proof (bracket_at_knot Zeta c j _ (Hc Zeta) (Hu Zeta) Hj) as By.
  pose proof (bracket_at_knot Nn c k _ (Hc Nn) (Hu Nn) Hk) as Bz.
  simpl getIndicesFor in Bx, By, Bz.
  apply getitem_nat in Hi, Hj, Hk.
  set (L := mkLattice (Z.of_nat i) (Z.of_nat i) (Z.of_nat j) (Z.of_nat j)
                      (Z.of_nat k) (Z.of_nat k) (Fin 0) (Fin 0) (Fin 0)
                      v v v v v v v v).
  assert (HL : lattice log10 c temp zeta nn = Ok L).
  { unfold lattice. cbv zeta.
    rewrite Bx; cbn [bind]. rewrite By; cbn [bind]. rewrite Bz; cbn [bind].
    rewrite Hi; cbn [bind]. rewrite Hj; cbn [bind]. rewrite Hk; cbn [bind].
    rewrite Hv; cbn [bind]. rewrite !scaled_difference_same. reflexivity. }
  exists L, (blend3 L 0 0 0). repeat split; try reflexivity.
  - exact HL.
  - unfold interpolateIonFraction. rewrite HL. reflexivity.
  - unfold blend3, blend, L. simpl. ring.
Qed.

Lemma lookup_at_corner_witness :
  exists (L : Lattice) (r : Q),
    lattice Sample.log10 Sample.uniform_table 100 1 10 = Ok L /\
    x_d L = Fin 0 /\ y_d L = Fin 0 /\ z_d L = Fin 0 /\
    interpolateIonFraction Sample.log10 Sample.uniform_table 100 1 10
    = Ok (Fin r) /\
    r == 2010 # 10000.
Proof.
  apply (lookup_at_corner_of_uniform_table
           Sample.log10 Sample.uniform_samples Sample.uniform_table
           1 0 1 100 1 10 (2010 # 10000)).
  - vm_compute. reflexivity.
  - exact uniform_table_uniform.
  - reflexivity.
  - reflexivity.
  - reflexivity.
  - vm_compute. reflexivity.
Defined.

(** C2 as stated fails on a built table whose temperature axis has a gap:
    the samples at T = 1, 10, 10^4, 10^5, 10^6 give the axis 0, 1, 4, 5, 6
    and the spacing 1; at the corner T = 10^4 (position 2) the search
    returns position 4 twice, and the lookup returns the value stored for
    T = 10^6. *)
Lemma lookup_at_corner_of_gapped_table :
  loadIonData Sample.log10 Sample.gapped_samples = Ok Sample.gapped_table /\
  nth_error (temp_array Sample.gapped_table) 2 = Some (Sample.log10 10000) /\
  nth_error (zeta_array Sample.gapped_table) 0 = Some (Sample.log10 1) /\
  nth_error (nn_array Sample.gapped_table) 0 = Some (Sample.log10 1) /\
  getitem3 (data Sample.gapped_table) 2 0 0 = Ok (3 # 10) /\
  getitem3 (data Sample.gapped_table) 4 0 0 = Ok (5 # 10) /\
  getIndicesForTempValue Sample.gapped_table (Sample.log10 10000) = Ok (4, 4)%Z /\
  exists r : Q,
    interpolateIonFraction Sample.log10 Sample.gapped_table 10000 1 1
    = Ok (Fin r) /\
    r == 5 # 10 /\ ~ r == 3 # 10.
Proof.
  repeat split; try (vm_compute; reflexivity).
  eexists. split; [vm_compute; reflexivity |].
  split; [reflexivity | discriminate].
Qed.

(** ** Point sampling (claims C5 and C6) *)

Lemma py_div_nonzero (a b : Q) : ~ b == 0 -> py_div a b = Ok (a / b).
Proof.
  intro H. unfold py_div.
  destruct (Qeqb b 0) eqn:E; [apply Qeqb_true in E; contradiction | reflexivity].
Qed.

Lemma cell_finite (data : fgrid) (i j : Z) :
  all_finite data -> exists v, cell data i j = Fin v.
Proof.
  intro H. unfold cell.
  assert (Hrow : Forall (fun v => is_nan v = false) (nth (Z.to_nat i) data [])).
  { destruct (nth_in_or_default (Z.to_nat i) data []) as [Hin | ->];
      [| constructor].
    unfold all_finite in H. rewrite Forall_forall in H. exact (H _ Hin). }
  destruct (nth_in_or_default (Z.to_nat j) (nth (Z.to_nat i) data []) (Fin 0))
    as [Hin | ->]; [| eauto].
  rewrite Forall_forall in Hrow. specialize (Hrow _ Hin).
  destruct (nth (Z.to_nat j) (nth (Z.to_nat i) data []) (Fin 0)) as [v |];
    [eauto | discriminate].
Qed.

(** At whole coordinates the blend of a grid without not-a-number is the
    cell of that row and column. *)
Lemma bilinear_at_cell (data : fgrid) (r c : Q) (i j : Z) :
  all_finite data ->
  r == inject_Z i -> c == inject_Z j ->
  feq (bilinear data r c) (cell data i j).
Proof.
  intros H Er Ec. unfold bilinear. cbv zeta.
  rewrite (Qfloor_comp _ _ Er), (Qfloor_comp _ _ Ec), !Qfloor_Z.
  destruct (cell_finite data i j H) as [v00 ->].
  destruct (cell_finite data i (mirror (len (hd [] data)) (j + 1)) H) as [v01 ->].
  destruct (cell_finite data (mirror (len data) (i + 1)) j H) as [v10 ->].
  destruct (cell_finite data (mirror (len data) (i + 1))
                        (mirror (len (hd [] data)) (j + 1)) H) as [v11 ->].
  cbv [fadd fmul feq]. rewrite Er, Ec. ring.
Qed.

Lemma outside_false (data : fgrid) (r c : Q) :
  outside data r c = false <->
  0 <= r <= inject_Z (len data - 1) /\ 0 <= c <= inject_Z (len (hd [] data) - 1).
Proof.
  unfold outside. rewrite !orb_false_iff, !Qltb_false. tauto.
Qed.

Lemma outside_true (data : fgrid) (r c : Q) :
  outside data r c = true <->
  r < 0 \/ inject_Z (len data - 1) < r \/
  c < 0 \/ inject_Z (len (hd [] data) - 1) < c.
Proof.
  unfold outside. rewrite !orb_true_iff, !Qltb_true. tauto.
Qed.

(** With ends that differ, both quotients are formed and the grid is
    evaluated at the index pair (Y index, X index). *)
Lemma interpolatePoint2D_index
      (x_range y_range : AxisRange) (data : fgrid) (p : Q * Q) :
  ~ range_end x_range == range_start x_range ->
  ~ range_end y_range == range_start y_range ->
  Interpolate.interpolatePoint2D x_range y_range data p
  = Ok (map_coordinates data
          ((snd p - range_start y_range) * inject_Z (range_samples y_range)
           / (range_end y_range - range_start y_range))
          ((fst p - range_start x_range) * inject_Z (range_samples x_range)
           / (range_end x_range - range_start x_range))).
Proof.
  intros Hx Hy.
  assert (Hx' : ~ range_end x_range - range_start x_range == 0) by lra.
  assert (Hy' : ~ range_end y_range - range_start y_range == 0) by lra.
  unfold Interpolate.interpolatePoint2D.
  rewrite (py_div_nonzero _ _ Hy'), (py_div_nonzero _ _ Hx'). reflexivity.
Qed.

(** The whole part of a coordinate within the cell that starts at [i]. *)
Lemma floor_in_cell (x : Q) (i : Z) :
  inject_Z i <= x < inject_Z i + 1 -> Qfloor x = i.
Proof.
  intros [Hlo Hhi].
  assert (H1 : (i <= Qfloor x)%Z).
  { rewrite <- (Qfloor_Z i). apply Qfloor_resp_le. exact Hlo. }
  assert (H2 : (Qfloor x < i + 1)%Z).
  { rewrite Zlt_Qlt, inject_Z_plus. change (inject_Z 1) with 1.
    pose proof (Qfloor_le x). lra. }
  lia.
Qed.

Lemma at2_cell (g : fgrid) (i j : nat) (v : float) :
  at2 g i j = Some v -> cell g (Z.of_nat i) (Z.of_nat j) = v.
Proof.
  unfold at2, cell. rewrite !Nat2Z.id.
  destruct (nth_error g i) as [row |] eqn:E; [| discriminate].
  intro H. rewrite (nth_error_nth _ _ [] E). exact (nth_error_nth _ _ _ H).
Qed.

Lemma at2_row_below (g : fgrid) (i j : nat) (v : float) :
  at2 g i j = Some v -> (i < length g)%nat.
Proof.
  unfold at2. destruct (nth_error g i) eqn:E; [| discriminate].
  intros _. apply nth_error_Some. congruence.
Qed.

(** The library's evaluation at a coordinate pair within the cell whose
    corners are the rows [i], [i + 1] and the columns [j], [j + 1]: the sum
    of the four corner values, each with the product of its two linear
    weights. *)
Lemma map_coordinates_in_cell (g : fgrid) (r c : Q) (i j : nat)
      (v00 v01 v10 v11 : float) :
  inject_Z (Z.of_nat i) <= r < inject_Z (Z.of_nat i) + 1 ->
  inject_Z (Z.of_nat j) <= c < inject_Z (Z.of_nat j) + 1 ->
  (S j < length (hd [] g))%nat ->
  at2 g i j = Some v00 -> at2 g i (S j) = Some v01 ->
  at2 g (S i) j = Some v10 -> at2 g (S i) (S j) = Some v11 ->
  let t := r - inject_Z (Z.of_nat i) in
  let u := c - inject_Z (Z.of_nat j) in
  map_coordinates g r c
  = fadd (fadd (fadd (fmul (Fin ((1 - t) * (1 - u))) v00)
                     (fmul (Fin ((1 - t) * u)) v01))
               (fmul (Fin (t * (1 - u))) v10))
         (fmul (Fin (t * u)) v11).
Proof.
  intros Hr Hc Hcols H00 H01 H10 H11 t u.
  pose proof (at2_row_below _ _ _ _ H10) as Hrows.
  assert (Hi0 : 0 <= inject_Z (Z.of_nat i))
    by (change 0 with (inject_Z 0); rewrite <- Zle_Qle; lia).
  assert (Hj0 : 0 <= inject_Z (Z.of_nat j))
    by (change 0 with (inject_Z 0); rewrite <- Zle_Qle; lia).
  assert (Hi1 : inject_Z (Z.of_nat i) + 1 <= inject_Z (len g - 1)).
  { change 1 with (inject_Z 1). rewrite <- inject_Z_plus, <- Zle_Qle.
    unfold len. lia. }
  assert (Hj1 : inject_Z (Z.of_nat j) + 1 <= inject_Z (len (hd [] g) - 1)).
  { change 1 with (inject_Z 1). rewrite <- inject_Z_plus, <- Zle_Qle.
    unfold len. lia. }
  unfold map_coordinates.
  assert (E : outside g r c = false) by (apply outside_false; lra).
  rewrite E. unfold bilinear. cbv zeta.
  rewrite (floor_in_cell r _ Hr), (floor_in_cell c _ Hc).
  assert (Mi : mirror (len g) (Z.of_nat i + 1) = Z.of_nat (S i)).
  { unfold mirror, len.
    destruct (Z.leb_spec (Z.of_nat (length g)) 1); [lia |].
    destruct (Z.leb_spec (Z.of_nat (length g)) (Z.of_nat i + 1)); lia. }
  assert (Mj : mirror (len (hd [] g)) (Z.of_nat j + 1) = Z.of_nat (S j)).
  { unfold mirror, len.
    destruct (Z.leb_spec (Z.of_nat (length (hd [] g))) 1); [lia |].
    destruct (Z.leb_spec (Z.of_nat (length (hd [] g))) (Z.of_nat j + 1)); lia. }
  rewrite Mi, Mj.
  rewrite (at2_cell _ _ _ _ H00), (at2_cell _ _ _ _ H01),
    (at2_cell _ _ _ _ H10), (at2_cell _ _ _ _ H11).
  reflexivity.
Qed.

(** C5.  For ranges whose ends differ, [interpolatePoint2D] and
    [singlePointInterpolation] evaluate the grid with
    [scipy.ndimage.map_coordinates] (order 1) at the fractional index whose
    first entry is [(y - y0) * ySamples / (y1 - y0)] and whose second entry
    is [(x - x0) * xSamples / (x1 - x0)]; [singlePointInterpolation] returns
    what [interpolatePoint2D] returns for each of its two grids.  For an
    index within the cell of the rows [i], [i + 1] and the columns [j],
    [j + 1] of any grid, with [t] and [u] the fractional parts of the two
    entries, the value is
    [(1-t)(1-u) g[i][j] + (1-t) u g[i][j+1] + t (1-u) g[i+1][j]
    + t u g[i+1][j+1]] when the four corners are numbers, and not-a-number
    when one of them is; and at a whole index pair of a grid without
    not-a-number it is the cell in row [index_y] and column [index_x]. *)
Theorem point_sample_index_convention
        (x_range y_range : AxisRange) (data vx1 vx2 : fgrid) (t : Q) (p : Q * Q) :
  ~ range_end x_range == range_start x_range ->
  ~ range_end y_range == range_start y_range ->
  let index_y := (snd p - range_start y_range) * inject_Z (range_samples y_range)
                 / (range_end y_range - range_start y_range) in
  let index_x := (fst p - range_start x_range) * inject_Z (range_samples x_range)
                 / (range_end x_range - range_start x_range) in
  Interpolate.interpolatePoint2D x_range y_range data p
  = Ok (map_coordinates data index_y index_x) /\
  Interpolate.singlePointInterpolation t p vx1 vx2 x_range y_range
  = Ok (map_coordinates vx1 index_y index_x, map_coordinates vx2 index_y index_x) /\
  (exists a b : float,
      Interpolate.interpolatePoint2D x_range y_range vx1 p = Ok a /\
      Interpolate.interpolatePoint2D x_range y_range vx2 p = Ok b /\
      Interpolate.singlePointInterpolation t p vx1 vx2 x_range y_range
      = Ok (a, b)) /\
  (0 <= index_y <= inject_Z (len data - 1) ->
   0 <= index_x <= inject_Z (len (hd [] data) - 1) ->
   map_coordinates data index_y index_x = bilinear data index_y index_x) /\
  (forall i j : Z,
      all_finite data ->
      (0 <= i < len data)%Z -> (0 <= j < len (hd [] data))%Z ->
      index_y == inject_Z i -> index_x == inject_Z j ->
      exists v, Interpolate.interpolatePoint2D x_range y_range data p = Ok v /\
                feq v (cell data i j)) /\
  (forall (g : fgrid) (i j : nat) (v00 v01 v10 v11 : float),
      inject_Z (Z.of_nat i) <= index_y < inject_Z (Z.of_nat i) + 1 ->
      inject_Z (Z.of_nat j) <= index_x < inject_Z (Z.of_nat j) + 1 ->
      (S j < length (hd [] g))%nat ->
      at2 g i j = Some v00 -> at2 g i (S j) = Some v01 ->
      at2 g (S i) j = Some v10 -> at2 g (S i) (S j) = Some v11 ->
      let tt := index_y - inject_Z (Z.of_nat i) in
      let uu := index_x - inject_Z (Z.of_nat j) in
      (forall a00 a01 a10 a11 : Q,
          v00 = Fin a00 -> v01 = Fin a01 -> v10 = Fin a10 -> v11 = Fin a11 ->
          exists r : Q,
            Interpolate.interpolatePoint2D x_range y_range g p = Ok (Fin r) /\
            r == (1 - tt) * (1 - uu) * a00 + (1 - tt) * uu * a01
                 + tt * (1 - uu) * a10 + tt * uu * a11) /\
      (v00 = NaN \/ v01 = NaN \/ v10 = NaN \/ v11 = NaN ->
       Interpolate.interpolatePoint2D x_range y_range g p = Ok NaN)).
Proof.
  intros Hx Hy index_y index_x.
  assert (Hx' : ~ range_end x_range - range_start x_range == 0) by lra.
  assert (Hy' : ~ range_end y_range - range_start y_range == 0) by lra.
  assert (H2D : Interpolate.interpolatePoint2D x_range y_range data p
                = Ok (map_coordinates data index_y index_x))
    by (apply interpolatePoint2D_index; assumption).
  assert (HS : Interpolate.singlePointInterpolation t p vx1 vx2 x_range y_range
               = Ok (map_coordinates vx1 index_y index_x,
                     map_coordinates vx2 index_y index_x)).
  { unfold Interpolate.singlePointInterpolation.
    rewrite (py_div_nonzero _ _ Hy'), (py_div_nonzero _ _ Hx'). reflexivity. }
  split; [exact H2D |]. split; [exact HS |]. split; [| split; [| split]].
  - exists (map_coordinates vx1 index_y index_x),
           (map_coordinates vx2 index_y index_x).
    split; [apply interpolatePoint2D_index; assumption |].
    split; [apply interpolatePoint2D_index; assumption | exact HS].
  - intros Hr Hc. unfold map_coordinates.
    assert (E : outside data index_y index_x = false)
      by (apply outside_false; split; assumption).
    rewrite E. reflexivity.
  - intros i j Hfin Hi Hj Ey Ex.
    exists (map_coordinates data index_y index_x). split; [exact H2D |].
    unfold map_coordinates.
    assert (E : outside data index_y index_x = false).
    { apply outside_false. rewrite Ey, Ex. rewrite <- !Zle_Qle.
      change 0 with (inject_Z 0). rewrite <- !Zle_Qle. lia. }
    rewrite E.
    apply bilinear_at_cell; assumption.
  - intros g i j v00 v01 v10 v11 Hr Hc Hcols H00 H01 H10 H11 tt uu.
    pose proof (map_coordinates_in_cell g index_y index_x i j v00 v01 v10 v11
                  Hr Hc Hcols H00 H01 H10 H11) as Hcell.
    cbv zeta in Hcell. fold tt uu in Hcell.
    rewrite (interpolatePoint2D_index x_range y_range g p Hx Hy).
    fold index_y index_x. split.
    + intros a00 a01 a10 a11 -> -> -> ->.
      eexists. split; [rewrite Hcell; reflexivity |]. ring.
    + intro Hnan. rewrite Hcell.
      destruct Hnan as [E | [E | [E | E]]]; rewrite E;
        [ destruct v01, v10, v11 | destruct v00, v10, v11
        | destruct v00, v01, v11 | destruct v00, v01, v10 ];
        reflexivity.
Qed.

(** The point (1/4, 1/4) on the 2 x 2 sample grid with the rows 1, 2 and
    3, 4, sampled on [[0, 1, 2]] in both directions: the index pair is
    (1/2, 1/2), the middle of the cell, and the value is the mean 5/2 of
    the four corners. *)
Lemma point_sample_witness :
  exists r : Q,
    Interpolate.interpolatePoint2D Sample.unit_range Sample.unit_range
      Sample.ramp (1 # 4, 1 # 4) = Ok (Fin r) /\
    r == 5 # 2.
Proof.
  assert (Hr : ~ range_end Sample.unit_range == range_start Sample.unit_range)
    by discriminate.
  destruct (point_sample_index_convention
              Sample.unit_range Sample.unit_range
              Sample.ramp Sample.ramp Sample.ramp 0 (1 # 4, 1 # 4) Hr Hr)
    as (_ & _ & _ & _ & _ & Hcell).
  destruct (Hcell Sample.ramp 0%nat 0%nat (Fin 1) (Fin 2) (Fin 3) (Fin 4))
    as [Hfinite _]; try reflexivity.
  - vm_compute. split; [discriminate | reflexivity].
  - vm_compute. split; [discriminate | reflexivity].
  - vm_compute. lia.
  - destruct (Hfinite 1 2 3 4 eq_refl eq_refl eq_refl eq_refl) as (r & Er & Hr').
    exists r. split; [exact Er |].
    rewrite Hr'. vm_compute. reflexivity.
Defined.

(** C6 (amended).  For ranges whose ends differ and a query point whose
    fractional index is below 0 or above the last index on either axis,
    [interpolatePoint2D] returns the fill value 0.0 of the library's default
    mode ['constant']; it is not the nearest edge sample, and nothing is
    extrapolated. *)
Theorem point_sample_outside_is_fill_value
        (x_range y_range : AxisRange) (data : fgrid) (p : Q * Q) :
  ~ range_end x_range == range_start x_range ->
  ~ range_end y_range == range_start y_range ->
  let index_y := (snd p - range_start y_range) * inject_Z (range_samples y_range)
                 / (range_end y_range - range_start y_range) in
  let index_x := (fst p - range_start x_range) * inject_Z (range_samples x_range)
                 / (range_end x_range - range_start x_range) in
  (index_y < 0 \/ inject_Z (len data - 1) < index_y \/
   index_x < 0 \/ inject_Z (len (hd [] data) - 1) < index_x) ->
  Interpolate.interpolatePoint2D x_range y_range data p = Ok (Fin 0).
Proof.
  intros Hx Hy index_y index_x Hout.
  rewrite (interpolatePoint2D_index x_range y_range data p Hx Hy).
  fold index_y index_x. unfold map_coordinates.
  apply outside_true in Hout. rewrite Hout. reflexivity.
Qed.

Lemma point_sample_outside_witness :
  Interpolate.interpolatePoint2D Sample.unit_range Sample.unit_range
    Sample.ramp (5, 0) = Ok (Fin 0).
Proof.
  apply point_sample_outside_is_fill_value.
  - discriminate.
  - discriminate.
  - right. right. right. reflexivity.
Defined.

(** C6 as stated fails: on the 2 x 2 grid of ones the point (5, 0) has the
    fractional index (0, 10), beyond the last column; the nearest edge
    sample is 1 but [interpolatePoint2D] returns 0. *)
Lemma point_sample_is_not_clamped :
  Interpolate.interpolatePoint2D Sample.unit_range Sample.unit_range
    Sample.ones (5, 0) = Ok (Fin 0) /\
  feq (nearest_edge_sample Sample.ones 0 10) (Fin 1) /\
  ~ feq (Fin 0) (nearest_edge_sample Sample.ones 0 10).
Proof.
  split; [reflexivity |]. split; [reflexivity |].
  vm_compute. discriminate.
Qed.

(** ** The streamline loop (claim C7) *)

Section StreamlineLoop.

Variable sqrt : Q -> Q.
Variable vode : Type.
Variable vode_fresh : vode.
Variable integrate :
  (Q -> Q * Q -> result (float * float)) -> Compute.ode vode -> Q -> Compute.ode vode.
Variables (vx1 vx2 : fgrid) (x_range y_range : AxisRange) (limit : Q).

Let loop := Compute.streamline_loop sqrt vode integrate vx1 vx2 x_range y_range limit.
Let step (solver : Compute.ode vode) : Compute.ode vode :=
  integrate (Compute.rhs vx1 vx2 x_range y_range) solver 1000.
Let above := above_limit sqrt vode vx1 vx2 x_range y_range limit.
Let stops := not_above_limit sqrt vode vx1 vx2 x_range y_range limit.
Let trace := after vode integrate vx1 vx2 x_range y_range.
Let path := visited vode integrate vx1 vx2 x_range y_range.

Lemma loop_stops (fuel : nat) (solver : Compute.ode vode) (x y : list Q) :
  stops solver ->
  loop (S fuel) solver x y = Some (Ok (solver, x, y)).
Proof.
  unfold loop, stops, not_above_limit, speed_at. simpl.
  intros [-> | (q & -> & Hq)]; [reflexivity |].
  simpl. apply Qltb_false in Hq. rewrite Hq. reflexivity.
Qed.

Lemma loop_steps (fuel : nat) (solver : Compute.ode vode) (x y : list Q) :
  above solver ->
  loop (S fuel) solver x y =
  loop fuel (step solver)
       (x ++ [fst (Compute.ode_y (step solver))])
       (y ++ [snd (Compute.ode_y (step solver))]).
Proof.
  unfold loop, above, above_limit, speed_at. simpl.
  intros (q & -> & Hq). simpl. apply Qltb_true in Hq. rewrite Hq. reflexivity.
Qed.

Lemma after_S (n : nat) (solver : Compute.ode vode) :
  trace (S n) solver = trace n (step solver).
Proof. unfold trace, after, step. rewrite Nat.iter_succ_r. reflexivity. Qed.

Lemma visited_S (n : nat) (solver : Compute.ode vode) :
  path (S n) solver = Compute.ode_y (step solver) :: path n (step solver).
Proof.
  unfold path, visited. cbn [seq map]. f_equal.
  rewrite <- seq_shift, map_map. apply map_ext. intro k.
  apply (f_equal Compute.ode_y (after_S k solver)).
Qed.

(** While the speed stays above the limit the loop is still running,
    whatever the number of steps taken. *)
Lemma loop_running (n : nat) :
  forall (solver : Compute.ode vode) (x y : list Q),
    (forall k, (k < n)%nat -> above (trace k solver)) ->
    forall fuel, (fuel <= n)%nat -> loop fuel solver x y = None.
Proof.
  induction n as [| n IH]; intros solver x y Habove fuel Hfuel.
  - replace fuel with O by lia. reflexivity.
  - destruct fuel as [| fuel]; [reflexivity |].
    rewrite loop_steps by (apply (Habove O); lia).
    apply IH; [| lia].
    intros k Hk. rewrite <- after_S. apply Habove. lia.
Qed.

(** The loop exits at the first point whose speed is not above the limit,
    with every point visited on the way appended to [x] and [y]. *)
Lemma loop_exits (n : nat) :
  forall (solver : Compute.ode vode) (x y : list Q),
    (forall k, (k < n)%nat -> above (trace k solver)) ->
    stops (trace n solver) ->
    forall fuel, (n < fuel)%nat ->
      loop fuel solver x y =
      Some (Ok (trace n solver,
                x ++ map fst (path n solver),
                y ++ map snd (path n solver))).
Proof.
  induction n as [| n IH]; intros solver x y Habove Hstop fuel Hfuel.
  - destruct fuel as [| fuel]; [lia |].
    rewrite loop_stops by exact Hstop.
    unfold path, visited. simpl. rewrite !app_nil_r. reflexivity.
  - destruct fuel as [| fuel]; [lia |].
    rewrite loop_steps by (apply (Habove O); lia).
    rewrite IH.
    + rewrite after_S, visited_S. cbn [map]. rewrite <- !app_assoc. reflexivity.
    + intros k Hk. rewrite <- after_S. apply Habove. lia.
    + rewrite <- after_S. exact Hstop.
    + lia.
Qed.

End StreamlineLoop.

(** C7 (amended).  [computeStreamline] has no step budget.  Started at
    [point], as long as the sampled speed [sqrt(vx1^2 + vx2^2)] at each of
    the first [n] points of the trace is above [limit] the loop is still
    running after [n] evaluations of its condition, for every [n]; and it
    exits at the first point whose sampled speed is at or below [limit] (or
    not-a-number), having appended every point it stepped to, and returns
    that point's first coordinate. *)
Theorem streamline_stops_only_on_speed
        (sqrt : Q -> Q) (vode : Type) (vode_fresh : vode)
        (integrate : (Q -> Q * Q -> result (float * float)) ->
                     Compute.ode vode -> Q -> Compute.ode vode)
        (vx1 vx2 : fgrid) (x_range y_range : AxisRange) (limit : Q)
        (point : Q * Q) (n : nat) :
  let solver := Compute.mkOde point 0 vode_fresh in
  let trace := after vode integrate vx1 vx2 x_range y_range in
  let path := visited vode integrate vx1 vx2 x_range y_range n solver in
  (forall k, (k < n)%nat ->
     above_limit sqrt vode vx1 vx2 x_range y_range limit (trace k solver)) ->
  (forall fuel, (fuel <= n)%nat ->
     Compute.streamline_loop sqrt vode integrate vx1 vx2 x_range y_range limit
       fuel solver [] [] = None /\
     Compute.computeStreamline sqrt vode vode_fresh integrate vx1 vx2
       x_range y_range limit fuel point = None) /\
  (not_above_limit sqrt vode vx1 vx2 x_range y_range limit (trace n solver) ->
   forall fuel, (n < fuel)%nat ->
     Compute.streamline_loop sqrt vode integrate vx1 vx2 x_range y_range limit
       fuel solver [] []
     = Some (Ok (trace n solver, map fst path, map snd path)) /\
     Compute.computeStreamline sqrt vode vode_fresh integrate vx1 vx2
       x_range y_range limit fuel point
     = Some (Ok (fst (Compute.ode_y (trace n solver)), 0))).
Proof.
  intros solver trace path Habove. split.
  - intros fuel Hfuel.
    assert (H : Compute.streamline_loop sqrt vode integrate vx1 vx2 x_range
                  y_range limit fuel solver [] [] = None)
      by (apply (loop_running sqrt vode integrate vx1 vx2 x_range y_range limit n);
          assumption).
    split; [exact H |].
    unfold Compute.computeStreamline. fold solver. rewrite H. reflexivity.
  - intros Hstop fuel Hfuel.
    assert (H : Compute.streamline_loop sqrt vode integrate vx1 vx2 x_range
                  y_range limit fuel solver [] []
                = Some (Ok (trace n solver, map fst path, map snd path)))
      by (apply (loop_exits sqrt vode integrate vx1 vx2 x_range y_range limit n
                            solver [] [] Habove Hstop fuel Hfuel)).
    split; [exact H |].
    unfold Compute.computeStreamline. fold solver. rewrite H. reflexivity.
Qed.

(** The fading field: the speed is 1 at the seed and 0 after one step. *)
Lemma streamline_witness :
  Compute.computeStreamline Sample.sqrt unit tt Sample.euler
    Sample.fading_vx1 Sample.fading_vx2 Sample.orbit_range Sample.orbit_range
    (1 # 2) 1 (0, 0) = None /\
  Compute.computeStreamline Sample.sqrt unit tt Sample.euler
    Sample.fading_vx1 Sample.fading_vx2 Sample.orbit_range Sample.orbit_range
    (1 # 2) 5 (0, 0) = Some (Ok (1, 0)).
Proof.
  assert (Habove : forall k, (k < 1)%nat ->
            above_limit Sample.sqrt unit Sample.fading_vx1 Sample.fading_vx2
              Sample.orbit_range Sample.orbit_range (1 # 2)
              (after unit Sample.euler Sample.fading_vx1 Sample.fading_vx2
                     Sample.orbit_range Sample.orbit_range k
                     (Compute.mkOde (0, 0) 0 tt))).
  { intros k Hk. assert (k = 0)%nat as -> by lia.
    eexists. split; [vm_compute; reflexivity | reflexivity]. }
  pose proof (streamline_stops_only_on_speed
                Sample.sqrt unit tt Sample.euler
                Sample.fading_vx1 Sample.fading_vx2
                Sample.orbit_range Sample.orbit_range (1 # 2) (0, 0) 1 Habove)
    as [Hrun Hexit].
  split.
  - apply (Hrun 1%nat). lia.
  - apply (Hexit); [| lia].
    right. eexists. split; [vm_compute; reflexivity | discriminate].
Defined.


Lemma orbit_turns (solver : Compute.ode unit) :
  corner (Compute.ode_y solver) ->
  above_limit Sample.sqrt unit Sample.orbit_vx1 Sample.orbit_vx2
    Sample.orbit_range Sample.orbit_range (1 # 2) solver /\
  corner (Compute.ode_y
            (Sample.euler (Compute.rhs Sample.orbit_vx1 Sample.orbit_vx2
                             Sample.orbit_range Sample.orbit_range)
                          solver 1000)).
Proof.
  destruct solver as [p t []]. cbn [Compute.ode_y].
  intros [-> | [-> | [-> | ->]]];
    (split;
     [ eexists; split; [vm_compute; reflexivity | reflexivity]
     | vm_compute; tauto ]).
Qed.

Lemma orbit_never_leaves (k : nat) (solver : Compute.ode unit) :
  corner (Compute.ode_y solver) ->
  corner (Compute.ode_y
            (after unit Sample.euler Sample.orbit_vx1 Sample.orbit_vx2
                   Sample.orbit_range Sample.orbit_range k solver)).
Proof.
  intro H. induction k as [| k IH]; [exact H |].
  unfold after in *. cbn [Nat.iter]. apply orbit_turns. exact IH.
Qed.

(** C7 as stated fails: the code takes no [maxSteps] and counts no steps.
    On the turning field, seeded at the origin with the limit 1/2, no
    number of steps ends the trace. *)
Lemma streamline_has_no_step_budget :
  ~ exists (fuel : nat) (r : result (Q * Q)),
      Compute.computeStreamline Sample.sqrt unit tt Sample.euler
        Sample.orbit_vx1 Sample.orbit_vx2 Sample.orbit_range Sample.orbit_range
        (1 # 2) fuel (0, 0) = Some r.
Proof.
  intros (fuel & r & H).
  assert (Habove : forall k, (k < fuel)%nat ->
            above_limit Sample.sqrt unit Sample.orbit_vx1 Sample.orbit_vx2
              Sample.orbit_range Sample.orbit_range (1 # 2)
              (after unit Sample.euler Sample.orbit_vx1 Sample.orbit_vx2
                     Sample.orbit_range Sample.orbit_range k
                     (Compute.mkOde (0, 0) 0 tt))).
  { intros k _. apply orbit_turns. apply orbit_never_leaves. left. reflexivity. }
  assert (Hnone : Compute.streamline_loop Sample.sqrt unit Sample.euler
            Sample.orbit_vx1 Sample.orbit_vx2 Sample.orbit_range
            Sample.orbit_range (1 # 2) fuel (Compute.mkOde (0, 0) 0 tt) [] []
          = None)
    by (apply (loop_running Sample.sqrt unit Sample.euler Sample.orbit_vx1
                 Sample.orbit_vx2 Sample.orbit_range Sample.orbit_range (1 # 2)
                 fuel _ [] [] Habove fuel (le_n fuel))).
  unfold Compute.computeStreamline in H. rewrite Hnone in H. discriminate H.
Qed.

(** ** Radial resampling (claims C8 and C10) *)


(** *** The interpolant of a strictly increasing axis *)

Lemma sort_knots_increasing (xs : list Q) :
  increasing xs ->
  forall ys : list Q, sort_knots (combine xs ys) = combine xs ys.
Proof.
  unfold increasing, sort_knots.
  induction 1 as [| x xs Hsorted IH Hall]; intros ys; [reflexivity |].
  destruct ys as [| y ys]; [reflexivity |].
  cbn [combine fold_right]. rewrite IH.
  destruct xs as [| x' xs']; [reflexivity |].
  destruct ys as [| y' ys']; [reflexivity |].
  cbn [combine insert_knot fst].
  assert (H : Qleb x x' = true).
  { apply Qleb_true. apply Forall_inv in Hall. lra. }
  rewrite H. reflexivity.
Qed.

Lemma combine_hd (xs ys : list Q) :
  length xs = length ys ->
  fst (hd (0, 0) (combine xs ys)) = hd 0 xs.
Proof.
  destruct xs, ys; cbn; intro H; try reflexivity; discriminate.
Qed.

Lemma combine_last (xs : list Q) :
  forall ys : list Q,
    length xs = length ys ->
    fst (List.last (combine xs ys) (0, 0)) = List.last xs 0.
Proof.
  induction xs as [| x xs IH]; intros [| y ys] H; try reflexivity;
    try discriminate.
  cbn [combine]. destruct xs as [| x' xs'].
  - destruct ys; [reflexivity | discriminate].
  - destruct ys as [| y' ys']; [discriminate |].
    specialize (IH (y' :: ys')). cbn [combine] in IH.
    injection H as H. cbn [List.last] in *. apply IH. cbn. congruence.
Qed.

(** A row of the mesh's radial length gives the interpolant on the mesh's
    own knots. *)
Lemma interp1d_mesh (xs row : list Q) :
  increasing xs -> (2 <= length xs)%nat -> length row = length xs ->
  interp1d xs row = Ok (combine xs row).
Proof.
  intros Hs Hlen Hrow. unfold interp1d.
  assert (E1 : (length xs =? length row)%nat = true)
    by (apply Nat.eqb_eq; congruence).
  assert (E2 : (length xs <? 2)%nat = false) by (apply Nat.ltb_ge; exact Hlen).
  rewrite E1, E2. cbn [negb]. rewrite sort_knots_increasing by exact Hs.
  reflexivity.
Qed.

Lemma existsb_false_Forall {A : Type} (f : A -> bool) (l : list A) :
  existsb f l = false <-> Forall (fun v => f v = false) l.
Proof.
  induction l as [| v l IH]; cbn.
  - split; [constructor | reflexivity].
  - rewrite orb_false_iff, IH. split.
    + intros [H1 H2]. constructor; assumption.
    + intro H. inversion H; subst. split; assumption.
Qed.

Lemma interp1d_call_within (xs row ticks : list Q) :
  length row = length xs -> within xs ticks ->
  interp1d_call (combine xs row) ticks
  = Ok (map (linear_at (combine xs row)) ticks).
Proof.
  intros Hrow Hin. unfold interp1d_call.
  rewrite combine_hd, combine_last by congruence.
  assert (E1 : existsb (fun v => Qltb v (hd 0 xs)) ticks = false).
  { apply existsb_false_Forall. eapply Forall_impl; [| exact Hin].
    cbn. intros v Hv. apply Qltb_false. apply Hv. }
  assert (E2 : existsb (fun v => Qltb (List.last xs 0) v) ticks = false).
  { apply existsb_false_Forall. eapply Forall_impl; [| exact Hin].
    cbn. intros v Hv. apply Qltb_false. apply Hv. }
  rewrite E1, E2. reflexivity.
Qed.

Lemma interp1d_call_outside (xs row ticks : list Q) :
  length row = length xs -> ~ within xs ticks ->
  exists e, interp1d_call (combine xs row) ticks = Raise e /\ out_of_domain e.
Proof.
  intros Hrow Hout. unfold interp1d_call.
  rewrite combine_hd, combine_last by congruence.
  destruct (existsb (fun v => Qltb v (hd 0 xs)) ticks) eqn:E1;
    [eexists; split; [reflexivity | left; reflexivity] |].
  destruct (existsb (fun v => Qltb (List.last xs 0) v) ticks) eqn:E2;
    [eexists; split; [reflexivity | right; reflexivity] |].
  exfalso. apply Hout. unfold within.
  apply existsb_false_Forall in E1, E2. rewrite Forall_forall in *.
  intros v Hv. specialize (E1 v Hv). specialize (E2 v Hv). cbn in E1, E2.
  apply Qltb_false in E1, E2. split; assumption.
Qed.


Lemma some_tick_outside_not_within (xs ticks : list Q) :
  some_tick_outside xs ticks -> ~ within xs ticks.
Proof.
  unfold some_tick_outside, within. intros Hex Hall.
  apply Exists_exists in Hex. destruct Hex as (v & Hin & Hv).
  rewrite Forall_forall in Hall. specialize (Hall v Hin). cbn in Hall. lra.
Qed.

Lemma interpolate_rows_within (xs ticks : list Q) (value : ndarray) :
  increasing xs -> (2 <= length xs)%nat ->
  rows_fit xs value -> within xs ticks ->
  interpolate_rows xs value ticks = Ok (resample xs ticks value).
Proof.
  intros Hs Hlen Hfit Hin.
  induction value as [| row rest IH]; [reflexivity |].
  inversion Hfit as [| ? ? Hrow Hrest]; subst.
  cbn [interpolate_rows resample map].
  rewrite (interp1d_mesh xs row Hs Hlen Hrow). cbn [bind].
  rewrite (interp1d_call_within xs row ticks Hrow Hin). cbn [bind].
  rewrite (IH Hrest). reflexivity.
Qed.

Lemma interpolate_rows_outside (xs ticks : list Q) (value : ndarray) :
  increasing xs -> (2 <= length xs)%nat ->
  rows_fit xs value -> value <> [] -> ~ within xs ticks ->
  exists e, interpolate_rows xs value ticks = Raise e /\ out_of_domain e.
Proof.
  intros Hs Hlen Hfit Hne Hout.
  destruct value as [| row rest]; [contradiction |].
  inversion Hfit as [| ? ? Hrow Hrest]; subst.
  destruct (interp1d_call_outside xs row ticks Hrow Hout) as (e & He & Hdom).
  exists e. split; [| exact Hdom].
  cbn [interpolate_rows].
  rewrite (interp1d_mesh xs row Hs Hlen Hrow). cbn [bind].
  rewrite He. reflexivity.
Qed.

(** *** The dictionary while the loop runs *)

Lemma dict_set_middle {V : Type} (done : dict V) (key : string) (v v' : V)
      (rest : dict V) :
  ~ In key (keys done) ->
  dict_set (done ++ (key, v) :: rest) key v' = done ++ (key, v') :: rest.
Proof.
  induction done as [| [k w] done IH]; intro Hnot; cbn.
  - rewrite String.eqb_refl. reflexivity.
  - destruct (String.eqb k key) eqn:E.
    + apply String.eqb_eq in E. exfalso. apply Hnot. left. exact E.
    + rewrite IH; [reflexivity |]. intro Hin. apply Hnot. right. exact Hin.
Qed.

Lemma radial_loop_within (ticks : list Q) (items : list (string * ndarray)) :
  forall (done : dict ndarray) (data : Data),
    variables data = done ++ items ->
    NoDup (keys (done ++ items)) ->
    increasing (x1 data) -> (2 <= length (x1 data))%nat ->
    Forall (fun kv => rows_fit (x1 data) (snd kv)) items ->
    within (x1 data) ticks ->
    radial_loop items data ticks
    = (set_variables data
         (done ++ map (fun kv => (fst kv, resample (x1 data) ticks (snd kv))) items),
       None).
Proof.
  induction items as [| [key value] rest IH];
    intros done data Hvars Hnodup Hs Hlen Hfit Hin.
  - cbn [radial_loop map]. rewrite <- Hvars.
    destruct data; reflexivity.
  - inversion Hfit as [| ? ? Hvalue Hrest]; subst. cbn [snd] in Hvalue.
    cbn [radial_loop].
    rewrite (interpolate_rows_within _ ticks value Hs Hlen Hvalue Hin).
    assert (Hnot : ~ In key (keys done)).
    { unfold keys in *. rewrite map_app in Hnodup. cbn [map fst] in Hnodup.
      apply NoDup_remove_2 in Hnodup. intro H. apply Hnodup.
      apply in_or_app. left. exact H. }
    rewrite Hvars, (dict_set_middle done key _ _ rest Hnot).
    set (value' := resample (x1 data) ticks value).
    specialize (IH (done ++ [(key, value')])
                   (set_variables data (done ++ (key, value') :: rest))).
    cbn [set_variables x1 variables] in IH.
    rewrite IH; try assumption.
    + cbn [map fst snd]. rewrite <- app_assoc. reflexivity.
    + rewrite <- app_assoc. reflexivity.
    + rewrite <- app_assoc. cbn [app].
      unfold keys in *. rewrite map_app in *. exact Hnodup.
Qed.

Lemma radial_loop_outside (ticks : list Q) (items : list (string * ndarray)) :
  forall data : Data,
    increasing (x1 data) -> (2 <= length (x1 data))%nat ->
    Forall (fun kv => rows_fit (x1 data) (snd kv)) items ->
    (exists key value, In (key, value) items /\ value <> []) ->
    ~ within (x1 data) ticks ->
    exists e, snd (radial_loop items data ticks) = Some e /\ out_of_domain e.
Proof.
  induction items as [| [key value] rest IH];
    intros data Hs Hlen Hfit (k & v & Hin & Hne) Hout.
  - contradiction.
  - inversion Hfit as [| ? ? Hvalue Hrest]; subst. cbn [snd] in Hvalue.
    cbn [radial_loop].
    destruct value as [| row value'].
    + cbn [interpolate_rows].
      apply (IH (set_variables data (dict_set (variables data) key [])));
        try assumption.
      destruct Hin as [Heq | Hin]; [injection Heq as <- <-; contradiction |].
      exists k, v. split; assumption.
    + destruct (interpolate_rows_outside (x1 data) ticks (row :: value')
                  Hs Hlen Hvalue) as (e & He & Hdom);
        [discriminate | exact Hout |].
      rewrite He. exists e. split; [reflexivity | exact Hdom].
Qed.

(** The linear interpolant between two neighbouring knots. *)
Lemma searchsorted_between (xs : list Q) :
  forall (ys : list Q) (i : nat) (a b v : Q),
    increasing xs -> length ys = length xs ->
    nth_error xs i = Some a -> nth_error xs (S i) = Some b ->
    a < v <= b ->
    searchsorted (combine xs ys) v = S i.
Proof.
  induction xs as [| x xs IH]; intros ys i a b v Hs Hlen Ha Hb Hv.
  - destruct i; discriminate.
  - destruct ys as [| y ys]; [discriminate |].
    injection Hlen as Hlen. unfold increasing in Hs.
    apply StronglySorted_inv in Hs. destruct Hs as [Hs Hall].
    cbn [combine searchsorted fst].
    destruct i as [| i].
    + cbn in Ha, Hb. injection Ha as ->.
      assert (E : Qltb a v = true) by (apply Qltb_true; lra).
      rewrite E. f_equal.
      destruct xs as [| x' xs']; [discriminate |].
      destruct ys as [| y' ys']; [discriminate |].
      cbn in Hb. injection Hb as ->. cbn [combine searchsorted fst].
      assert (E' : Qltb b v = false) by (apply Qltb_false; lra).
      rewrite E'. reflexivity.
    + cbn [nth_error] in Ha, Hb.
      assert (Hxa : x < a).
      { rewrite Forall_forall in Hall. apply Hall.
        eapply nth_error_In. exact Ha. }
      assert (E : Qltb x v = true) by (apply Qltb_true; lra).
      rewrite E. f_equal. apply (IH ys i a b v); assumption.
Qed.

Lemma nth_combine (xs : list Q) :
  forall (ys : list Q) (i : nat) (a ya : Q),
    nth_error xs i = Some a -> nth_error ys i = Some ya ->
    nth i (combine xs ys) (0, 0) = (a, ya).
Proof.
  induction xs as [| x xs IH]; intros [| y ys] [| i] a ya Ha Hy;
    try discriminate.
  - cbn in *. congruence.
  - cbn in *. apply IH; assumption.
Qed.

Lemma linear_at_between (xs ys : list Q) (i : nat) (a b ya yb v : Q) :
  increasing xs -> length ys = length xs ->
  nth_error xs i = Some a -> nth_error xs (S i) = Some b ->
  nth_error ys i = Some ya -> nth_error ys (S i) = Some yb ->
  a < v <= b ->
  linear_at (combine xs ys) v = (yb - ya) / (b - a) * (v - a) + ya.
Proof.
  intros Hs Hlen Ha Hb Hya Hyb Hv. unfold linear_at.
  rewrite (searchsorted_between xs ys i a b v Hs Hlen Ha Hb Hv).
  assert (Hi : (S i < length (combine xs ys))%nat).
  { rewrite length_combine, Hlen, Nat.min_id.
    apply nth_error_Some. congruence. }
  assert (Hclip : clip (S i) 1 (length (combine xs ys) - 1) = S i)
    by (unfold clip; lia).
  rewrite Hclip. replace (S i - 1)%nat with i by lia.
  rewrite (nth_combine xs ys i a ya Ha Hya).
  rewrite (nth_combine xs ys (S i) b yb Hb Hyb). reflexivity.
Qed.

(** On and between two neighbouring knots the interpolant lies on the
    chord through their values. *)
Lemma linear_at_chord (xs ys : list Q) (i : nat) (a b ya yb v : Q) :
  increasing xs -> length ys = length xs ->
  nth_error xs i = Some a -> nth_error xs (S i) = Some b ->
  nth_error ys i = Some ya -> nth_error ys (S i) = Some yb ->
  a <= v <= b ->
  linear_at (combine xs ys) v == ya + (yb - ya) * (v - a) / (b - a).
Proof.
  intros Hs Hlen Ha Hb Hya Hyb [Hlo Hhi].
  assert (Hab : a < b) by (apply (increasing_nth xs Hs i (S i)); auto).
  destruct (Qlt_le_dec a v) as [Hlt | Hle].
  - rewrite (linear_at_between xs ys i a b ya yb v Hs Hlen Ha Hb Hya Hyb)
      by (split; assumption).
    field. lra.
  - assert (Hv : v == a) by lra.
    destruct i as [| i].
    + destruct xs as [| x0 [| x1 xs']]; try discriminate.
      destruct ys as [| y0 [| y1 ys']]; try discriminate.
      cbn in Ha, Hb, Hya, Hyb.
      injection Ha as ->. injection Hb as ->.
      injection Hya as ->. injection Hyb as ->.
      unfold linear_at. cbn [combine searchsorted fst].
      assert (E : Qltb a v = false) by (apply Qltb_false; lra).
      rewrite E. cbn [length].
      replace (clip 0 1 (S (S (length (combine xs' ys'))) - 1)) with 1%nat
        by (unfold clip; lia).
      cbn [Nat.sub nth]. field. lra.
    + destruct (nth_error xs i) as [a' |] eqn:Ea'.
      2:{ apply nth_error_None in Ea'.
          assert (S i < length xs)%nat by (apply nth_error_Some; congruence).
          lia. }
      destruct (nth_error ys i) as [y' |] eqn:Ey'.
      2:{ apply nth_error_None in Ey'.
          assert (S i < length ys)%nat by (apply nth_error_Some; congruence).
          lia. }
      assert (Hlt : a' < a) by (apply (increasing_nth xs Hs i (S i)); auto).
      rewrite (linear_at_between xs ys i a' a y' ya v Hs Hlen Ea' Ha Ey' Hya)
        by (split; lra).
      assert (E1 : (ya - y') / (a - a') * (v - a') + y' == ya).
      { rewrite Hv. field. lra. }
      assert (E2 : ya + (yb - ya) * (v - a) / (b - a) == ya).
      { rewrite Hv. field. lra. }
      rewrite E1, E2. reflexivity.
Qed.

Lemma dict_get_map {V W : Type} (f : V -> W) (d : dict V) (key : string) (v : V) :
  dict_get d key = Ok v ->
  dict_get (map (fun kv => (fst kv, f (snd kv))) d) key = Ok (f v).
Proof.
  induction d as [| [k w] d IH]; cbn [dict_get map fst snd]; [discriminate |].
  destruct (String.eqb k key); [| exact IH].
  intro H. injection H as ->. reflexivity.
Qed.

(** A cell of a resampled field: the row's interpolant at the tick. *)
Lemma resample_cell (xs ticks : list Q) (value : ndarray) (i m : nat)
      (row : list Q) (v : Q) :
  nth_error value i = Some row -> nth_error ticks m = Some v ->
  at2 (resample xs ticks value) i m = Some (linear_at (combine xs row) v).
Proof.
  intros Hrow Hv. unfold at2, resample.
  rewrite nth_error_map, Hrow. cbn [option_map].
  rewrite nth_error_map, Hv. reflexivity.
Qed.


Lemma resample_shapes (xs ticks : list Q) (vars : dict ndarray) :
  Forall2 (fun old new =>
             fst new = fst old /\
             length (snd new) = length (snd old) /\
             Forall (fun row => length row = length ticks) (snd new))
          vars
          (map (fun kv => (fst kv, resample xs ticks (snd kv))) vars).
Proof.
  induction vars as [| [key value] rest IH]; constructor; [| exact IH].
  cbn [fst snd]. unfold resample. rewrite length_map.
  repeat split. apply Forall_forall. intros row Hrow.
  apply in_map_iff in Hrow. destruct Hrow as (row0 & <- & _).
  apply length_map.
Qed.

(** C8 (amended).  On a mesh with its invariant, [interpolateRadialGrid]
    (either copy) raises the interpolant's out-of-domain [ValueError] when
    some tick lies outside [[x1[0], x1[-1]]] and some field has a row; when
    every tick lies inside it returns normally, every field replaced by its
    row-by-row linear interpolation onto the ticks (same names, same number
    of rows, rows as long as the ticks) and [x1] replaced by the ticks: in
    row [i] of a field the new value at a tick [v] that lies on or between
    the neighbouring entries [a = x1[j]] and [b = x1[j+1]] of the old axis
    is [ya + (yb - ya) (v - a) / (b - a)], on the chord through the old
    values [ya], [yb] of the row at [j] and [j + 1].
    (With no field row nothing is interpolated and nothing is raised.) *)
Theorem radial_resample_domain (data : Data) (ticks : list Q) :
  mesh_invariant data ->
  ((exists key value, In (key, value) (variables data) /\ value <> []) ->
   some_tick_outside (x1 data) ticks ->
   exists e,
     out_of_domain e /\
     snd (Interpolate.interpolateRadialGrid data ticks) = Raise e /\
     snd (simulationData.Tools.interpolateRadialGrid data ticks) = Raise e) /\
  (within (x1 data) ticks ->
   Interpolate.interpolateRadialGrid data ticks
   = (resampled data ticks, Ok (resampled data ticks)) /\
   simulationData.Tools.interpolateRadialGrid data ticks
   = (resampled data ticks, Ok tt) /\
   x1 (resampled data ticks) = ticks /\
   Forall2 (fun old new =>
              fst new = fst old /\
              length (snd new) = length (snd old) /\
              Forall (fun row => length row = length ticks) (snd new))
           (variables data) (variables (resampled data ticks)) /\
   forall (key : string) (value : ndarray) (i m j : nat) (v a b ya yb : Q),
     dict_get (variables data) key = Ok value ->
     nth_error ticks m = Some v ->
     nth_error (x1 data) j = Some a -> nth_error (x1 data) (S j) = Some b ->
     a <= v <= b ->
     at2 value i j = Some ya -> at2 value i (S j) = Some yb ->
     exists (new_value : ndarray) (r : Q),
       dict_get (variables (fst (Interpolate.interpolateRadialGrid data ticks)))
                key = Ok new_value /\
       dict_get (variables
                   (fst (simulationData.Tools.interpolateRadialGrid data ticks)))
                key = Ok new_value /\
       at2 new_value i m = Some r /\
       r == ya + (yb - ya) * (v - a) / (b - a)).
Proof.
  intros (Hs & Hlen & Hnodup & Hfit). split.
  - intros Hfield Hout. apply some_tick_outside_not_within in Hout.
    destruct (radial_loop_outside ticks (variables data) data
                Hs Hlen Hfit Hfield Hout) as (e & He & Hdom).
    exists e. split; [exact Hdom |].
    unfold Interpolate.interpolateRadialGrid,
      simulationData.Tools.interpolateRadialGrid.
    destruct (radial_loop (variables data) data ticks) as [data' [e' |]];
      cbn in He; [| discriminate].
    injection He as ->. split; reflexivity.
  - intro Hin.
    pose proof (radial_loop_within ticks (variables data) [] data
                  eq_refl Hnodup Hs Hlen Hfit Hin) as Hloop.
    cbn [app] in Hloop.
    unfold Interpolate.interpolateRadialGrid,
      simulationData.Tools.interpolateRadialGrid.
    rewrite Hloop. cbn [set_x1 set_variables x1 x2 dx1 dx2 variables].
    fold (resampled data ticks).
    split; [reflexivity |]. split; [reflexivity |]. split; [reflexivity |].
    split; [apply resample_shapes |].
    intros key value i m j v a b ya yb Hget Hv Ha Hb Hab Hya Hyb.
    unfold at2 in Hya, Hyb.
    destruct (nth_error value i) as [row |] eqn:Erow; [| discriminate].
    assert (Hrow : length row = length (x1 data)).
    { assert (Hkv : In (key, value) (variables data)).
      { clear - Hget. induction (variables data) as [| [k w] d IH];
          cbn [dict_get] in Hget; [discriminate |].
        destruct (String.eqb_spec k key) as [-> | _].
        - injection Hget as ->. left. reflexivity.
        - right. exact (IH Hget). }
      rewrite Forall_forall in Hfit. specialize (Hfit _ Hkv). cbn [snd] in Hfit.
      unfold rows_fit in Hfit. rewrite Forall_forall in Hfit. apply Hfit.
      eapply nth_error_In. exact Erow. }
    exists (resample (x1 data) ticks value), (linear_at (combine (x1 data) row) v).
    cbn [fst variables resampled].
    split; [exact (dict_get_map _ _ _ _ Hget) |].
    split; [exact (dict_get_map _ _ _ _ Hget) |].
    split; [exact (resample_cell _ _ _ _ _ _ _ Erow Hv) |].
    exact (linear_at_chord (x1 data) row j a b ya yb v Hs Hrow Ha Hb Hya Hyb Hab).
Qed.

Lemma mesh_data_invariant : mesh_invariant Sample.mesh_data.
Proof.
  split; [| split; [| split]].
  - repeat constructor.
  - cbn. lia.
  - repeat constructor; cbn; intuition discriminate.
  - repeat constructor.
Qed.

(** The sample mesh 1, 2, 4: the ticks 0, 3 leave it, the ticks 1, 3, 4 lie
    inside; the density row 1, 2, 4 gets the value 3 at the tick 3, halfway
    between the entries 2 and 4 of the axis. *)
Lemma radial_resample_witness :
  (exists e,
      out_of_domain e /\
      snd (Interpolate.interpolateRadialGrid Sample.mesh_data [0; 3]) = Raise e /\
      snd (simulationData.Tools.interpolateRadialGrid Sample.mesh_data [0; 3])
      = Raise e) /\
  Interpolate.interpolateRadialGrid Sample.mesh_data [1; 3; 4]
  = (resampled Sample.mesh_data [1; 3; 4],
     Ok (resampled Sample.mesh_data [1; 3; 4])) /\
  exists (rho : ndarray) (r : Q),
    dict_get (variables (fst (Interpolate.interpolateRadialGrid
                                Sample.mesh_data [1; 3; 4]))) "rho" = Ok rho /\
    at2 rho 0 1 = Some r /\ r == 3.
Proof.
  pose proof (radial_resample_domain Sample.mesh_data [0; 3] mesh_data_invariant)
    as [Hraise _].
  pose proof (radial_resample_domain Sample.mesh_data [1; 3; 4] mesh_data_invariant)
    as [_ Hok].
  split.
  - apply Hraise.
    + exists "rho"%string, [[1; 2; 4]; [2; 4; 8]].
      split; [left; reflexivity | discriminate].
    + constructor. left. reflexivity.
  - assert (Hin : within (x1 Sample.mesh_data) [1; 3; 4])
      by (repeat constructor; discriminate).
    destruct (Hok Hin) as (Hrun & _ & _ & _ & Hvalues).
    split; [exact Hrun |].
    destruct (Hvalues "rho"%string [[1; 2; 4]; [2; 4; 8]] 0%nat 1%nat 1%nat
                      3 2 4 2 4)
      as (rho & r & Hrho & _ & Hcell & Hr); try reflexivity.
    + split; discriminate.
    + exists rho, r. split; [exact Hrho |]. split; [exact Hcell |].
      rewrite Hr. reflexivity.
Defined.

(** C8 as stated fails when no field has a row: on the sample mesh without
    fields the tick 7 lies outside [[1, 4]], yet nothing is raised and [x1]
    becomes the new ticks. *)
Lemma radial_resample_without_fields :
  mesh_invariant Sample.bare_data /\
  some_tick_outside (x1 Sample.bare_data) [7] /\
  Interpolate.interpolateRadialGrid Sample.bare_data [7]
  = (set_x1 Sample.bare_data [7], Ok (set_x1 Sample.bare_data [7])) /\
  simulationData.Tools.interpolateRadialGrid Sample.bare_data [7]
  = (set_x1 Sample.bare_data [7], Ok tt).
Proof.
  split; [| split; [| split; reflexivity]].
  - split; [| split; [| split]]; repeat constructor.
  - constructor. right. reflexivity.
Qed.




(** ** The rotation to cylindrical components (claim C9) *)

Lemma broadcast_dim_ok (n m : nat) :
  dim_ok n m = true -> exists k, broadcast_dim n m = Ok k.
Proof.
  unfold dim_ok, broadcast_dim. intro H.
  destruct (n =? m)%nat; [eauto |].
  destruct (n =? 1)%nat; [eauto |].
  destruct (m =? 1)%nat; [eauto | discriminate].
Qed.

Lemma broadcast_dim_fails (n m : nat) :
  dim_ok n m = false -> broadcast_dim n m = Raise (ValueError CannotBroadcast).
Proof.
  unfold dim_ok, broadcast_dim. intro H.
  destruct (n =? m)%nat; [discriminate |].
  destruct (n =? 1)%nat; [discriminate |].
  destruct (m =? 1)%nat; [discriminate | reflexivity].
Qed.

Lemma np_binop_returns (op : Q -> Q -> Q) (a b : ndarray) :
  broadcastable (shape a) (shape b) = true -> exists c, np_binop op a b = Ok c.
Proof.
  unfold broadcastable, np_binop. intro H. apply andb_true_iff in H.
  destruct H as [Hr Hc].
  destruct (broadcast_dim_ok _ _ Hr) as [r ->].
  destruct (broadcast_dim_ok _ _ Hc) as [c ->].
  cbn [bind]. eauto.
Qed.

Lemma np_binop_raises (op : Q -> Q -> Q) (a b : ndarray) :
  broadcastable (shape a) (shape b) = false ->
  np_binop op a b = Raise (ValueError CannotBroadcast).
Proof.
  unfold broadcastable, np_binop. intro H. apply andb_false_iff in H.
  destruct (dim_ok (fst (shape a)) (fst (shape b))) eqn:Hr.
  - destruct H as [H | Hc]; [discriminate |].
    destruct (broadcast_dim_ok _ _ Hr) as [r ->]. cbn [bind].
    rewrite (broadcast_dim_fails _ _ Hc). reflexivity.
  - rewrite (broadcast_dim_fails _ _ Hr). reflexivity.
Qed.

(** The only exception of an elementwise operation. *)
Lemma np_binop_exn (op : Q -> Q -> Q) (a b : ndarray) (e : exn) :
  np_binop op a b = Raise e -> e = ValueError CannotBroadcast.
Proof.
  destruct (broadcastable (shape a) (shape b)) eqn:E.
  - destruct (np_binop_returns op a b E) as [c ->]. discriminate.
  - rewrite (np_binop_raises op a b E). intro H. injection H as <-. reflexivity.
Qed.

Lemma shape_np_map (f : Q -> Q) (a : ndarray) : shape (np_map f a) = shape a.
Proof.
  unfold shape, np_map. rewrite length_map.
  destruct a as [| row a]; cbn; [reflexivity |]. rewrite length_map. reflexivity.
Qed.

Lemma rotation_raises (sin cos : Q -> Q) (data : Data) (f1 f2 : ndarray) :
  let mesh := tile_transpose (x2 data) (length (x1 data)) in
  broadcastable (shape f1) (shape mesh) = false \/
  broadcastable (shape f2) (shape mesh) = false ->
  rotation sin cos data f1 f2 = Raise (ValueError CannotBroadcast).
Proof.
  intros mesh H. unfold rotation. fold mesh.
  destruct (np_mul f1 (np_map sin mesh)) as [a | e] eqn:Ea.
  - cbn [bind].
    destruct H as [H | H].
    + unfold np_mul in Ea. rewrite np_binop_raises in Ea; [discriminate |].
      rewrite shape_np_map. exact H.
    + unfold np_mul at 1. rewrite np_binop_raises; [reflexivity |].
      rewrite shape_np_map. exact H.
  - cbn [bind]. apply np_binop_exn in Ea. rewrite Ea. reflexivity.
Qed.

(** *** A single row against the mesh *)

Lemma stretch_id {A : Type} (l : list A) (n : nat) :
  length l = n -> stretch l n = l.
Proof.
  destruct l as [| x [| y l]]; cbn; intro H; try reflexivity.
  subst n. reflexivity.
Qed.

Lemma map_stretch_id {A : Type} (a : list (list A)) (n : nat) :
  Forall (fun row => length row = n) a ->
  map (fun row => stretch row n) a = a.
Proof.
  induction 1 as [| row a Hrow _ IH]; cbn; [reflexivity |].
  rewrite (stretch_id row n Hrow), IH. reflexivity.
Qed.

Lemma map2_repeat_l {A B C : Type} (f : A -> B -> C) (x : A) (b : list B) :
  map2 f (repeat x (length b)) b = map (f x) b.
Proof. induction b as [| y b IH]; cbn; [reflexivity | rewrite IH; reflexivity]. Qed.

Lemma map2_maps {A B C D : Type} (g : B -> C -> D) (f1 : A -> B) (f2 : A -> C)
      (l : list A) :
  map2 g (map f1 l) (map f2 l) = map (fun x => g (f1 x) (f2 x)) l.
Proof. induction l as [| x l IH]; cbn; [reflexivity | rewrite IH; reflexivity]. Qed.

Lemma length_map2 {A B C : Type} (f : A -> B -> C) (a : list A) :
  forall b : list B, length a = length b -> length (map2 f a b) = length a.
Proof.
  induction a as [| x a IH]; intros [| y b] H; cbn in *; try reflexivity;
    try discriminate.
  rewrite IH; [reflexivity | congruence].
Qed.

Lemma broadcast_dim_one (m : nat) : broadcast_dim 1 m = Ok m.
Proof.
  unfold broadcast_dim. destruct (1 =? m)%nat eqn:E; [| reflexivity].
  apply Nat.eqb_eq in E. subst m. reflexivity.
Qed.

Lemma broadcast_dim_same (n : nat) : broadcast_dim n n = Ok n.
Proof. unfold broadcast_dim. rewrite Nat.eqb_refl. reflexivity. Qed.

(** A single row is repeated along the rows of the other operand. *)
Lemma np_binop_row (op : Q -> Q -> Q) (row : list Q) (b : ndarray) :
  b <> [] -> Forall (fun r => length r = length row) b ->
  np_binop op [row] b = Ok (map (map2 op row) b).
Proof.
  intros Hne Hrows. unfold np_binop.
  assert (Hcols : snd (shape b) = length row).
  { destruct b as [| r b']; [contradiction |]. cbn. apply Forall_inv in Hrows.
    exact Hrows. }
  cbn [shape fst snd hd length] in *. rewrite broadcast_dim_one. cbn [bind].
  rewrite Hcols, broadcast_dim_same. cbn [bind map].
  rewrite (stretch_id row _ eq_refl). cbn [stretch].
  rewrite (map_stretch_id b _ Hrows), (stretch_id b _ eq_refl).
  rewrite map2_repeat_l. reflexivity.
Qed.

(** Operands of one shape are combined entry by entry. *)
Lemma np_binop_same (op : Q -> Q -> Q) (a b : ndarray) (n : nat) :
  length a = length b ->
  Forall (fun r => length r = n) a -> Forall (fun r => length r = n) b ->
  np_binop op a b = Ok (map2 (map2 op) a b).
Proof.
  intros Hlen Ha Hb. unfold np_binop. cbn [shape fst snd].
  rewrite Hlen, broadcast_dim_same. cbn [bind].
  assert (Hcols : length (hd [] a) = length (hd [] b)).
  { destruct a as [| ra a'], b as [| rb b']; try discriminate; [reflexivity |].
    cbn. apply Forall_inv in Ha, Hb. congruence. }
  rewrite Hcols, broadcast_dim_same. cbn [bind].
  destruct a as [| ra a'].
  - destruct b; [reflexivity | discriminate].
  - destruct b as [| rb b']; [discriminate |].
    assert (Hn : length (hd [] (rb :: b')) = n)
      by (cbn; apply Forall_inv in Hb; exact Hb).
    rewrite Hn.
    rewrite (map_stretch_id (ra :: a') n Ha), (map_stretch_id (rb :: b') n Hb).
    rewrite (stretch_id (rb :: b') _ eq_refl).
    rewrite <- Hlen. rewrite (stretch_id (ra :: a') _ eq_refl). reflexivity.
Qed.

Lemma np_map_tile (f : Q -> Q) (v : list Q) (n : nat) :
  np_map f (tile_transpose v n) = map (fun e => repeat (f e) n) v.
Proof.
  unfold np_map, tile_transpose. rewrite map_map. apply map_ext.
  intro e. apply map_repeat.
Qed.

Lemma rotation_single_rows (sin cos : Q -> Q) (data : Data) (row1 row2 : list Q) :
  x2 data <> [] ->
  length row1 = length (x1 data) -> length row2 = length (x1 data) ->
  rotation sin cos data [row1] [row2] = Ok (rotate_rows sin cos data row1 row2).
Proof.
  intros Hne H1 H2. unfold rotation, rotate_rows. cbv zeta.
  set (n := length (x1 data)) in *.
  rewrite !np_map_tile.
  assert (Hgrid : forall (f : Q -> Q) (row : list Q),
             length row = n ->
             np_binop Qmult [row] (map (fun e => repeat (f e) n) (x2 data))
             = Ok (map (fun e => map2 Qmult row (repeat (f e) n)) (x2 data))).
  { intros f row Hrow. rewrite np_binop_row.
    - rewrite map_map. reflexivity.
    - destruct (x2 data); [contradiction | discriminate].
    - apply Forall_forall. intros r Hr. apply in_map_iff in Hr.
      destruct Hr as (e & <- & _). rewrite repeat_length. congruence. }
  assert (Hrowlen : forall (f : Q -> Q) (row : list Q),
             length row = n ->
             Forall (fun r => length r = n)
                    (map (fun e => map2 Qmult row (repeat (f e) n)) (x2 data))).
  { intros f row Hrow. apply Forall_forall. intros r Hr.
    apply in_map_iff in Hr. destruct Hr as (e & <- & _).
    rewrite length_map2; [exact Hrow |]. rewrite repeat_length. exact Hrow. }
  unfold np_mul, np_add, np_sub.
  rewrite (Hgrid sin row1 H1); cbn [bind].
  rewrite (Hgrid cos row2 H2); cbn [bind].
  rewrite (np_binop_same Qplus _ _ n);
    [| rewrite !length_map; reflexivity | apply Hrowlen; assumption
     | apply Hrowlen; assumption ].
  cbn [bind].
  rewrite (Hgrid cos row1 H1); cbn [bind].
  rewrite (Hgrid sin row2 H2); cbn [bind].
  rewrite (np_binop_same Qminus _ _ n);
    [| rewrite !length_map; reflexivity | apply Hrowlen; assumption
     | apply Hrowlen; assumption ].
  cbn [bind]. rewrite !map2_maps. reflexivity.
Qed.

(** *** Shapes of elementwise results *)

Lemma stretch_length {A : Type} (l : list A) (n m k : nat) :
  length l = n -> broadcast_dim n m = Ok k -> length (stretch l k) = k.
Proof.
  intros Hl Hk. unfold broadcast_dim in Hk.
  destruct l as [| x [| y l']].
  - cbn in Hl. subst n. cbn [stretch length].
    destruct m as [| [| m]]; cbn in Hk; try discriminate;
      injection Hk as <-; reflexivity.
  - cbn [stretch]. apply repeat_length.
  - cbn [stretch]. rewrite Hl.
    assert (Hn : (2 <= n)%nat) by (rewrite <- Hl; cbn; lia).
    destruct (Nat.eqb_spec n m); [injection Hk as <-; reflexivity |].
    destruct (Nat.eqb_spec n 1); [lia |].
    destruct (Nat.eqb_spec m 1); [injection Hk as <-; reflexivity | discriminate].
Qed.

Lemma broadcast_dim_sym (n m : nat) : broadcast_dim n m = broadcast_dim m n.
Proof.
  unfold broadcast_dim.
  destruct (Nat.eqb_spec n m) as [-> | Hne].
  - rewrite Nat.eqb_refl. reflexivity.
  - destruct (Nat.eqb_spec m n) as [Heq | _]; [congruence |].
    destruct (Nat.eqb_spec n 1) as [-> | Hn1];
      destruct (Nat.eqb_spec m 1) as [-> | Hm1]; congruence.
Qed.

Lemma map2_length_min {A B C : Type} (f : A -> B -> C) (a : list A) :
  forall b : list B, length (map2 f a b) = Nat.min (length a) (length b).
Proof.
  induction a as [| x a IH]; intros [| y b]; cbn; try reflexivity.
  rewrite IH. reflexivity.
Qed.

Lemma hd_stretch_rows (a : ndarray) (c r : nat) :
  (0 < r)%nat -> a <> [] ->
  hd [] (stretch (map (fun row => stretch row c) a) r) = stretch (hd [] a) c.
Proof.
  intros Hr Ha. destruct a as [| row [| row' a']]; [congruence | |].
  - cbn. destruct r; [lia | reflexivity].
  - reflexivity.
Qed.

Lemma np_binop_shape (op : Q -> Q -> Q) (a b : ndarray) :
  match np_binop op a b with
  | Ok res => binop_shape (shape a) (shape b) = Ok (shape res)
  | Raise e => binop_shape (shape a) (shape b) = Raise e
  end.
Proof.
  unfold np_binop, binop_shape.
  destruct (broadcast_dim (fst (shape a)) (fst (shape b))) as [r | e] eqn:Er;
    cbn [bind]; [| reflexivity].
  destruct (broadcast_dim (snd (shape a)) (snd (shape b))) as [c | e] eqn:Ec;
    cbn [bind]; [| reflexivity].
  f_equal. cbn [shape fst snd] in Er, Ec.
  set (a' := stretch (map (fun row => stretch row c) a) r).
  set (b' := stretch (map (fun row => stretch row c) b) r).
  assert (Ha' : length a' = r).
  { unfold a'. apply (stretch_length _ (length a) (length b));
      [apply length_map | exact Er]. }
  assert (Hb' : length b' = r).
  { unfold b'. apply (stretch_length _ (length b) (length a));
      [apply length_map | rewrite broadcast_dim_sym; exact Er]. }
  unfold shape. rewrite map2_length_min, Ha', Hb', Nat.min_id.
  destruct (Nat.eqb_spec r 0) as [-> | Hr].
  - destruct a' as [| ? ?]; [| discriminate Ha'].
    reflexivity.
  - f_equal.
    assert (Hane : a <> []).
    { intro Ea. subst a. cbn in Er. unfold broadcast_dim in Er.
      destruct (length b) as [| [| n]]; cbn in Er; try discriminate;
        injection Er as <-; lia. }
    assert (Hbne : b <> []).
    { intro Eb. subst b. cbn in Er. rewrite broadcast_dim_sym in Er.
      unfold broadcast_dim in Er.
      destruct (length a) as [| [| n]]; cbn in Er; try discriminate;
        injection Er as <-; lia. }
    destruct a' as [| ra a''] eqn:Ea'; [cbn in Ha'; lia |].
    destruct b' as [| rb b''] eqn:Eb'; [cbn in Hb'; lia |].
    cbn [map2 hd]. rewrite map2_length_min.
    assert (Hra : ra = stretch (hd [] a) c).
    { change ra with (hd [] (ra :: a'')). rewrite <- Ea'. unfold a'.
      apply hd_stretch_rows; [lia | exact Hane]. }
    assert (Hrb : rb = stretch (hd [] b) c).
    { change rb with (hd [] (rb :: b'')). rewrite <- Eb'. unfold b'.
      apply hd_stretch_rows; [lia | exact Hbne]. }
    rewrite Hra, Hrb.
    rewrite (stretch_length (hd [] a) (length (hd [] a)) (length (hd [] b)) c
               eq_refl Ec).
    rewrite (stretch_length (hd [] b) (length (hd [] b)) (length (hd [] a)) c
               eq_refl); [symmetry; apply Nat.min_id |].
    rewrite broadcast_dim_sym. exact Ec.
Qed.

(** *** The two expressions of the rotation *)

Lemma chain_shape (op1 op2 op3 : Q -> Q -> Q) (f1 X f2 Y : ndarray) :
  match (a <- np_binop op1 f1 X ;; b <- np_binop op2 f2 Y ;; np_binop op3 a b) with
  | Ok res =>
      (sa <- binop_shape (shape f1) (shape X) ;;
       sb <- binop_shape (shape f2) (shape Y) ;;
       binop_shape sa sb) = Ok (shape res)
  | Raise e =>
      (sa <- binop_shape (shape f1) (shape X) ;;
       sb <- binop_shape (shape f2) (shape Y) ;;
       binop_shape sa sb) = Raise e
  end.
Proof.
  pose proof (np_binop_shape op1 f1 X) as H1.
  destruct (np_binop op1 f1 X) as [a | e]; rewrite H1; cbn [bind];
    [| reflexivity].
  pose proof (np_binop_shape op2 f2 Y) as H2.
  destruct (np_binop op2 f2 Y) as [b | e]; rewrite H2; cbn [bind];
    [| reflexivity].
  exact (np_binop_shape op3 a b).
Qed.

(** The two expressions of the rotation return or raise together. *)
Lemma rotation_second_follows (sin cos : Q -> Q) (data : Data)
      (f1 f2 : ndarray) :
  match rotation_first sin cos data f1 f2 with
  | Ok _ => exists B, rotation_second sin cos data f1 f2 = Ok B
  | Raise e => rotation_second sin cos data f1 f2 = Raise e
  end.
Proof.
  unfold rotation_first, rotation_second, np_mul, np_add, np_sub. cbv zeta.
  set (mesh := tile_transpose (x2 data) (length (x1 data))).
  pose proof (chain_shape Qmult Qmult Qplus f1 (np_map sin mesh)
                          f2 (np_map cos mesh)) as H1.
  pose proof (chain_shape Qmult Qmult Qminus f1 (np_map cos mesh)
                          f2 (np_map sin mesh)) as H2.
  rewrite !shape_np_map in H1, H2.
  destruct (a <- np_binop Qmult f1 (np_map sin mesh) ;;
            b <- np_binop Qmult f2 (np_map cos mesh) ;; np_binop Qplus a b)
    as [A | e];
    destruct (c <- np_binop Qmult f1 (np_map cos mesh) ;;
              d <- np_binop Qmult f2 (np_map sin mesh) ;; np_binop Qminus c d)
    as [B | e'].
  - eauto.
  - congruence.
  - congruence.
  - congruence.
Qed.

Lemma rotation_split (sin cos : Q -> Q) (data : Data) (f1 f2 : ndarray) :
  rotation sin cos data f1 f2
  = (A <- rotation_first sin cos data f1 f2 ;;
     B <- rotation_second sin cos data f1 f2 ;;
     Ok (A, B)).
Proof.
  unfold rotation, rotation_first, rotation_second. cbv zeta.
  destruct (np_mul f1 _) as [a | e]; cbn [bind]; [| reflexivity].
  destruct (np_mul f2 _) as [b | e]; cbn [bind]; [| reflexivity].
  destruct (np_add a b) as [A | e]; cbn [bind]; [| reflexivity].
  destruct (np_mul f1 _) as [c | e]; cbn [bind]; [| reflexivity].
  destruct (np_mul f2 _) as [d | e]; cbn [bind]; reflexivity.
Qed.



Lemma transformToCylindrical_rotation (f : vector_field) (sin cos : Q -> Q)
      (data : Data) (f1 f2 : ndarray) :
  dict_get (variables data) (fst (component_names f)) = Ok f1 ->
  dict_get (variables data) (snd (component_names f)) = Ok f2 ->
  transformToCylindrical f sin cos data = rotation sin cos data f1 f2.
Proof.
  intros H1 H2.
  destruct f; cbn [component_names fst snd] in H1, H2;
    cbn [transformToCylindrical];
    [ unfold Transform.transformVelocityFieldToCylindrical
    | unfold Transform.transformMagneticFieldToCylindrical ];
    rewrite H1, H2; reflexivity.
Qed.

(** The copy that stores its result raises what the rotation raises. *)
Lemma transformToCylindrical_in_place_result (f : vector_field)
      (sin cos : Q -> Q) (data : Data) (f1 f2 : ndarray) :
  dict_get (variables data) (fst (component_names f)) = Ok f1 ->
  dict_get (variables data) (snd (component_names f)) = Ok f2 ->
  snd (transformToCylindrical_in_place f sin cos data)
  = match rotation sin cos data f1 f2 with
    | Ok _ => Ok tt
    | Raise e => Raise e
    end.
Proof.
  intros H1 H2.
  destruct f; cbn [component_names fst snd] in H1, H2;
    cbn [transformToCylindrical_in_place];
    [ unfold simulationData.Tools.transformVelocityFieldToCylindrical
    | unfold simulationData.Tools.transformMagneticFieldToCylindrical ];
    rewrite H1, H2; unfold rotation; cbv zeta;
    set (mesh := tile_transpose (x2 data) (length (x1 data)));
    destruct (np_mul f1 (np_map sin mesh)) as [a | e]; cbn [bind snd];
      try reflexivity;
    destruct (np_mul f2 (np_map cos mesh)) as [b | e]; cbn [bind snd];
      try reflexivity;
    destruct (np_add a b) as [f1_t | e]; cbn [bind snd]; try reflexivity;
    destruct (np_mul f1 (np_map cos mesh)) as [c | e]; cbn [bind snd];
      try reflexivity;
    destruct (np_mul f2 (np_map sin mesh)) as [d | e]; cbn [bind snd];
      try reflexivity;
    destruct (np_sub c d) as [f2_t | e]; cbn [bind snd]; reflexivity.
Qed.

(** *** Which shapes the rotation accepts *)

Lemma broadcast_dim_common (n m : nat) :
  dim_ok n m = true -> broadcast_dim n m = Ok (common n m).
Proof.
  unfold dim_ok, broadcast_dim, common. intro H.
  destruct (Nat.eqb_spec n m) as [E | Hnm].
  - destruct (Nat.eqb_spec n 1) as [E1 | _]; congruence.
  - destruct (Nat.eqb_spec n 1) as [-> | Hn]; [reflexivity |].
    destruct (Nat.eqb_spec m 1) as [Em | Hm]; [reflexivity | discriminate].
Qed.

Lemma common_positive (n m : nat) :
  (1 <= n)%nat -> (1 <= m)%nat -> (1 <= common n m)%nat.
Proof. unfold common. intros Hn Hm. destruct (Nat.eqb_spec n 1); lia. Qed.

Lemma binop_shape_spec (s1 s2 : nat * nat) :
  (1 <= fst s1)%nat -> (1 <= fst s2)%nat ->
  binop_shape s1 s2
  = if broadcastable s1 s2 then Ok (broadcast_shape s1 s2)
    else Raise (ValueError CannotBroadcast).
Proof.
  intros H1 H2. unfold binop_shape, broadcastable, broadcast_shape.
  destruct (dim_ok (fst s1) (fst s2)) eqn:Er; cbn [andb].
  - rewrite (broadcast_dim_common _ _ Er). cbn [bind].
    destruct (dim_ok (snd s1) (snd s2)) eqn:Ec.
    + rewrite (broadcast_dim_common _ _ Ec). cbn [bind].
      pose proof (common_positive _ _ H1 H2) as Hpos.
      destruct (Nat.eqb_spec (common (fst s1) (fst s2)) 0); [lia | reflexivity].
    + rewrite (broadcast_dim_fails _ _ Ec). reflexivity.
  - rewrite (broadcast_dim_fails _ _ Er). reflexivity.
Qed.

Lemma shape_of_mesh (g : Q -> Q) (data : Data) :
  x2 data <> [] ->
  shape (np_map g (tile_transpose (x2 data) (length (x1 data))))
  = mesh_shape data.
Proof.
  intro Hne. rewrite shape_np_map. unfold shape, tile_transpose, mesh_shape.
  rewrite length_map. destruct (x2 data) as [| th rest]; [contradiction |].
  cbn [map hd]. rewrite repeat_length. reflexivity.
Qed.

Lemma shape_rows_positive {A : Type} (a : list (list A)) :
  a <> [] -> (1 <= fst (shape a))%nat.
Proof. destruct a; [contradiction | cbn; lia]. Qed.

(** The shapes through one expression of the rotation. *)
Lemma rotation_chain (data : Data) (f1 f2 : ndarray) :
  x2 data <> [] -> f1 <> [] -> f2 <> [] ->
  (sa <- binop_shape (shape f1) (mesh_shape data) ;;
   sb <- binop_shape (shape f2) (mesh_shape data) ;;
   binop_shape sa sb)
  = if rotation_broadcasts data f1 f2
    then Ok (broadcast_shape (broadcast_shape (shape f1) (mesh_shape data))
                             (broadcast_shape (shape f2) (mesh_shape data)))
    else Raise (ValueError CannotBroadcast).
Proof.
  intros Hx2 Hf1 Hf2. unfold rotation_broadcasts.
  assert (Hm : (1 <= fst (mesh_shape data))%nat).
  { unfold mesh_shape. cbn [fst]. destruct (x2 data); [contradiction | cbn; lia]. }
  pose proof (shape_rows_positive f1 Hf1) as H1.
  pose proof (shape_rows_positive f2 Hf2) as H2.
  rewrite (binop_shape_spec _ _ H1 Hm).
  destruct (broadcastable (shape f1) (mesh_shape data)); cbn [bind andb];
    [| reflexivity].
  rewrite (binop_shape_spec _ _ H2 Hm).
  destruct (broadcastable (shape f2) (mesh_shape data)); cbn [bind andb];
    [| reflexivity].
  apply binop_shape_spec; cbn [broadcast_shape fst];
    apply common_positive; assumption.
Qed.

(** The rotation returns exactly for the shapes that broadcast, and then
    both results have the shape the operands are broadcast to. *)
Lemma rotation_shapes (sin cos : Q -> Q) (data : Data) (f1 f2 : ndarray) :
  x2 data <> [] -> f1 <> [] -> f2 <> [] ->
  if rotation_broadcasts data f1 f2
  then exists f1_t f2_t,
         rotation sin cos data f1 f2 = Ok (f1_t, f2_t) /\
         shape f1_t = broadcast_shape (broadcast_shape (shape f1) (mesh_shape data))
                                      (broadcast_shape (shape f2) (mesh_shape data)) /\
         shape f2_t = shape f1_t
  else rotation sin cos data f1 f2 = Raise (ValueError CannotBroadcast).
Proof.
  intros Hx2 Hf1 Hf2.
  pose proof (rotation_chain data f1 f2 Hx2 Hf1 Hf2) as Hchain.
  rewrite rotation_split.
  unfold rotation_first, rotation_second, np_mul, np_add, np_sub. cbv zeta.
  set (mesh := tile_transpose (x2 data) (length (x1 data))).
  pose proof (chain_shape Qmult Qmult Qplus f1 (np_map sin mesh)
                          f2 (np_map cos mesh)) as HA.
  pose proof (chain_shape Qmult Qmult Qminus f1 (np_map cos mesh)
                          f2 (np_map sin mesh)) as HB.
  unfold mesh in HA, HB. rewrite !(shape_of_mesh _ data Hx2) in HA, HB.
  fold mesh in HA, HB. rewrite Hchain in HA, HB.
  destruct (rotation_broadcasts data f1 f2).
  - destruct (a <- np_binop Qmult f1 (np_map sin mesh) ;;
              b <- np_binop Qmult f2 (np_map cos mesh) ;; np_binop Qplus a b)
      as [A | e]; [| discriminate HA].
    destruct (c <- np_binop Qmult f1 (np_map cos mesh) ;;
              d <- np_binop Qmult f2 (np_map sin mesh) ;; np_binop Qminus c d)
      as [B | e]; [| discriminate HB].
    cbn [bind]. exists A, B. split; [reflexivity |].
    split; congruence.
  - destruct (a <- np_binop Qmult f1 (np_map sin mesh) ;;
              b <- np_binop Qmult f2 (np_map cos mesh) ;; np_binop Qplus a b)
      as [A | e]; [discriminate HA |].
    cbn [bind]. congruence.
Qed.


(** ** Resampling to a uniform grid (claim C1) *)

Lemma mask_row_spec (vals : list float) :
  forall (grid_r : list Q) (out : list float),
    mask_row vals grid_r = Ok out ->
    forall (j : nat) (r : Q),
      nth_error grid_r j = Some r ->
      nth_error out j = (if Qltb r 1 then Some NaN else nth_error vals j).
Proof.
  induction vals as [| v vals IH]; intros [| r0 grid_r] out H j r Hr;
    cbn in H; try discriminate.
  - destruct j; discriminate.
  - inv_bind H. injection H as <-.
    destruct j as [| j]; cbn in *.
    + injection Hr as ->. destruct (Qltb r 1); reflexivity.
    + exact (IH grid_r a E j r Hr).
Qed.

Lemma mask_inner_spec (vals : fgrid) :
  forall (grid_r : ndarray) (out : fgrid),
    mask_inner vals grid_r = Ok out ->
    forall (i j : nat) (r : Q),
      at2 grid_r i j = Some r ->
      at2 out i j = (if Qltb r 1 then Some NaN else at2 vals i j).
Proof.
  induction vals as [| row vals IH]; intros [| r0 grid_r] out H i j r Hr;
    cbn in H; try discriminate.
  - destruct i; discriminate.
  - inv_bind H. inv_bind H. injection H as <-.
    destruct i as [| i]; unfold at2 in *; cbn in *.
    + exact (mask_row_spec row r0 a E j r Hr).
    + exact (IH grid_r a0 E0 i j r Hr).
Qed.

Lemma at2_map2 {A B C : Type} (f : A -> B -> C) (a : list (list A)) :
  forall (b : list (list B)) (i j : nat) (x : A) (y : B),
    at2 a i j = Some x -> at2 b i j = Some y ->
    at2 (map2 (map2 f) a b) i j = Some (f x y).
Proof.
  assert (Hrow : forall (ra : list A) (rb : list B) (j : nat) (x : A) (y : B),
             nth_error ra j = Some x -> nth_error rb j = Some y ->
             nth_error (map2 f ra rb) j = Some (f x y)).
  { induction ra as [| u ra IHr]; intros [| w rb] [| j] x y Hx Hy;
      cbn in *; try discriminate.
    - congruence.
    - exact (IHr rb j x y Hx Hy). }
  induction a as [| ra a IH]; intros [| rb b] [| i] j x y Hx Hy;
    unfold at2 in *; cbn in *; try discriminate.
  - exact (Hrow ra rb j x y Hx Hy).
  - exact (IH b i j x y Hx Hy).
Qed.

(** X1, inner-boundary masking in [Tools.py].  In every grid that
    [Interpolate.interpolateToUniformGrid] returns, a node whose distance
    [sqrt(X^2 + Y^2)] from the origin is below 1 holds not-a-number,
    whatever the field and whatever the interpolant gave. *)
Theorem uniform_grid_masks_inner_boundary
      (sin cos sqrt : Q -> Q)
      (griddata : list (Q * Q) -> list Q -> ndarray * ndarray -> result fgrid)
      (data : Data) (variable : ndarray) (x_range y_range : AxisRange)
      (grid_x grid_y : ndarray) (newVariable : fgrid) :
  Interpolate.interpolateToUniformGrid sin cos sqrt griddata data variable
    x_range y_range = Ok (grid_x, grid_y, newVariable) ->
  forall (i j : nat) (X Y : Q),
    at2 grid_x i j = Some X -> at2 grid_y i j = Some Y ->
    sqrt (X * X + Y * Y) < 1 ->
    at2 newVariable i j = Some NaN.
Proof.
  unfold Interpolate.interpolateToUniformGrid. intro H.
  destruct (Transform.polarCoordsToCartesian sin cos data) as [x y].
  inv_bind H. inv_bind H.
  destruct (meshgrid a a0) as [gx gy].
  inv_bind H. inv_bind H. injection H as <- <- <-.
  intros i j X Y HX HY Hr.
  rewrite (mask_inner_spec _ _ _ E2 i j (sqrt (X * X + Y * Y))).
  - apply Qltb_true in Hr. rewrite Hr. reflexivity.
  - apply (at2_map2 (fun gx gy => sqrt (gx * gx + gy * gy))); assumption.
Qed.

(** The copy of [simulationData.py] returns the interpolant's array as it
    is. *)
Lemma legacy_uniform_grid_is_interpolant
      (sin cos : Q -> Q)
      (griddata : list (Q * Q) -> list Q -> ndarray * ndarray -> result fgrid)
      (data : Data) (variable : ndarray) (x_range y_range : AxisRange)
      (grid_x grid_y : ndarray) (newVariable : fgrid) :
  simulationData.Tools.interpolateToUniformGrid sin cos griddata data variable
    x_range y_range = Ok (grid_x, grid_y, newVariable) ->
  exists points,
    griddata points (ravel variable) (grid_x, grid_y) = Ok newVariable.
Proof.
  unfold simulationData.Tools.interpolateToUniformGrid. intro H.
  destruct (simulationData.Tools.polarCoordsToCartesian sin cos (x1 data) (x2 data))
    as [x y].
  inv_bind H. inv_bind H.
  destruct (meshgrid a a0) as [gx gy].
  inv_bind H. injection H as <- <- <-.
  eexists. exact E1.
Qed.

(** C1 on the two copies of [interpolateToUniformGrid].  On the sample mesh
    the node (2/5, 2/5) of the uniform grid lies inside the unit circle and
    the interpolant gives 1 there: the copy of [Tools.py] returns
    not-a-number at that node, the copy of [simulationData.py] returns 1. *)
Theorem legacy_uniform_grid_keeps_inner_cells :
  exists (grid_x grid_y : ndarray) (masked unmasked : fgrid),
    Interpolate.interpolateToUniformGrid Sample.sin Sample.cos Sample.sqrt
      Sample.constant_interpolant Sample.inner_data [[1; 1]; [1; 1]]
      Sample.inner_range Sample.inner_range = Ok (grid_x, grid_y, masked) /\
    simulationData.Tools.interpolateToUniformGrid Sample.sin Sample.cos
      Sample.constant_interpolant Sample.inner_data [[1; 1]; [1; 1]]
      Sample.inner_range Sample.inner_range = Ok (grid_x, grid_y, unmasked) /\
    at2 grid_x 1 1 = Some (4 # 10) /\
    at2 grid_y 1 1 = Some (4 # 10) /\
    Sample.sqrt ((4 # 10) * (4 # 10) + (4 # 10) * (4 # 10)) < 1 /\
    at2 masked 1 1 = Some NaN /\
    at2 unmasked 1 1 = Some (Fin 1).
Proof.
  do 4 eexists.
  split; [vm_compute; reflexivity |].
  split; [vm_compute; reflexivity |].
  repeat split.
Qed.

(** The masking on the sample mesh. *)
Lemma uniform_grid_mask_witness :
  exists (grid_x grid_y : ndarray) (newVariable : fgrid),
    Interpolate.interpolateToUniformGrid Sample.sin Sample.cos Sample.sqrt
      Sample.constant_interpolant Sample.inner_data [[1; 1]; [1; 1]]
      Sample.inner_range Sample.inner_range = Ok (grid_x, grid_y, newVariable) /\
    at2 newVariable 1 1 = Some NaN.
Proof.
  destruct (Interpolate.interpolateToUniformGrid Sample.sin Sample.cos
              Sample.sqrt Sample.constant_interpolant Sample.inner_data
              [[1; 1]; [1; 1]] Sample.inner_range Sample.inner_range)
    as [[[grid_x grid_y] newVariable] | e] eqn:E;
    [| vm_compute in E; discriminate E].
  exists grid_x, grid_y, newVariable. split; [reflexivity |].
  apply (uniform_grid_masks_inner_boundary _ _ _ _ _ _ _ _ _ _ _ E
           1%nat 1%nat (4 # 10) (4 # 10)).
  - vm_compute in E. injection E as <- <- <-. reflexivity.
  - vm_compute in E. injection E as <- <- <-. reflexivity.
  - reflexivity.
Defined.

(** *** Fields of the mesh's shape *)

Lemma map2_rows_fit {A B C : Type} (op : A -> B -> C) (n : nat)
      (a : list (list A)) :
  forall b : list (list B),
    Forall (fun r => length r = n) a -> Forall (fun r => length r = n) b ->
    Forall (fun r => length r = n) (map2 (map2 op) a b).
Proof.
  induction a as [| ra a IH]; intros [| rb b] Ha Hb; cbn; try constructor.
  - rewrite length_map2.
    + apply Forall_inv in Ha. exact Ha.
    + apply Forall_inv in Ha, Hb. congruence.
  - apply IH; [apply Forall_inv_tail in Ha | apply Forall_inv_tail in Hb];
      assumption.
Qed.

Lemma at2_tile (f : Q -> Q) (v : list Q) (n i j : nat) (th : Q) :
  nth_error v i = Some th -> (j < n)%nat ->
  at2 (map (fun e => repeat (f e) n) v) i j = Some (f th).
Proof.
  intros Hi Hj. unfold at2. rewrite nth_error_map, Hi. cbn.
  rewrite nth_error_repeat by exact Hj. reflexivity.
Qed.

Lemma at2_Some_lt {A : Type} (a : list (list A)) (n i j : nat) (x : A) :
  Forall (fun r => length r = n) a -> at2 a i j = Some x -> (j < n)%nat.
Proof.
  intros Ha H. unfold at2 in H.
  destruct (nth_error a i) as [row |] eqn:E; [| discriminate].
  rewrite Forall_forall in Ha. rewrite <- (Ha row (nth_error_In _ _ E)).
  apply nth_error_Some. congruence.
Qed.

(** Fields of the mesh's shape are rotated entry by entry. *)
Lemma rotation_mesh_shaped (sin cos : Q -> Q) (data : Data) (f1 f2 : ndarray) :
  mesh_shaped data f1 -> mesh_shaped data f2 ->
  rotation sin cos data f1 f2 = Ok (rotated sin cos data f1 f2).
Proof.
  intros [Hl1 Hr1] [Hl2 Hr2].
  unfold rotation, rotated. cbv zeta. rewrite !np_map_tile.
  set (n := length (x1 data)) in *. unfold rows_fit in Hr1, Hr2. fold n in Hr1, Hr2.
  set (S := map (fun e => repeat (sin e) n) (x2 data)).
  set (C := map (fun e => repeat (cos e) n) (x2 data)).
  assert (HS : Forall (fun r => length r = n) S).
  { apply Forall_forall. intros r Hr. apply in_map_iff in Hr.
    destruct Hr as (e & <- & _). apply repeat_length. }
  assert (HC : Forall (fun r => length r = n) C).
  { apply Forall_forall. intros r Hr. apply in_map_iff in Hr.
    destruct Hr as (e & <- & _). apply repeat_length. }
  assert (HlS : length S = length (x2 data)) by apply length_map.
  assert (HlC : length C = length (x2 data)) by apply length_map.
  unfold np_mul, np_add, np_sub.
  rewrite (np_binop_same Qmult f1 S n) by (congruence || assumption).
  cbn [bind].
  rewrite (np_binop_same Qmult f2 C n) by (congruence || assumption).
  cbn [bind].
  rewrite (np_binop_same Qplus _ _ n);
    [| rewrite !length_map2 by congruence; congruence
     | apply map2_rows_fit; assumption | apply map2_rows_fit; assumption ].
  cbn [bind].
  rewrite (np_binop_same Qmult f1 C n) by (congruence || assumption).
  cbn [bind].
  rewrite (np_binop_same Qmult f2 S n) by (congruence || assumption).
  cbn [bind].
  rewrite (np_binop_same Qminus _ _ n);
    [| rewrite !length_map2 by congruence; congruence
     | apply map2_rows_fit; assumption | apply map2_rows_fit; assumption ].
  reflexivity.
Qed.

Lemma rotated_cells (sin cos : Q -> Q) (data : Data) (f1 f2 : ndarray)
      (i j : nat) (v1 v2 th : Q) :
  rows_fit (x1 data) f1 ->
  at2 f1 i j = Some v1 -> at2 f2 i j = Some v2 ->
  nth_error (x2 data) i = Some th ->
  at2 (fst (rotated sin cos data f1 f2)) i j = Some (v1 * sin th + v2 * cos th) /\
  at2 (snd (rotated sin cos data f1 f2)) i j = Some (v1 * cos th - v2 * sin th).
Proof.
  intros Hr1 Hv1 Hv2 Hth.
  pose proof (at2_Some_lt f1 (length (x1 data)) i j v1 Hr1 Hv1) as Hj.
  pose proof (at2_tile sin (x2 data) _ i j th Hth Hj) as Hs.
  pose proof (at2_tile cos (x2 data) _ i j th Hth Hj) as Hc.
  unfold rotated. cbv zeta. cbn [fst snd]. split.
  - apply (at2_map2 Qplus); apply (at2_map2 Qmult); assumption.
  - apply (at2_map2 Qminus); apply (at2_map2 Qmult); assumption.
Qed.

(** The rotated fields have the mesh's shape again. *)
Lemma rotated_mesh_shaped (sin cos : Q -> Q) (data : Data) (f1 f2 : ndarray) :
  mesh_shaped data f1 -> mesh_shaped data f2 ->
  mesh_shaped data (fst (rotated sin cos data f1 f2)) /\
  mesh_shaped data (snd (rotated sin cos data f1 f2)).
Proof.
  intros [Hl1 Hr1] [Hl2 Hr2]. unfold rotated, mesh_shaped, rows_fit in *.
  cbv zeta. cbn [fst snd].
  set (n := length (x1 data)) in *.
  set (S := map (fun e => repeat (sin e) n) (x2 data)).
  set (C := map (fun e => repeat (cos e) n) (x2 data)).
  assert (HS : Forall (fun r => length r = n) S).
  { apply Forall_forall. intros r Hr. apply in_map_iff in Hr.
    destruct Hr as (e & <- & _). apply repeat_length. }
  assert (HC : Forall (fun r => length r = n) C).
  { apply Forall_forall. intros r Hr. apply in_map_iff in Hr.
    destruct Hr as (e & <- & _). apply repeat_length. }
  assert (HlS : length S = length (x2 data)) by apply length_map.
  assert (HlC : length C = length (x2 data)) by apply length_map.
  repeat split.
  - rewrite !length_map2; rewrite ?length_map2; congruence.
  - repeat apply map2_rows_fit; assumption.
  - rewrite !length_map2; rewrite ?length_map2; congruence.
  - repeat apply map2_rows_fit; assumption.
Qed.

(** X4, the rotation of fields of the mesh's shape.  For two fields with
    [len(x2)] rows of [len(x1)] entries the rotation returns, and at every
    cell of polar angle [th] it gives [v1 sin th + v2 cos th] and
    [v1 cos th - v2 sin th]. *)
Theorem rotation_of_mesh_shaped_fields
        (f : vector_field) (sin cos : Q -> Q) (data : Data) (f1 f2 : ndarray) :
  dict_get (variables data) (fst (component_names f)) = Ok f1 ->
  dict_get (variables data) (snd (component_names f)) = Ok f2 ->
  length f1 = length (x2 data) -> length f2 = length (x2 data) ->
  rows_fit (x1 data) f1 -> rows_fit (x1 data) f2 ->
  exists f1_t f2_t : ndarray,
    transformToCylindrical f sin cos data = Ok (f1_t, f2_t) /\
    forall (i j : nat) (v1 v2 th : Q),
      at2 f1 i j = Some v1 -> at2 f2 i j = Some v2 ->
      nth_error (x2 data) i = Some th ->
      at2 f1_t i j = Some (v1 * sin th + v2 * cos th) /\
      at2 f2_t i j = Some (v1 * cos th - v2 * sin th).
Proof.
  intros H1 H2 Hl1 Hl2 Hr1 Hr2.
  rewrite (transformToCylindrical_rotation f sin cos data f1 f2 H1 H2).
  rewrite (rotation_mesh_shaped sin cos data f1 f2 (conj Hl1 Hr1) (conj Hl2 Hr2)).
  eexists. eexists. split; [reflexivity |].
  intros i j v1 v2 th Hv1 Hv2 Hth.
  exact (rotated_cells sin cos data f1 f2 i j v1 v2 th Hr1 Hv1 Hv2 Hth).
Qed.

(** On the sample mesh with velocity fields of shape (2, 3), the first row
    (polar angle 0) keeps [vx2] as the first and [vx1] as the second
    component. *)
Lemma rotation_formula_witness :
  exists f1_t f2_t : ndarray,
    transformToCylindrical Velocity Sample.sin Sample.cos
      Sample.full_velocity_data = Ok (f1_t, f2_t) /\
    forall (i j : nat) (v1 v2 th : Q),
      at2 [[1; 2; 3]; [4; 5; 6]] i j = Some v1 ->
      at2 [[0; 1; 0]; [1; 0; 1]] i j = Some v2 ->
      nth_error (x2 Sample.full_velocity_data) i = Some th ->
      at2 f1_t i j = Some (v1 * Sample.sin th + v2 * Sample.cos th) /\
      at2 f2_t i j = Some (v1 * Sample.cos th - v2 * Sample.sin th).
Proof.
  apply (rotation_of_mesh_shaped_fields Velocity Sample.sin Sample.cos
           Sample.full_velocity_data [[1; 2; 3]; [4; 5; 6]]
           [[0; 1; 0]; [1; 0; 1]] eq_refl eq_refl eq_refl eq_refl).
  - repeat constructor.
  - repeat constructor.
Defined.

(** *** The Cartesian mesh *)

Lemma at2_meshgrid (xs ys : list Q) (i j : nat) (x y : Q) :
  nth_error xs j = Some x -> nth_error ys i = Some y ->
  at2 (fst (meshgrid xs ys)) i j = Some x /\
  at2 (snd (meshgrid xs ys)) i j = Some y.
Proof.
  intros Hx Hy. unfold meshgrid, at2. cbn [fst snd].
  rewrite !nth_error_map, Hy. cbn. rewrite nth_error_map, Hx. split; reflexivity.
Qed.

Lemma at2_np_map (f : Q -> Q) (a : ndarray) (i j : nat) (x : Q) :
  at2 a i j = Some x -> at2 (np_map f a) i j = Some (f x).
Proof.
  unfold at2, np_map. rewrite nth_error_map.
  destruct (nth_error a i) as [row |]; [| discriminate]. cbn.
  rewrite nth_error_map. intros ->. reflexivity.
Qed.

(** X3, the Cartesian coordinates of the mesh.  In both copies of
    [polarCoordsToCartesian] the cell of radius [r = x1[j]] and polar angle
    [th = x2[i]] gets [X = r sin th] and [Y = r cos th]: the polar angle is
    measured from the vertical axis. *)
Theorem cartesian_mesh_cells (sin cos : Q -> Q) (data : Data)
        (i j : nat) (r th : Q) :
  nth_error (x1 data) j = Some r -> nth_error (x2 data) i = Some th ->
  at2 (fst (Transform.polarCoordsToCartesian sin cos data)) i j
  = Some (r * sin th) /\
  at2 (snd (Transform.polarCoordsToCartesian sin cos data)) i j
  = Some (r * cos th) /\
  simulationData.Tools.polarCoordsToCartesian sin cos (x1 data) (x2 data)
  = Transform.polarCoordsToCartesian sin cos data.
Proof.
  intros Hr Hth.
  destruct (at2_meshgrid (x1 data) (x2 data) i j r th Hr Hth) as [HR HT].
  unfold Transform.polarCoordsToCartesian,
    simulationData.Tools.polarCoordsToCartesian.
  destruct (meshgrid (x1 data) (x2 data)) as [r_matrix th_matrix].
  cbn [fst snd] in *.
  split; [| split; [| reflexivity]].
  - apply (at2_map2 Qmult); [exact HR | apply at2_np_map; exact HT].
  - apply (at2_map2 Qmult); [exact HR | apply at2_np_map; exact HT].
Qed.

(** On the sample mesh the cell of radius 2 on the axis [th = 0] lies at
    [(X, Y) = (2 sin 0, 2 cos 0)]. *)
Lemma cartesian_mesh_witness :
  at2 (fst (Transform.polarCoordsToCartesian Sample.sin Sample.cos
              Sample.mesh_data)) 0 1 = Some (2 * Sample.sin 0) /\
  at2 (snd (Transform.polarCoordsToCartesian Sample.sin Sample.cos
              Sample.mesh_data)) 0 1 = Some (2 * Sample.cos 0) /\
  simulationData.Tools.polarCoordsToCartesian Sample.sin Sample.cos
    (x1 Sample.mesh_data) (x2 Sample.mesh_data)
  = Transform.polarCoordsToCartesian Sample.sin Sample.cos Sample.mesh_data.
Proof.
  apply (cartesian_mesh_cells Sample.sin Sample.cos Sample.mesh_data 0 1 2 0);
    reflexivity.
Defined.

(** *** Fields that are broadcast against a mesh of several cells *)

Lemma nth_error_stretch {A : Type} (l : list A) (k i : nat) (x : A) :
  (i < k)%nat ->
  nth_error l (broadcast_index (length l) i) = Some x ->
  nth_error (stretch l k) i = Some x.
Proof.
  intros Hi H. destruct l as [| y [| z l']].
  - destruct (broadcast_index (length (@nil A)) i); discriminate.
  - cbn in H. injection H as <-. cbn [stretch].
    apply nth_error_repeat. exact Hi.
  - exact H.
Qed.

Lemma at2_broadcast_to (a : ndarray) (M N i j : nat) (x : Q) :
  rectangular a -> (i < M)%nat -> (j < N)%nat ->
  at2 a (broadcast_index (fst (shape a)) i) (broadcast_index (snd (shape a)) j)
  = Some x ->
  at2 (broadcast_to (M, N) a) i j = Some x.
Proof.
  intros Hrect Hi Hj H. unfold at2 in *. cbn [shape fst] in H.
  destruct (nth_error a (broadcast_index (length a) i)) as [row |] eqn:Erow;
    [| discriminate].
  assert (Hlen : length row = snd (shape a)).
  { unfold rectangular in Hrect. rewrite Forall_forall in Hrect.
    apply Hrect. eapply nth_error_In. exact Erow. }
  unfold broadcast_to. cbn [fst snd].
  rewrite (nth_error_stretch _ M i (stretch row N) Hi).
  - apply nth_error_stretch; [exact Hj |]. rewrite Hlen. exact H.
  - rewrite length_map, nth_error_map, Erow. reflexivity.
Qed.

Lemma common_of_mesh (n m : nat) :
  (2 <= m)%nat -> dim_ok n m = true -> broadcast_dim n m = Ok m.
Proof.
  intros Hm H. rewrite (broadcast_dim_common _ _ H). f_equal.
  unfold dim_ok in H. unfold common.
  destruct (Nat.eqb_spec n 1); [reflexivity |].
  destruct (Nat.eqb_spec n m); [assumption |].
  destruct (Nat.eqb_spec m 1); [lia | discriminate].
Qed.

(** Broadcast against a mesh of at least two cells in each direction, a
    field gets the mesh's shape. *)
Lemma broadcast_to_mesh_shaped (M N : nat) (f : ndarray) :
  (2 <= M)%nat -> (2 <= N)%nat -> rectangular f ->
  broadcastable (shape f) (M, N) = true ->
  length (broadcast_to (M, N) f) = M /\
  Forall (fun row => length row = N) (broadcast_to (M, N) f).
Proof.
  intros HM HN Hrect Hb. unfold broadcastable in Hb. cbn [fst snd shape] in Hb.
  apply andb_true_iff in Hb. destruct Hb as [Hr Hc].
  pose proof (common_of_mesh _ _ HM Hr) as Er.
  pose proof (common_of_mesh _ _ HN Hc) as Ec.
  unfold broadcast_to. cbn [fst snd].
  assert (Hrows : Forall (fun row => length row = N)
                         (map (fun row => stretch row N) f)).
  { apply Forall_forall. intros r Hin. apply in_map_iff in Hin.
    destruct Hin as (row & <- & Hin).
    unfold rectangular in Hrect. rewrite Forall_forall in Hrect.
    apply (stretch_length row (length row) N N eq_refl).
    rewrite (Hrect row Hin). exact Ec. }
  split.
  - apply (stretch_length _ (length f) M M); [apply length_map | exact Er].
  - destruct (map (fun row => stretch row N) f) as [| r0 [| r1 rest]] eqn:E.
    + constructor.
    + cbn [stretch]. apply Forall_forall. intros r Hin.
      apply repeat_spec in Hin. subst r. apply Forall_inv in Hrows. exact Hrows.
    + exact Hrows.
Qed.

Lemma shape_of_mesh_shaped (M N : nat) (a : ndarray) :
  (1 <= M)%nat -> length a = M -> Forall (fun row => length row = N) a ->
  shape a = (M, N).
Proof.
  intros HM Hl Hr. unfold shape. rewrite Hl.
  destruct a as [| row a']; [cbn in Hl; lia |].
  apply Forall_inv in Hr. cbn [hd]. rewrite Hr. reflexivity.
Qed.

(** An elementwise operation reads a field that can be broadcast to the
    other operand's shape as if it had been broadcast beforehand. *)
Lemma np_binop_broadcast_to (op : Q -> Q -> Q) (f X : ndarray) (M N : nat) :
  (2 <= M)%nat -> (2 <= N)%nat -> shape X = (M, N) ->
  rectangular f -> broadcastable (shape f) (M, N) = true ->
  np_binop op f X = np_binop op (broadcast_to (M, N) f) X.
Proof.
  intros HM HN HX Hrect Hb.
  destruct (broadcast_to_mesh_shaped M N f HM HN Hrect Hb) as [Hl Hr].
  pose proof (shape_of_mesh_shaped M N _ ltac:(lia) Hl Hr) as Hs.
  unfold broadcastable in Hb. cbn [fst snd] in Hb.
  apply andb_true_iff in Hb. destruct Hb as [Hbr Hbc].
  unfold np_binop. rewrite Hs, HX. cbn [fst snd].
  rewrite (common_of_mesh _ _ HM Hbr), (common_of_mesh _ _ HN Hbc).
  rewrite !broadcast_dim_same. cbn [bind].
  fold (broadcast_to (M, N) f).
  rewrite (map_stretch_id (broadcast_to (M, N) f) N Hr).
  rewrite (stretch_id (broadcast_to (M, N) f) M Hl). reflexivity.
Qed.

Lemma rotation_broadcast_to (sin cos : Q -> Q) (data : Data) (f1 f2 : ndarray) :
  (2 <= length (x2 data))%nat -> (2 <= length (x1 data))%nat ->
  rectangular f1 -> rectangular f2 ->
  broadcastable (shape f1) (mesh_shape data) = true ->
  broadcastable (shape f2) (mesh_shape data) = true ->
  rotation sin cos data f1 f2
  = Ok (rotated sin cos data (broadcast_to (mesh_shape data) f1)
                             (broadcast_to (mesh_shape data) f2)) /\
  mesh_shaped data (broadcast_to (mesh_shape data) f1) /\
  mesh_shaped data (broadcast_to (mesh_shape data) f2).
Proof.
  intros HM HN Hr1 Hr2 Hb1 Hb2.
  assert (Hx2 : x2 data <> []) by (destruct (x2 data); [cbn in HM; lia | discriminate]).
  assert (Hm1 : mesh_shaped data (broadcast_to (mesh_shape data) f1))
    by exact (broadcast_to_mesh_shaped _ _ f1 HM HN Hr1 Hb1).
  assert (Hm2 : mesh_shaped data (broadcast_to (mesh_shape data) f2))
    by exact (broadcast_to_mesh_shaped _ _ f2 HM HN Hr2 Hb2).
  split; [| split; assumption].
  rewrite <- (rotation_mesh_shaped sin cos data _ _ Hm1 Hm2).
  unfold rotation, np_mul. cbv zeta.
  set (mesh := tile_transpose (x2 data) (length (x1 data))).
  assert (Hs : forall g, shape (np_map g mesh) = mesh_shape data)
    by (intro g; apply shape_of_mesh; exact Hx2).
  rewrite !(np_binop_broadcast_to Qmult f1 _ _ _ HM HN (Hs _) Hr1 Hb1).
  rewrite !(np_binop_broadcast_to Qmult f2 _ _ _ HM HN (Hs _) Hr2 Hb2).
  reflexivity.
Qed.

(** C9 (amended).  Neither rotation checks shapes; numpy's broadcasting
    decides.  On a mesh with polar cells and for fields with rows, the
    rotation raises ([ValueError]) exactly when a field's shape cannot be
    broadcast against the mesh's shape [(len(x2), len(x1))] or the two
    products cannot be broadcast against each other; for every other pair
    of fields, of the mesh's shape or not, it returns, and both results have
    the shape the operands are broadcast to.  Fields that can be broadcast
    against a mesh of several polar and several radial cells always pass,
    with results of the mesh's shape: the cell of row [i] and column [j]
    holds [v1 sin(x2[i]) + v2 cos(x2[i])] and
    [v1 cos(x2[i]) - v2 sin(x2[i])], where [v1] and [v2] are read from the
    fields at [(i, j)], or at row 0 of a field of one row and at column 0
    of a field of one column.  So fields of a single row of [len(x1)]
    values are rotated silently into one rotated row per polar cell. *)
Theorem rotation_broadcasts_fields
        (f : vector_field) (sin cos : Q -> Q) (data : Data) (f1 f2 : ndarray) :
  dict_get (variables data) (fst (component_names f)) = Ok f1 ->
  dict_get (variables data) (snd (component_names f)) = Ok f2 ->
  x2 data <> [] -> f1 <> [] -> f2 <> [] ->
  (rotation_broadcasts data f1 f2 = false ->
   transformToCylindrical f sin cos data = Raise (ValueError CannotBroadcast) /\
   snd (transformToCylindrical_in_place f sin cos data)
   = Raise (ValueError CannotBroadcast)) /\
  (rotation_broadcasts data f1 f2 = true ->
   exists f1_t f2_t : ndarray,
     transformToCylindrical f sin cos data = Ok (f1_t, f2_t) /\
     snd (transformToCylindrical_in_place f sin cos data) = Ok tt /\
     shape f1_t
     = broadcast_shape (broadcast_shape (shape f1) (mesh_shape data))
                       (broadcast_shape (shape f2) (mesh_shape data)) /\
     shape f2_t = shape f1_t) /\
  (broadcastable (shape f1) (mesh_shape data) = false \/
   broadcastable (shape f2) (mesh_shape data) = false ->
   rotation_broadcasts data f1 f2 = false) /\
  ((2 <= length (x2 data))%nat -> (2 <= length (x1 data))%nat ->
   broadcastable (shape f1) (mesh_shape data) = true ->
   broadcastable (shape f2) (mesh_shape data) = true ->
   rotation_broadcasts data f1 f2 = true /\
   broadcast_shape (broadcast_shape (shape f1) (mesh_shape data))
                   (broadcast_shape (shape f2) (mesh_shape data))
   = mesh_shape data) /\
  ((2 <= length (x2 data))%nat -> (2 <= length (x1 data))%nat ->
   rectangular f1 -> rectangular f2 ->
   broadcastable (shape f1) (mesh_shape data) = true ->
   broadcastable (shape f2) (mesh_shape data) = true ->
   exists f1_t f2_t : ndarray,
     transformToCylindrical f sin cos data = Ok (f1_t, f2_t) /\
     shape f1_t = mesh_shape data /\ shape f2_t = mesh_shape data /\
     forall (i j : nat) (v1 v2 th : Q),
       (j < length (x1 data))%nat ->
       at2 f1 (broadcast_index (fst (shape f1)) i)
              (broadcast_index (snd (shape f1)) j) = Some v1 ->
       at2 f2 (broadcast_index (fst (shape f2)) i)
              (broadcast_index (snd (shape f2)) j) = Some v2 ->
       nth_error (x2 data) i = Some th ->
       at2 f1_t i j = Some (v1 * sin th + v2 * cos th) /\
       at2 f2_t i j = Some (v1 * cos th - v2 * sin th)) /\
  (forall row1 row2 : list Q,
      f1 = [row1] -> f2 = [row2] ->
      length row1 = length (x1 data) -> length row2 = length (x1 data) ->
      transformToCylindrical f sin cos data
      = Ok (rotate_rows sin cos data row1 row2) /\
      snd (transformToCylindrical_in_place f sin cos data) = Ok tt /\
      length (fst (rotate_rows sin cos data row1 row2)) = length (x2 data) /\
      length (snd (rotate_rows sin cos data row1 row2)) = length (x2 data)).
Proof.
  intros H1 H2 Hx2 Hf1 Hf2.
  pose proof (rotation_shapes sin cos data f1 f2 Hx2 Hf1 Hf2) as Hshapes.
  rewrite (transformToCylindrical_rotation f sin cos data f1 f2 H1 H2).
  rewrite (transformToCylindrical_in_place_result f sin cos data f1 f2 H1 H2).
  split; [| split; [| split; [| split; [| split]]]].
  - intro Hbad. rewrite Hbad in Hshapes. rewrite Hshapes. split; reflexivity.
  - intro Hok. rewrite Hok in Hshapes.
    destruct Hshapes as (f1_t & f2_t & Hrun & Hs1 & Hs2).
    exists f1_t, f2_t. rewrite Hrun. repeat split; assumption.
  - unfold rotation_broadcasts. intros [Hbad | Hbad]; rewrite Hbad.
    + reflexivity.
    + rewrite andb_false_r. reflexivity.
  - intros HM HN Hb1 Hb2. unfold rotation_broadcasts. rewrite Hb1, Hb2.
    cbn [andb].
    unfold broadcastable, dim_ok, mesh_shape in Hb1, Hb2. cbn [fst snd] in Hb1, Hb2.
    apply andb_true_iff in Hb1, Hb2.
    destruct Hb1 as [Hr1 Hc1], Hb2 as [Hr2 Hc2].
    assert (Hcommon : forall n m, (2 <= m)%nat ->
              ((n =? m)%nat || (n =? 1)%nat || (m =? 1)%nat) = true ->
              common n m = m).
    { intros n m Hm H. unfold common.
      destruct (Nat.eqb_spec n 1); [reflexivity |].
      destruct (Nat.eqb_spec n m); [assumption |].
      destruct (Nat.eqb_spec m 1); [lia | discriminate]. }
    unfold broadcast_shape, mesh_shape. cbn [fst snd].
    rewrite (Hcommon _ _ HM Hr1), (Hcommon _ _ HM Hr2),
      (Hcommon _ _ HN Hc1), (Hcommon _ _ HN Hc2).
    unfold broadcastable, dim_ok, common. cbn [fst snd].
    rewrite !Nat.eqb_refl. cbn [orb andb]. split; [reflexivity |].
    destruct (Nat.eqb_spec (length (x2 data)) 1); [lia |].
    destruct (Nat.eqb_spec (length (x1 data)) 1); [lia | reflexivity].
  - intros HM HN Hr1 Hr2 Hb1 Hb2.
    destruct (rotation_broadcast_to sin cos data f1 f2 HM HN Hr1 Hr2 Hb1 Hb2)
      as (Hrun & Hm1 & Hm2).
    rewrite Hrun.
    destruct (rotated_mesh_shaped sin cos data _ _ Hm1 Hm2) as [[Hl1 Hfit1] [Hl2 Hfit2]].
    eexists. eexists. split; [reflexivity |].
    split; [apply shape_of_mesh_shaped; [lia | exact Hl1 | exact Hfit1] |].
    split; [apply shape_of_mesh_shaped; [lia | exact Hl2 | exact Hfit2] |].
    intros i j v1 v2 th Hj Hv1 Hv2 Hth.
    assert (Hi : (i < length (x2 data))%nat)
      by (apply nth_error_Some; congruence).
    apply (rotated_cells sin cos data _ _ i j v1 v2 th (proj2 Hm1));
      [| | exact Hth];
      apply at2_broadcast_to; assumption.
  - intros row1 row2 -> -> Hr1 Hr2.
    rewrite (rotation_single_rows sin cos data row1 row2 Hx2 Hr1 Hr2).
    unfold rotate_rows. cbn [fst snd]. rewrite !length_map.
    repeat split; reflexivity.
Qed.

(** The sample mesh of two polar and three radial cells: fields of two
    columns are refused, fields of a single row are broadcast. *)
Lemma rotation_witness :
  Transform.transformVelocityFieldToCylindrical Sample.sin Sample.cos
    Sample.two_column_data = Raise (ValueError CannotBroadcast) /\
  Transform.transformVelocityFieldToCylindrical Sample.sin Sample.cos
    Sample.single_row_data
  = Ok (rotate_rows Sample.sin Sample.cos Sample.single_row_data
                    [1; 2; 3] [0; 1; 0]).
Proof.
  split.
  - apply (proj1 (rotation_broadcasts_fields Velocity Sample.sin Sample.cos
                    Sample.two_column_data [[1; 2]; [3; 4]] [[0; 1]; [1; 0]]
                    eq_refl eq_refl ltac:(discriminate) ltac:(discriminate)
                    ltac:(discriminate))).
    reflexivity.
  - apply (proj2 (proj2 (proj2 (proj2 (proj2
             (rotation_broadcasts_fields Velocity Sample.sin Sample.cos
                Sample.single_row_data [[1; 2; 3]] [[0; 1; 0]]
                eq_refl eq_refl ltac:(discriminate) ltac:(discriminate)
                ltac:(discriminate)))))) [1; 2; 3] [0; 1; 0]);
      reflexivity.
Defined.

(** C9 as stated fails: on a mesh of shape (2, 3) the velocity fields of
    shape (1, 3) are rotated without any error, into arrays of shape
    (2, 3). *)
Lemma rotation_accepts_other_shape :
  dict_get (variables Sample.single_row_data) "vx1" = Ok [[1; 2; 3]] /\
  shape [[1; 2; 3]] <> (length (x2 Sample.single_row_data),
                        length (x1 Sample.single_row_data)) /\
  (exists vx1_t vx2_t,
      Transform.transformVelocityFieldToCylindrical Sample.sin Sample.cos
        Sample.single_row_data = Ok (vx1_t, vx2_t) /\
      shape vx1_t = (2, 3)%nat /\ shape vx2_t = (2, 3)%nat) /\
  snd (simulationData.Tools.transformVelocityFieldToCylindrical
         Sample.sin Sample.cos Sample.single_row_data) = Ok tt.
Proof.
  split; [reflexivity |]. split; [discriminate |]. split.
  - eexists. eexists. split; [vm_compute; reflexivity |].
    split; reflexivity.
  - vm_compute. reflexivity.
Qed.

(** ** The ion-fraction table: loading and edge cases *)

Lemma fresh_bracket (a : axis) (q : Q) :
  getIndicesFor a IonFractionCollection__init__ q = Ok (0, 0)%Z \/
  getIndicesFor a IonFractionCollection__init__ q = Ok (-1, -1)%Z.
Proof.
  rewrite getIndicesFor_unfold. cbv zeta.
  replace (axis_start IonFractionCollection__init__ a) with 0
    by (destruct a; reflexivity).
  replace (axis_end IonFractionCollection__init__ a) with 0
    by (destruct a; reflexivity).
  replace (axis_n IonFractionCollection__init__ a) with 0%Z
    by (destruct a; reflexivity).
  destruct (Qleb (q - 0) 0) eqn:E; [left; reflexivity | right].
  apply Qleb_false in E.
  assert (H : Qleb (0 - 0) (q - 0) = true) by (apply Qleb_true; lra).
  rewrite H. reflexivity.
Qed.

(** X5, lookups before loading.  On a collection as [__init__] leaves it,
    the lookup of positive queries (those whose logarithm is a number)
    raises [IndexError]: the bracket searches return position 0 or
    position -1 of axes that have no entry. *)
Theorem lookup_before_loading_raises
        (log10 : Q -> Q) (temp zeta nn : Q) :
  0 < temp -> 0 < zeta -> 0 < nn ->
  interpolateIonFraction log10 IonFractionCollection__init__ temp zeta nn
  = Raise IndexError.
Proof.
  intros _ _ _.
  unfold interpolateIonFraction, lattice. cbv zeta.
  change getIndicesForTempValue with (getIndicesFor Temp).
  change getIndicesForZetaValue with (getIndicesFor Zeta).
  change getIndicesForNnValue with (getIndicesFor Nn).
  destruct (fresh_bracket Temp (log10 temp)) as [-> | ->];
    destruct (fresh_bracket Zeta (log10 zeta)) as [-> | ->];
    destruct (fresh_bracket Nn (log10 nn)) as [-> | ->];
    reflexivity.
Qed.

Lemma lookup_before_loading_witness :
  interpolateIonFraction Sample.log10 IonFractionCollection__init__ 100 1 10
  = Raise IndexError.
Proof.
  apply (lookup_before_loading_raises Sample.log10 100 1 10); reflexivity.
Defined.

(** *** When [loadIonData] returns *)

Lemma where_first_found (l : list Q) (x : Q) :
  (exists y, In y l /\ y == x) ->
  exists i, where_first l x = Ok i /\ (i < length l)%nat.
Proof.
  induction l as [| z l IH]; intros (y & Hin & Hy); [destruct Hin |].
  cbn [where_first]. destruct (Qeqb z x) eqn:E.
  - exists O. split; [reflexivity | cbn; lia].
  - destruct Hin as [-> | Hin].
    + apply Qeqb_false in E. contradiction.
    + destruct IH as (i & -> & Hi); [eauto |].
      exists (S i). split; [reflexivity | cbn; lia].
Qed.

Lemma insert_sorted_keeps (x : Q) (l : list Q) (z : Q) :
  In z l -> In z (insert_sorted x l).
Proof.
  induction l as [| y l IH]; intros Hz; [destruct Hz |].
  cbn [insert_sorted]. destruct (Qeqb x y); [exact Hz |].
  destruct (Qleb x y); [right; exact Hz |].
  destruct Hz as [-> | Hz]; [left; reflexivity | right; exact (IH Hz)].
Qed.

Lemma insert_sorted_has (x : Q) (l : list Q) :
  exists y, In y (insert_sorted x l) /\ y == x.
Proof.
  induction l as [| z l IH]; cbn [insert_sorted].
  - exists x. split; [left; reflexivity | reflexivity].
  - destruct (Qeqb x z) eqn:E.
    + apply Qeqb_true in E. exists z. split; [left; reflexivity | lra].
    + destruct (Qleb x z).
      * exists x. split; [left; reflexivity | reflexivity].
      * destruct IH as (y & Hin & Hy). exists y. split; [right; exact Hin | exact Hy].
Qed.

Lemma sorted_set_has (xs : list Q) (x : Q) :
  In x xs -> exists y, In y (sorted_set xs) /\ y == x.
Proof.
  induction xs as [| z xs IH]; intros Hx; [destruct Hx |].
  cbn [sorted_set fold_right]. fold (sorted_set xs).
  destruct Hx as [-> | Hx].
  - apply insert_sorted_has.
  - destruct (IH Hx) as (y & Hin & Hy).
    exists y. split; [apply insert_sorted_keeps; exact Hin | exact Hy].
Qed.

Lemma set_nth_total {A : Type} (l : list A) :
  forall (n : nat) (v : A), (n < length l)%nat -> exists r, set_nth l n v = Some r.
Proof.
  induction l as [| x l IH]; intros n v Hn; [cbn in Hn; lia |].
  destruct n as [| n]; cbn [set_nth]; [eauto |].
  destruct (IH n v) as (r & ->); [cbn in Hn; lia | eauto].
Qed.

Lemma setitem_total {A : Type} (l : list A) (n : nat) (v : A) :
  (n < length l)%nat -> exists r, setitem l n v = Ok r.
Proof.
  intro Hn. unfold setitem.
  destruct (set_nth_total l n v Hn) as (r & ->). eauto.
Qed.

Lemma setitem3_total (cube : list (list (list Q))) (a b c i j k : nat) (v : Q) :
  cube_shape cube a b c -> (i < a)%nat -> (j < b)%nat -> (k < c)%nat ->
  exists cube', setitem3 cube i j k v = Ok cube'.
Proof.
  intros [Hlen Hplanes] Hi Hj Hk. unfold setitem3.
  destruct (getitem_in_range cube (Z.of_nat i)) as (plane & -> & Hplane);
    [unfold len; lia |].
  rewrite Forall_forall in Hplanes. destruct (Hplanes plane Hplane) as [Hb Hrows].
  cbn [bind].
  destruct (getitem_in_range plane (Z.of_nat j)) as (row & -> & Hrow);
    [unfold len; lia |].
  rewrite Forall_forall in Hrows. pose proof (Hrows row Hrow) as Hc.
  cbn [bind].
  destruct (setitem_total row k v) as (row' & ->); [lia |]. cbn [bind].
  destruct (setitem_total plane j row') as (plane' & ->); [lia |]. cbn [bind].
  destruct (setitem_total cube i plane') as (cube' & ->); [lia |]. eauto.
Qed.

Lemma scatter_total (temps zetas nns : list Q) (a b c : nat)
      (elements : list IonFraction) :
  forall cube : list (list (list Q)),
    cube_shape cube a b c ->
    (forall e, In e elements ->
       (exists i, where_first temps (t e) = Ok i /\ (i < a)%nat) /\
       (exists j, where_first zetas (zeta e) = Ok j /\ (j < b)%nat) /\
       (exists k, where_first nns (nn e) = Ok k /\ (k < c)%nat)) ->
    exists cube', scatter temps zetas nns elements cube = Ok cube'.
Proof.
  induction elements as [| element rest IH]; intros cube Hshape Hpos.
  - cbn. eauto.
  - cbn [scatter].
    destruct (Hpos element (or_introl eq_refl))
      as ((i & -> & Hi) & (j & -> & Hj) & (k & -> & Hk)).
    cbn [bind].
    destruct (setitem3_total cube a b c i j k (xe element) Hshape Hi Hj Hk)
      as (cube1 & E).
    rewrite E. cbn [bind].
    apply IH.
    + exact (proj1 (setitem3_shape _ _ _ _ _ _ _ _ _ Hshape E)).
    + intros e He. apply Hpos. right. exact He.
Qed.

(** The only exception of the loading steps is [IndexError]. *)
Lemma where_first_exn (l : list Q) (x : Q) (e : exn) :
  where_first l x = Raise e -> e = IndexError.
Proof.
  induction l as [| y l IH]; cbn [where_first]; [intro H; congruence |].
  destruct (Qeqb y x); [discriminate |].
  destruct (where_first l x); cbn [bind]; [discriminate |].
  intro H. apply IH. congruence.
Qed.

Lemma setitem_exn {A : Type} (l : list A) (n : nat) (v : A) (e : exn) :
  setitem l n v = Raise e -> e = IndexError.
Proof.
  unfold setitem. destruct (set_nth l n v); intro H; congruence.
Qed.

Lemma setitem3_exn (cube : list (list (list Q))) (i j k : nat) (v : Q) (e : exn) :
  setitem3 cube i j k v = Raise e -> e = IndexError.
Proof.
  unfold setitem3. intro H.
  raise_bind H; [exact (getitem_exn _ _ _ H) |].
  raise_bind H; [exact (getitem_exn _ _ _ H) |].
  raise_bind H; [exact (setitem_exn _ _ _ _ H) |].
  raise_bind H; [exact (setitem_exn _ _ _ _ H) |].
  exact (setitem_exn _ _ _ _ H).
Qed.

Lemma scatter_exn (temps zetas nns : list Q) (elements : list IonFraction) :
  forall (cube : list (list (list Q))) (e : exn),
    scatter temps zetas nns elements cube = Raise e -> e = IndexError.
Proof.
  induction elements as [| element rest IH]; intros cube e H;
    cbn [scatter] in H; [discriminate |].
  raise_bind H; [exact (where_first_exn _ _ _ H) |].
  raise_bind H; [exact (where_first_exn _ _ _ H) |].
  raise_bind H; [exact (where_first_exn _ _ _ H) |].
  raise_bind H; [exact (setitem3_exn _ _ _ _ _ _ H) |].
  exact (IH _ _ H).
Qed.

Lemma loadIonData_exn (log10 : Q -> Q) (samples : list IonFraction) (e : exn) :
  loadIonData log10 samples = Raise e -> e = IndexError.
Proof.
  unfold loadIonData. cbv zeta. intro H.
  raise_bind H; [exact (scatter_exn _ _ _ _ _ _ H) |].
  do 9 (raise_bind H; [exact (getitem_exn _ _ _ H) |]).
  discriminate.
Qed.

Lemma getitem_last_total {A : Type} (l : list A) :
  (1 <= length l)%nat -> exists v, getitem l (-1) = Ok v.
Proof.
  intro Hl. unfold getitem.
  destruct (-1 <? 0)%Z eqn:E0; [| discriminate E0].
  assert (Hj : (0 <= -1 + len l)%Z) by (unfold len; lia).
  destruct (-1 + len l <? 0)%Z eqn:E1; [apply Z.ltb_lt in E1; lia |].
  destruct (nth_error l (Z.to_nat (-1 + len l))) as [v |] eqn:E; [eauto |].
  apply nth_error_None in E. unfold len in E. lia.
Qed.

Lemma getitem_Ok_length {A : Type} (l : list A) (i : nat) (v : A) :
  getitem l (Z.of_nat i) = Ok v -> (i < length l)%nat.
Proof.
  intro H. apply getitem_Ok_nonneg in H; [| lia]. rewrite Nat2Z.id in H.
  apply nth_error_Some. congruence.
Qed.

Lemma sample_position (a : axis) (samples : list IonFraction) (e : IonFraction) :
  In e samples ->
  exists i, where_first (sorted_set (map (coordinate a) samples)) (coordinate a e)
            = Ok i /\
            (i < distinct_values a samples)%nat.
Proof.
  intro He. apply where_first_found. apply sorted_set_has.
  apply in_map. exact He.
Qed.

Lemma axes_fit_true (samples : list IonFraction) :
  axes_fit samples = true <->
  forall a, (2 <= distinct_values a samples <= 20)%nat.
Proof.
  unfold axes_fit. cbn [forallb]. rewrite !andb_true_iff, !Nat.leb_le. split.
  - intros H a. destruct a; lia.
  - intro H. pose proof (H Temp). pose proof (H Zeta). pose proof (H Nn). lia.
Qed.

Lemma loadIonData_fits (log10 : Q -> Q) (samples : list IonFraction)
      (c : IonFractionCollection) :
  loadIonData log10 samples = Ok c -> axes_fit samples = true.
Proof.
  intro H. apply axes_fit_true. unfold loadIonData in H. cbv zeta in H.
  inv_bind H. rename a into cube, E into Escatter.
  inv_bind H. rename a into t1, E into Et1.
  inv_bind H. rename a into t0, E into Et0.
  inv_bind H. rename a into z1, E into Ez1.
  inv_bind H. rename a into z0, E into Ez0.
  inv_bind H. rename a into n1, E into En1. clear H.
  destruct (scatter_shape _ _ _ _ _ _ 20%nat 20%nat 20%nat
              (zeros3_shape 20 20 20) Escatter) as (_ & Hpos).
  apply (getitem_Ok_length _ 1%nat) in Et1, Ez1, En1.
  rewrite length_map in Et1, Ez1, En1.
  intros ax. unfold distinct_values. destruct ax; cbn [coordinate]; split;
    try lia; apply sorted_set_positions; intros x Hx;
    apply in_map_iff in Hx; destruct Hx as (e & <- & He);
    destruct (Hpos e He) as (Ht & Hz & Hn); assumption.
Qed.

Lemma loadIonData_returns (log10 : Q -> Q) (samples : list IonFraction) :
  axes_fit samples = true -> exists c, loadIonData log10 samples = Ok c.
Proof.
  intro Hfit. rewrite axes_fit_true in Hfit.
  pose proof (Hfit Temp) as Ht. pose proof (Hfit Zeta) as Hz.
  pose proof (Hfit Nn) as Hn. unfold distinct_values in Ht, Hz, Hn.
  cbn [coordinate] in Ht, Hz, Hn.
  unfold loadIonData. cbv zeta.
  destruct (scatter_total (sorted_set (map t samples))
              (sorted_set (map zeta samples)) (sorted_set (map nn samples))
              20 20 20 samples (zeros3 20 20 20) (zeros3_shape 20 20 20))
    as (cube & ->).
  { intros e He.
    destruct (sample_position Temp samples e He) as (i & Ei & Hi).
    destruct (sample_position Zeta samples e He) as (j & Ej & Hj).
    destruct (sample_position Nn samples e He) as (k & Ek & Hk).
    unfold distinct_values in Hi, Hj, Hk. cbn [coordinate] in *.
    repeat split; eexists; (split; [eassumption | lia]). }
  cbn [bind].
  destruct (getitem_in_range (map log10 (sorted_set (map t samples))) 1)
    as (t1 & -> & _); [unfold len; rewrite length_map; lia |].
  destruct (getitem_in_range (map log10 (sorted_set (map t samples))) 0)
    as (t0 & -> & _); [unfold len; rewrite length_map; lia |].
  destruct (getitem_in_range (map log10 (sorted_set (map zeta samples))) 1)
    as (z1 & -> & _); [unfold len; rewrite length_map; lia |].
  destruct (getitem_in_range (map log10 (sorted_set (map zeta samples))) 0)
    as (z0 & -> & _); [unfold len; rewrite length_map; lia |].
  destruct (getitem_in_range (map log10 (sorted_set (map nn samples))) 1)
    as (n1 & -> & _); [unfold len; rewrite length_map; lia |].
  destruct (getitem_in_range (map log10 (sorted_set (map nn samples))) 0)
    as (n0 & -> & _); [unfold len; rewrite length_map; lia |].
  destruct (getitem_last_total (map log10 (sorted_set (map t samples))))
    as (tN & ->); [rewrite length_map; lia |].
  destruct (getitem_last_total (map log10 (sorted_set (map zeta samples))))
    as (zN & ->); [rewrite length_map; lia |].
  destruct (getitem_last_total (map log10 (sorted_set (map nn samples))))
    as (nN & ->); [rewrite length_map; lia |].
  cbn [bind]. eauto.
Qed.

(** X6, when the table can be built.  [loadIonData] returns exactly when
    each of the three axes has between 2 and 20 distinct sample coordinates
    (the cube is 20 x 20 x 20, and the spacing is the difference of the first
    two entries of an axis); for every other sample list, the empty one
    included, it raises [IndexError]. *)
Theorem loadIonData_needs_2_to_20_values
        (log10 : Q -> Q) (samples : list IonFraction) :
  if axes_fit samples
  then exists c, loadIonData log10 samples = Ok c
  else loadIonData log10 samples = Raise IndexError.
Proof.
  destruct (axes_fit samples) eqn:Hfit.
  - exact (loadIonData_returns log10 samples Hfit).
  - destruct (loadIonData log10 samples) as [c | e] eqn:E.
    + apply loadIonData_fits in E. congruence.
    + apply loadIonData_exn in E. congruence.
Qed.

(** *** What the cube of a built table holds *)

Lemma set_nth_same {A : Type} (l : list A) :
  forall (n : nat) (v : A) (r : list A),
    set_nth l n v = Some r -> nth_error r n = Some v.
Proof.
  induction l as [| x l IH]; intros [| n] v r H; cbn in H; try discriminate.
  - injection H as <-. reflexivity.
  - destruct (set_nth l n v) as [r' |] eqn:E; [| discriminate].
    injection H as <-. cbn. exact (IH n v r' E).
Qed.

Lemma set_nth_other {A : Type} (l : list A) :
  forall (n m : nat) (v : A) (r : list A),
    set_nth l n v = Some r -> m <> n -> nth_error r m = nth_error l m.
Proof.
  induction l as [| x l IH]; intros [| n] m v r H Hm; cbn in H; try discriminate.
  - injection H as <-. destruct m; [congruence | reflexivity].
  - destruct (set_nth l n v) as [r' |] eqn:E; [| discriminate].
    injection H as <-. destruct m as [| m]; [reflexivity |].
    cbn. apply (IH n m v r' E). congruence.
Qed.

Lemma getitem_of_nat {A : Type} (l : list A) (i : nat) :
  getitem l (Z.of_nat i) =
  match nth_error l i with Some v => Ok v | None => Raise IndexError end.
Proof. rewrite getitem_nonneg by lia. rewrite Nat2Z.id. reflexivity. Qed.

Lemma setitem_same {A : Type} (l : list A) (n : nat) (v : A) (r : list A) :
  setitem l n v = Ok r -> getitem r (Z.of_nat n) = Ok v.
Proof.
  unfold setitem. destruct (set_nth l n v) as [r' |] eqn:E; [| discriminate].
  intro H. injection H as <-.
  rewrite getitem_of_nat, (set_nth_same l n v r' E). reflexivity.
Qed.

Lemma setitem_other {A : Type} (l : list A) (n m : nat) (v : A) (r : list A) :
  setitem l n v = Ok r -> m <> n ->
  getitem r (Z.of_nat m) = getitem l (Z.of_nat m).
Proof.
  unfold setitem. destruct (set_nth l n v) as [r' |] eqn:E; [| discriminate].
  intros H Hm. injection H as <-.
  rewrite !getitem_of_nat, (set_nth_other l n m v r' E Hm). reflexivity.
Qed.

Lemma setitem3_same (cube cube' : list (list (list Q))) (i j k : nat) (v : Q) :
  setitem3 cube i j k v = Ok cube' ->
  getitem3 cube' (Z.of_nat i) (Z.of_nat j) (Z.of_nat k) = Ok v.
Proof.
  unfold setitem3, getitem3. intro H.
  inv_bind H. rename a into plane, E into Eplane.
  inv_bind H. rename a into row, E into Erow.
  inv_bind H. rename a into row', E into Erow'.
  inv_bind H. rename a into plane', E into Eplane'.
  rewrite (setitem_same _ _ _ _ H). cbn [bind].
  rewrite (setitem_same _ _ _ _ Eplane'). cbn [bind].
  exact (setitem_same _ _ _ _ Erow').
Qed.

Lemma setitem3_other (cube cube' : list (list (list Q))) (i j k : nat) (v : Q)
      (i' j' k' : nat) :
  setitem3 cube i j k v = Ok cube' ->
  (i', j', k') <> (i, j, k) ->
  getitem3 cube' (Z.of_nat i') (Z.of_nat j') (Z.of_nat k')
  = getitem3 cube (Z.of_nat i') (Z.of_nat j') (Z.of_nat k').
Proof.
  unfold setitem3, getitem3. intros H Hne.
  inv_bind H. rename a into plane, E into Eplane.
  inv_bind H. rename a into row, E into Erow.
  inv_bind H. rename a into row', E into Erow'.
  inv_bind H. rename a into plane', E into Eplane'.
  destruct (Nat.eq_dec i' i) as [-> | Hi].
  - rewrite (setitem_same _ _ _ _ H), Eplane. cbn [bind].
    destruct (Nat.eq_dec j' j) as [-> | Hj].
    + rewrite (setitem_same _ _ _ _ Eplane'), Erow. cbn [bind].
      apply (setitem_other _ _ _ _ _ Erow'). congruence.
    + rewrite (setitem_other _ _ _ _ _ Eplane' Hj). reflexivity.
  - rewrite (setitem_other _ _ _ _ _ H Hi). reflexivity.
Qed.

(** The positions [where_first] finds. *)
Lemma where_first_nth (l : list Q) (x : Q) :
  forall i : nat,
    where_first l x = Ok i -> exists y, nth_error l i = Some y /\ y == x.
Proof.
  induction l as [| z l IH]; intros i H; cbn [where_first] in H; [discriminate |].
  destruct (Qeqb z x) eqn:E.
  - injection H as <-. exists z. split; [reflexivity | apply Qeqb_true; exact E].
  - inv_bind H. injection H as <-. exact (IH a E0).
Qed.

Lemma where_first_compat (l : list Q) (x y : Q) :
  x == y -> where_first l x = where_first l y.
Proof.
  intro Hxy. induction l as [| z l IH]; [reflexivity |].
  cbn [where_first].
  assert (E : Qeqb z x = Qeqb z y).
  { destruct (Qeqb z y) eqn:Ey.
    - apply Qeqb_true in Ey. apply Qeqb_true. lra.
    - apply Qeqb_false in Ey. apply Qeqb_false. lra. }
  rewrite E, IH. reflexivity.
Qed.

Lemma scatter_untouched (temps zetas nns : list Q) (elements : list IonFraction) :
  forall (cube cube' : list (list (list Q))) (i j k : nat),
    scatter temps zetas nns elements cube = Ok cube' ->
    (forall e, In e elements -> ~ lands temps zetas nns e i j k) ->
    getitem3 cube' (Z.of_nat i) (Z.of_nat j) (Z.of_nat k)
    = getitem3 cube (Z.of_nat i) (Z.of_nat j) (Z.of_nat k).
Proof.
  induction elements as [| element rest IH]; intros cube cube' i j k H Hno.
  - cbn in H. injection H as <-. reflexivity.
  - cbn [scatter] in H.
    inv_bind H. rename a into i0, E into Ei.
    inv_bind H. rename a into j0, E into Ej.
    inv_bind H. rename a into k0, E into Ek.
    inv_bind H. rename a into cube1, E into Eset.
    rewrite (IH cube1 cube' i j k H).
    + apply (setitem3_other _ _ _ _ _ _ _ _ _ Eset).
      intro Heq. injection Heq as -> -> ->.
      apply (Hno element (or_introl eq_refl)). repeat split; assumption.
    + intros e He. apply Hno. right. exact He.
Qed.

Lemma scatter_last (temps zetas nns : list Q) (pre : list IonFraction) :
  forall (e : IonFraction) (post : list IonFraction)
         (cube cube' : list (list (list Q))) (i j k : nat),
    scatter temps zetas nns (pre ++ e :: post) cube = Ok cube' ->
    lands temps zetas nns e i j k ->
    (forall e', In e' post -> ~ lands temps zetas nns e' i j k) ->
    getitem3 cube' (Z.of_nat i) (Z.of_nat j) (Z.of_nat k) = Ok (xe e).
Proof.
  induction pre as [| p pre IH]; intros e post cube cube' i j k H Hland Hpost.
  - cbn [app scatter] in H. destruct Hland as (Ei & Ej & Ek).
    rewrite Ei, Ej, Ek in H. cbn [bind] in H.
    inv_bind H. rename a into cube1, E into Eset.
    rewrite (scatter_untouched _ _ _ _ _ _ i j k H Hpost).
    exact (setitem3_same _ _ _ _ _ _ Eset).
  - cbn [app scatter] in H.
    inv_bind H. inv_bind H. inv_bind H. inv_bind H.
    exact (IH e post _ cube' i j k H Hland Hpost).
Qed.

Lemma where_first_increasing_eq (l : list Q) (p : nat) (y x : Q) :
  increasing l -> nth_error l p = Some y -> y == x -> where_first l x = Ok p.
Proof.
  intros Hinc Hp Hyx. rewrite <- (where_first_compat l y x Hyx).
  exact (where_first_increasing l Hinc p y Hp).
Qed.

Lemma lands_sample_at (samples : list IonFraction) (e : IonFraction) (i j k : nat) :
  lands (raw_axis Temp samples) (raw_axis Zeta samples) (raw_axis Nn samples)
        e i j k
  <-> sample_at samples i j k e.
Proof.
  unfold lands, sample_at. split.
  - intros (Hi & Hj & Hk).
    destruct (where_first_nth _ _ _ Hi) as (ti & Eti & Hti).
    destruct (where_first_nth _ _ _ Hj) as (zj & Ezj & Hzj).
    destruct (where_first_nth _ _ _ Hk) as (nk & Enk & Hnk).
    exists ti, zj, nk. repeat split; assumption.
  - intros (ti & zj & nk & Eti & Hti & Ezj & Hzj & Enk & Hnk).
    repeat split; eapply where_first_increasing_eq; try eassumption;
      apply sorted_set_increasing.
Qed.

Lemma sample_at_same (samples : list IonFraction) (e e' : IonFraction) (i j k : nat) :
  sample_at samples i j k e -> sample_at samples i j k e' -> same_coordinates e e'.
Proof.
  intros (ti & zj & nk & Eti & Hti & Ezj & Hzj & Enk & Hnk)
         (ti' & zj' & nk' & Eti' & Hti' & Ezj' & Hzj' & Enk' & Hnk').
  rewrite Eti in Eti'. rewrite Ezj in Ezj'. rewrite Enk in Enk'.
  injection Eti' as <-. injection Ezj' as <-. injection Enk' as <-.
  unfold same_coordinates. repeat split; lra.
Qed.

Lemma zeros3_cell (i j k : nat) :
  (i < 20)%nat -> (j < 20)%nat -> (k < 20)%nat ->
  getitem3 (zeros3 20 20 20) (Z.of_nat i) (Z.of_nat j) (Z.of_nat k) = Ok 0.
Proof.
  intros Hi Hj Hk. unfold getitem3, zeros3.
  rewrite getitem_of_nat, nth_error_repeat by exact Hi. cbn [bind].
  rewrite getitem_of_nat, nth_error_repeat by exact Hj. cbn [bind].
  rewrite getitem_of_nat, nth_error_repeat by exact Hk. reflexivity.
Qed.

Lemma loadIonData_cube (log10 : Q -> Q) (samples : list IonFraction)
      (c : IonFractionCollection) :
  loadIonData log10 samples = Ok c ->
  scatter (raw_axis Temp samples) (raw_axis Zeta samples) (raw_axis Nn samples)
          samples (zeros3 20 20 20) = Ok (data c).
Proof.
  intro H. unfold loadIonData in H. cbv zeta in H.
  inv_bind H. rename a into cube, E into Escatter.
  do 9 inv_bind H. injection H as <-. exact Escatter.
Qed.

(** X7, what the cube of a built table holds.  The axes are the logarithms
    of the sorted distinct coordinates.  Every sample is stored at the
    positions of its three coordinates, and a sample that is not followed by
    another one with the same coordinates is what the cube holds there (the
    last sample wins); a cell of the 20 x 20 x 20 cube at which no sample
    lies holds 0. *)
Theorem loaded_cube_holds_last_sample
        (log10 : Q -> Q) (samples : list IonFraction)
        (c : IonFractionCollection) :
  loadIonData log10 samples = Ok c ->
  (forall a, axis_array c a = map log10 (raw_axis a samples)) /\
  (forall (pre : list IonFraction) (e : IonFraction) (post : list IonFraction),
      samples = pre ++ e :: post ->
      (forall e', In e' post -> ~ same_coordinates e e') ->
      exists i j k,
        sample_at samples i j k e /\
        getitem3 (data c) (Z.of_nat i) (Z.of_nat j) (Z.of_nat k) = Ok (xe e)) /\
  (forall i j k : nat,
      (i < 20)%nat -> (j < 20)%nat -> (k < 20)%nat ->
      (forall e, In e samples -> ~ sample_at samples i j k e) ->
      getitem3 (data c) (Z.of_nat i) (Z.of_nat j) (Z.of_nat k) = Ok 0).
Proof.
  intro H. pose proof (loadIonData_cube log10 samples c H) as Hscatter.
  split; [exact (loadIonData_axes log10 samples c H) |]. split.
  - intros pre e post Hsplit Hlast.
    assert (He : In e samples) by (rewrite Hsplit; apply in_elt).
    destruct (sample_position Temp samples e He) as (i & Ei & _).
    destruct (sample_position Zeta samples e He) as (j & Ej & _).
    destruct (sample_position Nn samples e He) as (k & Ek & _).
    assert (Hland : lands (raw_axis Temp samples) (raw_axis Zeta samples)
                          (raw_axis Nn samples) e i j k)
      by (repeat split; assumption).
    exists i, j, k. split; [apply lands_sample_at; exact Hland |].
    rewrite Hsplit in Hscatter at 4.
    apply (scatter_last _ _ _ pre e post _ _ i j k Hscatter Hland).
    intros e' He' Hland'. apply (Hlast e' He').
    apply (sample_at_same samples e e' i j k); apply lands_sample_at; assumption.
  - intros i j k Hi Hj Hk Hno.
    rewrite (scatter_untouched _ _ _ _ _ _ i j k Hscatter).
    + exact (zeros3_cell i j k Hi Hj Hk).
    + intros e He Hland. apply (Hno e He). apply lands_sample_at. exact Hland.
Qed.

Lemma loaded_cube_witness :
  (forall a, axis_array Sample.uniform_table a
             = map Sample.log10 (raw_axis a Sample.uniform_samples)) /\
  (forall (pre : list IonFraction) (e : IonFraction) (post : list IonFraction),
      Sample.uniform_samples = pre ++ e :: post ->
      (forall e', In e' post -> ~ same_coordinates e e') ->
      exists i j k,
        sample_at Sample.uniform_samples i j k e /\
        getitem3 (data Sample.uniform_table)
                 (Z.of_nat i) (Z.of_nat j) (Z.of_nat k) = Ok (xe e)) /\
  (forall i j k : nat,
      (i < 20)%nat -> (j < 20)%nat -> (k < 20)%nat ->
      (forall e, In e Sample.uniform_samples ->
                 ~ sample_at Sample.uniform_samples i j k e) ->
      getitem3 (data Sample.uniform_table)
               (Z.of_nat i) (Z.of_nat j) (Z.of_nat k) = Ok 0).
Proof.
  apply (loaded_cube_holds_last_sample Sample.log10 Sample.uniform_samples
           Sample.uniform_table).
  vm_compute. reflexivity.
Defined.

(** *** Queries beyond the ends of the axes *)

Lemma bracket_above (a : axis) (c : IonFractionCollection) (q : Q) :
  axis_start c a < q -> axis_end c a <= q ->
  getIndicesFor a c q = Ok (axis_n c a - 1, axis_n c a - 1)%Z.
Proof.
  intros Hs He. rewrite getIndicesFor_unfold. cbv zeta.
  assert (E1 : Qleb (q - axis_start c a) 0 = false) by (apply Qleb_false; lra).
  assert (E2 : Qleb (axis_end c a - axis_start c a) (q - axis_start c a) = true)
    by (apply Qleb_true; lra).
  rewrite E1, E2. reflexivity.
Qed.

Lemma alike_bracket (a : axis) (c : IonFractionCollection) (q q' : Q) :
  clamped_alike c a q q' ->
  getIndicesFor a c q' = getIndicesFor a c q /\
  (q' = q \/ exists l, getIndicesFor a c q = Ok (l, l)).
Proof.
  intros [-> | [[Hq Hq'] | (Hq & Hq' & He & He')]].
  - split; [reflexivity | left; reflexivity].
  - rewrite (bracket_low a c q), (bracket_low a c q') by lra.
    split; [reflexivity | right; eauto].
  - rewrite (bracket_above a c q), (bracket_above a c q') by lra.
    split; [reflexivity | right; eauto].
Qed.

Lemma alike_weight (arr : list Q) (q q' : Q) (l r : Z) (v0 v1 : Q) :
  (q' = q \/ exists p : Z, @Ok (Z * Z) (l, r) = Ok (p, p)) ->
  getitem arr l = Ok v0 ->
  getitem arr r = Ok v1 ->
  scaled_difference q' v0 v1 = scaled_difference q v0 v1.
Proof.
  intros [-> | (p & Ep)] E0 E1; [reflexivity |].
  injection Ep as -> ->.
  rewrite E0 in E1. injection E1 as <-.
  rewrite !scaled_difference_same. reflexivity.
Qed.

Lemma alike_lattice (log10 : Q -> Q) (c : IonFractionCollection)
      (temp zeta nn temp' zeta' nn' : Q) :
  clamped_alike c Temp (log10 temp) (log10 temp') ->
  clamped_alike c Zeta (log10 zeta) (log10 zeta') ->
  clamped_alike c Nn (log10 nn) (log10 nn') ->
  lattice log10 c temp' zeta' nn' = lattice log10 c temp zeta nn.
Proof.
  intros Ht Hz Hn.
  destruct (alike_bracket _ _ _ _ Ht) as [Bt Wt].
  destruct (alike_bracket _ _ _ _ Hz) as [Bz Wz].
  destruct (alike_bracket _ _ _ _ Hn) as [Bn Wn].
  unfold lattice. cbv zeta.
  change getIndicesForTempValue with (getIndicesFor Temp).
  change getIndicesForZetaValue with (getIndicesFor Zeta).
  change getIndicesForNnValue with (getIndicesFor Nn).
  rewrite Bt, Bz, Bn.
  destruct (getIndicesFor Temp c (log10 temp)) as [[xl xr] |] eqn:Et;
    [| reflexivity].
  cbn [bind].
  destruct (getIndicesFor Zeta c (log10 zeta)) as [[yl yr] |] eqn:Ez;
    [| reflexivity].
  cbn [bind].
  destruct (getIndicesFor Nn c (log10 nn)) as [[zl zr] |] eqn:En;
    [| reflexivity].
  cbn [bind].
  destruct (getitem (temp_array c) xl) as [x0 |] eqn:Ex0; [| reflexivity].
  cbn [bind].
  destruct (getitem (temp_array c) xr) as [x1 |] eqn:Ex1; [| reflexivity].
  cbn [bind].
  destruct (getitem (zeta_array c) yl) as [y0 |] eqn:Ey0; [| reflexivity].
  cbn [bind].
  destruct (getitem (zeta_array c) yr) as [y1 |] eqn:Ey1; [| reflexivity].
  cbn [bind].
  destruct (getitem (nn_array c) zl) as [z0 |] eqn:Ez0; [| reflexivity].
  cbn [bind].
  destruct (getitem (nn_array c) zr) as [z1 |] eqn:Ez1; [| reflexivity].
  cbn [bind].
  rewrite (alike_weight _ _ _ xl xr x0 x1 Wt Ex0 Ex1).
  rewrite (alike_weight _ _ _ yl yr y0 y1 Wz Ey0 Ey1).
  rewrite (alike_weight _ _ _ zl zr z0 z1 Wn Ez0 Ez1).
  reflexivity.
Qed.

(** X8, no extrapolation.  Along each axis the lookup cannot tell two
    queries apart that both lie at or below the start of the axis, or both
    above the start and at or above its end: it gives both the same result,
    in every collection.  Beyond the ends of the table the ion fraction is
    constant. *)
Theorem lookup_is_constant_beyond_the_axes
        (log10 : Q -> Q) (c : IonFractionCollection)
        (temp zeta nn temp' zeta' nn' : Q) :
  clamped_alike c Temp (log10 temp) (log10 temp') ->
  clamped_alike c Zeta (log10 zeta) (log10 zeta') ->
  clamped_alike c Nn (log10 nn) (log10 nn') ->
  interpolateIonFraction log10 c temp' zeta' nn'
  = interpolateIonFraction log10 c temp zeta nn.
Proof.
  intros Ht Hz Hn. unfold interpolateIonFraction.
  rewrite (alike_lattice log10 c _ _ _ _ _ _ Ht Hz Hn). reflexivity.
Qed.

(** In the uniform sample table (temperatures 10 to 1000) the queries at
    T = 1000 and at T = 10^6 agree. *)
Lemma lookup_beyond_axes_witness :
  interpolateIonFraction Sample.log10 Sample.uniform_table 1000000 10 1
  = interpolateIonFraction Sample.log10 Sample.uniform_table 1000 10 1.
Proof.
  apply lookup_is_constant_beyond_the_axes.
  - right. right. vm_compute. repeat split; discriminate.
  - left. reflexivity.
  - left. reflexivity.
Defined.

(** *** The lookup stays within the stored values *)

Lemma getitem_In_Z {A : Type} (l : list A) (i : Z) (v : A) :
  getitem l i = Ok v -> In v l.
Proof.
  unfold getitem.
  destruct ((if (i <? 0)%Z then (i + len l)%Z else i) <? 0)%Z; [discriminate |].
  destruct (nth_error l _) as [w |] eqn:E; [| discriminate].
  intro H. injection H as <-. eapply nth_error_In. exact E.
Qed.

Lemma getitem3_In (cube : list (list (list Q))) (i j k : Z) (v : Q) :
  getitem3 cube i j k = Ok v ->
  exists plane row, In plane cube /\ In row plane /\ In v row.
Proof.
  unfold getitem3. intro H.
  inv_bind H. rename a into plane, E into Eplane.
  inv_bind H. rename a into row, E into Erow.
  exists plane, row.
  repeat split; eapply getitem_In_Z; eassumption.
Qed.

Lemma setitem3_Forall (P : Q -> Prop) (cube cube' : list (list (list Q)))
      (i j k : nat) (v : Q) :
  Forall (Forall (Forall P)) cube -> P v ->
  setitem3 cube i j k v = Ok cube' ->
  Forall (Forall (Forall P)) cube'.
Proof.
  intros Hcube Hv H. unfold setitem3 in H.
  inv_bind H. rename a into plane, E into Eplane.
  inv_bind H. rename a into row, E into Erow.
  inv_bind H. rename a into row', E into Erow'.
  inv_bind H. rename a into plane', E into Eplane'.
  assert (Hplane : Forall (Forall P) plane).
  { rewrite Forall_forall in Hcube. apply Hcube. eapply getitem_In_Z. exact Eplane. }
  assert (Hrow : Forall P row).
  { rewrite Forall_forall in Hplane. apply Hplane. eapply getitem_In_Z. exact Erow. }
  apply (proj2 (proj2 (setitem_spec _ _ _ _ _ H))); [exact Hcube |].
  apply (proj2 (proj2 (setitem_spec _ _ _ _ _ Eplane'))); [exact Hplane |].
  apply (proj2 (proj2 (setitem_spec _ _ _ _ _ Erow'))); [exact Hrow | exact Hv].
Qed.

Lemma scatter_Forall (P : Q -> Prop) (temps zetas nns : list Q)
      (elements : list IonFraction) :
  forall cube cube' : list (list (list Q)),
    Forall (Forall (Forall P)) cube ->
    (forall e, In e elements -> P (xe e)) ->
    scatter temps zetas nns elements cube = Ok cube' ->
    Forall (Forall (Forall P)) cube'.
Proof.
  induction elements as [| element rest IH]; intros cube cube' Hcube HP H.
  - cbn in H. injection H as <-. exact Hcube.
  - cbn [scatter] in H.
    inv_bind H. inv_bind H. inv_bind H. inv_bind H.
    apply (IH a2 cube'); [| intros e He; apply HP; right; exact He | exact H].
    apply (setitem3_Forall P cube a2 a a0 a1 (xe element) Hcube); [| exact E2].
    apply HP. left. reflexivity.
Qed.

Lemma zeros3_Forall (P : Q -> Prop) (a b c : nat) :
  P 0 -> Forall (Forall (Forall P)) (zeros3 a b c).
Proof.
  intro H0. unfold zeros3.
  apply Forall_forall. intros plane Hp. apply repeat_spec in Hp. subst plane.
  apply Forall_forall. intros row Hr. apply repeat_spec in Hr. subst row.
  apply Forall_forall. intros v Hv. apply repeat_spec in Hv. subst v. exact H0.
Qed.

(** Every cell of a built table holds 0 or the fraction of a sample. *)
Lemma loaded_cell_origin (log10 : Q -> Q) (samples : list IonFraction)
      (c : IonFractionCollection) (P : Q -> Prop) :
  loadIonData log10 samples = Ok c ->
  P 0 -> (forall e, In e samples -> P (xe e)) ->
  forall (i j k : Z) (v : Q), getitem3 (data c) i j k = Ok v -> P v.
Proof.
  intros H H0 HP i j k v Hv.
  pose proof (loadIonData_cube log10 samples c H) as Hscatter.
  pose proof (scatter_Forall P _ _ _ _ _ _ (zeros3_Forall P 20 20 20 H0) HP Hscatter)
    as Hall.
  destruct (getitem3_In _ _ _ _ _ Hv) as (plane & row & Hplane & Hrow & Hin).
  rewrite Forall_forall in Hall. pose proof (Hall plane Hplane) as Hp.
  rewrite Forall_forall in Hp. pose proof (Hp row Hrow) as Hr.
  rewrite Forall_forall in Hr. exact (Hr v Hin).
Qed.

Lemma weight_between (q v0 v1 : Q) :
  v0 <= q <= v1 -> 0 <= weight q v0 v1 <= 1.
Proof.
  intros [Hl Hr]. unfold weight.
  destruct (Qeqb v0 v1) eqn:E; [lra |].
  apply Qeqb_false in E.
  assert (Hpos : 0 < v1 - v0) by lra.
  split.
  - apply Qle_shift_div_l; [exact Hpos | lra].
  - apply Qle_shift_div_r; [exact Hpos | lra].
Qed.

(** On a consistent, uniformly spaced axis the weight of every query lies
    between 0 and 1. *)
Lemma bracket_weight (a : axis) (c : IonFractionCollection) (q : Q)
      (l r : Z) (v0 v1 : Q) :
  axis_consistent c a -> axis_uniform c a ->
  getIndicesFor a c q = Ok (l, r) ->
  getitem (axis_array c a) l = Ok v0 ->
  getitem (axis_array c a) r = Ok v1 ->
  0 <= weight q v0 v1 <= 1.
Proof.
  intros Hcons Hunif E E0 E1.
  destruct (Qlt_le_dec (axis_start c a) q) as [Hs | Hs].
  - destruct (Qlt_le_dec q (axis_end c a)) as [He | He].
    + destruct (uniform_axis_encloses a c q Hcons Hunif (conj Hs He))
        as (l' & r' & vl & vr & E' & _ & _ & El & Er & Hq).
      rewrite E in E'. injection E' as <- <-.
      rewrite E0 in El. injection El as <-.
      rewrite E1 in Er. injection Er as <-.
      exact (weight_between q v0 v1 Hq).
    + rewrite (bracket_above a c q Hs He) in E. injection E as <- <-.
      rewrite E0 in E1. injection E1 as <-.
      rewrite weight_same by reflexivity. lra.
  - rewrite (bracket_low a c q) in E by lra. injection E as <- <-.
    rewrite E0 in E1. injection E1 as <-.
    rewrite weight_same by reflexivity. lra.
Qed.

Lemma blend_between (lo hi a b w : Q) :
  lo <= a <= hi -> lo <= b <= hi -> 0 <= w <= 1 ->
  lo <= blend a b w <= hi.
Proof. unfold blend. intros Ha Hb Hw. split; nra. Qed.

Lemma blend3_between (lo hi : Q) (k : Lattice) (wx wy wz : Q) :
  0 <= wx <= 1 -> 0 <= wy <= 1 -> 0 <= wz <= 1 ->
  lo <= c000 k <= hi -> lo <= c001 k <= hi ->
  lo <= c010 k <= hi -> lo <= c011 k <= hi ->
  lo <= c100 k <= hi -> lo <= c101 k <= hi ->
  lo <= c110 k <= hi -> lo <= c111 k <= hi ->
  lo <= blend3 k wx wy wz <= hi.
Proof.
  intros Hx Hy Hz H000 H001 H010 H011 H100 H101 H110 H111.
  unfold blend3.
  repeat (apply blend_between; try assumption).
Qed.

(** X9, the lookup never overshoots.  In a table built by [loadIonData]
    whose three axes are uniformly spaced, the lookup of positive queries
    returns a number, and that number lies within any bounds that hold for
    0 and for the fractions of all the samples. *)
Theorem lookup_stays_within_samples
        (log10 : Q -> Q) (samples : list IonFraction)
        (c : IonFractionCollection) (lo hi temp zeta nn : Q) :
  0 < temp -> 0 < zeta -> 0 < nn ->
  loadIonData log10 samples = Ok c ->
  (forall a, axis_uniform c a) ->
  lo <= 0 <= hi ->
  (forall e, In e samples -> lo <= xe e <= hi) ->
  exists r : Q,
    interpolateIonFraction log10 c temp zeta nn = Ok (Fin r) /\
    lo <= r <= hi.
Proof.
  intros _ _ _ Hload Hunif H0 Hxe.
  destruct (lattice_total log10 samples c temp zeta nn Hload Hunif) as (k & Hk).
  pose proof (loadIonData_consistent log10 samples c Hload) as Hcons.
  destruct (lattice_Ok log10 c temp zeta nn k Hk)
    as (Bt & Bz & Bn & _ & _ & _
        & C000 & C001 & C010 & C011 & C100 & C101 & C110 & C111).
  destruct (lattice_weights log10 c temp zeta nn k Hk)
    as (x0 & x1 & y0 & y1 & z0 & z1 & Ex0 & Ex1 & Ey0 & Ey1 & Ez0 & Ez1
        & _ & _ & _ & Hr).
  pose proof (bracket_weight Temp c _ _ _ x0 x1 (Hcons Temp) (Hunif Temp)
                Bt Ex0 Ex1) as Wx.
  pose proof (bracket_weight Zeta c _ _ _ y0 y1 (Hcons Zeta) (Hunif Zeta)
                Bz Ey0 Ey1) as Wy.
  pose proof (bracket_weight Nn c _ _ _ z0 z1 (Hcons Nn) (Hunif Nn)
                Bn Ez0 Ez1) as Wz.
  pose proof (loaded_cell_origin log10 samples c (fun v => lo <= v <= hi)
                Hload H0 Hxe) as Hcell.
  eexists. split.
  - unfold interpolateIonFraction. rewrite Hk. cbn [bind]. rewrite Hr.
    reflexivity.
  - apply blend3_between; try assumption; eapply Hcell; eassumption.
Qed.

Lemma uniform_samples_fractions (e : IonFraction) :
  In e Sample.uniform_samples -> 0 <= xe e <= 1.
Proof.
  intro He. vm_compute in He.
  repeat (destruct He as [<- | He]; [vm_compute; split; discriminate |]).
  destruct He.
Qed.

(** The uniform sample table holds fractions between 0 and 1; so is the
    lookup at the temperature 100. *)
Lemma lookup_within_samples_witness :
  exists r : Q,
    interpolateIonFraction Sample.log10 Sample.uniform_table 100 1 10
    = Ok (Fin r) /\
    0 <= r <= 1.
Proof.
  apply (lookup_stays_within_samples Sample.log10 Sample.uniform_samples
           Sample.uniform_table 0 1 100 1 10).
  - reflexivity.
  - reflexivity.
  - reflexivity.
  - vm_compute. reflexivity.
  - exact uniform_table_uniform.
  - lra.
  - exact uniform_samples_fractions.
Defined.

(** *** Lookups that leave a gapped axis *)

(** Once the three bracket searches have returned, the lookup returns or
    raises [IndexError]. *)
Lemma lattice_exn (log10 : Q -> Q) (c : IonFractionCollection)
      (temp zeta nn : Q) (e : exn) :
  (forall a q, exists l r, getIndicesFor a c q = Ok (l, r)) ->
  lattice log10 c temp zeta nn = Raise e -> e = IndexError.
Proof.
  intros Hb H. unfold lattice in H. cbv zeta in H.
  change getIndicesForTempValue with (getIndicesFor Temp) in H.
  change getIndicesForZetaValue with (getIndicesFor Zeta) in H.
  change getIndicesForNnValue with (getIndicesFor Nn) in H.
  destruct (Hb Temp (log10 temp)) as (xl & xr & Et). rewrite Et in H.
  destruct (Hb Zeta (log10 zeta)) as (yl & yr & Ez). rewrite Ez in H.
  destruct (Hb Nn (log10 nn)) as (zl & zr & En). rewrite En in H.
  cbn [bind] in H.
  do 6 (raise_bind H; [exact (getitem_exn _ _ _ H) |]).
  do 8 (raise_bind H; [exact (getItemsFor_exn _ _ _ _ _ H) |]).
  discriminate.
Qed.

(** With a positive spacing every bracket search returns. *)
Lemma bracket_returns (a : axis) (c : IonFractionCollection) (q : Q) :
  0 < axis_d c a -> exists l r, getIndicesFor a c q = Ok (l, r).
Proof.
  intro Hd. rewrite getIndicesFor_unfold. cbv zeta.
  destruct (Qleb (q - axis_start c a) 0); [eauto |].
  destruct (Qleb (axis_end c a - axis_start c a) (q - axis_start c a)); [eauto |].
  rewrite floor_ceil_index_pos by lra. eauto.
Qed.

Lemma getitem_Ok_below {A : Type} (l : list A) (i : Z) (v : A) :
  (0 <= i)%Z -> getitem l i = Ok v -> (i < len l)%Z.
Proof.
  intros Hi H. apply getitem_Ok_nonneg in H; [| exact Hi].
  assert (Hn : (Z.to_nat i < length l)%nat) by (apply nth_error_Some; congruence).
  unfold len. lia.
Qed.

Lemma bracket_past_the_axis (a : axis) (c : IonFractionCollection) (q : Q) (l r : Z) :
  0 < axis_d c a -> (0 <= axis_n c a)%Z ->
  inject_Z (axis_n c a) * axis_d c a <= q - axis_start c a ->
  q - axis_start c a < axis_end c a - axis_start c a ->
  getIndicesFor a c q = Ok (l, r) ->
  (axis_n c a <= l)%Z.
Proof.
  intros Hd Hn Hlow Hhigh E.
  assert (Hn' : 0 <= inject_Z (axis_n c a))
    by (change 0 with (inject_Z 0); rewrite <- Zle_Qle; exact Hn).
  assert (Hpos : 0 < q - axis_start c a \/ q - axis_start c a <= 0)
    by (destruct (Qlt_le_dec 0 (q - axis_start c a)); auto).
  destruct Hpos as [Hpos | Hneg].
  - pose proof (bracket_inner a c q Hd (conj Hpos Hhigh)) as E'.
    assert (El : l = Qfloor ((q - axis_start c a) / axis_d c a)) by congruence.
    rewrite El, <- (Qfloor_Z (axis_n c a)) at 1. apply Qfloor_resp_le.
    apply Qle_shift_div_l; [exact Hd | exact Hlow].
  - assert (Hz : inject_Z (axis_n c a) * axis_d c a <= 0) by lra.
    destruct (Z.eq_dec (axis_n c a) 0) as [E0 | N0].
    + rewrite (bracket_low a c q Hneg) in E. injection E as <- _. lia.
    + exfalso.
      assert (H1 : 1 <= inject_Z (axis_n c a))
        by (change 1 with (inject_Z 1); rewrite <- Zle_Qle; lia).
      assert (H2 : 0 <= (inject_Z (axis_n c a) - 1) * axis_d c a)
        by (apply Qmult_le_0_compat; lra).
      nra.
Qed.

(** X10, lookups that raise in a built table.  When the entries of an axis
    are not uniformly spaced the bracket search, which divides by the first
    spacing, can return a position past the axis: in a table built by
    [loadIonData] (with [log10] strictly increasing on the sample
    coordinates), a positive query whose distance [d] from the start of
    some axis satisfies [N * spacing <= d < end - start] makes the lookup
    raise [IndexError]. *)
Theorem lookup_past_gapped_axis_raises
        (log10 : Q -> Q) (samples : list IonFraction)
        (c : IonFractionCollection) (a : axis) (temp zeta nn : Q) :
  0 < temp -> 0 < zeta -> 0 < nn ->
  loadIonData log10 samples = Ok c ->
  (forall a, increasing_on log10 (map (coordinate a) samples)) ->
  inject_Z (axis_n c a) * axis_d c a
  <= log10 (query a temp zeta nn) - axis_start c a ->
  log10 (query a temp zeta nn) - axis_start c a < axis_end c a - axis_start c a ->
  interpolateIonFraction log10 c temp zeta nn = Raise IndexError.
Proof.
  intros _ _ _ Hload Hinc Hlow Hhigh.
  pose proof (built_axes log10 samples c Hload Hinc) as Hbuilt.
  pose proof (loadIonData_consistent log10 samples c Hload) as Hcons.
  assert (Hb : forall a q, exists l r, getIndicesFor a c q = Ok (l, r)).
  { intros a' q. apply bracket_returns. apply (Hbuilt a'). }
  assert (Hn : (0 <= axis_n c a)%Z).
  { destruct (Hcons a) as (-> & _). unfold len. lia. }
  assert (Hlen : axis_n c a = len (axis_array c a)) by apply (Hcons a).
  unfold interpolateIonFraction.
  destruct (lattice log10 c temp zeta nn) as [k | e] eqn:E.
  - exfalso.
    destruct (lattice_Ok log10 c temp zeta nn k E)
      as (Bt & Bz & Bn & (x0 & x1 & Ex0 & _) & (y0 & y1 & Ey0 & _)
          & (z0 & z1 & Ez0 & _) & _).
    destruct a; cbn [query] in Hlow, Hhigh.
    + pose proof (bracket_past_the_axis Temp c _ _ _ (proj2 (proj2 (Hbuilt Temp)))
                    Hn Hlow Hhigh Bt) as Hl.
      apply getitem_Ok_below in Ex0; [| lia].
      change (temp_array c) with (axis_array c Temp) in Ex0. lia.
    + pose proof (bracket_past_the_axis Zeta c _ _ _ (proj2 (proj2 (Hbuilt Zeta)))
                    Hn Hlow Hhigh Bz) as Hl.
      apply getitem_Ok_below in Ey0; [| lia].
      change (zeta_array c) with (axis_array c Zeta) in Ey0. lia.
    + pose proof (bracket_past_the_axis Nn c _ _ _ (proj2 (proj2 (Hbuilt Nn)))
                    Hn Hlow Hhigh Bn) as Hl.
      apply getitem_Ok_below in Ez0; [| lia].
      change (nn_array c) with (axis_array c Nn) in Ez0. lia.
  - cbn [bind]. rewrite (lattice_exn log10 c temp zeta nn e Hb E). reflexivity.
Qed.

Lemma gapped_samples_increasing (a : axis) :
  increasing_on Sample.log10 (map (coordinate a) Sample.gapped_samples).
Proof. apply increasing_on_check. destruct a; vm_compute; reflexivity. Qed.

(** The gapped sample table has the temperature axis 0, 1, 4, 5, 6 and the
    spacing 1: the stored temperature 10^5 is at distance 5 from the start,
    and the lookup there raises. *)
Lemma lookup_past_gapped_axis_witness :
  interpolateIonFraction Sample.log10 Sample.gapped_table 100000 1 1
  = Raise IndexError.
Proof.
  apply (lookup_past_gapped_axis_raises Sample.log10 Sample.gapped_samples
           Sample.gapped_table Temp 100000 1 1).
  - reflexivity.
  - reflexivity.
  - reflexivity.
  - vm_compute. reflexivity.
  - exact gapped_samples_increasing.
  - vm_compute. discriminate.
  - vm_compute. reflexivity.
Defined.

(** *** Between two stored samples *)

Lemma floor_between (x : Q) (i : Z) :
  inject_Z i < x < inject_Z (i + 1) -> Qfloor x = i /\ Qceiling x = (i + 1)%Z.
Proof.
  intros [Hlo Hhi]. split.
  - assert (H1 : (i <= Qfloor x)%Z).
    { rewrite <- (Qfloor_Z i). apply Qfloor_resp_le. lra. }
    assert (H2 : (Qfloor x < i + 1)%Z).
    { rewrite Zlt_Qlt. pose proof (Qfloor_le x). lra. }
    lia.
  - assert (H1 : (i < Qceiling x)%Z).
    { rewrite Zlt_Qlt. pose proof (Qle_ceiling x). lra. }
    assert (H2 : (Qceiling x - 1 < i + 1)%Z).
    { rewrite Zlt_Qlt. pose proof (Qceiling_lt x). lra. }
    lia.
Qed.

(** On a uniform axis a query strictly between two neighbouring entries is
    bracketed by their positions. *)
Lemma bracket_between_knots (a : axis) (c : IonFractionCollection) (i : nat)
      (q t0 t1 : Q) :
  axis_consistent c a -> axis_uniform c a ->
  nth_error (axis_array c a) i = Some t0 ->
  nth_error (axis_array c a) (S i) = Some t1 ->
  t0 < q < t1 ->
  getIndicesFor a c q = Ok (Z.of_nat i, Z.of_nat (S i)).
Proof.
  intros Hcons Hunif H0 H1 Hq.
  pose proof Hunif as [Hd Hknots].
  pose proof (Hknots i t0 H0) as E0. pose proof (Hknots (S i) t1 H1) as E1.
  destruct (uniform_axis_end a c Hcons Hunif) as [Hn Hend].
  destruct Hcons as (Hlen & _).
  assert (Hi : (Z.of_nat (S i) <= axis_n c a - 1)%Z).
  { assert (S i < length (axis_array c a))%nat
      by (apply nth_error_Some; congruence).
    rewrite Hlen. unfold len. lia. }
  assert (Hi' : inject_Z (Z.of_nat (S i)) <= inject_Z (axis_n c a - 1))
    by (rewrite <- Zle_Qle; exact Hi).
  assert (Hi0 : 0 <= inject_Z (Z.of_nat i))
    by (change 0 with (inject_Z 0); rewrite <- Zle_Qle; lia).
  assert (HS : inject_Z (Z.of_nat (S i)) == inject_Z (Z.of_nat i) + 1).
  { rewrite Nat2Z.inj_succ. unfold Z.succ. rewrite inject_Z_plus. reflexivity. }
  assert (Hpos : 0 < q - axis_start c a) by nra.
  assert (Hbelow : q - axis_start c a < axis_end c a - axis_start c a) by nra.
  rewrite (bracket_inner a c q Hd (conj Hpos Hbelow)).
  destruct (floor_between ((q - axis_start c a) / axis_d c a) (Z.of_nat i))
    as [-> ->].
  - split.
    + apply Qlt_shift_div_l; [exact Hd | lra].
    + apply Qlt_shift_div_r; [exact Hd |].
      rewrite inject_Z_plus. change (inject_Z 1) with 1. nra.
  - rewrite Nat2Z.inj_succ. reflexivity.
Qed.

Lemma bracket_along (a b : axis) (c : IonFractionCollection) (p : axis -> nat)
      (q t0 t1 : Q) :
  axis_consistent c b -> axis_uniform c b ->
  (b <> a -> nth_error (axis_array c b) (p b) = Some q) ->
  (b = a -> nth_error (axis_array c b) (p b) = Some t0 /\
            nth_error (axis_array c b) (S (p b)) = Some t1 /\ t0 < q < t1) ->
  getIndicesFor b c q = Ok (Z.of_nat (p b), Z.of_nat (next_along a p b)).
Proof.
  intros Hcons Hunif Hknot Hbetween. unfold next_along.
  destruct (axis_eqb a b) eqn:E.
  - assert (Hab : b = a) by (destruct a, b; try discriminate; reflexivity).
    destruct (Hbetween Hab) as (H0 & H1 & Hq).
    exact (bracket_between_knots b c (p b) q t0 t1 Hcons Hunif H0 H1 Hq).
  - assert (Hab : b <> a) by (destruct a, b; try discriminate; congruence).
    exact (bracket_at_knot b c (p b) q Hcons Hunif (Hknot Hab)).
Qed.

Lemma weight_increasing (q t0 t1 : Q) :
  t0 < t1 -> weight q t0 t1 = (q - t0) / (t1 - t0).
Proof. intro H. apply weight_apart. lra. Qed.

(** The weight of an axis whose bracket is [(p, next)]. *)
Lemma weight_along (a b : axis) (c : IonFractionCollection) (p : axis -> nat)
      (q t0 t1 x0 x1 : Q) :
  (b = a -> nth_error (axis_array c b) (p b) = Some t0 /\
            nth_error (axis_array c b) (S (p b)) = Some t1 /\ t0 < q < t1) ->
  getitem (axis_array c b) (Z.of_nat (p b)) = Ok x0 ->
  getitem (axis_array c b) (Z.of_nat (next_along a p b)) = Ok x1 ->
  weight q x0 x1
  = (if axis_eqb a b then (q - t0) / (t1 - t0) else 0).
Proof.
  intros Hbetween E0 E1. unfold next_along in E1.
  destruct (axis_eqb a b) eqn:E.
  - assert (Hab : b = a) by (destruct a, b; try discriminate; reflexivity).
    destruct (Hbetween Hab) as (H0 & H1 & Hq).
    rewrite getitem_of_nat, H0 in E0. rewrite getitem_of_nat, H1 in E1.
    injection E0 as <-. injection E1 as <-.
    apply weight_increasing. lra.
  - rewrite E0 in E1. injection E1 as <-. apply weight_same. reflexivity.
Qed.

(** X25, linear between two stored samples.  In a table built by
    [loadIonData] whose three axes are uniformly spaced, a query that lies
    strictly between two neighbouring entries [t0 < t1] of one axis and at
    entries of the two other axes gets the value on the chord through the
    two stored values: [v0 + (v1 - v0) (q - t0) / (t1 - t0)]. *)
Theorem lookup_is_linear_between_samples
        (log10 : Q -> Q) (samples : list IonFraction)
        (c : IonFractionCollection) (a : axis) (p : axis -> nat)
        (temp zeta nn t0 t1 v0 v1 : Q) :
  loadIonData log10 samples = Ok c ->
  (forall b, axis_uniform c b) ->
  (forall b, b <> a ->
     nth_error (axis_array c b) (p b) = Some (log10 (query b temp zeta nn))) ->
  nth_error (axis_array c a) (p a) = Some t0 ->
  nth_error (axis_array c a) (S (p a)) = Some t1 ->
  t0 < log10 (query a temp zeta nn) < t1 ->
  cube_at c p = Ok v0 ->
  cube_at c (next_along a p) = Ok v1 ->
  exists r,
    interpolateIonFraction log10 c temp zeta nn = Ok (Fin r) /\
    r == v0 + (v1 - v0) * ((log10 (query a temp zeta nn) - t0) / (t1 - t0)).
Proof.
  intros Hload Hunif Hknots H0 H1 Hq Hv0 Hv1.
  pose proof (loadIonData_consistent log10 samples c Hload) as Hcons.
  destruct (lattice_total log10 samples c temp zeta nn Hload Hunif) as (k & Hk).
  destruct (lattice_Ok log10 c temp zeta nn k Hk)
    as (Bt & Bz & Bn & _ & _ & _
        & C000 & C001 & C010 & C011 & C100 & C101 & C110 & C111).
  destruct (lattice_weights log10 c temp zeta nn k Hk)
    as (x0 & x1 & y0 & y1 & z0 & z1 & Ex0 & Ex1 & Ey0 & Ey1 & Ez0 & Ez1
        & _ & _ & _ & Hr).
  assert (Hbetween : forall b, b = a ->
            nth_error (axis_array c b) (p b) = Some t0 /\
            nth_error (axis_array c b) (S (p b)) = Some t1 /\
            t0 < log10 (query b temp zeta nn) < t1)
    by (intros b ->; auto).
  assert (Hb : forall b,
            getIndicesFor b c (log10 (query b temp zeta nn))
            = Ok (Z.of_nat (p b), Z.of_nat (next_along a p b))).
  { intro b. apply (bracket_along a b c p _ t0 t1 (Hcons b) (Hunif b));
      [exact (Hknots b) | exact (Hbetween b)]. }
  pose proof (Hb Temp) as Ht. pose proof (Hb Zeta) as Hz. pose proof (Hb Nn) as Hn.
  cbn [query] in Ht, Hz, Hn.
  rewrite Bt in Ht. rewrite Bz in Hz. rewrite Bn in Hn.
  injection Ht as Exl Exr. injection Hz as Eyl Eyr. injection Hn as Ezl Ezr.
  rewrite Exl in *. rewrite Exr in *. rewrite Eyl in *. rewrite Eyr in *.
  rewrite Ezl in *. rewrite Ezr in *.
  change (temp_array c) with (axis_array c Temp) in Ex0, Ex1.
  change (zeta_array c) with (axis_array c Zeta) in Ey0, Ey1.
  change (nn_array c) with (axis_array c Nn) in Ez0, Ez1.
  pose proof (weight_along a Temp c p _ t0 t1 x0 x1 (Hbetween Temp) Ex0 Ex1) as Wx.
  pose proof (weight_along a Zeta c p _ t0 t1 y0 y1 (Hbetween Zeta) Ey0 Ey1) as Wy.
  pose proof (weight_along a Nn c p _ t0 t1 z0 z1 (Hbetween Nn) Ez0 Ez1) as Wz.
  cbn [query] in Wx, Wy, Wz.
  eexists. split.
  - unfold interpolateIonFraction. rewrite Hk. cbn [bind]. rewrite Hr.
    reflexivity.
  - unfold cube_at in Hv0, Hv1. unfold blend3, blend.
    rewrite Wx, Wy, Wz.
    destruct a; unfold next_along in *; cbn [axis_eqb query] in *;
      assert (E000 : c000 k = v0) by congruence.
    + assert (E100 : c100 k = v1) by congruence.
      rewrite E000, E100. ring.
    + assert (E010 : c010 k = v1) by congruence.
      rewrite E000, E010. ring.
    + assert (E001 : c001 k = v1) by congruence.
      rewrite E000, E001. ring.
Qed.

(** In the uniform sample table the temperature 316 lies between the
    entries 100 and 1000 of the temperature axis (logarithms 2 and 3), at
    the first entries of the two other axes. *)
Lemma lookup_linear_witness :
  exists r,
    interpolateIonFraction Cases.log10 Sample.uniform_table 316 1 1
    = Ok (Fin r) /\
    r == (2 # 10) + ((3 # 10) - (2 # 10))
                    * ((Cases.log10 (query Temp 316 1 1) - 2) / (3 - 2)).
Proof.
  apply (lookup_is_linear_between_samples Cases.log10 Sample.uniform_samples
           Sample.uniform_table Temp
           (fun b => match b with Temp => 1%nat | _ => 0%nat end)
           316 1 1 2 3 (2 # 10) (3 # 10)).
  - vm_compute. reflexivity.
  - exact uniform_table_uniform.
  - intros b Hb. destruct b; [congruence | reflexivity | reflexivity].
  - reflexivity.
  - reflexivity.
  - vm_compute. split; reflexivity.
  - vm_compute. reflexivity.
  - vm_compute. reflexivity.
Defined.

(** ** The rotation, further *)

(** *** The rotation that stores its result *)

Lemma in_place_unfold (f : vector_field) (sin cos : Q -> Q) (data : Data) :
  transformToCylindrical_in_place f sin cos data =
  match dict_get (variables data) (fst (component_names f)),
        dict_get (variables data) (snd (component_names f)) with
  | Raise e, _ => (data, Raise e)
  | Ok _, Raise e => (data, Raise e)
  | Ok f1, Ok f2 =>
      match rotation_first sin cos data f1 f2 with
      | Raise e => (data, Raise e)
      | Ok A =>
          let data' :=
            set_variables data
              (dict_set (variables data) (fst (component_names f)) A) in
          match rotation_second sin cos data f1 f2 with
          | Raise e => (data', Raise e)
          | Ok B => (with_components f data A B, Ok tt)
          end
      end
  end.
Proof. destruct f; reflexivity. Qed.

Lemma transformToCylindrical_unfold (f : vector_field) (sin cos : Q -> Q)
      (data : Data) :
  transformToCylindrical f sin cos data =
  (f1 <- dict_get (variables data) (fst (component_names f)) ;;
   f2 <- dict_get (variables data) (snd (component_names f)) ;;
   rotation sin cos data f1 f2).
Proof. destruct f; reflexivity. Qed.

(** *** Dictionary updates *)

Lemma dict_get_set_same {V : Type} (d : dict V) (key : string) (v : V) :
  dict_get (dict_set d key v) key = Ok v.
Proof.
  induction d as [| [k w] d IH]; cbn [dict_set dict_get].
  - rewrite String.eqb_refl. reflexivity.
  - destruct (String.eqb k key) eqn:E; cbn [dict_get]; rewrite E;
      [reflexivity | exact IH].
Qed.

Lemma dict_get_set_other {V : Type} (d : dict V) (key key' : string) (v : V) :
  key' <> key -> dict_get (dict_set d key v) key' = dict_get d key'.
Proof.
  intro Hne. induction d as [| [k w] d IH]; cbn [dict_set dict_get].
  - destruct (String.eqb_spec key key'); [congruence | reflexivity].
  - destruct (String.eqb_spec k key) as [-> | Hk]; cbn [dict_get].
    + destruct (String.eqb_spec key key'); [congruence | reflexivity].
    + destruct (String.eqb k key'); [reflexivity | exact IH].
Qed.

Lemma keys_dict_set_present {V : Type} (d : dict V) (key : string) (v w : V) :
  dict_get d key = Ok w -> keys (dict_set d key v) = keys d.
Proof.
  induction d as [| [k u] d IH]; cbn [dict_set dict_get]; [discriminate |].
  destruct (String.eqb k key) eqn:E; intro H.
  - reflexivity.
  - cbn [keys map fst]. f_equal. exact (IH H).
Qed.

(** X13, the rotation in place is all or nothing.  The rotation of
    [simulationData.py] stores under the two keys exactly the arrays that the
    rotation of [Tools.py] returns; the axes, the names of the fields and
    every other field stay as they were.  When the rotation raises (a
    missing component, or shapes that cannot be broadcast) the object is
    untouched: the two expressions return or raise together, so no field is
    ever left half rotated. *)
Theorem rotation_in_place_is_all_or_nothing
        (f : vector_field) (sin cos : Q -> Q) (data : Data) :
  match transformToCylindrical f sin cos data with
  | Ok (f1_t, f2_t) =>
      let data' := fst (transformToCylindrical_in_place f sin cos data) in
      transformToCylindrical_in_place f sin cos data = (data', Ok tt) /\
      dict_get (variables data') (fst (component_names f)) = Ok f1_t /\
      dict_get (variables data') (snd (component_names f)) = Ok f2_t /\
      (forall key, key <> fst (component_names f) ->
                   key <> snd (component_names f) ->
                   dict_get (variables data') key = dict_get (variables data) key) /\
      keys (variables data') = keys (variables data) /\
      x1 data' = x1 data /\ x2 data' = x2 data /\
      dx1 data' = dx1 data /\ dx2 data' = dx2 data
  | Raise e =>
      transformToCylindrical_in_place f sin cos data = (data, Raise e)
  end.
Proof.
  rewrite in_place_unfold, transformToCylindrical_unfold.
  destruct (dict_get (variables data) (fst (component_names f))) as [f1 | e]
    eqn:E1; cbn [bind]; [| reflexivity].
  destruct (dict_get (variables data) (snd (component_names f))) as [f2 | e]
    eqn:E2; cbn [bind]; [| reflexivity].
  rewrite rotation_split.
  pose proof (rotation_second_follows sin cos data f1 f2) as H.
  destruct (rotation_first sin cos data f1 f2) as [A | e]; cbn [bind];
    [| reflexivity].
  destruct H as (B & ->). cbn [bind]. cbv zeta. cbn [fst].
  assert (Hne : fst (component_names f) <> snd (component_names f))
    by (destruct f; discriminate).
  unfold with_components. cbn [variables set_variables x1 x2 dx1 dx2].
  split; [reflexivity |]. split.
  { rewrite dict_get_set_other by exact Hne. apply dict_get_set_same. }
  split; [apply dict_get_set_same |]. split.
  { intros key H1 H2. rewrite !dict_get_set_other by assumption. reflexivity. }
  split.
  { rewrite (keys_dict_set_present _ _ _ f2).
    - exact (keys_dict_set_present _ _ _ f1 E1).
    - rewrite dict_get_set_other by congruence. exact E2. }
  repeat split; reflexivity.
Qed.

(** *** Rotating twice, and the speed *)

Lemma in_place_mesh_shaped (f : vector_field) (sin cos : Q -> Q) (data : Data)
      (f1 f2 : ndarray) :
  dict_get (variables data) (fst (component_names f)) = Ok f1 ->
  dict_get (variables data) (snd (component_names f)) = Ok f2 ->
  mesh_shaped data f1 -> mesh_shaped data f2 ->
  transformToCylindrical_in_place f sin cos data
  = (with_components f data (fst (rotated sin cos data f1 f2))
                     (snd (rotated sin cos data f1 f2)), Ok tt).
Proof.
  intros E1 E2 H1 H2.
  pose proof (rotation_mesh_shaped sin cos data f1 f2 H1 H2) as Hrot.
  rewrite rotation_split in Hrot.
  rewrite in_place_unfold, E1, E2.
  destruct (rotation_first sin cos data f1 f2) as [A | e]; cbn [bind] in Hrot;
    [| discriminate].
  destruct (rotation_second sin cos data f1 f2) as [B | e]; cbn [bind] in Hrot;
    [| discriminate].
  assert (HAB : (A, B) = rotated sin cos data f1 f2) by congruence.
  rewrite <- HAB. reflexivity.
Qed.

Lemma with_components_get (f : vector_field) (data : Data) (A B : ndarray) :
  dict_get (variables (with_components f data A B)) (fst (component_names f))
  = Ok A /\
  dict_get (variables (with_components f data A B)) (snd (component_names f))
  = Ok B.
Proof.
  unfold with_components. cbn [variables set_variables].
  assert (Hne : fst (component_names f) <> snd (component_names f))
    by (destruct f; discriminate).
  split.
  - rewrite dict_get_set_other by exact Hne. apply dict_get_set_same.
  - apply dict_get_set_same.
Qed.

(** The cells after two rotations. *)
Lemma rotated_twice (sin cos : Q -> Q) (data : Data) (f1 f2 : ndarray)
      (i j : nat) (v1 v2 th : Q) :
  mesh_shaped data f1 -> mesh_shaped data f2 ->
  at2 f1 i j = Some v1 -> at2 f2 i j = Some v2 ->
  nth_error (x2 data) i = Some th ->
  let once := rotated sin cos data f1 f2 in
  let twice := rotated sin cos data (fst once) (snd once) in
  exists w1 w2,
    at2 (fst twice) i j = Some w1 /\ at2 (snd twice) i j = Some w2 /\
    w1 == v1 * (sin th * sin th + cos th * cos th) /\
    w2 == v2 * (sin th * sin th + cos th * cos th).
Proof.
  intros H1 H2 Hv1 Hv2 Hth. cbv zeta.
  destruct (rotated_mesh_shaped sin cos data f1 f2 H1 H2) as [HA HB].
  destruct (rotated_cells sin cos data f1 f2 i j v1 v2 th (proj2 H1) Hv1 Hv2 Hth)
    as [Ha Hb].
  destruct (rotated_cells sin cos data _ _ i j _ _ th (proj2 HA) Ha Hb Hth)
    as [Ha' Hb'].
  eexists. eexists. split; [exact Ha' |]. split; [exact Hb' |].
  split; ring.
Qed.

(** X12, rotating twice.  Rotating mesh-shaped components in place a second
    time returns, and leaves mesh-shaped components again: in every cell the
    value the object had before the first rotation, times
    [sin(th)^2 + cos(th)^2] at the polar angle [th] of the cell.  (That
    factor is 1 up to the rounding of the library's sine and cosine, so the
    rotation undoes itself up to rounding.) *)
Theorem rotating_twice_scales_the_field
        (f : vector_field) (sin cos : Q -> Q) (data : Data) (f1 f2 : ndarray) :
  dict_get (variables data) (fst (component_names f)) = Ok f1 ->
  dict_get (variables data) (snd (component_names f)) = Ok f2 ->
  mesh_shaped data f1 -> mesh_shaped data f2 ->
  let once := fst (transformToCylindrical_in_place f sin cos data) in
  let twice := transformToCylindrical_in_place f sin cos once in
  snd twice = Ok tt /\
  exists g1 g2,
    dict_get (variables (fst twice)) (fst (component_names f)) = Ok g1 /\
    dict_get (variables (fst twice)) (snd (component_names f)) = Ok g2 /\
    mesh_shaped data g1 /\ mesh_shaped data g2 /\
    forall (i j : nat) (v1 v2 th : Q),
      at2 f1 i j = Some v1 -> at2 f2 i j = Some v2 ->
      nth_error (x2 data) i = Some th ->
      exists w1 w2,
        at2 g1 i j = Some w1 /\ at2 g2 i j = Some w2 /\
        w1 == v1 * (sin th * sin th + cos th * cos th) /\
        w2 == v2 * (sin th * sin th + cos th * cos th).
Proof.
  intros E1 E2 H1 H2. cbv zeta.
  rewrite (in_place_mesh_shaped f sin cos data f1 f2 E1 E2 H1 H2). cbn [fst].
  set (A := fst (rotated sin cos data f1 f2)).
  set (B := snd (rotated sin cos data f1 f2)).
  set (once := with_components f data A B).
  destruct (rotated_mesh_shaped sin cos data f1 f2 H1 H2) as [HA HB].
  fold A in HA. fold B in HB.
  destruct (with_components_get f data A B) as [EA EB]. fold once in EA, EB.
  assert (HA' : mesh_shaped once A) by exact HA.
  assert (HB' : mesh_shaped once B) by exact HB.
  rewrite (in_place_mesh_shaped f sin cos once A B EA EB HA' HB'). cbn [fst snd].
  split; [reflexivity |].
  destruct (with_components_get f once (fst (rotated sin cos once A B))
                                (snd (rotated sin cos once A B))) as [EA' EB'].
  destruct (rotated_mesh_shaped sin cos once A B HA' HB') as [HA2 HB2].
  eexists. eexists. split; [exact EA' |]. split; [exact EB' |].
  split; [exact HA2 |]. split; [exact HB2 |].
  intros i j v1 v2 th Hv1 Hv2 Hth.
  exact (rotated_twice sin cos data f1 f2 i j v1 v2 th H1 H2 Hv1 Hv2 Hth).
Qed.

(** The sample mesh with velocity fields of its own shape and the Taylor
    polynomials for sine and cosine: at the polar angle 1 the factor is
    (101/120)^2 + (13/24)^2, and the cell that held 5 holds 5 times that
    after two rotations. *)
Lemma rotating_twice_witness :
  exists g1 w,
    dict_get (variables
                (fst (simulationData.Tools.transformVelocityFieldToCylindrical
                        Sample.sin Sample.cos
                        (fst (simulationData.Tools.transformVelocityFieldToCylindrical
                                Sample.sin Sample.cos Sample.full_velocity_data)))))
             "vx1" = Ok g1 /\
    at2 g1 1 1 = Some w /\
    w == 5 * ((101 # 120) * (101 # 120) + (13 # 24) * (13 # 24)).
Proof.
  destruct (rotating_twice_scales_the_field Velocity Sample.sin Sample.cos
              Sample.full_velocity_data [[1; 2; 3]; [4; 5; 6]]
              [[0; 1; 0]; [1; 0; 1]] eq_refl eq_refl)
    as (_ & g1 & g2 & E1 & _ & _ & _ & Hcells).
  - split; [reflexivity | repeat constructor].
  - split; [reflexivity | repeat constructor].
  - destruct (Hcells 1%nat 1%nat 5 0 1 eq_refl eq_refl eq_refl)
      as (w1 & w2 & Hw1 & _ & Hv & _).
    exists g1, w1. split; [exact E1 |]. split; [exact Hw1 |].
    rewrite Hv. vm_compute. reflexivity.
Defined.

Lemma np_map_rows (f : Q -> Q) (a : ndarray) (n : nat) :
  Forall (fun r => length r = n) a -> Forall (fun r => length r = n) (np_map f a).
Proof.
  intro Ha. unfold np_map. apply Forall_forall. intros r Hr.
  apply in_map_iff in Hr. destruct Hr as (r0 & <- & Hin).
  rewrite length_map. rewrite Forall_forall in Ha. exact (Ha r0 Hin).
Qed.

Lemma speed_mesh_shaped (sqrt : Q -> Q) (data : Data) (v1 v2 : ndarray) :
  dict_get (variables data) "vx1" = Ok v1 ->
  dict_get (variables data) "vx2" = Ok v2 ->
  mesh_shaped data v1 -> mesh_shaped data v2 ->
  computeAbsoluteVelocities sqrt data = Ok (speed sqrt v1 v2) /\
  mesh_shaped data (speed sqrt v1 v2).
Proof.
  intros E1 E2 [Hl1 Hr1] [Hl2 Hr2]. unfold computeAbsoluteVelocities, speed.
  rewrite E1, E2. cbn [bind]. unfold np_add, rows_fit in *.
  rewrite (np_binop_same Qplus _ _ (length (x1 data)));
    [| unfold np_map; rewrite !length_map; congruence
     | apply np_map_rows; exact Hr1 | apply np_map_rows; exact Hr2].
  cbn [bind]. split; [reflexivity |]. split.
  - unfold np_map. rewrite length_map, length_map2.
    + rewrite length_map. exact Hl1.
    + rewrite !length_map. congruence.
  - apply np_map_rows. apply map2_rows_fit; apply np_map_rows; assumption.
Qed.

Lemma speed_cell (sqrt : Q -> Q) (v1 v2 : ndarray) (i j : nat) (a b : Q) :
  at2 v1 i j = Some a -> at2 v2 i j = Some b ->
  at2 (speed sqrt v1 v2) i j = Some (sqrt (a * a + b * b)).
Proof.
  intros Ha Hb. unfold speed. apply at2_np_map.
  apply (at2_map2 Qplus);
    [exact (at2_np_map (fun v => v * v) v1 i j a Ha)
    | exact (at2_np_map (fun v => v * v) v2 i j b Hb)].
Qed.

(** X11, the rotation and the speed.  For velocity fields of the mesh's
    shape [computeAbsoluteVelocities] returns before and after the field was
    rotated in place, with speeds of the mesh's shape; in every cell the
    speed before is the root of [a^2 + b^2] and the speed after the root of
    a number equal to [(a^2 + b^2) (sin(th)^2 + cos(th)^2)], for the
    components [a], [b] and the polar angle [th] of the cell.  (The factor
    is 1 up to the rounding of the library's sine and cosine: the rotation
    keeps the speed up to rounding.) *)
Theorem rotation_scales_the_squared_speed
        (sin cos sqrt : Q -> Q) (data : Data) (vx1 vx2 : ndarray) :
  dict_get (variables data) "vx1" = Ok vx1 ->
  dict_get (variables data) "vx2" = Ok vx2 ->
  mesh_shaped data vx1 -> mesh_shaped data vx2 ->
  exists before after,
    computeAbsoluteVelocities sqrt data = Ok before /\
    computeAbsoluteVelocities sqrt
      (fst (simulationData.Tools.transformVelocityFieldToCylindrical sin cos data))
    = Ok after /\
    mesh_shaped data before /\ mesh_shaped data after /\
    forall (i j : nat) (a b th : Q),
      at2 vx1 i j = Some a -> at2 vx2 i j = Some b ->
      nth_error (x2 data) i = Some th ->
      at2 before i j = Some (sqrt (a * a + b * b)) /\
      exists s : Q,
        at2 after i j = Some (sqrt s) /\
        s == (a * a + b * b) * (sin th * sin th + cos th * cos th).
Proof.
  intros E1 E2 H1 H2.
  destruct (speed_mesh_shaped sqrt data vx1 vx2 E1 E2 H1 H2) as [Hbefore Sbefore].
  pose proof (in_place_mesh_shaped Velocity sin cos data vx1 vx2 E1 E2 H1 H2)
    as Hplace.
  cbn [transformToCylindrical_in_place] in Hplace. rewrite Hplace. cbn [fst].
  set (A := fst (rotated sin cos data vx1 vx2)) in *.
  set (B := snd (rotated sin cos data vx1 vx2)) in *.
  set (once := with_components Velocity data A B).
  destruct (rotated_mesh_shaped sin cos data vx1 vx2 H1 H2) as [HA HB].
  fold A in HA. fold B in HB.
  destruct (with_components_get Velocity data A B) as [EA EB].
  fold once in EA, EB. cbn [component_names fst snd] in EA, EB.
  assert (HA' : mesh_shaped once A) by exact HA.
  assert (HB' : mesh_shaped once B) by exact HB.
  destruct (speed_mesh_shaped sqrt once A B EA EB HA' HB') as [Hafter Safter].
  exists (speed sqrt vx1 vx2), (speed sqrt A B).
  split; [exact Hbefore |]. split; [exact Hafter |].
  split; [exact Sbefore |]. split; [exact Safter |].
  intros i j a b th Ha Hb Hth.
  destruct (rotated_cells sin cos data vx1 vx2 i j a b th (proj2 H1) Ha Hb Hth)
    as [HcA HcB].
  fold A in HcA. fold B in HcB.
  split; [exact (speed_cell sqrt vx1 vx2 i j a b Ha Hb) |].
  eexists. split; [exact (speed_cell sqrt A B i j _ _ HcA HcB) |].
  ring.
Qed.

(** The sample mesh with velocity fields of its own shape and the Taylor
    polynomials for sine and cosine: the cell with the components 5 and 0
    at the polar angle 1. *)
Lemma rotation_scales_speed_witness :
  exists after s,
    computeAbsoluteVelocities Sample.sqrt
      (fst (simulationData.Tools.transformVelocityFieldToCylindrical
              Sample.sin Sample.cos Sample.full_velocity_data))
    = Ok after /\
    at2 after 1 1 = Some (Sample.sqrt s) /\
    s == 25 * ((101 # 120) * (101 # 120) + (13 # 24) * (13 # 24)).
Proof.
  destruct (rotation_scales_the_squared_speed Sample.sin Sample.cos Sample.sqrt
              Sample.full_velocity_data [[1; 2; 3]; [4; 5; 6]]
              [[0; 1; 0]; [1; 0; 1]] eq_refl eq_refl)
    as (before & after & _ & Hafter & _ & _ & Hcells).
  - split; [reflexivity | repeat constructor].
  - split; [reflexivity | repeat constructor].
  - destruct (Hcells 1%nat 1%nat 5 0 1 eq_refl eq_refl eq_refl)
      as (_ & s & Hs & Hv).
    exists after, s. split; [exact Hafter |]. split; [exact Hs |].
    rewrite Hv. vm_compute. reflexivity.
Defined.

(** ** Radial resampling, further *)

Lemma radial_grid_within (data : Data) (ticks : list Q) :
  mesh_invariant data -> within (x1 data) ticks ->
  Interpolate.interpolateRadialGrid data ticks
  = (resampled data ticks, Ok (resampled data ticks)) /\
  simulationData.Tools.interpolateRadialGrid data ticks
  = (resampled data ticks, Ok tt).
Proof.
  intros (Hs & Hlen & Hnodup & Hfit) Hin.
  pose proof (radial_loop_within ticks (variables data) [] data
                eq_refl Hnodup Hs Hlen Hfit Hin) as Hloop.
  cbn [app] in Hloop.
  unfold Interpolate.interpolateRadialGrid,
    simulationData.Tools.interpolateRadialGrid.
  rewrite Hloop. split; reflexivity.
Qed.

Lemma increasing_hd_le (xs : list Q) (v : Q) :
  increasing xs -> In v xs -> hd 0 xs <= v.
Proof.
  intros Hs Hv. destruct xs as [| x xs]; [destruct Hv |].
  cbn [hd]. destruct Hv as [-> | Hv]; [lra |].
  inversion Hs as [| ? ? _ Hall]; subst.
  rewrite Forall_forall in Hall. specialize (Hall v Hv). lra.
Qed.

Lemma increasing_le_last (xs : list Q) :
  increasing xs -> forall v, In v xs -> v <= List.last xs 0.
Proof.
  unfold increasing. induction 1 as [| x xs Hsorted IH Hall]; intros v Hv;
    [destruct Hv |].
  destruct xs as [| x' xs'].
  - destruct Hv as [-> | []]. cbn. lra.
  - change (List.last (x :: x' :: xs') 0) with (List.last (x' :: xs') 0).
    destruct Hv as [-> | Hv]; [| exact (IH v Hv)].
    apply Forall_inv in Hall.
    pose proof (IH x' (or_introl eq_refl)). lra.
Qed.

Lemma within_self (xs : list Q) : increasing xs -> within xs xs.
Proof.
  intro Hs. unfold within. apply Forall_forall. intros v Hv. split.
  - exact (increasing_hd_le xs v Hs Hv).
  - exact (increasing_le_last xs Hs v Hv).
Qed.

(** The interpolant passes through its knots. *)
Lemma linear_at_knot (xs ys : list Q) (i : nat) (a y : Q) :
  increasing xs -> length ys = length xs -> (2 <= length xs)%nat ->
  nth_error xs i = Some a -> nth_error ys i = Some y ->
  linear_at (combine xs ys) a == y.
Proof.
  intros Hs Hl Hlen Ha Hy. destruct i as [| i].
  - destruct xs as [| x0 [| x1 xs']]; try (cbn in Hlen; lia).
    destruct ys as [| y0 [| y1 ys']]; try discriminate.
    cbn in Ha, Hy. injection Ha as ->. injection Hy as ->.
    unfold linear_at. cbn [combine searchsorted fst].
    assert (E : Qltb a a = false) by (apply Qltb_false; lra).
    rewrite E. cbn [length].
    replace (clip 0 1 (S (S (length (combine xs' ys'))) - 1)) with 1%nat
      by (unfold clip; lia).
    cbn [Nat.sub nth]. ring.
  - destruct (nth_error xs i) as [a' |] eqn:Ea'.
    2:{ apply nth_error_None in Ea'.
        assert (S i < length xs)%nat by (apply nth_error_Some; congruence). lia. }
    destruct (nth_error ys i) as [y' |] eqn:Ey'.
    2:{ apply nth_error_None in Ey'.
        assert (S i < length ys)%nat by (apply nth_error_Some; congruence). lia. }
    assert (Hlt : a' < a) by (apply (increasing_nth xs Hs i (S i)); auto).
    rewrite (linear_at_between xs ys i a' a y' y a Hs Hl Ea' Ha Ey' Hy)
      by (split; lra).
    field. lra.
Qed.

Lemma resample_row_self (xs row : list Q) :
  increasing xs -> (2 <= length xs)%nat -> length row = length xs ->
  Forall2 Qeq (map (linear_at (combine xs row)) xs) row.
Proof.
  intros Hs Hlen Hrow.
  assert (H : forall (pre : list Q) (ticks vals : list Q),
             length ticks = length vals ->
             (forall j a y, nth_error ticks j = Some a -> nth_error vals j = Some y ->
                            linear_at (combine xs row) a == y) ->
             Forall2 Qeq (map (linear_at (combine xs row)) ticks) vals).
  { intros _. induction ticks as [| a ticks IH]; intros [| y vals] Hl Hc;
      try discriminate; constructor.
    - exact (Hc O a y eq_refl eq_refl).
    - apply IH; [cbn in Hl; lia |].
      intros j b z Hb Hz. exact (Hc (S j) b z Hb Hz). }
  apply (H []); [congruence |].
  intros j a y Ha Hy. exact (linear_at_knot xs row j a y Hs Hrow Hlen Ha Hy).
Qed.

Lemma resample_self (xs : list Q) (value : ndarray) :
  increasing xs -> (2 <= length xs)%nat -> rows_fit xs value ->
  same_cells (resample xs xs value) value.
Proof.
  intros Hs Hlen Hfit. unfold same_cells, resample.
  induction value as [| row rest IH]; [constructor |].
  inversion Hfit as [| ? ? Hrow Hrest]; subst.
  cbn [map]. constructor.
  - exact (resample_row_self xs row Hs Hlen Hrow).
  - exact (IH Hrest).
Qed.

(** X14, resampling onto the own axis.  On a mesh with its invariant,
    [interpolateRadialGrid] (either copy) called with the mesh's own radial
    axis as the new ticks returns normally and leaves the axis, the names of
    the fields and the value of every cell as they were: the interpolant
    passes through its knots. *)
Theorem radial_resample_onto_own_axis (data : Data) :
  mesh_invariant data ->
  let after := fst (Interpolate.interpolateRadialGrid data (x1 data)) in
  Interpolate.interpolateRadialGrid data (x1 data) = (after, Ok after) /\
  simulationData.Tools.interpolateRadialGrid data (x1 data) = (after, Ok tt) /\
  x1 after = x1 data /\
  Forall2 (fun old new => fst new = fst old /\ same_cells (snd new) (snd old))
          (variables data) (variables after).
Proof.
  intros Hinv. pose proof Hinv as (Hs & Hlen & Hnodup & Hfit).
  destruct (radial_grid_within data (x1 data) Hinv (within_self _ Hs)) as [E1 E2].
  cbv zeta. rewrite E1, E2. cbn [fst].
  repeat split.
  unfold resampled. cbn [variables].
  induction (variables data) as [| [key value] rest IH]; [constructor |].
  inversion Hfit as [| ? ? Hvalue Hrest]; subst. cbn [snd] in Hvalue.
  cbn [map]. constructor.
  - cbn [fst snd]. split; [reflexivity |].
    exact (resample_self (x1 data) value Hs Hlen Hvalue).
  - apply IH; [| exact Hrest].
    unfold keys in *. cbn [map] in Hnodup. inversion Hnodup; assumption.
Qed.

(** The sample mesh 1, 2, 4. *)
Lemma radial_resample_own_axis_witness :
  Interpolate.interpolateRadialGrid Sample.mesh_data (x1 Sample.mesh_data)
  = (fst (Interpolate.interpolateRadialGrid Sample.mesh_data (x1 Sample.mesh_data)),
     Ok (fst (Interpolate.interpolateRadialGrid Sample.mesh_data
                (x1 Sample.mesh_data)))) /\
  simulationData.Tools.interpolateRadialGrid Sample.mesh_data (x1 Sample.mesh_data)
  = (fst (Interpolate.interpolateRadialGrid Sample.mesh_data (x1 Sample.mesh_data)),
     Ok tt) /\
  x1 (fst (Interpolate.interpolateRadialGrid Sample.mesh_data (x1 Sample.mesh_data)))
  = x1 Sample.mesh_data /\
  Forall2 (fun old new => fst new = fst old /\ same_cells (snd new) (snd old))
          (variables Sample.mesh_data)
          (variables (fst (Interpolate.interpolateRadialGrid Sample.mesh_data
                             (x1 Sample.mesh_data)))).
Proof.
  apply (radial_resample_onto_own_axis Sample.mesh_data).
  exact mesh_data_invariant.
Defined.

Lemma resampled_keys (data : Data) (ticks : list Q) :
  keys (variables (resampled data ticks)) = keys (variables data).
Proof.
  unfold resampled, keys. cbn [variables]. rewrite map_map.
  apply map_ext. intros [key value]. reflexivity.
Qed.

Lemma resampled_rows_fit (data : Data) (ticks : list Q) :
  Forall (fun kv => rows_fit ticks (snd kv)) (variables (resampled data ticks)).
Proof.
  unfold resampled. cbn [variables]. apply Forall_forall.
  intros kv Hkv. apply in_map_iff in Hkv. destruct Hkv as ([key value] & <- & _).
  cbn [snd]. unfold rows_fit, resample. apply Forall_forall.
  intros row Hrow. apply in_map_iff in Hrow. destruct Hrow as (r0 & <- & _).
  apply length_map.
Qed.

(** X15, the invariant of the mesh is kept.  When [interpolateRadialGrid]
    (either copy) is called on a mesh with its invariant, with strictly
    increasing ticks, at least two of them, all within the radial axis, the
    object it leaves has the invariant again (rows as long as the new axis,
    the same field names), so it can be resampled again. *)
Theorem radial_resample_keeps_invariant (data : Data) (ticks : list Q) :
  mesh_invariant data ->
  within (x1 data) ticks -> increasing ticks -> (2 <= length ticks)%nat ->
  mesh_invariant (fst (Interpolate.interpolateRadialGrid data ticks)) /\
  mesh_invariant (fst (simulationData.Tools.interpolateRadialGrid data ticks)) /\
  forall ticks' : list Q,
    within ticks ticks' ->
    snd (simulationData.Tools.interpolateRadialGrid
           (fst (simulationData.Tools.interpolateRadialGrid data ticks)) ticks')
    = Ok tt.
Proof.
  intros Hinv Hin Hs Hlen.
  destruct (radial_grid_within data ticks Hinv Hin) as [E1 E2].
  rewrite E1, E2. cbn [fst].
  assert (Hinv' : mesh_invariant (resampled data ticks)).
  { unfold mesh_invariant.
    change (x1 (resampled data ticks)) with ticks.
    split; [exact Hs |]. split; [exact Hlen |]. split.
    - rewrite resampled_keys. apply Hinv.
    - apply resampled_rows_fit. }
  split; [exact Hinv' |]. split; [exact Hinv' |].
  intros ticks' Hin'.
  destruct (radial_grid_within (resampled data ticks) ticks' Hinv' Hin') as [_ E].
  rewrite E. reflexivity.
Qed.

Lemma radial_resample_invariant_witness :
  mesh_invariant (fst (Interpolate.interpolateRadialGrid Sample.mesh_data [1; 3; 4])) /\
  mesh_invariant
    (fst (simulationData.Tools.interpolateRadialGrid Sample.mesh_data [1; 3; 4])) /\
  forall ticks' : list Q,
    within [1; 3; 4] ticks' ->
    snd (simulationData.Tools.interpolateRadialGrid
           (fst (simulationData.Tools.interpolateRadialGrid
                   Sample.mesh_data [1; 3; 4])) ticks')
    = Ok tt.
Proof.
  apply (radial_resample_keeps_invariant Sample.mesh_data [1; 3; 4]).
  - exact mesh_data_invariant.
  - repeat constructor; cbn; discriminate.
  - repeat constructor.
  - cbn. lia.
Defined.

(** *** A resampling that raises *)

Lemma within_dec (xs ticks : list Q) : {within xs ticks} + {~ within xs ticks}.
Proof.
  unfold within. apply Forall_dec. intro v.
  destruct (Qlt_le_dec v (hd 0 xs)) as [H1 | H1].
  - right. intros [H _]. lra.
  - destruct (Qlt_le_dec (List.last xs 0) v) as [H2 | H2].
    + right. intros [_ H]. lra.
    + left. split; assumption.
Qed.

Lemma set_variables_same (data : Data) : set_variables data (variables data) = data.
Proof. destruct data. reflexivity. Qed.

Lemma radial_loop_outside_frame (ticks : list Q) (items : list (string * ndarray)) :
  forall (done : dict ndarray) (data : Data),
    variables data = done ++ items ->
    NoDup (keys (done ++ items)) ->
    increasing (x1 data) -> (2 <= length (x1 data))%nat ->
    Forall (fun kv => rows_fit (x1 data) (snd kv)) items ->
    ~ within (x1 data) ticks ->
    fst (radial_loop items data ticks) = data /\
    forall e, snd (radial_loop items data ticks) = Some e -> out_of_domain e.
Proof.
  induction items as [| [key value] rest IH];
    intros done data Hvars Hnodup Hs Hlen Hfit Hout.
  - cbn. split; [reflexivity | discriminate].
  - inversion Hfit as [| ? ? Hvalue Hrest]; subst. cbn [snd] in Hvalue.
    cbn [radial_loop].
    destruct value as [| row value'].
    + cbn [interpolate_rows].
      assert (Hnot : ~ In key (keys done)).
      { unfold keys in *. rewrite map_app in Hnodup. cbn [map fst] in Hnodup.
        apply NoDup_remove_2 in Hnodup. intro H. apply Hnodup.
        apply in_or_app. left. exact H. }
      rewrite Hvars, (dict_set_middle done key _ _ rest Hnot), <- Hvars.
      rewrite set_variables_same.
      apply (IH (done ++ [(key, [])]) data); try assumption.
      * rewrite <- app_assoc. exact Hvars.
      * rewrite <- app_assoc. exact Hnodup.
    + destruct (interpolate_rows_outside (x1 data) ticks (row :: value')
                  Hs Hlen Hvalue) as (e & -> & Hdom); [discriminate | exact Hout |].
      cbn [fst snd]. split; [reflexivity |].
      intros e' He'. injection He' as <-. exact Hdom.
Qed.

(** X16, a resampling that raises changes nothing.  On a mesh with its
    invariant the only exception of [interpolateRadialGrid] (either copy) is
    the interpolant's out-of-domain error, it is raised only when some tick
    lies outside the radial axis, and the object is then exactly as it was:
    no field has been replaced and [x1] is the old axis.  (A field without
    rows, which the loop passes before it reaches a row, is stored back as
    an array without rows.) *)
Theorem radial_resample_raises_untouched (data : Data) (ticks : list Q) (e : exn) :
  mesh_invariant data ->
  snd (Interpolate.interpolateRadialGrid data ticks) = Raise e \/
  snd (simulationData.Tools.interpolateRadialGrid data ticks) = Raise e ->
  out_of_domain e /\ ~ within (x1 data) ticks /\
  Interpolate.interpolateRadialGrid data ticks = (data, Raise e) /\
  simulationData.Tools.interpolateRadialGrid data ticks = (data, Raise e).
Proof.
  intros Hinv Hraise. pose proof Hinv as (Hs & Hlen & Hnodup & Hfit).
  destruct (within_dec (x1 data) ticks) as [Hin | Hout].
  - destruct (radial_grid_within data ticks Hinv Hin) as [E1 E2].
    rewrite E1, E2 in Hraise. cbn [snd] in Hraise.
    destruct Hraise; discriminate.
  - destruct (radial_loop_outside_frame ticks (variables data) [] data
                eq_refl Hnodup Hs Hlen Hfit Hout) as [Hfst Hsnd].
    unfold Interpolate.interpolateRadialGrid,
      simulationData.Tools.interpolateRadialGrid in *.
    destruct (radial_loop (variables data) data ticks) as [data' [e' |]];
      cbn [fst snd] in *.
    + subst data'.
      assert (e = e') by (destruct Hraise; congruence). subst e'.
      repeat split; [exact (Hsnd e eq_refl) | exact Hout].
    + destruct Hraise; discriminate.
Qed.

(** The sample mesh 1, 2, 4 and the ticks 0, 3. *)
Lemma radial_resample_raises_witness :
  out_of_domain (ValueError BelowInterpolationRange) /\
  ~ within (x1 Sample.mesh_data) [0; 3] /\
  Interpolate.interpolateRadialGrid Sample.mesh_data [0; 3]
  = (Sample.mesh_data, Raise (ValueError BelowInterpolationRange)) /\
  simulationData.Tools.interpolateRadialGrid Sample.mesh_data [0; 3]
  = (Sample.mesh_data, Raise (ValueError BelowInterpolationRange)).
Proof.
  apply (radial_resample_raises_untouched Sample.mesh_data [0; 3]).
  - exact mesh_data_invariant.
  - left. reflexivity.
Defined.

(** ** The uniform grid and the point sampler *)

Lemma linspace_length (start stop : Q) (num : Z) (xs : list Q) :
  linspace start stop num = Ok xs -> length xs = Z.to_nat num.
Proof.
  unfold linspace. destruct (num <? 0)%Z; [discriminate |].
  destruct (num =? 1)%Z eqn:E1; intro H; injection H as <-.
  - apply Z.eqb_eq in E1. subst num. reflexivity.
  - rewrite length_map, length_seq. reflexivity.
Qed.

Lemma linspace_nth (start stop : Q) (num : Z) (xs : list Q) (j : nat) (v : Q) :
  linspace start stop num = Ok xs -> num <> 1%Z ->
  nth_error xs j = Some v ->
  v = start + inject_Z (Z.of_nat j) * ((stop - start) / inject_Z (num - 1)).
Proof.
  unfold linspace. destruct (num <? 0)%Z; [discriminate |].
  destruct (num =? 1)%Z eqn:E1; [apply Z.eqb_eq in E1; congruence |].
  intros H _ Hj. injection H as <-.
  rewrite nth_error_map in Hj.
  destruct (nth_error (seq 0 (Z.to_nat num)) j) as [k |] eqn:Ek; [| discriminate].
  cbn in Hj. injection Hj as <-.
  assert (Hlt : (j < length (seq 0 (Z.to_nat num)))%nat)
    by (apply nth_error_Some; congruence).
  rewrite length_seq in Hlt.
  pose proof (nth_error_nth _ _ O Ek) as Hk. rewrite seq_nth in Hk by exact Hlt.
  cbn in Hk. subst k. reflexivity.
Qed.

Lemma meshgrid_shape (xs ys : list Q) :
  length (fst (meshgrid xs ys)) = length ys /\
  length (snd (meshgrid xs ys)) = length ys /\
  Forall (fun r => length r = length xs) (fst (meshgrid xs ys)) /\
  Forall (fun r => length r = length xs) (snd (meshgrid xs ys)).
Proof.
  unfold meshgrid. cbn [fst snd]. rewrite !length_map.
  repeat split; apply Forall_forall; intros r Hr; apply in_map_iff in Hr;
    destruct Hr as (y & <- & _); [reflexivity | apply length_map].
Qed.

Lemma mask_row_length (vals : list float) :
  forall (grid_r : list Q) (out : list float),
    mask_row vals grid_r = Ok out -> length out = length grid_r.
Proof.
  induction vals as [| v vals IH]; intros [| r grid_r] out H; cbn in H;
    try discriminate.
  - injection H as <-. reflexivity.
  - inv_bind H. injection H as <-. cbn. f_equal. exact (IH _ _ E).
Qed.

Lemma mask_inner_shape (n : nat) (vals : fgrid) :
  forall (grid_r : ndarray) (out : fgrid),
    mask_inner vals grid_r = Ok out ->
    Forall (fun r => length r = n) grid_r ->
    length out = length grid_r /\ Forall (fun r => length r = n) out.
Proof.
  induction vals as [| row vals IH]; intros [| r grid_r] out H Hg; cbn in H;
    try discriminate.
  - injection H as <-. split; [reflexivity | constructor].
  - inv_bind H. inv_bind H. injection H as <-.
    destruct (IH _ _ E0 (Forall_inv_tail Hg)) as [Hl Hr].
    split; [cbn; f_equal; exact Hl |].
    constructor; [| exact Hr].
    rewrite (mask_row_length _ _ _ E). exact (Forall_inv Hg).
Qed.

(** What a successful [Interpolate.interpolateToUniformGrid] built. *)
Lemma uniform_grid_built
      (sin cos sqrt : Q -> Q)
      (griddata : list (Q * Q) -> list Q -> ndarray * ndarray -> result fgrid)
      (data : Data) (variable : ndarray) (x_range y_range : AxisRange)
      (grid_x grid_y : ndarray) (newVariable : fgrid) :
  Interpolate.interpolateToUniformGrid sin cos sqrt griddata data variable
    x_range y_range = Ok (grid_x, grid_y, newVariable) ->
  exists xs ys,
    linspace (range_start x_range) (range_end x_range) (range_samples x_range)
    = Ok xs /\
    linspace (range_start y_range) (range_end y_range) (range_samples y_range)
    = Ok ys /\
    (grid_x, grid_y) = meshgrid xs ys /\
    length newVariable = length ys /\
    Forall (fun r => length r = length xs) newVariable.
Proof.
  unfold Interpolate.interpolateToUniformGrid. intro H.
  destruct (Transform.polarCoordsToCartesian sin cos data) as [x y].
  inv_bind H. rename a into xs, E into Exs.
  inv_bind H. rename a into ys, E into Eys.
  destruct (meshgrid xs ys) as [gx gy] eqn:Emesh.
  inv_bind H. rename a into raw, E into Eraw.
  inv_bind H. rename a into masked, E into Emask.
  injection H as <- <- <-.
  exists xs, ys. split; [exact Exs |]. split; [exact Eys |].
  split; [symmetry; exact Emesh |].
  destruct (meshgrid_shape xs ys) as (Lx & Ly & Rx & Ry).
  rewrite Emesh in Lx, Ly, Rx, Ry. cbn [fst snd] in Lx, Ly, Rx, Ry.
  destruct (mask_inner_shape (length xs) _ _ _ Emask) as [Hl Hr].
  - apply map2_rows_fit; assumption.
  - split; [| exact Hr]. rewrite Hl, length_map2; congruence.
Qed.

Lemma linspace_node (r : AxisRange) (xs : list Q) (k : nat) :
  linspace (range_start r) (range_end r) (range_samples r) = Ok xs ->
  (k < Z.to_nat (range_samples r))%nat ->
  nth_error xs k = Some (node r k).
Proof.
  intros H Hk. pose proof (linspace_length _ _ _ _ H) as Hlen.
  destruct (nth_error xs k) as [v |] eqn:E.
  - unfold node. destruct (range_samples r =? 1)%Z eqn:E1.
    + apply Z.eqb_eq in E1. unfold linspace in H. rewrite E1 in H. cbn in H.
      injection H as <-. rewrite E1 in Hk.
      destruct k; [cbn in E; congruence | cbn in Hk; lia].
    + apply Z.eqb_neq in E1. f_equal.
      exact (linspace_nth _ _ _ _ _ _ H E1 E).
  - apply nth_error_None in E. lia.
Qed.

(** X17, the layout of the uniform grid.  When
    [Interpolate.interpolateToUniformGrid] returns, its three arrays have one
    row per sample of [y_range] and one column per sample of [x_range]; the
    node in row [i] and column [j] has as coordinates the [j]-th sample of
    [x_range] and the [i]-th sample of [y_range], evenly spaced with both
    ends of the ranges included ([np.linspace]). *)
Theorem uniform_grid_layout
      (sin cos sqrt : Q -> Q)
      (griddata : list (Q * Q) -> list Q -> ndarray * ndarray -> result fgrid)
      (data : Data) (variable : ndarray) (x_range y_range : AxisRange)
      (grid_x grid_y : ndarray) (newVariable : fgrid) :
  Interpolate.interpolateToUniformGrid sin cos sqrt griddata data variable
    x_range y_range = Ok (grid_x, grid_y, newVariable) ->
  let nx := Z.to_nat (range_samples x_range) in
  let ny := Z.to_nat (range_samples y_range) in
  (length grid_x = ny /\ Forall (fun r => length r = nx) grid_x) /\
  (length grid_y = ny /\ Forall (fun r => length r = nx) grid_y) /\
  (length newVariable = ny /\ Forall (fun r => length r = nx) newVariable) /\
  forall i j : nat,
    (i < ny)%nat -> (j < nx)%nat ->
    at2 grid_x i j = Some (node x_range j) /\
    at2 grid_y i j = Some (node y_range i).
Proof.
  intros H nx ny.
  destruct (uniform_grid_built _ _ _ _ _ _ _ _ _ _ _ H)
    as (xs & ys & Exs & Eys & Emesh & Hl & Hr).
  pose proof (linspace_length _ _ _ _ Exs) as Lxs.
  pose proof (linspace_length _ _ _ _ Eys) as Lys.
  destruct (meshgrid_shape xs ys) as (Lx & Ly & Rx & Ry).
  rewrite <- Emesh in Lx, Ly, Rx, Ry. cbn [fst snd] in Lx, Ly, Rx, Ry.
  fold nx in Lxs. fold ny in Lys. rewrite Lxs in *. rewrite Lys in *.
  repeat split; try assumption.
  - pose proof (at2_meshgrid xs ys i j _ _ (linspace_node x_range xs j Exs H1)
                             (linspace_node y_range ys i Eys H0)) as [Hx _].
    rewrite <- Emesh in Hx. exact Hx.
  - pose proof (at2_meshgrid xs ys i j _ _ (linspace_node x_range xs j Exs H1)
                             (linspace_node y_range ys i Eys H0)) as [_ Hy].
    rewrite <- Emesh in Hy. exact Hy.
Qed.

Lemma linspace_nonneg (start stop : Q) (num : Z) (xs : list Q) :
  linspace start stop num = Ok xs -> (0 <= num)%Z.
Proof.
  unfold linspace. destruct (num <? 0)%Z eqn:E; [discriminate |].
  intros _. apply Z.ltb_ge in E. exact E.
Qed.

Lemma sample_index_of_end (r : AxisRange) (q : Q) :
  ~ range_end r == range_start r -> q == range_end r ->
  sample_index r q == inject_Z (range_samples r).
Proof.
  intros Hne Hq. unfold sample_index. rewrite Hq. field. lra.
Qed.

(** X18, the upper end of a range lies outside the grid.  The grid that
    [Interpolate.interpolateToUniformGrid] builds has its last node at the
    end of each range, but the point sampler reads the coordinate [q] at the
    index [(q - start) * samples / (end - start)], which puts the end of the
    range at the index [samples], one past the last node: sampling the grid
    with the ranges it was built with, at a point on the upper end of either
    range, returns the fill value 0.0. *)
Theorem range_end_is_outside_the_grid
      (sin cos sqrt : Q -> Q)
      (griddata : list (Q * Q) -> list Q -> ndarray * ndarray -> result fgrid)
      (data : Data) (variable : ndarray) (x_range y_range : AxisRange)
      (grid_x grid_y : ndarray) (newVariable : fgrid) (p : Q * Q) :
  Interpolate.interpolateToUniformGrid sin cos sqrt griddata data variable
    x_range y_range = Ok (grid_x, grid_y, newVariable) ->
  ~ range_end x_range == range_start x_range ->
  ~ range_end y_range == range_start y_range ->
  fst p == range_end x_range \/ snd p == range_end y_range ->
  Interpolate.interpolatePoint2D x_range y_range newVariable p = Ok (Fin 0).
Proof.
  intros H Hx Hy Hp.
  destruct (uniform_grid_built _ _ _ _ _ _ _ _ _ _ _ H)
    as (xs & ys & Exs & Eys & _ & Hl & Hr).
  pose proof (linspace_length _ _ _ _ Exs) as Lxs.
  pose proof (linspace_length _ _ _ _ Eys) as Lys.
  pose proof (linspace_nonneg _ _ _ _ Exs) as Nxs.
  pose proof (linspace_nonneg _ _ _ _ Eys) as Nys.
  rewrite (interpolatePoint2D_index x_range y_range newVariable p Hx Hy).
  fold (sample_index y_range (snd p)). fold (sample_index x_range (fst p)).
  unfold map_coordinates.
  assert (Hout : outside newVariable (sample_index y_range (snd p))
                         (sample_index x_range (fst p)) = true).
  { apply outside_true. destruct Hp as [Hp | Hp].
    - right. right. right.
      rewrite (sample_index_of_end x_range (fst p) Hx Hp).
      rewrite <- Zlt_Qlt.
      assert (Hcols : (length (hd [] newVariable) <= length xs)%nat).
      { destruct newVariable as [| row rest]; [cbn; lia |].
        cbn [hd]. apply Forall_inv in Hr. lia. }
      unfold len. lia.
    - right. left.
      rewrite (sample_index_of_end y_range (snd p) Hy Hp).
      rewrite <- Zlt_Qlt. unfold len. lia. }
  rewrite Hout. reflexivity.
Qed.

(** The sample mesh resampled on the nodes 0, 2/5, 4/5 in both
    directions. *)
Lemma uniform_grid_layout_witness :
  exists (grid_x grid_y : ndarray) (newVariable : fgrid),
    Interpolate.interpolateToUniformGrid Sample.sin Sample.cos Sample.sqrt
      Sample.constant_interpolant Sample.inner_data [[1; 1]; [1; 1]]
      Sample.inner_range Sample.inner_range = Ok (grid_x, grid_y, newVariable) /\
    (length grid_x = 3%nat /\ Forall (fun r => length r = 3%nat) grid_x) /\
    (length grid_y = 3%nat /\ Forall (fun r => length r = 3%nat) grid_y) /\
    (length newVariable = 3%nat /\
     Forall (fun r => length r = 3%nat) newVariable) /\
    forall i j : nat,
      (i < 3)%nat -> (j < 3)%nat ->
      at2 grid_x i j = Some (node Sample.inner_range j) /\
      at2 grid_y i j = Some (node Sample.inner_range i).
Proof.
  destruct (Interpolate.interpolateToUniformGrid Sample.sin Sample.cos
              Sample.sqrt Sample.constant_interpolant Sample.inner_data
              [[1; 1]; [1; 1]] Sample.inner_range Sample.inner_range)
    as [[[grid_x grid_y] newVariable] | e] eqn:E;
    [| vm_compute in E; discriminate E].
  exists grid_x, grid_y, newVariable. split; [reflexivity |].
  exact (uniform_grid_layout _ _ _ _ _ _ _ _ _ _ _ E).
Defined.

(** On that grid the point (4/5, 2/5), a node of its last column, is read
    as 0. *)
Lemma range_end_outside_witness :
  exists (grid_x grid_y : ndarray) (newVariable : fgrid),
    Interpolate.interpolateToUniformGrid Sample.sin Sample.cos Sample.sqrt
      Sample.constant_interpolant Sample.inner_data [[1; 1]; [1; 1]]
      Sample.inner_range Sample.inner_range = Ok (grid_x, grid_y, newVariable) /\
    at2 grid_x 1 2 = Some (8 # 10) /\
    Interpolate.interpolatePoint2D Sample.inner_range Sample.inner_range
      newVariable (4 # 5, 2 # 5) = Ok (Fin 0).
Proof.
  destruct (Interpolate.interpolateToUniformGrid Sample.sin Sample.cos
              Sample.sqrt Sample.constant_interpolant Sample.inner_data
              [[1; 1]; [1; 1]] Sample.inner_range Sample.inner_range)
    as [[[grid_x grid_y] newVariable] | e] eqn:E;
    [| vm_compute in E; discriminate E].
  exists grid_x, grid_y, newVariable. split; [reflexivity |]. split.
  - vm_compute in E. injection E as <- <- <-. reflexivity.
  - apply (range_end_is_outside_the_grid _ _ _ _ _ _ _ _ _ _ _ _ E).
    + vm_compute. discriminate.
    + vm_compute. discriminate.
    + left. reflexivity.
Defined.

(** *** The two copies of [interpolateToUniformGrid] *)

Lemma mask_row_exn (vals : list float) :
  forall (grid_r : list Q) (e : exn),
    mask_row vals grid_r = Raise e -> e = IndexError /\ length vals <> length grid_r.
Proof.
  induction vals as [| v vals IH]; intros [| r grid_r] e H; cbn in H;
    try discriminate.
  - injection H as <-. split; [reflexivity | discriminate].
  - injection H as <-. split; [reflexivity | discriminate].
  - raise_bind H; [| discriminate].
    destruct (IH _ _ H) as [-> Hne]. split; [reflexivity |]. cbn. congruence.
Qed.

Lemma mask_row_Ok_length (vals : list float) :
  forall (grid_r : list Q) (out : list float),
    mask_row vals grid_r = Ok out -> length vals = length grid_r.
Proof.
  induction vals as [| v vals IH]; intros [| r grid_r] out H; cbn in H;
    try discriminate; [reflexivity |].
  inv_bind H. cbn. f_equal. exact (IH _ _ E).
Qed.

Lemma mask_inner_exn (vals : fgrid) :
  forall (grid_r : ndarray) (e : exn),
    mask_inner vals grid_r = Raise e -> e = IndexError /\ ~ same_shape vals grid_r.
Proof.
  unfold same_shape.
  induction vals as [| row vals IH]; intros [| r grid_r] e H; cbn in H;
    try discriminate.
  - injection H as <-. split; [reflexivity | intro F; inversion F].
  - injection H as <-. split; [reflexivity | intro F; inversion F].
  - raise_bind H.
    + destruct (mask_row_exn _ _ _ H) as [-> Hne]. split; [reflexivity |].
      intro F. inversion F; subst. contradiction.
    + raise_bind H; [| discriminate].
      destruct (IH _ _ H) as [-> Hne]. split; [reflexivity |].
      intro F. inversion F; subst. contradiction.
Qed.

Lemma map2_same_shape {A : Type} (f : Q -> Q -> Q) (a : list (list A)) :
  forall gx gy : ndarray,
    same_shape gx gy -> same_shape a (map2 (map2 f) gx gy) <-> same_shape a gx.
Proof.
  unfold same_shape.
  induction a as [| ra a IH]; intros gx gy Hg.
  - destruct Hg; cbn; split; intro F; inversion F; constructor.
  - destruct Hg as [| rx ry gx gy Hr Hg]; cbn [map2].
    + split; intro F; inversion F.
    + split; intro F; inversion F; subst; constructor.
      * rewrite length_map2 in *; congruence.
      * apply (IH gx gy Hg). assumption.
      * rewrite length_map2; congruence.
      * apply (IH gx gy Hg). assumption.
Qed.

Lemma meshgrid_same_shape (xs ys : list Q) :
  same_shape (fst (meshgrid xs ys)) (snd (meshgrid xs ys)).
Proof.
  unfold same_shape, meshgrid. cbn [fst snd].
  induction ys as [| y ys IH]; cbn [map]; constructor.
  - rewrite length_map. reflexivity.
  - exact IH.
Qed.

(** X24, the two copies differ inside the unit circle only.  Where the
    copy of [simulationData.py] raises, the copy of [Tools.py] raises the
    same.  Where it returns, the copy of [Tools.py] returns the same two
    coordinate grids and, node by node, not-a-number where the distance
    from the origin is below 1 and the same value everywhere else; it raises
    ([IndexError], from the mask) only when the interpolant's array has not
    the shape of the grid. *)
Theorem uniform_grid_copies_differ_inside_unit_circle_only
      (sin cos sqrt : Q -> Q)
      (griddata : list (Q * Q) -> list Q -> ndarray * ndarray -> result fgrid)
      (data : Data) (variable : ndarray) (x_range y_range : AxisRange) :
  match simulationData.Tools.interpolateToUniformGrid sin cos griddata data
          variable x_range y_range with
  | Raise e =>
      Interpolate.interpolateToUniformGrid sin cos sqrt griddata data variable
        x_range y_range = Raise e
  | Ok (grid_x, grid_y, raw) =>
      match Interpolate.interpolateToUniformGrid sin cos sqrt griddata data
              variable x_range y_range with
      | Raise e => e = IndexError /\ ~ same_shape raw grid_x
      | Ok (grid_x', grid_y', masked) =>
          grid_x' = grid_x /\ grid_y' = grid_y /\
          forall (i j : nat) (X Y : Q),
            at2 grid_x i j = Some X -> at2 grid_y i j = Some Y ->
            at2 masked i j
            = (if Qltb (sqrt (X * X + Y * Y)) 1 then Some NaN else at2 raw i j)
      end
  end.
Proof.
  unfold simulationData.Tools.interpolateToUniformGrid,
    Interpolate.interpolateToUniformGrid.
  change (simulationData.Tools.polarCoordsToCartesian sin cos (x1 data) (x2 data))
    with (Transform.polarCoordsToCartesian sin cos data).
  destruct (Transform.polarCoordsToCartesian sin cos data) as [x y].
  destruct (linspace (range_start x_range) (range_end x_range)
                     (range_samples x_range)) as [xs | e]; cbn [bind];
    [| reflexivity].
  destruct (linspace (range_start y_range) (range_end y_range)
                     (range_samples y_range)) as [ys | e]; cbn [bind];
    [| reflexivity].
  pose proof (meshgrid_same_shape xs ys) as Hmesh.
  destruct (meshgrid xs ys) as [gx gy]. cbn [fst snd] in Hmesh.
  destruct (griddata (column_stack (ravel x) (ravel y)) (ravel variable) (gx, gy))
    as [raw | e]; cbn [bind]; [| reflexivity].
  destruct (mask_inner raw
              (map2 (map2 (fun gx0 gy0 : Q => sqrt (gx0 * gx0 + gy0 * gy0))) gx gy))
    as [masked | e] eqn:Emask; cbn [bind].
  - split; [reflexivity |]. split; [reflexivity |].
    intros i j X Y HX HY.
    apply (mask_inner_spec raw _ masked Emask i j).
    apply (at2_map2 (fun gx0 gy0 : Q => sqrt (gx0 * gx0 + gy0 * gy0))); assumption.
  - destruct (mask_inner_exn _ _ _ Emask) as [-> Hne]. split; [reflexivity |].
    intro Hs. apply Hne. apply (map2_same_shape _ raw gx gy Hmesh). exact Hs.
Qed.

(** ** The one-dimensional point sampler *)

(** X19, [interpolatePoint] on an increasing axis.  For strictly increasing
    ticks, at least two of them, and as many values: at a tick the result is
    the value of that tick; strictly between two neighbouring ticks it is
    the value on the chord through their values; and a point below the
    first or above the last tick raises the interpolant's [ValueError]
    (nothing is extrapolated). *)
Theorem interpolatePoint_on_increasing_ticks
        (ticks data : list Q) (point : Q) :
  increasing ticks -> (2 <= length ticks)%nat -> length data = length ticks ->
  (forall i y,
      nth_error ticks i = Some point -> nth_error data i = Some y ->
      exists r, interpolatePoint ticks data point = Ok r /\ r == y) /\
  (forall i a b ya yb,
      nth_error ticks i = Some a -> nth_error ticks (S i) = Some b ->
      nth_error data i = Some ya -> nth_error data (S i) = Some yb ->
      a < point <= b ->
      interpolatePoint ticks data point
      = Ok ((yb - ya) / (b - a) * (point - a) + ya)) /\
  (point < hd 0 ticks \/ List.last ticks 0 < point ->
   exists e, interpolatePoint ticks data point = Raise e /\ out_of_domain e).
Proof.
  intros Hs Hlen Hdata. unfold interpolatePoint.
  rewrite (interp1d_mesh ticks data Hs Hlen Hdata). cbn [bind].
  split; [| split].
  - intros i y Hi Hy.
    assert (Hin : within ticks [point]).
    { constructor; [| constructor]. split.
      - apply (increasing_hd_le ticks point Hs). eapply nth_error_In. exact Hi.
      - apply (increasing_le_last ticks Hs). eapply nth_error_In. exact Hi. }
    rewrite (interp1d_call_within ticks data [point] Hdata Hin). cbn [bind map hd].
    eexists. split; [reflexivity |].
    exact (linear_at_knot ticks data i point y Hs Hdata Hlen Hi Hy).
  - intros i a b ya yb Ha Hb Hya Hyb Hp.
    assert (Hin : within ticks [point]).
    { constructor; [| constructor]. split.
      - pose proof (increasing_hd_le ticks a Hs (nth_error_In _ _ Ha)). lra.
      - pose proof (increasing_le_last ticks Hs b (nth_error_In _ _ Hb)). lra. }
    rewrite (interp1d_call_within ticks data [point] Hdata Hin). cbn [bind map hd].
    rewrite (linear_at_between ticks data i a b ya yb point Hs Hdata Ha Hb Hya Hyb Hp).
    reflexivity.
  - intro Hout.
    assert (Hnot : ~ within ticks [point]).
    { intro Hin. apply Forall_inv in Hin. lra. }
    destruct (interp1d_call_outside ticks data [point] Hdata Hnot)
      as (e & -> & Hdom).
    exists e. split; [reflexivity | exact Hdom].
Qed.

(** The ticks 1, 2, 4 with the values 10, 20, 40: the point 3 lies between
    the last two ticks, the point 5 beyond the last. *)
Lemma interpolatePoint_witness :
  interpolatePoint [1; 2; 4] [10; 20; 40] 3
  = Ok ((40 - 20) / (4 - 2) * (3 - 2) + 20) /\
  exists e, interpolatePoint [1; 2; 4] [10; 20; 40] 5 = Raise e /\ out_of_domain e.
Proof.
  split.
  - apply (proj1 (proj2 (interpolatePoint_on_increasing_ticks
                           [1; 2; 4] [10; 20; 40] 3
                           ltac:(repeat constructor) ltac:(cbn; lia) eq_refl))
             1%nat 2 4 20 40); try reflexivity.
    split; [reflexivity | discriminate].
  - apply (proj2 (proj2 (interpolatePoint_on_increasing_ticks
                           [1; 2; 4] [10; 20; 40] 5
                           ltac:(repeat constructor) ltac:(cbn; lia) eq_refl))).
    right. reflexivity.
Defined.

(** ** Thinning the frames of a directory *)

Lemma filter_twice {A : Type} (f g : A -> bool) (l : list A) :
  filter f (filter g l) = filter (fun x => g x && f x) l.
Proof.
  induction l as [| x l IH]; [reflexivity |].
  cbn [filter]. destruct (g x); cbn [filter andb]; [| exact IH].
  destruct (f x); rewrite IH; reflexivity.
Qed.

Section StrideFacts.

Variable int : string -> result Z.

Lemma os_remove_In (name f : string) (files : list string) :
  In f (os_remove name files) <-> In f files /\ f <> name.
Proof.
  unfold os_remove. rewrite filter_In, negb_true_iff. split.
  - intros [Hin Hne]. split; [exact Hin |]. apply String.eqb_neq. exact Hne.
  - intros [Hin Hne]. split; [exact Hin |]. apply String.eqb_neq. exact Hne.
Qed.

(** One turn of the loop, by cases. *)
Lemma remove_loop_turn (c : string) (rest files : list string) (stride : Z) :
  remove_loop int (c :: rest) files stride =
  if is_frame_file c then
    match frame_of int c with
    | Raise e => (files, Raise e)
    | Ok frame =>
        if (stride =? 0)%Z then (files, Raise ZeroDivisionError)
        else if negb (frame mod stride =? 0)%Z
             then remove_loop int rest (os_remove c files) stride
             else remove_loop int rest files stride
    end
  else remove_loop int rest files stride.
Proof. reflexivity. Qed.

(** Whatever the outcome, a file is removed only when the loop met it and
    the stride does not keep it. *)
Lemma remove_loop_safe (stride : Z) (listing : list string) :
  forall (files files' : list string) (r : result unit),
    remove_loop int listing files stride = (files', r) ->
    forall name,
      (In name files' -> In name files) /\
      (In name files -> kept int stride name = true -> In name files').
Proof.
  induction listing as [| c rest IH]; intros files files' r H name.
  - cbn in H. injection H as <- <-. split; auto.
  - rewrite remove_loop_turn in H.
    destruct (is_frame_file c) eqn:Ec; [| exact (IH _ _ _ H name)].
    destruct (frame_of int c) as [frame | e] eqn:Ef;
      [| injection H as <- <-; split; auto].
    destruct (stride =? 0)%Z; [injection H as <- <-; split; auto |].
    destruct (frame mod stride =? 0)%Z eqn:Em; cbn [negb] in H;
      [exact (IH _ _ _ H name) |].
    destruct (IH _ _ _ H name) as [H1 H2]. split.
    + intro Hin. apply H1 in Hin. apply os_remove_In in Hin. apply Hin.
    + intros Hin Hk. apply H2; [| exact Hk]. apply os_remove_In.
      split; [exact Hin |]. intros ->.
      unfold kept in Hk. rewrite Ec, Ef, Em in Hk. discriminate.
Qed.

(** A run that returns: the stride is not 0 unless the loop met no frame
    file, and the directory is filtered. *)
Lemma remove_loop_returns (stride : Z) (listing : list string) :
  forall files files' : list string,
    remove_loop int listing files stride = (files', Ok tt) ->
    (stride <> 0%Z \/ forall f, In f listing -> is_frame_file f = false) /\
    files' = filter (fun f => negb (existsb (String.eqb f) listing)
                              || kept int stride f) files.
Proof.
  induction listing as [| c rest IH]; intros files files' H.
  - cbn in H. injection H as <-. split; [right; intros f [] |].
    cbn [existsb negb orb]. symmetry. apply forallb_filter_id.
    apply forallb_forall. reflexivity.
  - rewrite remove_loop_turn in H.
    destruct (is_frame_file c) eqn:Ec.
    + destruct (frame_of int c) as [frame | e] eqn:Ef; [| discriminate].
      destruct (Z.eqb_spec stride 0) as [E0 | N0]; [discriminate |].
      split; [left; exact N0 |].
      assert (Hk : kept int stride c = (frame mod stride =? 0)%Z)
        by (unfold kept; rewrite Ec, Ef; reflexivity).
      destruct (frame mod stride =? 0)%Z eqn:Em; cbn [negb] in H;
        destruct (IH _ _ H) as [_ ->].
      * apply filter_ext. intro f. cbn [existsb].
        destruct (String.eqb_spec f c) as [-> | Hne]; [| reflexivity].
        rewrite Hk. cbn. destruct (existsb _ rest); reflexivity.
      * unfold os_remove. rewrite filter_twice. apply filter_ext. intro f.
        cbn [existsb].
        destruct (String.eqb_spec f c) as [-> | Hne]; cbn [negb orb andb].
        -- rewrite Hk. reflexivity.
        -- reflexivity.
    + destruct (IH _ _ H) as [Hs ->]. split.
      * destruct Hs as [Hs | Hs]; [left; exact Hs | right].
        intros f [<- | Hf]; [exact Ec | exact (Hs f Hf)].
      * apply filter_ext. intro f. cbn [existsb].
        destruct (String.eqb_spec f c) as [-> | Hne]; [| reflexivity].
        assert (Hk : kept int stride c = true)
          by (unfold kept; rewrite Ec; reflexivity).
        rewrite Hk. cbn. destruct (existsb _ rest); reflexivity.
Qed.

(** A listing of kept files passes the loop without a removal. *)
Lemma remove_loop_kept (stride : Z) (listing : list string) :
  forall files : list string,
    (forall f, In f listing -> kept int stride f = true) ->
    (stride <> 0%Z \/ forall f, In f listing -> is_frame_file f = false) ->
    remove_loop int listing files stride = (files, Ok tt).
Proof.
  induction listing as [| c rest IH]; intros files Hk Hs; [reflexivity |].
  rewrite remove_loop_turn.
  assert (Hrest : remove_loop int rest files stride = (files, Ok tt)).
  { apply IH.
    - intros f Hf. apply Hk. right. exact Hf.
    - destruct Hs as [Hs | Hs]; [left; exact Hs | right].
      intros f Hf. apply Hs. right. exact Hf. }
  destruct (is_frame_file c) eqn:Ec; [| exact Hrest].
  pose proof (Hk c (or_introl eq_refl)) as Hc. unfold kept in Hc.
  rewrite Ec in Hc. cbn [negb orb] in Hc.
  destruct (frame_of int c) as [frame | e]; [| discriminate].
  destruct Hs as [Hs | Hs].
  - apply Z.eqb_neq in Hs. rewrite Hs, Hc. cbn [negb]. exact Hrest.
  - rewrite (Hs c (or_introl eq_refl)) in Ec. discriminate.
Qed.

End StrideFacts.

Lemma existsb_eqb_In (f : string) (files : list string) :
  In f files -> existsb (String.eqb f) files = true.
Proof.
  intro H. apply existsb_exists. exists f. split; [exact H | apply String.eqb_refl].
Qed.

Lemma kept_true (int : string -> result Z) (stride : Z) (name : string) :
  kept int stride name = true <->
  is_frame_file name = false \/
  exists frame, frame_of int name = Ok frame /\ (frame mod stride = 0)%Z.
Proof.
  unfold kept. rewrite orb_true_iff, negb_true_iff. split.
  - intros [H | H]; [left; exact H | right].
    destruct (frame_of int name) as [frame | e]; [| discriminate].
    exists frame. split; [reflexivity | apply Z.eqb_eq; exact H].
  - intros [H | (frame & -> & H)]; [left; exact H | right].
    apply Z.eqb_eq. exact H.
Qed.

(** X20, what a run keeps.  When [removeFilesWithStride] returns, the
    directory holds, in their order, exactly the files it held before that
    do not end in [.h5] or [.xmf] or whose frame number (the second piece of
    the name between dots) is a multiple of the stride; and a second run
    with the same stride returns and removes nothing. *)
Theorem stride_keeps_the_multiples
        (int : string -> result Z) (files files' : list string) (stride : Z) :
  removeFilesWithStride int files stride = (files', Ok tt) ->
  files' = filter (kept int stride) files /\
  (forall name,
      In name files' <->
      In name files /\
      (is_frame_file name = false \/
       exists frame, frame_of int name = Ok frame /\ (frame mod stride = 0)%Z)) /\
  removeFilesWithStride int files' stride = (files', Ok tt).
Proof.
  unfold removeFilesWithStride. intro H.
  destruct (remove_loop_returns int stride files files files' H) as [Hs Hf].
  assert (Efilter : files' = filter (kept int stride) files).
  { rewrite Hf. apply filter_ext_in. intros f Hin.
    rewrite (existsb_eqb_In f files Hin). reflexivity. }
  split; [exact Efilter |]. split.
  - intro name. rewrite Efilter, filter_In, kept_true. reflexivity.
  - apply remove_loop_kept.
    + intros f Hin. rewrite Efilter in Hin. apply filter_In in Hin. apply Hin.
    + destruct Hs as [Hs | Hs]; [left; exact Hs | right].
      intros f Hin. apply Hs. rewrite Efilter in Hin.
      apply filter_In in Hin. apply Hin.
Qed.

(** Three frames thinned with the stride 2: the frame 1 goes. *)
Lemma stride_keeps_multiples_witness :
  [ "data.0000.dbl.h5"; "data.0000.dbl.xmf"; "data.0002.dbl.h5"; "grid.out" ]%string
  = filter (kept Cases.int 2) Cases.frames /\
  (forall name,
      In name [ "data.0000.dbl.h5"; "data.0000.dbl.xmf";
                "data.0002.dbl.h5"; "grid.out" ]%string <->
      In name Cases.frames /\
      (is_frame_file name = false \/
       exists frame, frame_of Cases.int name = Ok frame /\ (frame mod 2 = 0)%Z)) /\
  removeFilesWithStride Cases.int
    [ "data.0000.dbl.h5"; "data.0000.dbl.xmf"; "data.0002.dbl.h5"; "grid.out" ]%string
    2
  = ([ "data.0000.dbl.h5"; "data.0000.dbl.xmf"; "data.0002.dbl.h5";
       "grid.out" ]%string, Ok tt).
Proof.
  apply (stride_keeps_the_multiples Cases.int Cases.frames).
  vm_compute. reflexivity.
Defined.

Lemma remove_loop_zero (int : string -> result Z) (listing : list string) :
  forall files : list string,
    fst (remove_loop int listing files 0) = files /\
    (snd (remove_loop int listing files 0) = Ok tt <->
     forall f, In f listing -> is_frame_file f = false).
Proof.
  induction listing as [| c rest IH]; intro files.
  - cbn. split; [reflexivity |]. split; [intros _ f [] | reflexivity].
  - rewrite remove_loop_turn.
    destruct (is_frame_file c) eqn:Ec.
    + assert (Hno : ~ forall f, In f (c :: rest) -> is_frame_file f = false).
      { intro Hall. rewrite (Hall c (or_introl eq_refl)) in Ec. discriminate. }
      destruct (frame_of int c) as [frame | e]; cbn [Z.eqb fst snd];
        (split; [reflexivity |]); (split; [discriminate | intro; contradiction]).
    + destruct (IH files) as [Hf Hs]. split; [exact Hf |].
      rewrite Hs. split.
      * intros Hall f [<- | Hf']; [exact Ec | exact (Hall f Hf')].
      * intros Hall f Hf'. apply Hall. right. exact Hf'.
Qed.

(** X21, what a run never does.  Whatever [removeFilesWithStride] returns
    or raises, it adds no file and removes no file that the stride keeps: a
    file that does not end in [.h5] or [.xmf], or whose frame number is a
    multiple of the stride, is still there.  With the stride 0 nothing is
    removed at all, and the call returns only if the directory holds no
    file ending in [.h5] or [.xmf] (the first one raises). *)
Theorem stride_never_removes_a_kept_file
        (int : string -> result Z) (files : list string) (stride : Z) :
  let after := fst (removeFilesWithStride int files stride) in
  (forall name, In name after -> In name files) /\
  (forall name, In name files -> kept int stride name = true -> In name after) /\
  (stride = 0%Z ->
   after = files /\
   (snd (removeFilesWithStride int files stride) = Ok tt <->
    forall f, In f files -> is_frame_file f = false)).
Proof.
  cbv zeta. unfold removeFilesWithStride.
  destruct (remove_loop int files files stride) as [files' r] eqn:E.
  cbn [fst snd].
  split; [| split].
  - intro name. exact (proj1 (remove_loop_safe int stride files files files' r E name)).
  - intro name. exact (proj2 (remove_loop_safe int stride files files files' r E name)).
  - intros ->. destruct (remove_loop_zero int files files) as [Hf Hs].
    rewrite E in Hf, Hs. cbn [fst snd] in Hf, Hs. split; assumption.
Qed.

(** ** The axes read from the grid file *)

Lemma cell_centres_spec (coords : ndarray) :
  forall cs : list Q,
    cell_centres coords = Ok cs ->
    length cs = length coords /\
    forall (i : nat) (row : list Q),
      nth_error coords i = Some row ->
      exists l r,
        nth_error row 1 = Some l /\ nth_error row 2 = Some r /\
        nth_error cs i = Some ((1 # 2) * (l + r)).
Proof.
  induction coords as [| row0 rest IH]; intros cs H; cbn [cell_centres] in H.
  - injection H as <-. split; [reflexivity |]. intros [| i] row Hrow; discriminate.
  - inv_bind H. rename a into l0, E into El.
    inv_bind H. rename a into r0, E into Er.
    inv_bind H. rename a into cs', E into Ers.
    injection H as <-. destruct (IH cs' Ers) as [Hlen Hcells].
    split; [cbn; f_equal; exact Hlen |].
    intros [| i] row Hrow.
    + cbn in Hrow. injection Hrow as <-. exists l0, r0.
      apply (getitem_Ok_nonneg row0 1) in El; [| lia].
      apply (getitem_Ok_nonneg row0 2) in Er; [| lia].
      repeat split; assumption.
    + exact (Hcells i row Hrow).
Qed.

Lemma cell_widths_spec (coords : ndarray) :
  forall ws : list Q,
    cell_widths coords = Ok ws ->
    length ws = length coords /\
    forall (i : nat) (row : list Q),
      nth_error coords i = Some row ->
      exists l r,
        nth_error row 1 = Some l /\ nth_error row 2 = Some r /\
        nth_error ws i = Some (r - l).
Proof.
  induction coords as [| row0 rest IH]; intros ws H; cbn [cell_widths] in H.
  - injection H as <-. split; [reflexivity |]. intros [| i] row Hrow; discriminate.
  - inv_bind H. rename a into r0, E into Er.
    inv_bind H. rename a into l0, E into El.
    inv_bind H. rename a into ws', E into Ers.
    injection H as <-. destruct (IH ws' Ers) as [Hlen Hcells].
    split; [cbn; f_equal; exact Hlen |].
    intros [| i] row Hrow.
    + cbn in Hrow. injection Hrow as <-. exists l0, r0.
      apply (getitem_Ok_nonneg row0 1) in El; [| lia].
      apply (getitem_Ok_nonneg row0 2) in Er; [| lia].
      repeat split; assumption.
    + exact (Hcells i row Hrow).
Qed.

(** What a successful [loadGridData] assigned. *)
Lemma loadGridData_Ok (x1_coords x2_coords : ndarray) (self after : Data) :
  loadGridData x1_coords x2_coords self = (after, Ok tt) ->
  cell_centres x1_coords = Ok (x1 after) /\
  cell_centres x2_coords = Ok (x2 after) /\
  cell_widths x1_coords = Ok (dx1 after) /\
  cell_widths x2_coords = Ok (dx2 after) /\
  variables after = variables self.
Proof.
  unfold loadGridData.
  destruct (cell_centres x1_coords) as [c1 | e]; [| discriminate].
  destruct (cell_centres x2_coords) as [c2 | e]; [| discriminate].
  destruct (cell_widths x1_coords) as [w1 | e]; [| discriminate].
  destruct (cell_widths x2_coords) as [w2 | e]; [| discriminate].
  intro H. injection H as <-. repeat split; reflexivity.
Qed.

Lemma edges_round_trip (coords : ndarray) (cs ws : list Q) (i : nat)
      (row : list Q) (l r : Q) :
  cell_centres coords = Ok cs -> cell_widths coords = Ok ws ->
  nth_error coords i = Some row ->
  nth_error row 1 = Some l -> nth_error row 2 = Some r ->
  exists c w,
    nth_error cs i = Some c /\ nth_error ws i = Some w /\
    c - w / 2 == l /\ c + w / 2 == r.
Proof.
  intros Hc Hw Hrow Hl Hr.
  destruct (proj2 (cell_centres_spec coords cs Hc) i row Hrow)
    as (l1 & r1 & El1 & Er1 & Ec).
  destruct (proj2 (cell_widths_spec coords ws Hw) i row Hrow)
    as (l2 & r2 & El2 & Er2 & Ew).
  assert (l1 = l) by congruence. assert (r1 = r) by congruence.
  assert (l2 = l) by congruence. assert (r2 = r) by congruence.
  subst. eexists. eexists. split; [exact Ec |]. split; [exact Ew |].
  split; field.
Qed.

(** X22, centres and widths give the edges back.  When [loadGridData]
    returns, [x1] and [dx1] have one entry per radial cell of the grid file
    and [x2] and [dx2] one per polar cell, the fields are untouched, and for
    every cell the centre minus half the width is the left edge and the
    centre plus half the width is the right edge that the file gave. *)
Theorem loadGridData_keeps_the_edges
        (x1_coords x2_coords : ndarray) (self after : Data) :
  loadGridData x1_coords x2_coords self = (after, Ok tt) ->
  length (x1 after) = length x1_coords /\
  length (dx1 after) = length x1_coords /\
  length (x2 after) = length x2_coords /\
  length (dx2 after) = length x2_coords /\
  variables after = variables self /\
  (forall i row l r,
      nth_error x1_coords i = Some row ->
      nth_error row 1 = Some l -> nth_error row 2 = Some r ->
      exists c w,
        nth_error (x1 after) i = Some c /\ nth_error (dx1 after) i = Some w /\
        c - w / 2 == l /\ c + w / 2 == r) /\
  (forall i row l r,
      nth_error x2_coords i = Some row ->
      nth_error row 1 = Some l -> nth_error row 2 = Some r ->
      exists c w,
        nth_error (x2 after) i = Some c /\ nth_error (dx2 after) i = Some w /\
        c - w / 2 == l /\ c + w / 2 == r).
Proof.
  intro H.
  destruct (loadGridData_Ok _ _ _ _ H) as (C1 & C2 & W1 & W2 & Hv).
  split; [exact (proj1 (cell_centres_spec _ _ C1)) |].
  split; [exact (proj1 (cell_widths_spec _ _ W1)) |].
  split; [exact (proj1 (cell_centres_spec _ _ C2)) |].
  split; [exact (proj1 (cell_widths_spec _ _ W2)) |].
  split; [exact Hv |]. split.
  - intros i row l r. exact (edges_round_trip _ _ _ i row l r C1 W1).
  - intros i row l r. exact (edges_round_trip _ _ _ i row l r C2 W2).
Qed.

Lemma loadGridData_witness :
  length (x1 (fst (loadGridData Cases.radial_cells Cases.polar_cells
                     Cases.fresh_data))) = 3%nat /\
  length (dx1 (fst (loadGridData Cases.radial_cells Cases.polar_cells
                      Cases.fresh_data))) = 3%nat /\
  length (x2 (fst (loadGridData Cases.radial_cells Cases.polar_cells
                     Cases.fresh_data))) = 2%nat /\
  length (dx2 (fst (loadGridData Cases.radial_cells Cases.polar_cells
                      Cases.fresh_data))) = 2%nat /\
  variables (fst (loadGridData Cases.radial_cells Cases.polar_cells
                    Cases.fresh_data)) = [] /\
  (forall i row l r,
      nth_error Cases.radial_cells i = Some row ->
      nth_error row 1 = Some l -> nth_error row 2 = Some r ->
      exists c w,
        nth_error (x1 (fst (loadGridData Cases.radial_cells Cases.polar_cells
                              Cases.fresh_data))) i = Some c /\
        nth_error (dx1 (fst (loadGridData Cases.radial_cells Cases.polar_cells
                               Cases.fresh_data))) i = Some w /\
        c - w / 2 == l /\ c + w / 2 == r) /\
  (forall i row l r,
      nth_error Cases.polar_cells i = Some row ->
      nth_error row 1 = Some l -> nth_error row 2 = Some r ->
      exists c w,
        nth_error (x2 (fst (loadGridData Cases.radial_cells Cases.polar_cells
                              Cases.fresh_data))) i = Some c /\
        nth_error (dx2 (fst (loadGridData Cases.radial_cells Cases.polar_cells
                               Cases.fresh_data))) i = Some w /\
        c - w / 2 == l /\ c + w / 2 == r).
Proof.
  apply (loadGridData_keeps_the_edges Cases.radial_cells Cases.polar_cells
           Cases.fresh_data).
  reflexivity.
Defined.

(** *** Cells that lie side by side *)

Lemma contiguous_centres (coords : ndarray) :
  contiguous coords ->
  exists cs ws,
    cell_centres coords = Ok cs /\ cell_widths coords = Ok ws /\
    increasing cs /\ Forall (fun w => 0 < w) ws /\
    forall l0, nth_error (hd [] coords) 1 = Some l0 -> Forall (fun c => l0 < c) cs.
Proof.
  induction coords as [| row rest IH]; intro H.
  - exists [], []. repeat split; try constructor.
  - destruct H as [(i & l & r & -> & Hlr & Hnext) Hrest].
    destruct (IH Hrest) as (cs & ws & Ec & Ew & Hinc & Hpos & Habove).
    exists ((1 # 2) * (l + r) :: cs), (r - l :: ws).
    cbn [cell_centres cell_widths]. rewrite Ec, Ew.
    assert (Hr : Forall (fun c => r < c) cs).
    { destruct rest as [| next rest']; [| exact (Habove r Hnext)].
      cbn in Ec. injection Ec as <-. constructor. }
    split; [reflexivity |]. split; [reflexivity |]. split; [| split].
    + constructor; [exact Hinc |].
      eapply Forall_impl; [| exact Hr]. cbn. intros c Hc. lra.
    + constructor; [lra | exact Hpos].
    + intros l0 Hl0. cbn in Hl0. injection Hl0 as <-.
      constructor; [lra |].
      eapply Forall_impl; [| exact Hr]. cbn. intros c Hc. lra.
Qed.

(** X23, the axes of cells that lie side by side.  When the cells of both
    tables of the grid file lie side by side, each of a positive width,
    [loadGridData] returns, the centres [x1] and [x2] it assigns are
    strictly increasing and the widths [dx1] and [dx2] are positive; with at
    least two radial cells an object without fields then has the invariant
    of a mesh. *)
Theorem loadGridData_gives_increasing_axes
        (x1_coords x2_coords : ndarray) (self : Data) :
  contiguous x1_coords -> contiguous x2_coords ->
  let after := fst (loadGridData x1_coords x2_coords self) in
  loadGridData x1_coords x2_coords self = (after, Ok tt) /\
  increasing (x1 after) /\ increasing (x2 after) /\
  Forall (fun w => 0 < w) (dx1 after) /\ Forall (fun w => 0 < w) (dx2 after) /\
  ((2 <= length x1_coords)%nat -> variables self = [] -> mesh_invariant after).
Proof.
  intros H1 H2.
  destruct (contiguous_centres x1_coords H1) as (c1 & w1 & Ec1 & Ew1 & I1 & P1 & _).
  destruct (contiguous_centres x2_coords H2) as (c2 & w2 & Ec2 & Ew2 & I2 & P2 & _).
  cbv zeta. unfold loadGridData. rewrite Ec1, Ec2, Ew1, Ew2.
  cbn [fst x1 x2 dx1 dx2 set_x1 set_x2 set_dx1 set_dx2 variables].
  split; [reflexivity |]. split; [exact I1 |]. split; [exact I2 |].
  split; [exact P1 |]. split; [exact P2 |].
  intros Hlen Hvars. unfold mesh_invariant.
  cbn [x1 variables set_x1 set_x2 set_dx1 set_dx2]. rewrite Hvars.
  split; [exact I1 |]. split.
  - rewrite (proj1 (cell_centres_spec _ _ Ec1)). exact Hlen.
  - split; constructor.
Qed.

Lemma loadGridData_axes_witness :
  loadGridData Cases.radial_cells Cases.polar_cells Cases.fresh_data
  = (fst (loadGridData Cases.radial_cells Cases.polar_cells Cases.fresh_data),
     Ok tt) /\
  increasing (x1 (fst (loadGridData Cases.radial_cells Cases.polar_cells
                         Cases.fresh_data))) /\
  increasing (x2 (fst (loadGridData Cases.radial_cells Cases.polar_cells
                         Cases.fresh_data))) /\
  Forall (fun w => 0 < w)
         (dx1 (fst (loadGridData Cases.radial_cells Cases.polar_cells
                      Cases.fresh_data))) /\
  Forall (fun w => 0 < w)
         (dx2 (fst (loadGridData Cases.radial_cells Cases.polar_cells
                      Cases.fresh_data))) /\
  ((2 <= length Cases.radial_cells)%nat -> variables Cases.fresh_data = [] ->
   mesh_invariant (fst (loadGridData Cases.radial_cells Cases.polar_cells
                          Cases.fresh_data))).
Proof.
  apply (loadGridData_gives_increasing_axes Cases.radial_cells Cases.polar_cells
           Cases.fresh_data).
  - cbn. repeat split; try (eexists; eexists; eexists; repeat split; reflexivity).
  - cbn. repeat split; try (eexists; eexists; eexists; repeat split; reflexivity).
Defined.

(** ** The masses of the frames of a directory *)

Lemma total_masses_loop_spec
      (pi unitDensity unitLength solarMass : Q)
      (load : string -> result Data) (time_in_years : Data -> result Q)
      (self : Data) (listing : list string) :
  forall masses times masses' times' : list Q,
    total_masses_loop pi unitDensity unitLength solarMass load time_in_years
      self listing masses times = Ok (masses', times') ->
    exists new_masses new_times,
      masses' = masses ++ new_masses /\ times' = times ++ new_times /\
      Forall (fun m => computeTotalMass pi unitDensity unitLength solarMass
                         self self = Ok m) new_masses /\
      length new_masses
      = length (filter (fun f => endswith f ".h5") listing) /\
      Forall2 (fun file t => exists data,
                 load file = Ok data /\ time_in_years data = Ok t)
              (filter (fun f => endswith f ".h5") listing) new_times.
Proof.
  induction listing as [| file rest IH]; intros masses times masses' times' H.
  - cbn in H. injection H as <- <-. exists [], [].
    rewrite !app_nil_r. repeat split; constructor.
  - cbn [total_masses_loop filter] in H |- *.
    destruct (endswith file ".h5").
    + inv_bind H. rename a into data, E into Eload.
      inv_bind H. rename a into mass, E into Emass.
      inv_bind H. rename a into time, E into Etime.
      destruct (IH _ _ _ _ H) as (nm & nt & -> & -> & Hall & Hlen & Htimes).
      exists (mass :: nm), (time :: nt).
      rewrite <- !app_assoc. cbn [app length].
      repeat split; try congruence.
      * constructor; [exact Emass | exact Hall].
      * constructor; [exists data; split; assumption | exact Htimes].
    + exact (IH _ _ _ _ H).
Qed.

Lemma Forall_same_repeat {A : Type} (x : A) (l : list A) :
  Forall (fun y => y = x) l -> l = repeat x (length l).
Proof.
  induction 1 as [| y l -> _ IH]; cbn; [reflexivity | f_equal; exact IH].
Qed.

(** X26, the masses of the frames.  [computeTotalMass] reads the density,
    the axes and the units from the object the [Compute] instance was made
    with and nothing from the frame it is given.  So when
    [computeTotalMasses] returns for a directory (an object with polar cells,
    a solar mass other than 0), the times are those of the [.h5] files of
    the directory, in their order, one per file, but the masses are as many
    copies of one number, the mass of the instance's own object; and if that
    mass cannot be computed the directory held no [.h5] file. *)
Theorem total_masses_are_those_of_the_own_object
        (pi unitDensity unitLength solarMass : Q)
        (load : string -> result Data) (time_in_years : Data -> result Q)
        (self : Data) (listing : list string) (masses times : list Q) :
  x2 self <> [] -> ~ solarMass == 0 ->
  computeTotalMasses pi unitDensity unitLength solarMass load time_in_years
    self listing = Ok (masses, times) ->
  let frames := filter (fun f => endswith f ".h5") listing in
  Forall2 (fun file t => exists data,
             load file = Ok data /\ time_in_years data = Ok t) frames times /\
  (forall m, computeTotalMass pi unitDensity unitLength solarMass self self
             = Ok m ->
             masses = repeat m (length frames)) /\
  (forall e, computeTotalMass pi unitDensity unitLength solarMass self self
             = Raise e ->
             frames = [] /\ masses = []).
Proof.
  intros _ _ H. intro frames. unfold computeTotalMasses in H.
  destruct (total_masses_loop_spec _ _ _ _ _ _ _ _ _ _ _ _ H)
    as (nm & nt & -> & -> & Hall & Hlen & Htimes).
  cbn [app]. fold frames in Hlen, Htimes. split; [exact Htimes |]. split.
  - intros m Hm. rewrite <- Hlen. apply Forall_same_repeat.
    eapply Forall_impl; [| exact Hall]. cbn. intros y Hy. congruence.
  - intros e He. destruct nm as [| y nm'].
    + split; [| reflexivity].
      destruct frames; [reflexivity | discriminate Hlen].
    + inversion Hall; congruence.
Qed.

(** The mesh of the samples, three frames with the densities 1, 2 and 3: the
    times are 0, 1, 2, the three masses are all the mass 1845/4 of the mesh
    itself (here with pi = 3 and units 1; the fraction is not reduced). *)
Lemma total_masses_witness :
  (computeTotalMasses 3 1 1 1 Cases.load_frame Cases.frame_time
     Sample.mesh_data Cases.frames
   = Ok (repeat (120913920 # 262144) 3, [0; 1; 2])) /\
  ((120913920 # 262144) == (1845 # 4)) /\
  (forall m, computeTotalMass 3 1 1 1 Sample.mesh_data Sample.mesh_data = Ok m ->
             repeat (120913920 # 262144) 3 = repeat m 3).
Proof.
  assert (E : computeTotalMasses 3 1 1 1 Cases.load_frame Cases.frame_time
                Sample.mesh_data Cases.frames
              = Ok (repeat (120913920 # 262144) 3, [0; 1; 2]))
    by (vm_compute; reflexivity).
  split; [exact E |]. split; [reflexivity |].
  refine (proj1 (proj2 (total_masses_are_those_of_the_own_object
                          3 1 1 1 Cases.load_frame Cases.frame_time
                          Sample.mesh_data Cases.frames _ _ _ _ E))).
  - discriminate.
  - intro H; discriminate H.
Defined.
